(** * pdvzip: a PNG-ZIP polyglot builder

    Shallow embedding of [pdvzip.cpp] (PDVZIP v1.8) and proofs of the
    properties its specification states.

    Conventions of the embedding
    - a [Byte] ([unsigned char]) is a [Z] in [0, 256); a
      [std::vector<Byte>] and a [std::string] are a [list Z];
    - a [size_t] is a [Z] in [0, 2^64); every [size_t] addition and
      subtraction is wrapped by [size_t] (reduction modulo 2^64), while
      iterator arithmetic ([vec.begin() + i]) is plain and must stay
      inside the vector;
    - a run of the program either completes ([Done]), leaves through
      [std::exit(EXIT_FAILURE)] after printing a diagnostic ([Exit]), or
      executes an operation the C++ standard leaves undefined, such as
      [operator[]] outside the vector ([Undefined]). *)

From Stdlib Require Import ZArith Lia String Ascii.
From stdpp Require Import base list.

Open Scope Z_scope.

(** ** Diagnostics and outcomes *)

(** One constructor for each message the program prints before
    [std::exit(EXIT_FAILURE)], and one for the uncaught [std::out_of_range]
    that [std::string::substr] throws. *)
Inductive Diagnostic : Type :=
  | File_Type_Error_Invalid_Extension
  | Invalid_Input_Error_Characters
  | Read_File_Error_Image
  | Read_File_Error_Zip
  | File_Size_Error_Image_Too_Small
  | File_Size_Error_Zip_Too_Small
  | File_Size_Error_Combined_Exceeds_Limit
  | Image_File_Error_Not_PNG
  | Image_File_Error_IHDR_Bad_Char
  | Image_File_Error_Color_Type
  | Image_File_Error_Dimensions
  | Image_File_Error_First_IDAT_CRC
  | Image_File_Error_PLTE_Not_Found
  | ZIP_File_Error_Not_ZIP
  | ZIP_File_Error_Name_Too_Short
  | File_Size_Error_Script_Exceeds_Limit
  | File_Size_Error_Total_Exceeds_Limit
  | Write_File_Error
  | Terminate_Out_Of_Range.

Inductive outcome (A : Type) : Type :=
  | Done (a : A)
  | Exit (d : Diagnostic)
  | Undefined.

Arguments Done {A} a.
Arguments Exit {A} d.
Arguments Undefined {A}.

#[global] Instance outcome_bind : MBind outcome := fun A B k m =>
  match m with
  | Done a => k a
  | Exit d => Exit d
  | Undefined => Undefined
  end.

#[global] Instance outcome_ret : MRet outcome := fun A a => Done a.

(** ** Machine integers and vectors *)

Definition size_t (x : Z) : Z := x mod 2 ^ 64.

Definition vsize (vec : list Z) : Z := Z.of_nat (length vec).

(** [vec[i]] read: no bounds check in the source, undefined outside. *)
Definition vget (vec : list Z) (i : Z) : outcome Z :=
  if (0 <=? i) && (i <? vsize vec)
  then match vec !! Z.to_nat i with Some b => Done b | None => Undefined end
  else Undefined.

(** [vec[i] = b] *)
Definition vset (vec : list Z) (i : Z) (b : Z) : outcome (list Z) :=
  if (0 <=? i) && (i <? vsize vec)
  then Done (<[Z.to_nat i := b]> vec)
  else Undefined.

(** The iterator range [vec.begin() + i, vec.begin() + j). *)
Definition vrange (vec : list Z) (i j : Z) : outcome (list Z) :=
  if (0 <=? i) && (i <=? j) && (j <=? vsize vec)
  then Done (take (Z.to_nat (j - i)) (drop (Z.to_nat i) vec))
  else Undefined.

(** [vec.insert(vec.begin() + pos, l.begin(), l.end())] *)
Definition vinsert (vec : list Z) (pos : Z) (l : list Z) : outcome (list Z) :=
  if (0 <=? pos) && (pos <=? vsize vec)
  then Done (take (Z.to_nat pos) vec ++ l ++ drop (Z.to_nat pos) vec)
  else Undefined.

(** ** Value_Updater (source lines 753-765)

    [while (bits) vec[value_insert_index++] = (NEW_VALUE >> (bits -= 8)) & 0xff;]
    and the same with [value_insert_index--] when [big_endian] is false.  A
    width that is not a multiple of eight would shift by a negative count,
    which is undefined.  The loop runs at most [bits / 8] times. *)
Fixpoint Value_Updater_loop (fuel : nat) (vec : list Z) (value_insert_index : Z)
    (NEW_VALUE : Z) (bits : Z) (big_endian : bool) : outcome (list Z) :=
  if bits =? 0 then Done vec
  else
    match fuel with
    | O => Undefined
    | S fuel' =>
        let bits' := bits - 8 in
        if bits' <? 0 then Undefined
        else
          vec' ← vset vec value_insert_index
                    (Z.land (Z.shiftr NEW_VALUE bits') 0xff);
          Value_Updater_loop fuel' vec'
            (if big_endian then size_t (value_insert_index + 1)
             else size_t (value_insert_index - 1))
            NEW_VALUE bits' big_endian
    end.

Definition Value_Updater (vec : list Z) (value_insert_index : Z) (NEW_VALUE : Z)
    (bits : Z) (big_endian : bool) : outcome (list Z) :=
  Value_Updater_loop (Z.to_nat bits) vec value_insert_index NEW_VALUE bits big_endian.

(** A string literal of the source as its bytes. *)
Fixpoint str (s : string) : list Z :=
  match s with
  | EmptyString => []
  | String c s' => Z.of_N (N_of_ascii c) :: str s'
  end.

(** ** std::search

    [search_from hay needle] is the offset in [hay] of the first
    occurrence of [needle], and [length hay] when there is none. *)
Fixpoint starts_with (needle hay : list Z) : bool :=
  match needle, hay with
  | [], _ => true
  | _ :: _, [] => false
  | a :: needle', b :: hay' => (a =? b) && starts_with needle' hay'
  end.

Fixpoint search_from (hay needle : list Z) : nat :=
  match hay with
  | [] => O
  | _ :: hay' => if starts_with needle hay then O else S (search_from hay' needle)
  end.

(** [std::search(vec.begin() + from, vec.end(), sig.begin(), sig.end()) - vec.begin()] *)
Definition search (vec : list Z) (from : Z) (sig : list Z) : outcome Z :=
  if (0 <=? from) && (from <=? vsize vec)
  then Done (from + Z.of_nat (search_from (drop (Z.to_nat from) vec) sig))
  else Undefined.

(** ** CRC-32 (source lines 713-751) *)

Definition Crc_Table : list Z := [
    0x00; 0x77073096; 0xEE0E612C; 0x990951BA; 0x76DC419; 0x706AF48F;
    0xE963A535; 0x9E6495A3; 0xEDB8832; 0x79DCB8A4; 0xE0D5E91E; 0x97D2D988;
    0x9B64C2B; 0x7EB17CBD; 0xE7B82D07; 0x90BF1D91; 0x1DB71064; 0x6AB020F2;
    0xF3B97148; 0x84BE41DE; 0x1ADAD47D; 0x6DDDE4EB; 0xF4D4B551; 0x83D385C7;
    0x136C9856; 0x646BA8C0; 0xFD62F97A; 0x8A65C9EC; 0x14015C4F; 0x63066CD9;
    0xFA0F3D63; 0x8D080DF5; 0x3B6E20C8; 0x4C69105E; 0xD56041E4; 0xA2677172;
    0x3C03E4D1; 0x4B04D447; 0xD20D85FD; 0xA50AB56B; 0x35B5A8FA; 0x42B2986C;
    0xDBBBC9D6; 0xACBCF940; 0x32D86CE3; 0x45DF5C75; 0xDCD60DCF; 0xABD13D59;
    0x26D930AC; 0x51DE003A; 0xC8D75180; 0xBFD06116; 0x21B4F4B5; 0x56B3C423;
    0xCFBA9599; 0xB8BDA50F; 0x2802B89E; 0x5F058808; 0xC60CD9B2; 0xB10BE924;
    0x2F6F7C87; 0x58684C11; 0xC1611DAB; 0xB6662D3D; 0x76DC4190; 0x1DB7106;
    0x98D220BC; 0xEFD5102A; 0x71B18589; 0x6B6B51F; 0x9FBFE4A5; 0xE8B8D433;
    0x7807C9A2; 0xF00F934; 0x9609A88E; 0xE10E9818; 0x7F6A0DBB; 0x86D3D2D;
    0x91646C97; 0xE6635C01; 0x6B6B51F4; 0x1C6C6162; 0x856530D8; 0xF262004E;
    0x6C0695ED; 0x1B01A57B; 0x8208F4C1; 0xF50FC457; 0x65B0D9C6; 0x12B7E950;
    0x8BBEB8EA; 0xFCB9887C; 0x62DD1DDF; 0x15DA2D49; 0x8CD37CF3; 0xFBD44C65;
    0x4DB26158; 0x3AB551CE; 0xA3BC0074; 0xD4BB30E2; 0x4ADFA541; 0x3DD895D7;
    0xA4D1C46D; 0xD3D6F4FB; 0x4369E96A; 0x346ED9FC; 0xAD678846; 0xDA60B8D0;
    0x44042D73; 0x33031DE5; 0xAA0A4C5F; 0xDD0D7CC9; 0x5005713C; 0x270241AA;
    0xBE0B1010; 0xC90C2086; 0x5768B525; 0x206F85B3; 0xB966D409; 0xCE61E49F;
    0x5EDEF90E; 0x29D9C998; 0xB0D09822; 0xC7D7A8B4; 0x59B33D17; 0x2EB40D81;
    0xB7BD5C3B; 0xC0BA6CAD; 0xEDB88320; 0x9ABFB3B6; 0x3B6E20C; 0x74B1D29A;
    0xEAD54739; 0x9DD277AF; 0x4DB2615; 0x73DC1683; 0xE3630B12; 0x94643B84;
    0xD6D6A3E; 0x7A6A5AA8; 0xE40ECF0B; 0x9309FF9D; 0xA00AE27; 0x7D079EB1;
    0xF00F9344; 0x8708A3D2; 0x1E01F268; 0x6906C2FE; 0xF762575D; 0x806567CB;
    0x196C3671; 0x6E6B06E7; 0xFED41B76; 0x89D32BE0; 0x10DA7A5A; 0x67DD4ACC;
    0xF9B9DF6F; 0x8EBEEFF9; 0x17B7BE43; 0x60B08ED5; 0xD6D6A3E8; 0xA1D1937E;
    0x38D8C2C4; 0x4FDFF252; 0xD1BB67F1; 0xA6BC5767; 0x3FB506DD; 0x48B2364B;
    0xD80D2BDA; 0xAF0A1B4C; 0x36034AF6; 0x41047A60; 0xDF60EFC3; 0xA867DF55;
    0x316E8EEF; 0x4669BE79; 0xCB61B38C; 0xBC66831A; 0x256FD2A0; 0x5268E236;
    0xCC0C7795; 0xBB0B4703; 0x220216B9; 0x5505262F; 0xC5BA3BBE; 0xB2BD0B28;
    0x2BB45A92; 0x5CB36A04; 0xC2D7FFA7; 0xB5D0CF31; 0x2CD99E8B; 0x5BDEAE1D;
    0x9B64C2B0; 0xEC63F226; 0x756AA39C; 0x26D930A; 0x9C0906A9; 0xEB0E363F;
    0x72076785; 0x5005713; 0x95BF4A82; 0xE2B87A14; 0x7BB12BAE; 0xCB61B38;
    0x92D28E9B; 0xE5D5BE0D; 0x7CDCEFB7; 0xBDBDF21; 0x86D3D2D4; 0xF1D4E242;
    0x68DDB3F8; 0x1FDA836E; 0x81BE16CD; 0xF6B9265B; 0x6FB077E1; 0x18B74777;
    0x88085AE6; 0xFF0F6A70; 0x66063BCA; 0x11010B5C; 0x8F659EFF; 0xF862AE69;
    0x616BFFD3; 0x166CCF45; 0xA00AE278; 0xD70DD2EE; 0x4E048354; 0x3903B3C2;
    0xA7672661; 0xD06016F7; 0x4969474D; 0x3E6E77DB; 0xAED16A4A; 0xD9D65ADC;
    0x40DF0B66; 0x37D83BF0; 0xA9BCAE53; 0xDEBB9EC5; 0x47B2CF7F; 0x30B5FFE9;
    0xBDBDF21C; 0xCABAC28A; 0x53B39330; 0x24B4A3A6; 0xBAD03605; 0xCDD70693;
    0x54DE5729; 0x23D967BF; 0xB3667A2E; 0xC4614AB8; 0x5D681B02; 0x2A6F2B94;
    0xB40BBE37; 0xC30C8EA1; 0x5A05DF1B; 0x2D02EF8D ].

(** [c = Crc_Table[(c ^ buf[n]) & 0xff] ^ (c >> 8)] for [n = 0 .. len - 1].
    The source counts [n] in an [int] and compares it with the [size_t]
    length: for a length below 2^31 that loop is this recursion over the
    bytes.  A run never has a longer range inside one of its buffers,
    since [Open_Files] bounds the two files together by 209715200 bytes;
    ranges of 2^31 bytes and more are outside what [Crc_Update] and [Crc]
    describe. *)
Fixpoint Crc_Update (c : Z) (buf : list Z) : Z :=
  match buf with
  | [] => c
  | b :: buf' =>
      Crc_Update
        (Z.lxor (nth (Z.to_nat (Z.land (Z.lxor c b) 0xff)) Crc_Table 0) (Z.shiftr c 8))
        buf'
  end.

Definition Crc_bytes (buf : list Z) : Z :=
  Z.lxor (Crc_Update 0xffffffff buf) 0xffffffff.

(** [Crc(&vec[start], len)]: the bytes [vec[start .. start + len - 1]] must
    exist. *)
Definition Crc (vec : list Z) (start len : Z) : outcome Z :=
  _ ← vget vec start;
  buf ← vrange vec start (start + len);
  Done (Crc_bytes buf).

(** ** Program state and environment *)

Record PDV_STRUCT : Type := mkPDV {
  Image_Vec : list Z;
  Zip_Vec : list Z;
  Script_Vec : list Z;
  image_name : list Z;
  zip_name : list Z;
  image_size : Z;
  zip_size : Z;
  script_size : Z;
  combined_file_size : Z;
  big_endian : bool
}.

Definition MAX_FILE_SIZE : Z := 209715200.
Definition BAD_CHAR : list Z := [0x22; 0x27; 0x28; 0x29; 0x3B; 0x3E; 0x60].

(** [PDV_STRUCT pdv;] with the default member initialisers. *)
Definition pdv_init : PDV_STRUCT :=
  mkPDV [] [] [] [] [] 0 0 0 0 true.

(** What the program reads from outside: the two files named on the
    command line ([None] when the stream fails to open), the two lines
    [std::getline] takes from standard input when arguments are asked
    for, and whether the output file can be opened. *)
Record Environment : Type := mkEnv {
  image_file : option (list Z);
  zip_file : option (list Z);
  stdin_args_linux : list Z;
  stdin_args_windows : list Z;
  output_opens : bool
}.

(** How a run that does not fail ends. *)
Inductive Run : Type :=
  | Info_Displayed
  | Usage_Displayed
  | Polyglot_Written (file : list Z).

(** ** Argument validation in main (source lines 64-80) *)

Inductive regex : Type :=
  | Epsilon
  | Class (p : Z -> bool)
  | Cat (r1 r2 : regex)
  | Alt (r1 r2 : regex)
  | Star (r : regex)
  | Nothing.

Definition Plus (r : regex) : regex := Cat r (Star r).
Definition Opt (r : regex) : regex := Alt r Epsilon.

Fixpoint nullable (r : regex) : bool :=
  match r with
  | Epsilon => true
  | Class _ => false
  | Cat r1 r2 => nullable r1 && nullable r2
  | Alt r1 r2 => nullable r1 || nullable r2
  | Star _ => true
  | Nothing => false
  end.

Fixpoint deriv (c : Z) (r : regex) : regex :=
  match r with
  | Epsilon => Nothing
  | Class p => if p c then Epsilon else Nothing
  | Cat r1 r2 =>
      if nullable r1 then Alt (Cat (deriv c r1) r2) (deriv c r2)
      else Cat (deriv c r1) r2
  | Alt r1 r2 => Alt (deriv c r1) (deriv c r2)
  | Star r1 => Cat (deriv c r1) (Star r1)
  | Nothing => Nothing
  end.

(** [std::regex_match(s, r)]: the whole of [s] must match. *)
Fixpoint regex_match (s : list Z) (r : regex) : bool :=
  match s with
  | [] => nullable r
  | c :: s' => regex_match s' (deriv c r)
  end.

Definition in_range (lo hi c : Z) : bool := (lo <=? c) && (c <=? hi).

(** [\s]: the white-space characters of the classic locale. *)
Definition is_space (c : Z) : bool := in_range 9 13 c || (c =? 32).

(** [[a-zA-Z_0-9\.\\\s\-\/]] *)
Definition path_char (c : Z) : bool :=
  in_range 97 122 c || in_range 65 90 c || (c =? 95) || in_range 48 57 c
  || (c =? 46) || (c =? 92) || is_space c || (c =? 45) || (c =? 47).

(** [[a-zA-Z0-9]] *)
Definition alnum_char (c : Z) : bool :=
  in_range 97 122 c || in_range 65 90 c || in_range 48 57 c.

Definition dot_char (c : Z) : bool := c =? 46.

(** [(\.[a-zA-Z_0-9\.\\\s\-\/]+)?[a-zA-Z_0-9\.\\\s\-\/]+?(\.[a-zA-Z0-9]+)?]
    The lazy [+?] accepts the same strings as [+] under [regex_match]. *)
Definition REG_EXP : regex :=
  Cat (Opt (Cat (Class dot_char) (Plus (Class path_char))))
    (Cat (Plus (Class path_char))
       (Opt (Cat (Class dot_char) (Plus (Class alnum_char))))).

(** [name.length() > 2 ? name.substr(name.length() - 3) : name] *)
Definition get_ext (name : list Z) : list Z :=
  if vsize name >? 2 then drop (Z.to_nat (vsize name - 3)) name else name.

Definition validate_arguments (image_name zip_name : list Z) : option Diagnostic :=
  let GET_PNG_EXT := get_ext image_name in
  let GET_ZIP_EXT := get_ext zip_name in
  let bad_ext :=
    negb (bool_decide (GET_PNG_EXT = str "png"))
    || negb (bool_decide (GET_ZIP_EXT = str "zip")) in
  if bad_ext || negb (regex_match image_name REG_EXP)
     || negb (regex_match zip_name REG_EXP)
  then Some (if bad_ext then File_Type_Error_Invalid_Extension
             else Invalid_Input_Error_Characters)
  else None.

(** ** Open_Files (source lines 86-131) *)

Definition MIN_IMAGE_SIZE : Z := 68.
Definition MIN_ZIP_SIZE : Z := 40.

(** [file_size_check] of the source. *)
Definition file_size_check (image_size zip_size : Z) : bool :=
  (image_size >? MIN_IMAGE_SIZE) && (zip_size >? MIN_ZIP_SIZE)
  && (MAX_FILE_SIZE >=? size_t (image_size + zip_size)).

(** The message chosen when [file_size_check] is false. *)
Definition file_size_diagnostic (image_size zip_size : Z) : Diagnostic :=
  if MIN_IMAGE_SIZE >? image_size then File_Size_Error_Image_Too_Small
  else if MIN_ZIP_SIZE >? zip_size then File_Size_Error_Zip_Too_Small
  else File_Size_Error_Combined_Exceeds_Limit.

(** Returns the state together with the two opened streams. *)
Definition Open_Files (pdv : PDV_STRUCT) (env : Environment)
    : outcome (PDV_STRUCT * list Z * list Z) :=
  match image_file env, zip_file env with
  | None, _ => Exit Read_File_Error_Image
  | Some _, None => Exit Read_File_Error_Zip
  | Some image_ifs, Some zip_ifs =>
      let image_size' := vsize image_ifs in
      let zip_size' := vsize zip_ifs in
      let combined := size_t (image_size' + zip_size') in
      if negb (file_size_check image_size' zip_size')
      then Exit (file_size_diagnostic image_size' zip_size')
      else
        Done (mkPDV (Image_Vec pdv) (Zip_Vec pdv) (Script_Vec pdv)
                (image_name pdv) (zip_name pdv)
                image_size' zip_size' (script_size pdv) combined (big_endian pdv),
              image_ifs, zip_ifs)
  end.

(** ** Check_Image_File (source lines 133-209) *)

Definition PNG_TOP_SIG : list Z := [0x89; 0x50; 0x4E; 0x47].
Definition PNG_END_SIG : list Z := [0x49; 0x45; 0x4E; 0x44; 0xAE; 0x42; 0x60; 0x82].

Definition is_bad_char (b : Z) : bool := existsb (Z.eqb b) BAD_CHAR.

(** [while (chunk_index++ != 32) for (i < 7) if (Image_Vec[chunk_index] == BAD_CHAR[i]) exit] *)
Fixpoint IHDR_bad_char_loop (fuel : nat) (vec : list Z) (chunk_index : Z)
    : outcome unit :=
  match fuel with
  | O => Undefined
  | S fuel' =>
      if negb (chunk_index =? 32) then
        let chunk_index := chunk_index + 1 in
        b ← vget vec chunk_index;
        if is_bad_char b then Exit Image_File_Error_IHDR_Bad_Char
        else IHDR_bad_char_loop fuel' vec chunk_index
      else Done tt
  end.

Definition MAX_TRUECOLOR_DIMS : Z := 899.
Definition MAX_INDEXED_COLOR_DIMS : Z := 4096.
Definition MIN_DIMS : Z := 68.
Definition PNG_INDEXED_COLOR : Z := 3.
Definition PNG_TRUECOLOR : Z := 2.

(** The colour-type and dimension check (source lines 172-205). *)
Definition Check_Image_Dims (vec : list Z) : outcome unit :=
  b18 ← vget vec 18; b19 ← vget vec 19;
  let IMAGE_WIDTH_DIMS := Z.lor (Z.shiftl b18 8) b19 in
  b22 ← vget vec 22; b23 ← vget vec 23;
  let IMAGE_HEIGHT_DIMS := Z.lor (Z.shiftl b22 8) b23 in
  b25 ← vget vec 25;
  let PNG_COLOR_TYPE := if b25 =? 6 then 2 else b25 in
  let VALID_COLOR_TYPE :=
    if PNG_COLOR_TYPE =? PNG_INDEXED_COLOR then true
    else if PNG_COLOR_TYPE =? PNG_TRUECOLOR then true else false in
  let VALID_IMAGE_DIMS :=
    if (PNG_COLOR_TYPE =? PNG_TRUECOLOR)
       && (MAX_TRUECOLOR_DIMS >=? IMAGE_WIDTH_DIMS)
       && (MAX_TRUECOLOR_DIMS >=? IMAGE_HEIGHT_DIMS)
       && (IMAGE_WIDTH_DIMS >=? MIN_DIMS)
       && (IMAGE_HEIGHT_DIMS >=? MIN_DIMS) then true
    else if (PNG_COLOR_TYPE =? PNG_INDEXED_COLOR)
            && (MAX_INDEXED_COLOR_DIMS >=? IMAGE_WIDTH_DIMS)
            && (MAX_INDEXED_COLOR_DIMS >=? IMAGE_HEIGHT_DIMS)
            && (IMAGE_WIDTH_DIMS >=? MIN_DIMS)
            && (IMAGE_HEIGHT_DIMS >=? MIN_DIMS) then true else false in
  if negb VALID_COLOR_TYPE || negb VALID_IMAGE_DIMS
  then Exit (if negb VALID_COLOR_TYPE then Image_File_Error_Color_Type
             else Image_File_Error_Dimensions)
  else Done tt.

Definition Check_Image_File (pdv : PDV_STRUCT) (image_ifs : list Z)
    : outcome PDV_STRUCT :=
  let Image_Vec' := image_ifs in
  let image_size' := vsize Image_Vec' in
  GET_PNG_TOP_SIG ← vrange Image_Vec' 0 (vsize PNG_TOP_SIG);
  GET_PNG_END_SIG ← vrange Image_Vec' (vsize Image_Vec' - vsize PNG_END_SIG) (vsize Image_Vec');
  if negb (bool_decide (GET_PNG_TOP_SIG = PNG_TOP_SIG))
     || negb (bool_decide (GET_PNG_END_SIG = PNG_END_SIG))
  then Exit Image_File_Error_Not_PNG
  else
    _ ← IHDR_bad_char_loop 15 Image_Vec' 18;
    _ ← Check_Image_Dims Image_Vec';
    Done (mkPDV Image_Vec' (Zip_Vec pdv) (Script_Vec pdv)
            (image_name pdv) (zip_name pdv)
            image_size' (zip_size pdv) (script_size pdv)
            (combined_file_size pdv) (big_endian pdv)).

(** ** Erase_Image_Chunks (source lines 211-291) *)

Definition IDAT_SIG : list Z := str "IDAT".
Definition PLTE_SIG : list Z := str "PLTE".

(** [(size_t)vec[i] << 24 | (size_t)vec[i+1] << 16 | (size_t)vec[i+2] << 8 | (size_t)vec[i+3]] *)
Definition get_u32 (vec : list Z) (i : Z) : outcome Z :=
  b0 ← vget vec i;
  b1 ← vget vec (size_t (i + 1));
  b2 ← vget vec (size_t (i + 2));
  b3 ← vget vec (size_t (i + 3));
  Done (Z.lor (Z.lor (Z.lor (Z.shiftl b0 24) (Z.shiftl b1 16)) (Z.shiftl b2 8)) b3).

(** The PLTE length, read from three bytes only. *)
Definition get_u24 (vec : list Z) (i : Z) : outcome Z :=
  b1 ← vget vec (size_t (i + 1));
  b2 ← vget vec (size_t (i + 2));
  b3 ← vget vec (size_t (i + 3));
  Done (Z.lor (Z.lor (Z.shiftl b1 16) (Z.shiftl b2 8)) b3).

(** [while (pdv.image_size != idat_index + 4)]: copy the chunk at
    [idat_index], then search for the next "IDAT" from [idat_index + 6]. *)
Fixpoint Erase_IDAT_loop (fuel : nat) (vec : list Z) (image_size' : Z)
    (Temp_Vec : list Z) (idat_index : Z) : outcome (list Z) :=
  if negb (image_size' =? size_t (idat_index + 4)) then
    match fuel with
    | O => Undefined
    | S fuel' =>
        CHUNK_SIZE ← get_u32 vec idat_index;
        chunk ← vrange vec idat_index (idat_index + size_t (CHUNK_SIZE + 12));
        found ← search vec (idat_index + 6) IDAT_SIG;
        Erase_IDAT_loop fuel' vec image_size' (Temp_Vec ++ chunk) (size_t (found - 4))
    end
  else Done Temp_Vec.

Definition Erase_Image_Chunks (pdv : PDV_STRUCT) : outcome PDV_STRUCT :=
  let vec := Image_Vec pdv in
  Temp_Vec ← vrange vec 0 33;
  found ← search vec 0 IDAT_SIG;
  let idat_index := size_t (found - 4) in
  FIRST_IDAT_LENGTH ← get_u32 vec idat_index;
  let FIRST_IDAT_CRC_INDEX := size_t (size_t (idat_index + FIRST_IDAT_LENGTH) + 8) in
  FIRST_IDAT_CRC ← get_u32 vec FIRST_IDAT_CRC_INDEX;
  CALC_FIRST_IDAT_CRC ← Crc vec (size_t (idat_index + 4)) (size_t (FIRST_IDAT_LENGTH + 4));
  if negb (FIRST_IDAT_CRC =? CALC_FIRST_IDAT_CRC)
  then Exit Image_File_Error_First_IDAT_CRC
  else
    color ← vget Temp_Vec 25;
    Temp_Vec ←
      (if color =? 3 then
         found_plte ← search vec 0 PLTE_SIG;
         let PLTE_CHUNK_INDEX := size_t (found_plte - 4) in
         if idat_index >? PLTE_CHUNK_INDEX then
           CHUNK_SIZE ← get_u24 vec PLTE_CHUNK_INDEX;
           chunk ← vrange vec PLTE_CHUNK_INDEX
                     (PLTE_CHUNK_INDEX + size_t (CHUNK_SIZE + 12));
           Done (Temp_Vec ++ chunk)
         else Exit Image_File_Error_PLTE_Not_Found
       else Done Temp_Vec);
    Temp_Vec ← Erase_IDAT_loop (length vec) vec (image_size pdv) Temp_Vec idat_index;
    tail ← vrange vec (vsize vec - 12) (vsize vec);
    let Temp_Vec := Temp_Vec ++ tail in
    Done (mkPDV Temp_Vec (Zip_Vec pdv) (Script_Vec pdv)
            (image_name pdv) (zip_name pdv)
            (vsize Temp_Vec) (zip_size pdv) (script_size pdv)
            (combined_file_size pdv) (big_endian pdv)).

(** ** Check_Zip_File (source lines 293-328) *)

Definition ZIP_SIG : list Z := [0x50; 0x4B; 0x03; 0x04].
Definition MIN_INZIP_NAME_LENGTH : Z := 4.

Definition Check_Zip_File (pdv : PDV_STRUCT) (zip_ifs : list Z) : outcome PDV_STRUCT :=
  let Zip_Vec' :=
    [0x00; 0x00; 0x00; 0x00; 0x49; 0x44; 0x41; 0x54] ++ zip_ifs
    ++ [0x00; 0x00; 0x00; 0x00] in
  let zip_size' := vsize Zip_Vec' in
  Zip_Vec' ← Value_Updater Zip_Vec' 0 (size_t (zip_size' - 12)) 32 (big_endian pdv);
  GET_ZIP_SIG ← vrange Zip_Vec' 8 (8 + vsize ZIP_SIG);
  INZIP_NAME_LENGTH ← vget Zip_Vec' 34;
  if negb (bool_decide (GET_ZIP_SIG = ZIP_SIG))
     || (MIN_INZIP_NAME_LENGTH >? INZIP_NAME_LENGTH)
  then Exit (if negb (bool_decide (GET_ZIP_SIG = ZIP_SIG)) then ZIP_File_Error_Not_ZIP
             else ZIP_File_Error_Name_Too_Short)
  else
    Done (mkPDV (Image_Vec pdv) Zip_Vec' (Script_Vec pdv)
            (image_name pdv) (zip_name pdv)
            (image_size pdv) zip_size' (script_size pdv)
            (combined_file_size pdv) (big_endian pdv)).

(** ** Complete_Extraction_Script (source lines 330-600) *)

(** The barebones script: chunk length field, "iCCP", profile name
    "scr", the two shell segments, and four zero bytes for the CRC. *)
Definition Script_Template : list Z := [
    0x00; 0x00; 0x00; 0xFD; 0x69; 0x43; 0x43; 0x50; 0x73; 0x63; 0x72; 0x00; 0x00; 0x0D; 0x52;
    0x45; 0x4D; 0x3B; 0x63; 0x6C; 0x65; 0x61; 0x72; 0x3B; 0x6D; 0x6B; 0x64; 0x69; 0x72; 0x20;
    0x2E; 0x2F; 0x70; 0x64; 0x76; 0x7A; 0x69; 0x70; 0x5F; 0x65; 0x78; 0x74; 0x72; 0x61; 0x63;
    0x74; 0x65; 0x64; 0x3B; 0x6D; 0x76; 0x20; 0x22; 0x24; 0x30; 0x22; 0x20; 0x2E; 0x2F; 0x70;
    0x64; 0x76; 0x7A; 0x69; 0x70; 0x5F; 0x65; 0x78; 0x74; 0x72; 0x61; 0x63; 0x74; 0x65; 0x64;
    0x3B; 0x63; 0x64; 0x20; 0x2E; 0x2F; 0x70; 0x64; 0x76; 0x7A; 0x69; 0x70; 0x5F; 0x65; 0x78;
    0x74; 0x72; 0x61; 0x63; 0x74; 0x65; 0x64; 0x3B; 0x75; 0x6E; 0x7A; 0x69; 0x70; 0x20; 0x2D;
    0x71; 0x6F; 0x20; 0x22; 0x24; 0x30; 0x22; 0x3B; 0x63; 0x6C; 0x65; 0x61; 0x72; 0x3B; 0x22;
    0x22; 0x3B; 0x65; 0x78; 0x69; 0x74; 0x3B; 0x0D; 0x0A; 0x23; 0x26; 0x63; 0x6C; 0x73; 0x26;
    0x6D; 0x6B; 0x64; 0x69; 0x72; 0x20; 0x2E; 0x5C; 0x70; 0x64; 0x76; 0x7A; 0x69; 0x70; 0x5F;
    0x65; 0x78; 0x74; 0x72; 0x61; 0x63; 0x74; 0x65; 0x64; 0x26; 0x6D; 0x6F; 0x76; 0x65; 0x20;
    0x22; 0x25; 0x7E; 0x64; 0x70; 0x6E; 0x78; 0x30; 0x22; 0x20; 0x2E; 0x5C; 0x70; 0x64; 0x76;
    0x7A; 0x69; 0x70; 0x5F; 0x65; 0x78; 0x74; 0x72; 0x61; 0x63; 0x74; 0x65; 0x64; 0x26; 0x63;
    0x64; 0x20; 0x2E; 0x5C; 0x70; 0x64; 0x76; 0x7A; 0x69; 0x70; 0x5F; 0x65; 0x78; 0x74; 0x72;
    0x61; 0x63; 0x74; 0x65; 0x64; 0x26; 0x63; 0x6C; 0x73; 0x26; 0x74; 0x61; 0x72; 0x20; 0x2D;
    0x78; 0x66; 0x20; 0x22; 0x25; 0x7E; 0x6E; 0x30; 0x25; 0x7E; 0x78; 0x30; 0x22; 0x26; 0x20;
    0x22; 0x22; 0x26; 0x72; 0x65; 0x6E; 0x20; 0x22; 0x25; 0x7E; 0x6E; 0x30; 0x25; 0x7E; 0x78;
    0x30; 0x22; 0x20; 0x2A; 0x2E; 0x70; 0x6E; 0x67; 0x26; 0x65; 0x78; 0x69; 0x74; 0x0D; 0x0A;
    0x00; 0x00; 0x00; 0x00 ].

Definition quote_pair : list Z := [0x22; 0x22].

Definition App_Vec_init : list (list Z) :=
  [ str "aac"; str "mp3"; str "mp4"; str "avi"; str "asf"; str "flv"; str "ebm";
    str "mkv"; str "peg"; str "wav"; str "wmv"; str "wma"; str "mov"; str "3gp";
    str "ogg"; str "pdf"; str ".py"; str "ps1"; str "exe"; str ".sh";
    str "vlc --play-and-exit --no-video-title-show "; str "evince ";
    str "python3 "; str "pwsh "; str "./"; str "xdg-open ";
    str "powershell;Invoke-Item "; str " &> /dev/null";
    str "start /b " ++ quote_pair; str "pause&"; str "powershell";
    str "chmod +x "; str ";" ].

Definition FIRST_ZIP_NAME_REC_LENGTH_INDEX : Z := 34.
Definition FIRST_ZIP_NAME_REC_INDEX : Z := 38.
Definition VIDEO_AUDIO : Z := 20.
Definition PDF : Z := 21.
Definition PYTHON : Z := 22.
Definition POWERSHELL : Z := 23.
Definition EXECUTABLE : Z := 24.
Definition BASH_XDG_OPEN : Z := 25.
Definition FOLDER_INVOKE_ITEM : Z := 26.
Definition START_B : Z := 28.
Definition WIN_POWERSHELL : Z := 30.
Definition PREPEND_FIRST_ZIP_NAME_REC : Z := 36.

Definition Sequence_Vec_init : list Z :=
  [ 241; 239; 121; 120; 119;
    33; 28; 27; 33; 20;
    241; 239; 120; 119;
    33; 28; 33; 21;
    264; 242; 241; 239; 121; 120; 119;
    29; 35; 33; 22; 34; 33; 22;
    264; 242; 241; 239; 121; 120; 119; 119; 119; 119;
    29; 35; 33; 28; 34; 33; 24; 32; 33; 31 ].

(** [l[i]] on a vector of any element type. *)
Definition at_index {A : Type} (l : list A) (i : Z) : outcome A :=
  if (0 <=? i) && (i <? Z.of_nat (length l))
  then match l !! Z.to_nat i with Some a => Done a | None => Undefined end
  else Undefined.

Definition npos : Z := 2 ^ 64 - 1.

Fixpoint find_last_of_from (s : list Z) (c : Z) (i : Z) (last : Z) : Z :=
  match s with
  | [] => last
  | b :: s' => find_last_of_from s' c (i + 1) (if b =? c then i else last)
  end.

(** [s.find_last_of(c)] *)
Definition find_last_of (s : list Z) (c : Z) : Z := find_last_of_from s c 0 npos.

(** [for (; app_index != 26; app_index++) if (App_Vec[app_index] == ext)
    { app_index = app_index <= 14 ? 20 : app_index += 6; break; }] *)
Fixpoint Match_Ext_loop (fuel : nat) (App_Vec : list (list Z)) (ext : list Z)
    (app_index : Z) : outcome Z :=
  if negb (app_index =? 26) then
    match fuel with
    | O => Undefined
    | S fuel' =>
        s ← at_index App_Vec app_index;
        if bool_decide (s = ext)
        then Done (if app_index <=? 14 then 20 else app_index + 6)
        else Match_Ext_loop fuel' App_Vec ext (app_index + 1)
    end
  else Done app_index.

(** [while (sequence_limit > insert_index)
      { Script_Vec.insert(begin + Sequence_Vec[insert_index], App_Vec[Sequence_Vec[app_index]]); insert_index++; app_index++; }] *)
Fixpoint Insert_loop (fuel : nat) (Script : list Z) (Sequence_Vec : list Z)
    (App_Vec : list (list Z)) (sequence_limit insert_index app_index : Z)
    : outcome (list Z) :=
  if sequence_limit >? insert_index then
    match fuel with
    | O => Undefined
    | S fuel' =>
        pos ← at_index Sequence_Vec insert_index;
        app ← at_index Sequence_Vec app_index;
        text ← at_index App_Vec app;
        Script ← vinsert Script pos text;
        Insert_loop fuel' Script Sequence_Vec App_Vec sequence_limit
          (insert_index + 1) (app_index + 1)
    end
  else Done Script.

(** The launcher chosen from the first name of the archive: the value
    [app_index] has when the [switch] is entered (source lines 459-471). *)
Definition Select_Launcher (Zip : list Z) (App_Vec : list (list Z))
    (first_zip_name first_zip_name_ext : list Z) (FIRST_ZIP_NAME_REC_LENGTH : Z)
    : outcome Z :=
  let CHECK_FILE_EXT := find_last_of first_zip_name 0x2E in
  app_index ← Match_Ext_loop 26 App_Vec first_zip_name_ext 0;
  if (CHECK_FILE_EXT =? 0) || (CHECK_FILE_EXT >? vsize first_zip_name) then
    last ← vget Zip (FIRST_ZIP_NAME_REC_INDEX + FIRST_ZIP_NAME_REC_LENGTH - 1);
    Done (if last =? 0x2F then FOLDER_INVOKE_ITEM else EXECUTABLE)
  else Done app_index.

(** The script with the launcher strings inserted (source lines 347-538). *)
Definition Build_Script (Zip : list Z) (args_linux_in args_windows_in : list Z)
    : outcome (list Z) :=
  let App_Vec := App_Vec_init in
  FIRST_ZIP_NAME_REC_LENGTH ← vget Zip FIRST_ZIP_NAME_REC_LENGTH_INDEX;
  first_zip_name ← vrange Zip FIRST_ZIP_NAME_REC_INDEX
                     (FIRST_ZIP_NAME_REC_INDEX + FIRST_ZIP_NAME_REC_LENGTH);
  first_zip_name_ext ←
    (if vsize first_zip_name <? 3 then Exit Terminate_Out_Of_Range
     else Done (drop (Z.to_nat (vsize first_zip_name - 3)) first_zip_name));
  let App_Vec := App_Vec ++ [first_zip_name] in
  app_index ← Select_Launcher Zip App_Vec first_zip_name first_zip_name_ext
                FIRST_ZIP_NAME_REC_LENGTH;
  let App_Vec :=
    if (app_index >? 21) && (app_index <? 26)
    then App_Vec ++ [0x20 :: args_linux_in; 0x20 :: args_windows_in]
    else App_Vec in
  let Sequence_Vec := Sequence_Vec_init in
  let '(Sequence_Vec, App_Vec, insert_index, app_index) :=
    (* switch (app_index) *)
    if app_index =? VIDEO_AUDIO then (Sequence_Vec, App_Vec, 0, 5)
    else if (app_index =? PDF) || (app_index =? FOLDER_INVOKE_ITEM) then
      let Sequence_Vec :=
        <[15%nat := if app_index =? FOLDER_INVOKE_ITEM
                    then FOLDER_INVOKE_ITEM else START_B]> Sequence_Vec in
      let Sequence_Vec :=
        <[17%nat := if app_index =? FOLDER_INVOKE_ITEM
                    then BASH_XDG_OPEN else PDF]> Sequence_Vec in
      (Sequence_Vec, App_Vec, 10, 14)
    else if (app_index =? PYTHON) || (app_index =? POWERSHELL) then
      if app_index =? POWERSHELL then
        let first_zip_name := [0x2E; 0x5C] ++ first_zip_name in
        let App_Vec := App_Vec ++ [first_zip_name] in
        let Sequence_Vec := <[31%nat := POWERSHELL]> Sequence_Vec in
        let Sequence_Vec := <[28%nat := WIN_POWERSHELL]> Sequence_Vec in
        let Sequence_Vec := <[27%nat := PREPEND_FIRST_ZIP_NAME_REC]> Sequence_Vec in
        (Sequence_Vec, App_Vec, 18, 25)
      else (Sequence_Vec, App_Vec, 18, 25)
    else if (app_index =? EXECUTABLE) || (app_index =? BASH_XDG_OPEN) then
      let insert_index := if app_index =? EXECUTABLE then 32 else 33 in
      (Sequence_Vec, App_Vec, insert_index, if insert_index =? 32 then 42 else 43)
    else
      (* default *)
      (<[17%nat := BASH_XDG_OPEN]> Sequence_Vec, App_Vec, 10, 14) in
  let sequence_limit := if insert_index =? 33 then app_index - 1 else app_index in
  Insert_loop (Z.to_nat (sequence_limit - insert_index)) Script_Template
    Sequence_Vec App_Vec sequence_limit insert_index app_index.

Definition MAX_SCRIPT_SIZE : Z := 750.
Definition ICCP_CHUNK_INDEX : Z := 4.
Definition INCREASE_LENGTH_STRING : list Z := str "..........".

(** The length field, the padding against a bad length byte, the size
    checks and the CRC (source lines 540-596). *)
Definition Finish_Script (pdv : PDV_STRUCT) (Script : list Z) : outcome PDV_STRUCT :=
  let script_size' := vsize Script in
  Script ← Value_Updater Script 2 (size_t (script_size' - 12)) 16 (big_endian pdv);
  b3 ← vget Script 3;
  '(Script, script_size') ←
    (if is_bad_char b3 then
       Script ← vinsert Script (script_size' - 4) INCREASE_LENGTH_STRING;
       let script_size' := vsize Script in
       Script ← Value_Updater Script 2 (size_t (script_size' - 12)) 16 (big_endian pdv);
       Done (Script, script_size')
     else Done (Script, script_size'));
  let combined :=
    size_t (size_t (vsize Script + vsize (Image_Vec pdv)) + vsize (Zip_Vec pdv)) in
  if (script_size' >? MAX_SCRIPT_SIZE) || (combined >? MAX_FILE_SIZE)
  then Exit (if script_size' >? MAX_SCRIPT_SIZE then File_Size_Error_Script_Exceeds_Limit
             else File_Size_Error_Total_Exceeds_Limit)
  else
    ICCP_CHUNK_CRC ← Crc Script ICCP_CHUNK_INDEX (size_t (script_size' - 8));
    let iccp_crc_index := size_t (script_size' - 4) in
    Script ← Value_Updater Script iccp_crc_index ICCP_CHUNK_CRC 32 (big_endian pdv);
    Done (mkPDV (Image_Vec pdv) (Zip_Vec pdv) Script
            (image_name pdv) (zip_name pdv)
            (image_size pdv) (zip_size pdv) script_size' combined (big_endian pdv)).

Definition Complete_Extraction_Script (pdv : PDV_STRUCT)
    (args_linux_in args_windows_in : list Z) : outcome PDV_STRUCT :=
  Script ← Build_Script (Zip_Vec pdv) args_linux_in args_windows_in;
  Finish_Script pdv Script.

(** ** Fix_Zip_Offset (source lines 643-688) *)

Definition START_CENTRAL_DIR_SIG : list Z := str "PK" ++ [0x01; 0x02].
Definition END_CENTRAL_DIR_SIG : list Z := str "PK" ++ [0x05; 0x06].

(** [while (zip_records--)]: one local-file signature and one central
    entry per round.  The last component lists, in order, the index and
    the value of each [Value_Updater] call the loop makes; it takes no
    part in the computation. *)
Fixpoint Fix_Records_loop (zip_records : nat) (vec : list Z)
    (new_offset central_local_index : Z) (calls : list (Z * Z))
    : outcome (list Z * list (Z * Z)) :=
  match zip_records with
  | O => Done (vec, calls)
  | S zip_records' =>
      new_offset ← search vec (new_offset + 1) ZIP_SIG;
      found ← search vec central_local_index START_CENTRAL_DIR_SIG;
      let central_local_index := size_t (45 + found) in
      vec ← Value_Updater vec central_local_index new_offset 32 false;
      Fix_Records_loop zip_records' vec new_offset central_local_index
        (calls ++ [(central_local_index, new_offset)])
  end.

(** The positions the fixer works from (source lines 651-664). *)
Record Zip_Layout : Type := mkLayout {
  START_CENTRAL_DIR_INDEX : Z;
  END_CENTRAL_DIR_INDEX : Z;
  zip_records : Z
}.

Definition Locate_Central_Dir (vec : list Z) (IDAT_ZIP_INDEX : Z) : outcome Zip_Layout :=
  START ← search vec IDAT_ZIP_INDEX START_CENTRAL_DIR_SIG;
  END ← search vec START END_CENTRAL_DIR_SIG;
  let zip_records_index := size_t (END + 11) in
  hi ← vget vec zip_records_index;
  lo ← vget vec (size_t (zip_records_index - 1));
  Done (mkLayout START END (Z.lor (Z.shiftl hi 8) lo)).

(** The entry loop and the central directory offset (source lines
    655-676).  Returns the vector, the positions found, and the calls made
    by the entry loop. *)
Definition Fix_Zip_Entries (vec : list Z) (IDAT_ZIP_INDEX : Z)
    : outcome (list Z * Zip_Layout * list (Z * Z)) :=
  lay ← Locate_Central_Dir vec IDAT_ZIP_INDEX;
  let START := START_CENTRAL_DIR_INDEX lay in
  let END := END_CENTRAL_DIR_INDEX lay in
  let end_central_start_index := size_t (END + 19) in
  let central_local_index := size_t (START - 1) in
  let new_offset := IDAT_ZIP_INDEX in
  '(vec, calls) ← Fix_Records_loop (Z.to_nat (zip_records lay)) vec new_offset
                     central_local_index [];
  vec ← Value_Updater vec end_central_start_index START 32 false;
  Done (vec, lay, calls).

(** The archive comment length, grown by 16 (source lines 678-687). *)
Definition Fix_Zip_Comment (vec : list Z) (END : Z) : outcome (list Z) :=
  let comment_length_index := size_t (END + 21) in
  hi ← vget vec comment_length_index;
  lo ← vget vec (size_t (comment_length_index - 1));
  let comment_length := 16 + Z.lor (Z.shiftl hi 8) lo in
  Value_Updater vec comment_length_index comment_length 16 false.

Definition Fix_Zip_Offset (vec : list Z) (IDAT_ZIP_INDEX : Z)
    : outcome (list Z * list (Z * Z)) :=
  '(vec, lay, calls) ← Fix_Zip_Entries vec IDAT_ZIP_INDEX;
  vec ← Fix_Zip_Comment vec (END_CENTRAL_DIR_INDEX lay);
  Done (vec, calls).

(** ** Combine_Vectors (source lines 602-641) *)

Definition FIRST_IDAT_INDEX : Z := 33.

Definition Combine_Vectors (pdv : PDV_STRUCT) : outcome PDV_STRUCT :=
  vec ← vinsert (Image_Vec pdv) FIRST_IDAT_INDEX (Script_Vec pdv);
  vec ← vinsert vec (vsize vec - 12) (Zip_Vec pdv);
  let IDAT_ZIP_INDEX := size_t (size_t (image_size pdv + script_size pdv) - 8) in
  '(vec, _) ← Fix_Zip_Offset vec IDAT_ZIP_INDEX;
  IDAT_ZIP_CRC ← Crc vec IDAT_ZIP_INDEX (size_t (zip_size pdv - 8));
  let image_size' := vsize vec in
  let crc_insert_index := size_t (image_size' - 16) in
  vec ← Value_Updater vec crc_insert_index IDAT_ZIP_CRC 32 true;
  Done (mkPDV vec (Zip_Vec pdv) (Script_Vec pdv)
          (image_name pdv) (zip_name pdv)
          image_size' (zip_size pdv) (script_size pdv)
          (combined_file_size pdv) true).

(** ** Write_Out_Polyglot_File (source lines 690-711)

    The file name, drawn from [rand()], is not modelled. *)
Definition Write_Out_Polyglot_File (pdv : PDV_STRUCT) (env : Environment) : outcome Run :=
  if negb (output_opens env) then Exit Write_File_Error
  else
    file ← vrange (Image_Vec pdv) 0 (image_size pdv);
    Done (Polyglot_Written file).

(** ** The program

    Each function of the source ends by calling the next one; [Build]
    is that chain from [Open_Files] on. *)
Definition Build (pdv : PDV_STRUCT) (env : Environment) : outcome Run :=
  '(pdv, image_ifs, zip_ifs) ← Open_Files pdv env;
  pdv ← Check_Image_File pdv image_ifs;
  pdv ← Erase_Image_Chunks pdv;
  pdv ← Check_Zip_File pdv zip_ifs;
  pdv ← Complete_Extraction_Script pdv (stdin_args_linux env) (stdin_args_windows env);
  pdv ← Combine_Vectors pdv;
  Write_Out_Polyglot_File pdv env.

(** [argv] holds the program name first, so [argc] is its length. *)
Definition main (argv : list (list Z)) (env : Environment) : outcome Run :=
  let argc := Z.of_nat (length argv) in
  if (argc =? 2) && bool_decide (argv !! 1%nat = Some (str "--info"))
  then Done Info_Displayed
  else if (argc <? 3) || (argc >? 3) then Done Usage_Displayed
  else
    match argv with
    | [_; a1; a2] =>
        match validate_arguments a1 a2 with
        | Some d => Exit d
        | None => Build (mkPDV [] [] [] a1 a2 0 0 0 0 true) env
        end
    | _ => Undefined
    end.


(** * Vocabulary of the statements *)

(** Reading a field: [n] bytes from index [i] upwards, the first one the
    most significant (big-endian) or the least significant
    (little-endian). *)
Fixpoint read_be_bytes (bs : list Z) (acc : Z) : Z :=
  match bs with
  | [] => acc
  | b :: bs' => read_be_bytes bs' (Z.lor (Z.shiftl acc 8) b)
  end.

Fixpoint read_le_bytes (bs : list Z) : Z :=
  match bs with
  | [] => 0
  | b :: bs' => Z.lor b (Z.shiftl (read_le_bytes bs') 8)
  end.

Definition read_be (vec : list Z) (i n : Z) : outcome Z :=
  bs ← vrange vec i (i + n); Done (read_be_bytes bs 0).

Definition read_le (vec : list Z) (i n : Z) : outcome Z :=
  bs ← vrange vec i (i + n); Done (read_le_bytes bs).

(** The CRC of the PNG specification (annex D), with the table entries
    computed bit by bit; [Crc_bytes] of the source is checked against it. *)
Fixpoint crc_bit_steps (k : nat) (c : Z) : Z :=
  match k with
  | O => c
  | S k' =>
      crc_bit_steps k'
        (if Z.testbit c 0 then Z.lxor 0xEDB88320 (Z.shiftr c 1) else Z.shiftr c 1)
  end.

Fixpoint png_crc_update (c : Z) (buf : list Z) : Z :=
  match buf with
  | [] => c
  | b :: buf' =>
      png_crc_update
        (Z.lxor (crc_bit_steps 8 (Z.land (Z.lxor c b) 0xff)) (Z.shiftr c 8)) buf'
  end.

Definition png_crc (buf : list Z) : Z :=
  Z.lxor (png_crc_update 0xffffffff buf) 0xffffffff.

(** The [k]-th byte of the [w]-bit value [v], counted from the most
    significant one. *)
Definition field_byte (v w k : Z) : Z := Z.land (Z.shiftr v (w - 8 * (k + 1))) 0xff.

(** The low [n] bytes of [v], most significant first, and the reverse. *)
Fixpoint be_bytes (n : nat) (v : Z) : list Z :=
  match n with
  | O => []
  | S n' => Z.land (Z.shiftr v (8 * Z.of_nat n')) 0xff :: be_bytes n' v
  end.

Definition le_bytes (n : nat) (v : Z) : list Z := rev (be_bytes n v).

(** [vec] with the bytes [bs] stored from index [i] on. *)
Definition overwrite (vec : list Z) (i : Z) (bs : list Z) : list Z :=
  take (Z.to_nat i) vec ++ bs ++ drop (Z.to_nat i + length bs) vec.

(** The byte string [sig] stands in [vec] at index [p]. *)
Definition occurs (vec : list Z) (p : Z) (sig : list Z) : Prop :=
  0 <= p /\ take (length sig) (drop (Z.to_nat p) vec) = sig.

(** The strings a regular expression denotes. *)
Inductive matches : regex -> list Z -> Prop :=
  | matches_Epsilon : matches Epsilon []
  | matches_Class (p : Z -> bool) (c : Z) : p c = true -> matches (Class p) [c]
  | matches_Cat (r1 r2 : regex) (s1 s2 : list Z) :
      matches r1 s1 -> matches r2 s2 -> matches (Cat r1 r2) (s1 ++ s2)
  | matches_Alt_l (r1 r2 : regex) (s : list Z) : matches r1 s -> matches (Alt r1 r2) s
  | matches_Alt_r (r1 r2 : regex) (s : list Z) : matches r2 s -> matches (Alt r1 r2) s
  | matches_Star_nil (r : regex) : matches (Star r) []
  | matches_Star_app (r : regex) (s1 s2 : list Z) :
      matches r s1 -> matches (Star r) s2 -> matches (Star r) (s1 ++ s2).

(** ** Well-formed inputs, for the statements and their examples *)

(** A PNG chunk: length, type, data, CRC of type and data. *)
Definition encode_chunk (ty data : list Z) : list Z :=
  be_bytes 4 (vsize data) ++ ty ++ data ++ be_bytes 4 (png_crc (ty ++ data)).

Definition PNG_SIGNATURE : list Z := [0x89; 0x50; 0x4E; 0x47; 0x0D; 0x0A; 0x1A; 0x0A].

Definition IHDR_chunk (width height color : Z) : list Z :=
  encode_chunk (str "IHDR") (be_bytes 4 width ++ be_bytes 4 height ++ [8; color; 0; 0; 0]).

Definition IEND_chunk : list Z := encode_chunk (str "IEND") [].

(** A ZIP local file header with its (stored) data, a central directory
    entry, and the end-of-central-directory record. *)
Definition zip_local (name data : list Z) : list Z :=
  ZIP_SIG ++ le_bytes 2 20 ++ le_bytes 2 0 ++ le_bytes 2 0 ++ le_bytes 2 0 ++ le_bytes 2 0
  ++ le_bytes 4 0 ++ le_bytes 4 (vsize data) ++ le_bytes 4 (vsize data)
  ++ le_bytes 2 (vsize name) ++ le_bytes 2 0 ++ name ++ data.

Definition zip_central (name : list Z) (size offset : Z) : list Z :=
  START_CENTRAL_DIR_SIG ++ le_bytes 2 20 ++ le_bytes 2 20 ++ le_bytes 2 0 ++ le_bytes 2 0
  ++ le_bytes 2 0 ++ le_bytes 2 0 ++ le_bytes 4 0 ++ le_bytes 4 size ++ le_bytes 4 size
  ++ le_bytes 2 (vsize name) ++ le_bytes 2 0 ++ le_bytes 2 0 ++ le_bytes 2 0 ++ le_bytes 2 0
  ++ le_bytes 4 0 ++ le_bytes 4 offset ++ name.

Definition zip_end_record (entries cd_size cd_offset comment_length : Z) : list Z :=
  END_CENTRAL_DIR_SIG ++ le_bytes 2 0 ++ le_bytes 2 0 ++ le_bytes 2 entries
  ++ le_bytes 2 entries ++ le_bytes 4 cd_size ++ le_bytes 4 cd_offset
  ++ le_bytes 2 comment_length.

Definition zip_end (entries cd_size cd_offset : Z) (comment : list Z) : list Z :=
  zip_end_record entries cd_size cd_offset (vsize comment) ++ comment.

(** An archive with one stored member. *)
Definition zip_single (name data : list Z) : list Z :=
  let l := zip_local name data in
  let c := zip_central name (vsize data) 0 in
  l ++ c ++ zip_end 1 (vsize c) (vsize l) [].

(** [Zip_Vec] as [Check_Zip_File] leaves it for the archive [zip]. *)
Definition framed_zip (zip : list Z) : list Z :=
  be_bytes 4 (vsize zip) ++ [0x49; 0x44; 0x41; 0x54] ++ zip ++ [0; 0; 0; 0].

(** The three-character keys of [App_Vec]: the 19 media and program
    extensions, and [.sh]. *)
Definition extension_keys_19 : list (list Z) := take 19 App_Vec_init.
Definition extension_keys_20 : list (list Z) := take 20 App_Vec_init.

(** The last three characters of a name. *)
Definition last_three (name : list Z) : list Z := drop (length name - 3) name.

(** ** Inputs that fit in memory

    Every file and every argument string typed at the prompt is shorter
    than 2^56 bytes, so that no [size_t] computation on them wraps. *)
Definition fits (l : list Z) : Prop := vsize l < 2 ^ 56.

Definition env_fits (env : Environment) : Prop :=
  (forall img, image_file env = Some img -> fits img) /\
  (forall zip, zip_file env = Some zip -> fits zip) /\
  fits (stdin_args_linux env) /\ fits (stdin_args_windows env).

(** ** A sample run *)

Definition sample_png : list Z :=
  PNG_SIGNATURE ++ IHDR_chunk 100 100 2
  ++ encode_chunk (str "tEXt") (str "hello")
  ++ encode_chunk (str "IDAT") (str "0123456789abcdef")
  ++ encode_chunk (str "IDAT") (str "xyz")
  ++ IEND_chunk.

Definition sample_zip : list Z := zip_single (str "a.txt") (str "data").

Definition sample_env : Environment :=
  mkEnv (Some sample_png) (Some sample_zip) [] [] true.

Definition sample_argv : list (list Z) := [str "pdvzip"; str "a.png"; str "b.zip"].

(** ** Archives whose signatures stand where the fixer looks for them *)

(** [p] is the first index at or after [a] where [sig] stands in [vec]. *)
Definition first_at (vec : list Z) (a : Z) (sig : list Z) (p : Z) : Prop :=
  a <= p /\ occurs vec p sig /\ forall q, a <= q < p -> ~ occurs vec q sig.

(** Successive first occurrences of [sig]: the first position of [ps] is
    the first one at or after [a], and each next one the first at or after
    [gap] bytes past the one before. *)
Fixpoint chain (vec sig : list Z) (gap a : Z) (ps : list Z) : Prop :=
  match ps with
  | [] => True
  | p :: ps' => first_at vec a sig p /\ chain vec sig gap (p + gap) ps'
  end.

(** The positions of the records of an archive, counted from its first
    byte: the local file headers, the central directory entries, the
    first central directory signature and the end record. *)
Record Archive_Layout : Type := mkArchive {
  locals : list Z;
  centrals : list Z;
  cd_start : Z;
  eocd : Z
}.

(** The local signatures come one after the other from the start of the
    archive, all before the central directory; the central entries follow
    each other at least 46 bytes apart, up to the end record, which holds
    their number and is complete. *)
Definition canonical (zip : list Z) (lay : Archive_Layout) : Prop :=
  chain zip ZIP_SIG 1 0 (locals lay) /\
  first_at zip 0 START_CENTRAL_DIR_SIG (cd_start lay) /\
  chain zip START_CENTRAL_DIR_SIG 46 (cd_start lay) (centrals lay) /\
  Forall (fun l => l + 4 <= cd_start lay) (locals lay) /\
  first_at zip (cd_start lay) END_CENTRAL_DIR_SIG (eocd lay) /\
  Forall (fun c => c + 46 <= eocd lay) (centrals lay) /\
  eocd lay + 22 <= vsize zip /\
  read_le zip (eocd lay + 10) 2 = Done (Z.of_nat (length (centrals lay))) /\
  length (locals lay) = length (centrals lay).

(** An archive that holds another one, stored. *)
Definition nested_zip : list Z := zip_single (str "in.zip") sample_zip.

Definition nested_env : Environment :=
  mkEnv (Some sample_png) (Some nested_zip) [] [] true.

(** The records of [sample_zip]. *)
Definition sample_layout : Archive_Layout := mkArchive [0] [39] 39 90.

(** ** PNG files *)

(** A chunk: its type and its data. *)
Definition chunk : Type := (list Z * list Z)%type.

Definition encode_chunks (cs : list chunk) : list Z :=
  flat_map (fun c => encode_chunk (fst c) (snd c)) cs.

Definition IHDR_SIG : list Z := str "IHDR".
Definition IEND_SIG : list Z := str "IEND".
Definition ICCP_SIG : list Z := str "iCCP".

(** The parts of a PNG file: the IHDR data, the PLTE data if there is a
    palette, the data of the IDAT chunks, and the other chunks by
    place. *)
Record Png : Type := mkPng {
  ihdr : list Z;
  before_plte : list chunk;
  plte : option (list Z);
  after_plte : list chunk;
  idats : list (list Z);
  after_idat : list chunk
}.

Definition plte_chunks (p : Png) : list chunk :=
  match plte p with Some d => [(PLTE_SIG, d)] | None => [] end.

Definition idat_chunks (p : Png) : list chunk := map (fun d => (IDAT_SIG, d)) (idats p).

Definition png_chunks (p : Png) : list chunk :=
  [(IHDR_SIG, ihdr p)] ++ before_plte p ++ plte_chunks p ++ after_plte p
  ++ idat_chunks p ++ after_idat p ++ [(IEND_SIG, [])].

Definition encode_png (p : Png) : list Z := PNG_SIGNATURE ++ encode_chunks (png_chunks p).

Definition color_type (p : Png) : Z := nth 9 (ihdr p) 0.

(** The chunks the pruner is to keep. *)
Definition kept_plte (p : Png) : list chunk :=
  if color_type p =? 3 then plte_chunks p else [].

Definition pruned_chunks (p : Png) : list chunk :=
  [(IHDR_SIG, ihdr p)] ++ kept_plte p ++ idat_chunks p ++ [(IEND_SIG, [])].

(** The chunks of the polyglot file, for a script chunk of data [script]
    and an archive [zip]. *)
Definition polyglot_chunks (p : Png) (script zip : list Z) : list chunk :=
  [(IHDR_SIG, ihdr p); (ICCP_SIG, script)] ++ kept_plte p ++ idat_chunks p
  ++ [(IDAT_SIG, zip); (IEND_SIG, [])].

(** A PNG decoder: the signature, then chunks to the end of the file,
    each with the CRC of its type and data. *)
Fixpoint decode_chunks (fuel : nat) (bs : list Z) : option (list chunk) :=
  match fuel with
  | O => None
  | S fuel' =>
      match bs with
      | [] => Some []
      | _ =>
          let len := read_be_bytes (take 4 bs) 0 in
          let ty := take 4 (drop 4 bs) in
          let data := take (Z.to_nat len) (drop 8 bs) in
          let crc := take 4 (drop (8 + Z.to_nat len) bs) in
          if (12 + len <=? vsize bs) && bool_decide (crc = be_bytes 4 (png_crc (ty ++ data)))
          then option_map (cons (ty, data))
                 (decode_chunks fuel' (drop (12 + Z.to_nat len) bs))
          else None
      end
  end.

(** Chunks that can be encoded: a type of four bytes and a length that
    fits the length field. *)
Definition chunk_ok (c : chunk) : Prop := vsize (fst c) = 4 /\ vsize (snd c) < 2 ^ 32.

Definition decode_png (bs : list Z) : option (list chunk) :=
  if bool_decide (take 8 bs = PNG_SIGNATURE)
  then decode_chunks (S (length bs)) (drop 8 bs) else None.

(** All the indices where [sig] stands in [vec], counted from [i]. *)
Fixpoint occurrences_from (i : Z) (vec sig : list Z) : list Z :=
  match vec with
  | [] => []
  | _ :: vec' =>
      if starts_with sig vec then i :: occurrences_from (i + 1) vec' sig
      else occurrences_from (i + 1) vec' sig
  end.

Definition occurrences (vec sig : list Z) : list Z := occurrences_from 0 vec sig.

(** The indices of the type fields of IDAT chunks of data [ds] that
    begin at index [a]. *)
Fixpoint idat_positions (a : Z) (ds : list (list Z)) : list Z :=
  match ds with
  | [] => []
  | d :: ds' => (a + 4) :: idat_positions (a + vsize d + 12) ds'
  end.

Definition plte_start (p : Png) : Z :=
  8 + vsize (encode_chunks ([(IHDR_SIG, ihdr p)] ++ before_plte p)).

Definition idat_start (p : Png) : Z :=
  8 + vsize (encode_chunks ([(IHDR_SIG, ihdr p)] ++ before_plte p ++ plte_chunks p
                            ++ after_plte p)).

(** A file the pruner reads as intended: the IHDR data has its thirteen
    bytes; there is an IDAT chunk; the string "IDAT" stands in the file
    at the type fields of the IDAT chunks and nowhere else; and when the
    colour type is 3 there is a palette, and the first "PLTE" of the file
    is its type field. *)
Definition pruner_ready (p : Png) : Prop :=
  vsize (ihdr p) = 13 /\
  idats p <> [] /\
  Forall (fun d => vsize d < 2 ^ 32) (idats p) /\
  fits (encode_png p) /\
  occurrences (encode_png p) IDAT_SIG = idat_positions (idat_start p) (idats p) /\
  (color_type p = 3 ->
   exists d, plte p = Some d /\ vsize d < 2 ^ 24 /\
             head (occurrences (encode_png p) PLTE_SIG) = Some (plte_start p + 4)).

(** [sample_png] by its parts. *)
Definition sample_png_parts : Png :=
  mkPng (be_bytes 4 100 ++ be_bytes 4 100 ++ [8; 2; 0; 0; 0])
    [(str "tEXt", str "hello")] None []
    [str "0123456789abcdef"; str "xyz"] [].

(** A file whose IDAT data holds the string "IDAT". *)
Definition idat_in_data_parts : Png :=
  mkPng (be_bytes 4 100 ++ be_bytes 4 100 ++ [8; 2; 0; 0; 0])
    [] None [] [str "ab" ++ [0; 0; 0; 1] ++ str "IDAT" ++ str "cdefg"] [].

Definition idat_in_data_env : Environment :=
  mkEnv (Some (encode_png idat_in_data_parts)) (Some sample_zip) [] [] true.


(** ** The parts of a composed script *)

(** The name has a '.' after its first character: what the source takes
    for a file extension. *)
Definition has_extension (name : list Z) : bool := existsb (Z.eqb 0x2E) (drop 1 name).

(** The template between the places where [Complete_Extraction_Script]
    inserts: up to [clear;] of the POSIX segment; from [;exit;] of the
    POSIX segment to [tar -xf "%~n0%~x0"&] of the Windows segment; the
    [&ren "%~n0%~x0" *.png&] of the Windows segment; and the final [exit]
    with the line end and the four bytes kept for the CRC. *)
Definition script_head : list Z := take 119 Script_Template.
Definition script_middle : list Z := take 118 (drop 121 Script_Template).
Definition script_rename : list Z := take 22 (drop 242 Script_Template).
Definition script_end : list Z := drop 264 Script_Template.

(** A name between double quotes. *)
Definition quoted (s : list Z) : list Z := [0x22] ++ s ++ [0x22].

(** The script with the POSIX command, the Windows command and the text
    before the final [exit] filled in. *)
Definition compose_script (posix windows before_exit : list Z) : list Z :=
  script_head ++ posix ++ script_middle ++ windows ++ script_rename
  ++ before_exit ++ script_end.

(** ** Images the pruner refuses *)

(** The state in which [Erase_Image_Chunks] is entered for the image
    [img]. *)
Definition pruner_state (img : list Z) : PDV_STRUCT :=
  mkPDV img [] [] [] [] (vsize img) 0 0 0 true.

(** A truecolor image whose only IDAT chunk stores the CRC 0. *)
Definition bad_crc_png : list Z :=
  (PNG_SIGNATURE ++ IHDR_chunk 100 100 2)
  ++ be_bytes 4 (vsize (str "abc")) ++ IDAT_SIG ++ str "abc" ++ be_bytes 4 0
  ++ IEND_chunk.

(** An indexed-colour image without palette. *)
Definition no_plte_png : list Z :=
  (PNG_SIGNATURE ++ IHDR_chunk 100 100 3)
  ++ encode_chunk IDAT_SIG (str "abc") ++ IEND_chunk.

(** An image without IDAT chunk. *)
Definition no_idat_png : list Z :=
  PNG_SIGNATURE ++ IHDR_chunk 100 100 2 ++ encode_chunk (str "tEXt") (str "hello")
  ++ IEND_chunk.

(** ** A run that pads the script *)

(** An archive whose only member is [a.pdf]: the script composed for it
    has 302 bytes, and the low byte of 302 - 12 is 0x22. *)
Definition pdf_zip : list Z := zip_single (str "a.pdf") (str "data").

Definition pdf_env : Environment :=
  mkEnv (Some sample_png) (Some pdf_zip) [] [] true.

(** The script composed for it, before [Finish_Script]. *)
Definition pdf_script : list Z :=
  compose_script (str "evince " ++ quoted (str "a.pdf"))
    (str "start /b " ++ quoted [] ++ str " " ++ quoted (str "a.pdf")) [].


(** * Properties of the embedding *)

(** ** Outcomes *)

Lemma bind_Done {A B : Type} (m : outcome A) (k : A -> outcome B) (r : B) :
  mbind k m = Done r <-> exists a, m = Done a /\ k a = Done r.
Proof.
  destruct m as [a| |]; simpl; split.
  - intros H. exists a. auto.
  - intros (a' & Ha & Hk). congruence.
  - discriminate.
  - intros (a' & Ha & _). discriminate.
  - discriminate.
  - intros (a' & Ha & _). discriminate.
Qed.

(** Splits a hypothesis [H : (x ← m; k) = Done r] into its steps. *)
Ltac bind_inv H :=
  let a := fresh "a" in
  let Ha := fresh "Hstep" in
  apply bind_Done in H; destruct H as (a & Ha & H).

Tactic Notation "bind_as" hyp(H) simple_intropattern(a) ident(Ha) :=
  apply bind_Done in H; destruct H as (a & Ha & H).

(** ** Machine integers *)

Lemma size_t_small (x : Z) : 0 <= x < 2 ^ 64 -> size_t x = x.
Proof. intros H. unfold size_t. apply Z.mod_small. exact H. Qed.

Lemma size_t_range (x : Z) : 0 <= size_t x < 2 ^ 64.
Proof. unfold size_t. apply Z.mod_pos_bound. lia. Qed.

Lemma vsize_nonneg (vec : list Z) : 0 <= vsize vec.
Proof. unfold vsize. lia. Qed.

Lemma vsize_app (a b : list Z) : vsize (a ++ b) = vsize a + vsize b.
Proof. unfold vsize. rewrite length_app. lia. Qed.

Lemma lor_shiftl_small (a b n : Z) :
  0 <= n -> 0 <= b < 2 ^ n -> Z.lor (Z.shiftl a n) b = a * 2 ^ n + b.
Proof.
  intros Hn Hb.
  assert (Hland : Z.land (Z.shiftl a n) b = 0).
  { apply Z.bits_inj'. intros m Hm. rewrite Z.land_spec, Z.bits_0.
    destruct (Z.lt_ge_cases m n) as [Hlt | Hge].
    - rewrite Z.shiftl_spec_low by lia. reflexivity.
    - assert (Hbm : Z.testbit b m = false).
      { destruct (Z.eq_dec b 0) as [-> | Hnz]; [apply Z.bits_0 |].
        apply Z.bits_above_log2; [lia |].
        apply Z.log2_lt_pow2; [lia |].
        apply Z.lt_le_trans with (2 ^ n); [lia |].
        apply Z.pow_le_mono_r; lia. }
      rewrite Hbm. apply andb_false_r. }
  rewrite <- Z.lxor_lor by exact Hland.
  rewrite <- Z.add_nocarry_lxor by exact Hland.
  rewrite Z.shiftl_mul_pow2 by lia. reflexivity.
Qed.

Lemma land_255 (x : Z) : Z.land x 0xff = x mod 256.
Proof. change 0xff with (Z.ones 8). rewrite Z.land_ones by lia. reflexivity. Qed.

Lemma byte_of_shift (v s : Z) : 0 <= s -> Z.land (Z.shiftr v s) 0xff = (v / 2 ^ s) mod 256.
Proof. intros Hs. rewrite land_255, Z.shiftr_div_pow2 by lia. reflexivity. Qed.

Lemma byte_range (x : Z) : 0 <= x mod 256 < 256.
Proof. apply Z.mod_pos_bound. lia. Qed.

(** ** Vector accesses *)

Lemma vget_Done (vec : list Z) (i b : Z) :
  vget vec i = Done b <-> 0 <= i < vsize vec /\ vec !! Z.to_nat i = Some b.
Proof.
  unfold vget.
  destruct (0 <=? i) eqn:H0; destruct (i <? vsize vec) eqn:H1; simpl;
    try (split; [discriminate | intros [? _]; lia]).
  destruct (vec !! Z.to_nat i) as [x|] eqn:Hl.
  - split; [intros [= ->]; split; [lia | reflexivity] | intros [_ [= ->]]; reflexivity].
  - split; [discriminate | intros [_ ?]; discriminate].
Qed.

Lemma vget_in_range (vec : list Z) (i : Z) :
  0 <= i < vsize vec -> exists b, vget vec i = Done b /\ vec !! Z.to_nat i = Some b.
Proof.
  intros Hi. destruct (lookup_lt_is_Some_2 vec (Z.to_nat i)) as [b Hb].
  { unfold vsize in Hi. lia. }
  exists b. split; [apply vget_Done; auto | exact Hb].
Qed.

Lemma vset_Done (vec : list Z) (i b : Z) (vec' : list Z) :
  vset vec i b = Done vec' <-> 0 <= i < vsize vec /\ vec' = <[Z.to_nat i := b]> vec.
Proof.
  unfold vset.
  destruct (0 <=? i) eqn:H0; destruct (i <? vsize vec) eqn:H1; simpl;
    try (split; [discriminate | intros [? _]; lia]).
  split; [intros [= <-]; split; [lia | reflexivity] | intros [_ ->]; reflexivity].
Qed.

Lemma vrange_Done (vec : list Z) (i j : Z) (l : list Z) :
  vrange vec i j = Done l <->
  0 <= i <= j /\ j <= vsize vec /\ l = take (Z.to_nat (j - i)) (drop (Z.to_nat i) vec).
Proof.
  unfold vrange.
  destruct (0 <=? i) eqn:H0; destruct (i <=? j) eqn:H1; destruct (j <=? vsize vec) eqn:H2;
    simpl; try (split; [discriminate | intros (? & ? & _); lia]).
  split; [intros [= <-]; repeat split; lia | intros (_ & _ & ->); reflexivity].
Qed.

Lemma vrange_length (vec : list Z) (i j : Z) (l : list Z) :
  vrange vec i j = Done l -> vsize l = j - i.
Proof.
  intros H. apply vrange_Done in H. destruct H as (Hi & Hj & ->).
  unfold vsize in *. rewrite length_take, length_drop. lia.
Qed.

Lemma vinsert_Done (vec : list Z) (pos : Z) (l vec' : list Z) :
  vinsert vec pos l = Done vec' <->
  0 <= pos <= vsize vec /\ vec' = take (Z.to_nat pos) vec ++ l ++ drop (Z.to_nat pos) vec.
Proof.
  unfold vinsert.
  destruct (0 <=? pos) eqn:H0; destruct (pos <=? vsize vec) eqn:H1; simpl;
    try (split; [discriminate | intros [? _]; lia]).
  split; [intros [= <-]; split; [lia | reflexivity] | intros [_ ->]; reflexivity].
Qed.

Lemma vinsert_size (vec : list Z) (pos : Z) (l vec' : list Z) :
  vinsert vec pos l = Done vec' -> vsize vec' = vsize vec + vsize l.
Proof.
  intros H. apply vinsert_Done in H. destruct H as (Hp & ->).
  unfold vsize in *. rewrite !length_app, length_take, length_drop. lia.
Qed.

Lemma at_index_Done {A : Type} (l : list A) (i : Z) (a : A) :
  at_index l i = Done a <-> 0 <= i < Z.of_nat (length l) /\ l !! Z.to_nat i = Some a.
Proof.
  unfold at_index.
  destruct (0 <=? i) eqn:H0; destruct (i <? Z.of_nat (length l)) eqn:H1; simpl;
    try (split; [discriminate | intros [? _]; lia]).
  destruct (l !! Z.to_nat i) as [x|] eqn:Hl.
  - split; [intros [= ->]; split; [lia | reflexivity] | intros [_ [= ->]]; reflexivity].
  - split; [discriminate | intros [_ ?]; discriminate].
Qed.


(** ** Value_Updater *)

Lemma vset_size (vec : list Z) (i b : Z) (vec' : list Z) :
  vset vec i b = Done vec' -> vsize vec' = vsize vec.
Proof.
  intros H. apply vset_Done in H. destruct H as [_ ->].
  unfold vsize. rewrite length_insert. reflexivity.
Qed.

Lemma vget_vset_eq (vec : list Z) (i b : Z) (vec' : list Z) :
  vset vec i b = Done vec' -> vget vec' i = Done b.
Proof.
  intros H. pose proof (vset_size _ _ _ _ H) as Hs.
  apply vset_Done in H. destruct H as [Hi ->].
  apply vget_Done. split; [lia |].
  apply list_lookup_insert_eq. unfold vsize in Hi. lia.
Qed.

Lemma vget_vset_ne (vec : list Z) (i b : Z) (vec' : list Z) (j : Z) :
  vset vec i b = Done vec' -> j <> i -> vget vec' j = vget vec j.
Proof.
  intros H Hne. pose proof (vset_size _ _ _ _ H) as Hs.
  apply vset_Done in H. destruct H as [Hi ->].
  unfold vget. rewrite Hs.
  destruct ((0 <=? j) && (j <? vsize vec)) eqn:Hj; [| reflexivity].
  rewrite list_lookup_insert_ne by lia. reflexivity.
Qed.

Lemma vset_in_range (vec : list Z) (i b : Z) :
  0 <= i < vsize vec -> exists vec', vset vec i b = Done vec'.
Proof. intros Hi. eexists. apply vset_Done. split; [exact Hi | reflexivity]. Qed.

Lemma vrange_nil (vec : list Z) (i : Z) :
  0 <= i <= vsize vec -> vrange vec i i = Done [].
Proof.
  intros Hi. apply vrange_Done. repeat split; try lia.
  rewrite Z.sub_diag. reflexivity.
Qed.

Lemma vrange_cons (vec : list Z) (i j b : Z) (l : list Z) :
  vget vec i = Done b -> vrange vec (i + 1) j = Done l -> vrange vec i j = Done (b :: l).
Proof.
  intros Hg Hr. apply vget_Done in Hg. destruct Hg as [Hi Hb].
  apply vrange_Done in Hr. destruct Hr as (Hij & Hj & ->).
  apply vrange_Done. repeat split; try lia.
  replace (Z.to_nat (j - i)) with (S (Z.to_nat (j - (i + 1)))) by lia.
  rewrite (drop_S _ _ _ Hb). simpl.
  replace (Z.to_nat (i + 1)) with (S (Z.to_nat i)) by lia. reflexivity.
Qed.

(** The loop of [Value_Updater], written out for the two widths in use. *)
Lemma Value_Updater_16 (vec : list Z) (i v : Z) (big : bool) :
  Value_Updater vec i v 16 big =
  (vec1 ← vset vec i (Z.land (Z.shiftr v 8) 0xff);
   vec2 ← vset vec1 (if big then size_t (i + 1) else size_t (i - 1))
            (Z.land (Z.shiftr v 0) 0xff);
   Done vec2).
Proof.
  unfold Value_Updater. simpl.
  destruct (vset vec i _) as [vec1| |]; simpl; [| reflexivity | reflexivity].
  destruct (vset vec1 _ _) as [vec2| |]; reflexivity.
Qed.

Lemma Value_Updater_32 (vec : list Z) (i v : Z) (big : bool) :
  Value_Updater vec i v 32 big =
  (let next := fun j => if big then size_t (j + 1) else size_t (j - 1) in
   vec1 ← vset vec i (Z.land (Z.shiftr v 24) 0xff);
   vec2 ← vset vec1 (next i) (Z.land (Z.shiftr v 16) 0xff);
   vec3 ← vset vec2 (next (next i)) (Z.land (Z.shiftr v 8) 0xff);
   vec4 ← vset vec3 (next (next (next i))) (Z.land (Z.shiftr v 0) 0xff);
   Done vec4).
Proof.
  unfold Value_Updater. simpl.
  destruct (vset vec i _) as [vec1| |]; simpl; [| reflexivity | reflexivity].
  destruct (vset vec1 _ _) as [vec2| |]; simpl; [| reflexivity | reflexivity].
  destruct (vset vec2 _ _) as [vec3| |]; simpl; [| reflexivity | reflexivity].
  destruct (vset vec3 _ _) as [vec4| |]; reflexivity.
Qed.

Lemma field_byte_range (v w k : Z) : 0 <= field_byte v w k < 256.
Proof. unfold field_byte. rewrite land_255. apply byte_range. Qed.

Lemma read_be_2 (v : Z) :
  read_be_bytes [field_byte v 16 0; field_byte v 16 1] 0 = v mod 2 ^ 16.
Proof.
  unfold field_byte. simpl read_be_bytes.
  change (16 - 8 * (0 + 1)) with 8. change (16 - 8 * (1 + 1)) with 0.
  rewrite !byte_of_shift by lia.
  change (2 ^ 8) with 256. change (2 ^ 16) with 65536. change (2 ^ 0) with 1.
  rewrite Z.div_1_r.
  pose proof (byte_range v). pose proof (byte_range (v / 256)).
  rewrite (lor_shiftl_small 0) by lia.
  rewrite (lor_shiftl_small _ (v mod 256)) by lia.
  change (2 ^ 8) with 256.
  pose proof (Z.div_mod v 256 ltac:(lia)).
  pose proof (Z.div_mod (v / 256) 256 ltac:(lia)).
  apply Z.mod_unique_pos with (q := v / 256 / 256); lia.
Qed.

Lemma read_le_2 (v : Z) :
  read_le_bytes [field_byte v 16 1; field_byte v 16 0] = v mod 2 ^ 16.
Proof.
  rewrite <- read_be_2. simpl.
  rewrite (Z.lor_comm (field_byte v 16 1)).
  rewrite Z.lor_0_r. reflexivity.
Qed.

Lemma read_be_4 (v : Z) :
  read_be_bytes [field_byte v 32 0; field_byte v 32 1; field_byte v 32 2; field_byte v 32 3] 0
  = v mod 2 ^ 32.
Proof.
  unfold field_byte. simpl read_be_bytes.
  change (32 - 8 * (0 + 1)) with 24. change (32 - 8 * (1 + 1)) with 16.
  change (32 - 8 * (2 + 1)) with 8. change (32 - 8 * (3 + 1)) with 0.
  rewrite !byte_of_shift by lia.
  assert (H2 : v / 2 ^ 16 = v / 256 / 256) by (rewrite Z.div_div by lia; reflexivity).
  assert (H3 : v / 2 ^ 24 = v / 256 / 256 / 256) by (rewrite !Z.div_div by lia; reflexivity).
  rewrite H2, H3. clear H2 H3.
  change (2 ^ 8) with 256. change (2 ^ 0) with 1. rewrite Z.div_1_r.
  pose proof (byte_range v). pose proof (byte_range (v / 256)).
  pose proof (byte_range (v / 256 / 256)). pose proof (byte_range (v / 256 / 256 / 256)).
  rewrite (lor_shiftl_small 0) by lia.
  rewrite (lor_shiftl_small _ (v / 256 / 256 mod 256)) by lia.
  rewrite (lor_shiftl_small _ (v / 256 mod 256)) by lia.
  rewrite (lor_shiftl_small _ (v mod 256)) by lia.
  change (2 ^ 8) with 256. change (2 ^ 32) with 4294967296.
  pose proof (Z.div_mod v 256 ltac:(lia)).
  pose proof (Z.div_mod (v / 256) 256 ltac:(lia)).
  pose proof (Z.div_mod (v / 256 / 256) 256 ltac:(lia)).
  pose proof (Z.div_mod (v / 256 / 256 / 256) 256 ltac:(lia)).
  apply Z.mod_unique_pos with (q := v / 256 / 256 / 256 / 256); lia.
Qed.

Lemma read_le_4 (v : Z) :
  read_le_bytes [field_byte v 32 3; field_byte v 32 2; field_byte v 32 1; field_byte v 32 0]
  = v mod 2 ^ 32.
Proof.
  rewrite <- read_be_4. simpl.
  pose proof (field_byte_range v 32 0). pose proof (field_byte_range v 32 1).
  pose proof (field_byte_range v 32 2). pose proof (field_byte_range v 32 3).
  rewrite !Z.lor_0_r.
  rewrite (Z.lor_comm (field_byte v 32 3)), (Z.lor_comm (field_byte v 32 2)),
    (Z.lor_comm (field_byte v 32 1)).
  rewrite (lor_shiftl_small (field_byte v 32 0) (field_byte v 32 1)) by lia.
  rewrite (lor_shiftl_small _ (field_byte v 32 2)) by lia.
  rewrite (lor_shiftl_small _ (field_byte v 32 3)) by lia.
  rewrite (lor_shiftl_small 0) by lia.
  rewrite (lor_shiftl_small _ (field_byte v 32 1)) by lia.
  rewrite (lor_shiftl_small _ (field_byte v 32 2)) by lia.
  rewrite (lor_shiftl_small _ (field_byte v 32 3)) by lia.
  lia.
Qed.

(** *** The stored bytes *)

Lemma overwrite_length (vec : list Z) (i : Z) (bs : list Z) :
  0 <= i -> i + vsize bs <= vsize vec -> length (overwrite vec i bs) = length vec.
Proof.
  unfold overwrite, vsize. intros H0 H1.
  rewrite !length_app, length_take, length_drop. lia.
Qed.

Lemma overwrite_lookup (vec : list Z) (i : Z) (bs : list Z) (j : nat) :
  0 <= i -> i + vsize bs <= vsize vec ->
  overwrite vec i bs !! j =
  if decide (Z.to_nat i <= j < Z.to_nat i + length bs)%nat
  then bs !! (j - Z.to_nat i)%nat else vec !! j.
Proof.
  unfold overwrite, vsize. intros H0 H1.
  destruct (decide (j < Z.to_nat i)%nat) as [Hlt | Hge].
  - rewrite lookup_app_l by (rewrite length_take; lia).
    rewrite lookup_take_lt by lia.
    destruct (decide _) as [Hin | _]; [lia | reflexivity].
  - rewrite lookup_app_r by (rewrite length_take; lia).
    rewrite length_take. replace (Z.to_nat i `min` length vec)%nat with (Z.to_nat i) by lia.
    destruct (decide _) as [Hin | Hout].
    + rewrite lookup_app_l by lia. reflexivity.
    + rewrite lookup_app_r by lia. rewrite lookup_drop. f_equal. lia.
Qed.

Lemma overwrite_insert_first (vec : list Z) (i b : Z) (bs : list Z) :
  0 <= i -> i + 1 + vsize bs <= vsize vec ->
  overwrite (<[Z.to_nat i := b]> vec) (i + 1) bs = overwrite vec i (b :: bs).
Proof.
  intros H0 H1. unfold vsize in H1.
  apply list_eq. intros j.
  rewrite !overwrite_lookup; unfold vsize; rewrite ?length_insert; simpl length; try lia.
  destruct (decide (Z.to_nat (i + 1) <= j < Z.to_nat (i + 1) + length bs)%nat) as [Ha | Ha];
    destruct (decide (Z.to_nat i <= j < Z.to_nat i + S (length bs))%nat) as [Hb | Hb];
    try lia.
  - replace (j - Z.to_nat i)%nat with (S (j - Z.to_nat (i + 1))) by lia. reflexivity.
  - assert (j = Z.to_nat i) as -> by lia.
    rewrite Nat.sub_diag. simpl. apply list_lookup_insert_eq. lia.
  - apply list_lookup_insert_ne. lia.
Qed.

Lemma overwrite_insert_last (vec : list Z) (i b : Z) (bs : list Z) :
  vsize bs <= i -> i < vsize vec ->
  overwrite (<[Z.to_nat i := b]> vec) (i - vsize bs) bs = overwrite vec (i - vsize bs) (bs ++ [b]).
Proof.
  intros H0 H1.
  assert (Hp : Z.to_nat (i - vsize bs) = (Z.to_nat i - length bs)%nat)
    by (unfold vsize; lia).
  assert (Hle : (length bs <= Z.to_nat i)%nat) by (unfold vsize in *; lia).
  assert (Hlt : (Z.to_nat i < length vec)%nat) by (unfold vsize in *; lia).
  apply list_eq. intros j.
  rewrite !overwrite_lookup;
    try (unfold vsize in *; rewrite ?length_insert, ?length_app; simpl length; lia).
  rewrite Hp, length_app. simpl length.
  destruct (decide (Z.to_nat i - length bs <= j < Z.to_nat i - length bs + length bs)%nat)
    as [Ha | Ha];
    destruct (decide (Z.to_nat i - length bs <= j
                      < Z.to_nat i - length bs + (length bs + 1))%nat) as [Hb | Hb];
    try lia.
  - rewrite lookup_app_l by lia. reflexivity.
  - assert (j = Z.to_nat i) as -> by lia.
    rewrite lookup_app_r by lia.
    replace (Z.to_nat i - (Z.to_nat i - length bs) - length bs)%nat with O by lia.
    simpl. apply list_lookup_insert_eq. lia.
  - apply list_lookup_insert_ne. lia.
Qed.

Lemma be_bytes_length (n : nat) (v : Z) : length (be_bytes n v) = n.
Proof. induction n as [| n IH]; simpl; [reflexivity | rewrite IH; reflexivity]. Qed.

Lemma le_bytes_length (n : nat) (v : Z) : length (le_bytes n v) = n.
Proof. unfold le_bytes. rewrite length_rev. apply be_bytes_length. Qed.

(** What [Value_Updater] does, for every width [8 * n]: in big-endian
    mode the bytes go to [i, i + 1, ...], in little-endian mode to
    [i, i - 1, ...], most significant byte first in both. *)
Lemma Value_Updater_loop_be (n : nat) : forall (fuel : nat) (vec : list Z) (i v : Z),
  (n <= fuel)%nat -> 0 <= i < 2 ^ 64 -> vsize vec < 2 ^ 64 ->
  Value_Updater_loop fuel vec i v (8 * Z.of_nat n) true =
  if decide (n = O) then Done vec
  else if i + Z.of_nat n <=? vsize vec then Done (overwrite vec i (be_bytes n v))
  else Undefined.
Proof.
  induction n as [| n IH]; intros fuel vec i v Hfuel Hi Hsz.
  - destruct fuel; reflexivity.
  - destruct fuel as [| fuel]; [lia |].
    cbn [Value_Updater_loop].
    replace (8 * Z.of_nat (S n) =? 0) with false by (symmetry; apply Z.eqb_neq; lia).
    replace (8 * Z.of_nat (S n) - 8) with (8 * Z.of_nat n) by lia.
    replace (8 * Z.of_nat n <? 0) with false by (symmetry; apply Z.ltb_ge; lia).
    destruct (decide (S n = O)) as [? | _]; [lia |].
    unfold vset.
    destruct (0 <=? i) eqn:H0; [| lia].
    destruct (i <? vsize vec) eqn:H1; cbn [andb mbind outcome_bind].
    + apply Z.ltb_lt in H1.
      rewrite size_t_small by lia.
      rewrite IH; [| lia | lia | unfold vsize in *; rewrite length_insert; lia].
      assert (Hs : vsize (<[Z.to_nat i := Z.land (Z.shiftr v (8 * Z.of_nat n)) 255]> vec)
                   = vsize vec) by (unfold vsize; rewrite length_insert; reflexivity).
      rewrite Hs.
      destruct (decide (n = O)) as [-> | Hn].
      * replace (i + Z.of_nat 1 <=? vsize vec) with true by (symmetry; apply Z.leb_le; lia).
        f_equal. simpl be_bytes. unfold overwrite. simpl length.
        rewrite insert_take_drop by (unfold vsize in *; lia).
        simpl. do 3 f_equal. lia.
      * replace (i + Z.of_nat (S n) <=? vsize vec) with (i + 1 + Z.of_nat n <=? vsize vec)
          by (f_equal; lia).
        destruct (i + 1 + Z.of_nat n <=? vsize vec) eqn:H2; [| reflexivity].
        apply Z.leb_le in H2. f_equal.
        simpl be_bytes. apply overwrite_insert_first; [lia |].
        unfold vsize at 1. rewrite be_bytes_length. lia.
    + apply Z.ltb_ge in H1.
      replace (i + Z.of_nat (S n) <=? vsize vec) with false
        by (symmetry; apply Z.leb_gt; lia).
      reflexivity.
Qed.

Lemma Value_Updater_loop_le (n : nat) : forall (fuel : nat) (vec : list Z) (i v : Z),
  (n <= fuel)%nat -> 0 <= i < 2 ^ 64 -> vsize vec < 2 ^ 64 ->
  Value_Updater_loop fuel vec i v (8 * Z.of_nat n) false =
  if decide (n = O) then Done vec
  else if (Z.of_nat n - 1 <=? i) && (i <? vsize vec)
       then Done (overwrite vec (i - Z.of_nat n + 1) (le_bytes n v))
       else Undefined.
Proof.
  induction n as [| n IH]; intros fuel vec i v Hfuel Hi Hsz.
  - destruct fuel; reflexivity.
  - destruct fuel as [| fuel]; [lia |].
    cbn [Value_Updater_loop].
    replace (8 * Z.of_nat (S n) =? 0) with false by (symmetry; apply Z.eqb_neq; lia).
    replace (8 * Z.of_nat (S n) - 8) with (8 * Z.of_nat n) by lia.
    replace (8 * Z.of_nat n <? 0) with false by (symmetry; apply Z.ltb_ge; lia).
    destruct (decide (S n = O)) as [? | _]; [lia |].
    unfold vset.
    destruct (0 <=? i) eqn:H0; [| lia].
    destruct (i <? vsize vec) eqn:H1; cbn [andb mbind outcome_bind];
      [| rewrite andb_false_r; reflexivity].
    apply Z.ltb_lt in H1.
    set (b := Z.land (Z.shiftr v (8 * Z.of_nat n)) 255).
    assert (Hs : vsize (<[Z.to_nat i := b]> vec) = vsize vec)
      by (unfold vsize; rewrite length_insert; reflexivity).
    rewrite IH; [| lia | apply size_t_range | rewrite Hs; lia].
    rewrite Hs.
    destruct (decide (n = O)) as [-> | Hn].
    + replace (Z.of_nat 1 - 1 <=? i) with true by (symmetry; apply Z.leb_le; lia).
      cbn [andb]. f_equal.
      unfold le_bytes; simpl be_bytes; simpl rev. fold b.
      unfold overwrite. simpl length.
      rewrite insert_take_drop by (unfold vsize in *; lia).
      replace (Z.to_nat (i - Z.of_nat 1 + 1)) with (Z.to_nat i) by lia.
      simpl. do 3 f_equal. lia.
    + destruct (Z.eq_dec i 0) as [-> | Hi0].
      * replace (size_t (0 - 1)) with (2 ^ 64 - 1) by reflexivity.
        replace (2 ^ 64 - 1 <? vsize vec) with false by (symmetry; apply Z.ltb_ge; lia).
        rewrite andb_false_r.
        replace (Z.of_nat (S n) - 1 <=? 0) with false by (symmetry; apply Z.leb_gt; lia).
        reflexivity.
      * rewrite size_t_small by lia.
        replace (Z.of_nat (S n) - 1 <=? i) with (Z.of_nat n - 1 <=? i - 1)
          by (apply eq_true_iff_eq; rewrite !Z.leb_le; lia).
        replace (i - 1 <? vsize vec) with true by (symmetry; apply Z.ltb_lt; lia).
        rewrite andb_true_r.
        destruct (Z.of_nat n - 1 <=? i - 1) eqn:H2; [| reflexivity].
        apply Z.leb_le in H2. f_equal.
        replace (i - 1 - Z.of_nat n + 1) with (i - vsize (le_bytes n v))
          by (unfold vsize; rewrite le_bytes_length; lia).
        replace (i - Z.of_nat (S n) + 1) with (i - vsize (le_bytes n v))
          by (unfold vsize; rewrite le_bytes_length; lia).
        unfold le_bytes at 4. simpl be_bytes. simpl rev. fold b. fold (le_bytes n v).
        apply overwrite_insert_last; [| lia].
        unfold vsize. rewrite le_bytes_length. lia.
Qed.

Lemma Value_Updater_be (n : nat) (vec : list Z) (i v : Z) :
  0 <= i < 2 ^ 64 -> vsize vec < 2 ^ 64 -> n <> O ->
  Value_Updater vec i v (8 * Z.of_nat n) true =
  if i + Z.of_nat n <=? vsize vec then Done (overwrite vec i (be_bytes n v)) else Undefined.
Proof.
  intros Hi Hsz Hn. unfold Value_Updater.
  rewrite Value_Updater_loop_be by lia.
  destruct (decide (n = O)) as [? | _]; [contradiction | reflexivity].
Qed.

Lemma Value_Updater_le (n : nat) (vec : list Z) (i v : Z) :
  0 <= i < 2 ^ 64 -> vsize vec < 2 ^ 64 -> n <> O ->
  Value_Updater vec i v (8 * Z.of_nat n) false =
  if (Z.of_nat n - 1 <=? i) && (i <? vsize vec)
  then Done (overwrite vec (i - Z.of_nat n + 1) (le_bytes n v))
  else Undefined.
Proof.
  intros Hi Hsz Hn. unfold Value_Updater.
  rewrite Value_Updater_loop_le by lia.
  destruct (decide (n = O)) as [? | _]; [contradiction | reflexivity].
Qed.

Lemma vsize_overwrite (vec : list Z) (i : Z) (bs : list Z) :
  0 <= i -> i + vsize bs <= vsize vec -> vsize (overwrite vec i bs) = vsize vec.
Proof. intros H0 H1. unfold vsize. f_equal. apply overwrite_length; assumption. Qed.

Lemma vget_overwrite_in (vec : list Z) (i : Z) (bs : list Z) (k b : Z) :
  0 <= i -> i + vsize bs <= vsize vec ->
  vget bs k = Done b -> vget (overwrite vec i bs) (i + k) = Done b.
Proof.
  intros H0 H1 Hk. apply vget_Done in Hk. destruct Hk as [Hk Hb].
  apply vget_Done. rewrite vsize_overwrite by assumption. split; [lia |].
  rewrite overwrite_lookup by assumption.
  unfold vsize in *.
  destruct (decide _) as [_ | Hn]; [| lia].
  rewrite <- Hb. f_equal. lia.
Qed.

Lemma vget_overwrite_out (vec : list Z) (i : Z) (bs : list Z) (j : Z) :
  0 <= i -> i + vsize bs <= vsize vec ->
  j < i \/ i + vsize bs <= j -> vget (overwrite vec i bs) j = vget vec j.
Proof.
  intros H0 H1 Hj. unfold vget. rewrite vsize_overwrite by assumption.
  destruct ((0 <=? j) && (j <? vsize vec)) eqn:Hr; [| reflexivity].
  rewrite overwrite_lookup by assumption.
  unfold vsize in *. destruct (decide _) as [Hin | _]; [lia | reflexivity].
Qed.

Lemma vrange_overwrite (vec : list Z) (i : Z) (bs : list Z) :
  0 <= i -> i + vsize bs <= vsize vec ->
  vrange (overwrite vec i bs) i (i + vsize bs) = Done bs.
Proof.
  intros H0 H1. apply vrange_Done. rewrite vsize_overwrite by assumption.
  repeat split; try (unfold vsize in *; lia).
  unfold overwrite. rewrite drop_app_length'.
  2:{ rewrite length_take. unfold vsize in *. lia. }
  replace (Z.to_nat (i + vsize bs - i)) with (length bs) by (unfold vsize; lia).
  rewrite take_app_length. reflexivity.
Qed.


(** ** The script composer *)

Lemma find_last_of_from_range (s : list Z) : forall (c i last : Z),
  find_last_of_from s c i last = last \/
  i <= find_last_of_from s c i last < i + vsize s.
Proof.
  induction s as [| b s IH]; intros c i last; simpl; [left; reflexivity |].
  unfold vsize in *. simpl length.
  destruct (IH c (i + 1) (if b =? c then i else last)) as [-> | H].
  - destruct (b =? c); [right; lia | left; reflexivity].
  - right. lia.
Qed.

Lemma find_last_of_from_found (s : list Z) : forall (c i last : Z) (p : nat),
  s !! p = Some c ->
  i + Z.of_nat p <= find_last_of_from s c i last < i + vsize s.
Proof.
  induction s as [| b s IH]; intros c i last p Hp; [discriminate |].
  simpl. unfold vsize in *. simpl length.
  destruct p as [| p].
  - injection Hp as ->. rewrite Z.eqb_refl.
    destruct (find_last_of_from_range s c (i + 1) i) as [-> | H]; unfold vsize in *; lia.
  - simpl in Hp. specialize (IH c (i + 1) (if b =? c then i else last) p Hp). lia.
Qed.

(** A name with a dot after its first character has an extension, as
    [Complete_Extraction_Script] tests it. *)
Lemma find_last_of_dot (name : list Z) (p : nat) :
  (0 < p)%nat -> name !! p = Some 0x2E ->
  (find_last_of name 0x2E =? 0) || (find_last_of name 0x2E >? vsize name) = false.
Proof.
  intros Hp Hdot. unfold find_last_of.
  pose proof (find_last_of_from_found name 0x2E 0 npos p Hdot) as H.
  apply orb_false_intro; [apply Z.eqb_neq | rewrite Z.gtb_ltb; apply Z.ltb_ge]; lia.
Qed.

(** No entry of [App_Vec] matches: the loop leaves [app_index] at 26. *)
Lemma Match_Ext_loop_none (App_Vec : list (list Z)) (ext : list Z) :
  (forall (k : nat) s, (k < 26)%nat -> App_Vec !! k = Some s -> s <> ext) ->
  (26 <= length App_Vec)%nat ->
  forall (n : nat), (n <= 26)%nat ->
  Match_Ext_loop n App_Vec ext (26 - Z.of_nat n) = Done 26.
Proof.
  intros Hne Hlen. induction n as [| n IH]; intros Hn.
  - reflexivity.
  - cbn [Match_Ext_loop].
    replace (26 - Z.of_nat (S n) =? 26) with false by (symmetry; apply Z.eqb_neq; lia).
    cbn [negb].
    destruct (lookup_lt_is_Some_2 App_Vec (Z.to_nat (26 - Z.of_nat (S n)))) as [s Hs]; [lia |].
    assert (Hat : at_index App_Vec (26 - Z.of_nat (S n)) = Done s)
      by (apply at_index_Done; split; [lia | exact Hs]).
    rewrite Hat. cbn [mbind outcome_bind].
    rewrite bool_decide_eq_false_2 by (apply (Hne _ s) in Hs; [exact Hs | lia]).
    replace (26 - Z.of_nat (S n) + 1) with (26 - Z.of_nat n) by lia.
    apply IH. lia.
Qed.

Lemma App_Vec_no_key (name ext : list Z) :
  length ext = 3%nat -> ext ∉ extension_keys_20 ->
  forall (k : nat) s, (k < 26)%nat -> (App_Vec_init ++ [name]) !! k = Some s -> s <> ext.
Proof.
  intros Hlen Hnot k s Hk Hs.
  rewrite lookup_app_l in Hs by (simpl; lia).
  destruct (decide (k < 20)%nat) as [Hlt | Hge].
  - intros ->. apply Hnot. unfold extension_keys_20.
    apply list_elem_of_lookup. exists k. rewrite lookup_take_lt by exact Hlt. exact Hs.
  - intros ->.
    do 20 (destruct k as [| k]; [lia |]).
    do 6 (destruct k as [| k]; [injection Hs as <-; discriminate Hlen |]).
    lia.
Qed.

Lemma Select_Launcher_unmatched (Zip name : list Z) (len : Z) (p : nat) :
  length name = 3%nat \/ (3 < length name)%nat ->
  last_three name ∉ extension_keys_20 ->
  (0 < p)%nat -> name !! p = Some 0x2E ->
  Select_Launcher Zip (App_Vec_init ++ [name]) name (last_three name) len = Done 26.
Proof.
  intros Hlen Hnot Hp Hdot. unfold Select_Launcher.
  assert (Hext : length (last_three name) = 3%nat)
    by (unfold last_three; rewrite length_drop; lia).
  assert (Hm : Match_Ext_loop 26 (App_Vec_init ++ [name]) (last_three name) 0 = Done 26).
  { apply (Match_Ext_loop_none _ _ (App_Vec_no_key name _ Hext Hnot)
             ltac:(rewrite length_app; simpl; lia) 26%nat). lia. }
  rewrite Hm. cbn [mbind outcome_bind].
  rewrite (find_last_of_dot name p Hp Hdot). reflexivity.
Qed.

Lemma vinsert_prefix (pre rest : list Z) (pos : Z) (l : list Z) :
  0 <= pos <= vsize pre ->
  vinsert (pre ++ rest) pos l
  = Done (take (Z.to_nat pos) pre ++ l ++ drop (Z.to_nat pos) pre ++ rest).
Proof.
  intros Hpos. apply vinsert_Done. rewrite vsize_app.
  pose proof (vsize_nonneg rest). split; [lia |].
  unfold vsize in *.
  rewrite take_app_le by lia. rewrite drop_app_le by lia. reflexivity.
Qed.

Lemma Insert_loop_step (fuel : nat) (Script Sequence_Vec : list Z)
    (App_Vec : list (list Z)) (limit insert_index app_index pos app : Z)
    (text Script' : list Z) :
  limit > insert_index ->
  at_index Sequence_Vec insert_index = Done pos ->
  at_index Sequence_Vec app_index = Done app ->
  at_index App_Vec app = Done text ->
  vinsert Script pos text = Done Script' ->
  Insert_loop (S fuel) Script Sequence_Vec App_Vec limit insert_index app_index
  = Insert_loop fuel Script' Sequence_Vec App_Vec limit (insert_index + 1) (app_index + 1).
Proof.
  intros Hlim Hpos Happ Htext Hins. cbn [Insert_loop].
  replace (limit >? insert_index) with true by (symmetry; apply Z.gtb_lt; lia).
  rewrite Hpos. cbn [mbind outcome_bind]. rewrite Happ. cbn [mbind outcome_bind].
  rewrite Htext. cbn [mbind outcome_bind]. rewrite Hins. reflexivity.
Qed.


(** ** std::search *)

Lemma starts_with_take (sig : list Z) : forall l : list Z,
  starts_with sig l = true <-> take (length sig) l = sig.
Proof.
  induction sig as [| a sig IH]; intros l; simpl.
  - split; reflexivity.
  - destruct l as [| b l]; simpl.
    + split; discriminate.
    + rewrite andb_true_iff, IH, Z.eqb_eq. split.
      * intros [-> ->]. reflexivity.
      * intros [= -> ->]. auto.
Qed.

Lemma search_from_le (hay sig : list Z) : (search_from hay sig <= length hay)%nat.
Proof.
  induction hay as [| b hay IH]; simpl; [lia |].
  destruct (starts_with sig (b :: hay)); simpl; lia.
Qed.

Lemma search_from_found (hay sig : list Z) :
  (search_from hay sig < length hay)%nat ->
  take (length sig) (drop (search_from hay sig) hay) = sig.
Proof.
  induction hay as [| b hay IH]; simpl; [lia |].
  destruct (starts_with sig (b :: hay)) eqn:Hs.
  - intros _. apply starts_with_take. exact Hs.
  - simpl. intros H. apply IH. lia.
Qed.

Lemma search_from_first (hay sig : list Z) : forall q : nat,
  (q < search_from hay sig)%nat -> take (length sig) (drop q hay) <> sig.
Proof.
  induction hay as [| b hay IH]; intros q; simpl; [lia |].
  destruct (starts_with sig (b :: hay)) eqn:Hs; [lia |].
  intros Hq. destruct q as [| q].
  - simpl. intros H. apply starts_with_take in H. congruence.
  - simpl. apply IH. lia.
Qed.

Lemma search_from_unique (hay sig : list Z) : forall p : nat,
  (p < length hay)%nat ->
  take (length sig) (drop p hay) = sig ->
  (forall q, (q < p)%nat -> take (length sig) (drop q hay) <> sig) ->
  search_from hay sig = p.
Proof.
  intros p Hp Hocc Hfirst.
  pose proof (search_from_le hay sig) as Hle.
  destruct (Nat.lt_trichotomy (search_from hay sig) p) as [Hlt | [Heq | Hgt]].
  - exfalso. apply (Hfirst _ Hlt). apply search_from_found. lia.
  - exact Heq.
  - exfalso. exact (search_from_first hay sig p Hgt Hocc).
Qed.

Lemma search_from_none (hay sig : list Z) :
  (forall q, (q < length hay)%nat -> take (length sig) (drop q hay) <> sig) ->
  search_from hay sig = length hay.
Proof.
  intros Hnone. pose proof (search_from_le hay sig) as Hle.
  destruct (decide (search_from hay sig = length hay)) as [Heq | Hne]; [exact Heq |].
  exfalso. apply (Hnone (search_from hay sig)); [lia |].
  apply search_from_found. lia.
Qed.

Lemma occurs_lt (vec : list Z) (p : Z) (sig : list Z) :
  sig <> [] -> occurs vec p sig -> p + vsize sig <= vsize vec.
Proof.
  intros Hne [Hp Ht]. apply (f_equal (@length Z)) in Ht.
  rewrite length_take, length_drop in Ht. unfold vsize.
  destruct sig as [| a sig]; [contradiction |]. simpl length in *. lia.
Qed.

Lemma occurs_shift (vec : list Z) (from q : Z) (sig : list Z) :
  0 <= from -> 0 <= q ->
  take (length sig) (drop (Z.to_nat q) (drop (Z.to_nat from) vec)) = sig <->
  occurs vec (from + q) sig.
Proof.
  intros Hf Hq. unfold occurs. rewrite drop_drop.
  replace (Z.to_nat from + Z.to_nat q)%nat with (Z.to_nat (from + q)) by lia.
  split; [intros H; split; [lia | exact H] | intros [_ H]; exact H].
Qed.

Lemma search_Done (vec : list Z) (from : Z) (sig : list Z) (r : Z) :
  search vec from sig = Done r ->
  0 <= from <= r /\ r <= vsize vec /\
  (r < vsize vec -> occurs vec r sig) /\
  (forall q, from <= q < r -> ~ occurs vec q sig).
Proof.
  unfold search.
  destruct (0 <=? from) eqn:H0; destruct (from <=? vsize vec) eqn:H1; simpl;
    try discriminate.
  intros [= <-]. apply Z.leb_le in H0, H1.
  set (hay := drop (Z.to_nat from) vec).
  pose proof (search_from_le hay sig) as Hle.
  assert (Hlen : length hay = (length vec - Z.to_nat from)%nat)
    by (unfold hay; apply length_drop).
  assert (Hhay : hay = drop (Z.to_nat from) vec) by reflexivity.
  clearbody hay. unfold vsize in *.
  split; [lia |]. split; [lia |]. split.
  - intros Hlt. apply occurs_shift; [lia | lia |]. rewrite Nat2Z.id, <- Hhay.
    apply search_from_found. lia.
  - intros q Hq Hocc.
    replace q with (from + Z.of_nat (Z.to_nat (q - from))) in Hocc by lia.
    apply occurs_shift in Hocc; [| lia | lia]. rewrite Nat2Z.id, <- Hhay in Hocc.
    revert Hocc. apply search_from_first. lia.
Qed.

Lemma search_in_range (vec : list Z) (from : Z) (sig : list Z) :
  0 <= from <= vsize vec -> exists r, search vec from sig = Done r.
Proof.
  intros H. unfold search.
  replace (0 <=? from) with true by (symmetry; apply Z.leb_le; lia).
  replace (from <=? vsize vec) with true by (symmetry; apply Z.leb_le; lia).
  eexists. reflexivity.
Qed.

Lemma search_intro (vec : list Z) (from : Z) (sig : list Z) (p : Z) :
  sig <> [] -> 0 <= from <= p ->
  occurs vec p sig ->
  (forall q, from <= q < p -> ~ occurs vec q sig) ->
  search vec from sig = Done p.
Proof.
  intros Hne Hfp Hocc Hfirst.
  pose proof (occurs_lt vec p sig Hne Hocc) as Hlt.
  assert (Hsig : 0 < vsize sig) by (unfold vsize; destruct sig; [contradiction | simpl; lia]).
  unfold search.
  replace (0 <=? from) with true by (symmetry; apply Z.leb_le; lia).
  replace (from <=? vsize vec) with true by (symmetry; apply Z.leb_le; lia).
  simpl. f_equal.
  rewrite (search_from_unique _ sig (Z.to_nat (p - from))).
  - lia.
  - rewrite length_drop. unfold vsize in *. lia.
  - apply occurs_shift; [lia | lia |]. replace (from + (p - from)) with p by lia. exact Hocc.
  - intros q Hq Hocc'.
    apply (Hfirst (from + Z.of_nat q)); [lia |].
    rewrite <- (Nat2Z.id q) in Hocc'. apply occurs_shift in Hocc'; [exact Hocc' | lia | lia].
Qed.

Lemma search_none (vec : list Z) (from : Z) (sig : list Z) :
  0 <= from <= vsize vec ->
  (forall q, from <= q -> ~ occurs vec q sig) ->
  search vec from sig = Done (vsize vec).
Proof.
  intros Hf Hnone. unfold search.
  replace (0 <=? from) with true by (symmetry; apply Z.leb_le; lia).
  replace (from <=? vsize vec) with true by (symmetry; apply Z.leb_le; lia).
  simpl. f_equal. rewrite search_from_none.
  - rewrite length_drop. unfold vsize in *. lia.
  - intros q Hq Hocc. apply (Hnone (from + Z.of_nat q)); [lia |].
    rewrite <- (Nat2Z.id q) in Hocc. apply occurs_shift in Hocc; [exact Hocc | lia | lia].
Qed.

(** An occurrence depends only on the bytes it covers. *)
Lemma take_drop_agree (vec vec' : list Z) (p n : nat) :
  (forall j, (p <= j < p + n)%nat -> vec' !! j = vec !! j) ->
  take n (drop p vec') = take n (drop p vec).
Proof.
  intros Hagree. apply list_eq. intros i.
  destruct (decide (i < n)%nat) as [Hi | Hi].
  - rewrite !lookup_take_lt by exact Hi. rewrite !lookup_drop. apply Hagree. lia.
  - rewrite !lookup_take_ge by lia. reflexivity.
Qed.

Lemma occurs_agree (vec vec' : list Z) (p : Z) (sig : list Z) :
  (forall j, (Z.to_nat p <= j < Z.to_nat p + length sig)%nat -> vec' !! j = vec !! j) ->
  occurs vec p sig -> occurs vec' p sig.
Proof.
  intros Hagree [Hp Ht]. split; [exact Hp |].
  rewrite (take_drop_agree vec vec') by exact Hagree. exact Ht.
Qed.

Lemma search_agree (vec vec' : list Z) (from : Z) (sig : list Z) (r : Z) :
  sig <> [] -> vsize vec' = vsize vec ->
  search vec from sig = Done r -> r < vsize vec ->
  (forall j, (Z.to_nat from <= j < Z.to_nat r + length sig)%nat -> vec' !! j = vec !! j) ->
  search vec' from sig = Done r.
Proof.
  intros Hne Hsz Hs Hr Hagree.
  apply search_Done in Hs. destruct Hs as (Hfr & Hrv & Hocc & Hfirst).
  apply search_intro; [exact Hne | lia | |].
  - apply (occurs_agree vec vec'); [| apply Hocc; exact Hr].
    intros j Hj. apply Hagree. lia.
  - intros q Hq Hocc'. apply (Hfirst q Hq).
    apply (occurs_agree vec' vec); [| exact Hocc'].
    intros j Hj. symmetry. apply Hagree. lia.
Qed.


(** ** The ZIP offset fixer *)

Lemma Value_Updater_le32 (vec : list Z) (c v : Z) :
  0 <= c < 2 ^ 64 -> vsize vec < 2 ^ 64 ->
  Value_Updater vec c v 32 false =
  if (3 <=? c) && (c <? vsize vec)
  then Done (overwrite vec (c - 3) (le_bytes 4 v)) else Undefined.
Proof.
  intros Hc Hsz. change 32 with (8 * Z.of_nat 4).
  rewrite Value_Updater_le by (lia || discriminate).
  change (Z.of_nat 4 - 1) with 3. replace (c - Z.of_nat 4 + 1) with (c - 3) by lia.
  reflexivity.
Qed.

Lemma Value_Updater_le16 (vec : list Z) (c v : Z) :
  0 <= c < 2 ^ 64 -> vsize vec < 2 ^ 64 ->
  Value_Updater vec c v 16 false =
  if (1 <=? c) && (c <? vsize vec)
  then Done (overwrite vec (c - 1) (le_bytes 2 v)) else Undefined.
Proof.
  intros Hc Hsz. change 16 with (8 * Z.of_nat 2).
  rewrite Value_Updater_le by (lia || discriminate).
  change (Z.of_nat 2 - 1) with 1. replace (c - Z.of_nat 2 + 1) with (c - 1) by lia.
  reflexivity.
Qed.

Lemma Value_Updater_be32 (vec : list Z) (c v : Z) :
  0 <= c < 2 ^ 64 -> vsize vec < 2 ^ 64 ->
  Value_Updater vec c v 32 true =
  if c + 4 <=? vsize vec then Done (overwrite vec c (be_bytes 4 v)) else Undefined.
Proof.
  intros Hc Hsz. change 32 with (8 * Z.of_nat 4).
  rewrite Value_Updater_be by (lia || discriminate). reflexivity.
Qed.

Lemma Value_Updater_be16 (vec : list Z) (c v : Z) :
  0 <= c < 2 ^ 64 -> vsize vec < 2 ^ 64 ->
  Value_Updater vec c v 16 true =
  if c + 2 <=? vsize vec then Done (overwrite vec c (be_bytes 2 v)) else Undefined.
Proof.
  intros Hc Hsz. change 16 with (8 * Z.of_nat 2).
  rewrite Value_Updater_be by (lia || discriminate). reflexivity.
Qed.

Lemma overwrite_lookup_out (vec : list Z) (i : Z) (bs : list Z) (j : nat) :
  0 <= i -> i + vsize bs <= vsize vec ->
  (j < Z.to_nat i \/ Z.to_nat i + length bs <= j)%nat ->
  overwrite vec i bs !! j = vec !! j.
Proof.
  intros H0 H1 Hj. rewrite overwrite_lookup by assumption.
  destruct (decide _) as [Hin | _]; [lia | reflexivity].
Qed.

Lemma overwrite_lookup_in (vec : list Z) (i : Z) (bs : list Z) (k : nat) :
  0 <= i -> i + vsize bs <= vsize vec -> (k < length bs)%nat ->
  overwrite vec i bs !! (Z.to_nat i + k)%nat = bs !! k.
Proof.
  intros H0 H1 Hk. rewrite overwrite_lookup by assumption.
  destruct (decide _) as [_ | Hout]; [f_equal; lia | lia].
Qed.

(** One round of the entry loop. *)
Lemma Fix_Records_loop_step (n : nat) (vec : list Z) (o c : Z) (calls : list (Z * Z))
    (r : list Z * list (Z * Z)) :
  vsize vec < 2 ^ 63 ->
  Fix_Records_loop (S n) vec o c calls = Done r ->
  exists o' f,
    search vec (o + 1) ZIP_SIG = Done o' /\
    search vec c START_CENTRAL_DIR_SIG = Done f /\
    f + 45 < vsize vec /\
    Fix_Records_loop n (overwrite vec (f + 42) (le_bytes 4 o')) o' (f + 45)
      (calls ++ [(f + 45, o')]) = Done r.
Proof.
  intros Hsz H. cbn [Fix_Records_loop] in H.
  bind_inv H. rename a into o'. bind_inv H. rename a into f.
  exists o', f. split; [exact Hstep |]. split; [exact Hstep0 |].
  pose proof (search_Done _ _ _ _ Hstep0) as (Hf0 & Hf1 & _).
  rewrite (size_t_small (45 + f)) in H by lia.
  rewrite Value_Updater_le32 in H by lia.
  destruct ((3 <=? 45 + f) && (45 + f <? vsize vec)) eqn:Hr; [| discriminate H].
  apply andb_true_iff in Hr. destruct Hr as [_ Hr]. apply Z.ltb_lt in Hr.
  cbn [mbind outcome_bind] in H.
  replace (45 + f - 3) with (f + 42) in H by lia.
  replace (45 + f) with (f + 45) in H by lia.
  split; [lia | exact H].
Qed.

(** The loop makes exactly [n] calls, at indices that grow by at least 45,
    keeps the size, and leaves every byte below its first field alone. *)
Lemma Fix_Records_loop_frame (n : nat) : forall (vec : list Z) (o c : Z)
    (calls : list (Z * Z)) (vec' : list Z) (calls' : list (Z * Z)),
  vsize vec < 2 ^ 63 -> 0 <= c ->
  Fix_Records_loop n vec o c calls = Done (vec', calls') ->
  vsize vec' = vsize vec /\
  (forall j : nat, (j < Z.to_nat (c + 42))%nat -> vec' !! j = vec !! j) /\
  exists new,
    calls' = calls ++ new /\ length new = n /\
    Forall (fun call => c + 45 <= fst call < vsize vec) new /\
    (forall (k : nat) c1 v1 c2 v2,
       new !! k = Some (c1, v1) -> new !! S k = Some (c2, v2) -> c1 + 45 <= c2).
Proof.
  induction n as [| n IH]; intros vec o c calls vec' calls' Hsz Hc H.
  - injection H as <- <-. split; [reflexivity |]. split; [reflexivity |].
    exists []. rewrite app_nil_r. repeat split; [constructor |].
    intros k ? ? ? ? Hk. discriminate Hk.
  - apply Fix_Records_loop_step in H; [| exact Hsz].
    destruct H as (o' & f & Ho & Hf & Hfr & H).
    pose proof (search_Done _ _ _ _ Hf) as (Hf0 & Hf1 & _).
    assert (Hb : f + 42 + vsize (le_bytes 4 o') <= vsize vec)
      by (change (vsize (le_bytes 4 o')) with 4; lia).
    assert (Hs1 : vsize (overwrite vec (f + 42) (le_bytes 4 o')) = vsize vec)
      by (apply vsize_overwrite; lia).
    apply IH in H; [| rewrite Hs1; exact Hsz | lia].
    destruct H as (Hs & Hframe & new & Hcalls & Hlen & Hall & Hinc).
    split; [rewrite Hs; exact Hs1 |]. split.
    + intros j Hj. rewrite Hframe by lia.
      apply overwrite_lookup_out; [lia | exact Hb | lia].
    + exists ((f + 45, o') :: new). split; [| split; [| split]].
      * rewrite Hcalls, <- app_assoc. reflexivity.
      * simpl. rewrite Hlen. reflexivity.
      * constructor; [simpl; lia |].
        eapply Forall_impl; [exact Hall |]. intros [ci v]. simpl. rewrite Hs1. lia.
      * intros k c1 v1 c2 v2 Hk1 Hk2. destruct k as [| k].
        -- injection Hk1 as <- <-. simpl in Hk2.
           apply (Forall_lookup_1 _ _ _ _ Hall) in Hk2. simpl in Hk2. lia.
        -- simpl in Hk1, Hk2. exact (Hinc k c1 v1 c2 v2 Hk1 Hk2).
Qed.

Lemma Locate_Central_Dir_Done (vec : list Z) (I : Z) (lay : Zip_Layout) :
  vsize vec < 2 ^ 63 ->
  Locate_Central_Dir vec I = Done lay ->
  exists hi lo,
    search vec I START_CENTRAL_DIR_SIG = Done (START_CENTRAL_DIR_INDEX lay) /\
    search vec (START_CENTRAL_DIR_INDEX lay) END_CENTRAL_DIR_SIG
    = Done (END_CENTRAL_DIR_INDEX lay) /\
    vget vec (END_CENTRAL_DIR_INDEX lay + 11) = Done hi /\
    vget vec (END_CENTRAL_DIR_INDEX lay + 10) = Done lo /\
    zip_records lay = Z.lor (Z.shiftl hi 8) lo.
Proof.
  intros Hsz H. unfold Locate_Central_Dir in H.
  bind_inv H. rename a into START. bind_inv H. rename a into END.
  pose proof (search_Done _ _ _ _ Hstep) as (Hs0 & Hs1 & _).
  pose proof (search_Done _ _ _ _ Hstep0) as (He0 & He1 & _).
  rewrite (size_t_small (END + 11)) in H by lia.
  rewrite (size_t_small (END + 11 - 1)) in H by lia.
  replace (END + 11 - 1) with (END + 10) in H by lia.
  bind_inv H. rename a into hi. bind_inv H. rename a into lo.
  injection H as <-. exists hi, lo. simpl. auto.
Qed.

Lemma Fix_Zip_Entries_Done (vec : list Z) (I : Z) (vec1 : list Z) (lay : Zip_Layout)
    (calls : list (Z * Z)) :
  vsize vec < 2 ^ 63 ->
  Fix_Zip_Entries vec I = Done (vec1, lay, calls) ->
  exists vec0,
    Locate_Central_Dir vec I = Done lay /\
    Fix_Records_loop (Z.to_nat (zip_records lay)) vec I
      (size_t (START_CENTRAL_DIR_INDEX lay - 1)) [] = Done (vec0, calls) /\
    END_CENTRAL_DIR_INDEX lay + 19 < vsize vec /\
    vec1 = overwrite vec0 (END_CENTRAL_DIR_INDEX lay + 16)
             (le_bytes 4 (START_CENTRAL_DIR_INDEX lay)).
Proof.
  intros Hsz H. unfold Fix_Zip_Entries in H.
  bind_inv H. rename a into lay'.
  pose proof (Locate_Central_Dir_Done _ _ _ Hsz Hstep) as (hi & lo & Hs & He & _).
  pose proof (search_Done _ _ _ _ Hs) as (Hs0 & Hs1 & _).
  pose proof (search_Done _ _ _ _ He) as (He0 & He1 & _).
  bind_inv H. destruct a as [vec0 calls0]. cbn beta iota in H.
  pose proof (size_t_range (START_CENTRAL_DIR_INDEX lay' - 1)) as Hc.
  pose proof (Fix_Records_loop_frame _ _ _ _ _ _ _ Hsz (proj1 Hc) Hstep0) as (Hsz0 & _).
  rewrite (size_t_small (END_CENTRAL_DIR_INDEX lay' + 19)) in H by lia.
  rewrite Value_Updater_le32 in H by lia.
  destruct ((3 <=? END_CENTRAL_DIR_INDEX lay' + 19)
            && (END_CENTRAL_DIR_INDEX lay' + 19 <? vsize vec0)) eqn:Hr;
    [| discriminate H].
  apply andb_true_iff in Hr. destruct Hr as [_ Hr]. apply Z.ltb_lt in Hr.
  cbn [mbind outcome_bind] in H. injection H as <- <- <-.
  exists vec0. split; [exact Hstep |]. split; [exact Hstep0 |].
  split; [lia |]. f_equal. lia.
Qed.

Lemma Fix_Zip_Comment_Done (vec : list Z) (END : Z) (vec' : list Z) :
  vsize vec < 2 ^ 63 -> 0 <= END <= vsize vec ->
  Fix_Zip_Comment vec END = Done vec' ->
  exists hi lo,
    vget vec (END + 21) = Done hi /\ vget vec (END + 20) = Done lo /\
    vec' = overwrite vec (END + 20) (le_bytes 2 (16 + Z.lor (Z.shiftl hi 8) lo)).
Proof.
  intros Hsz HEND H. unfold Fix_Zip_Comment in H.
  destruct (Z.lt_ge_cases (END + 21) (vsize vec)) as [Hlt | Hge].
  - rewrite (size_t_small (END + 21)) in H by lia.
    rewrite (size_t_small (END + 21 - 1)) in H by lia.
    replace (END + 21 - 1) with (END + 20) in H by lia.
    bind_inv H. rename a into hi. bind_inv H. rename a into lo.
    rewrite Value_Updater_le16 in H by lia.
    replace ((1 <=? END + 21) && (END + 21 <? vsize vec)) with true in H
      by (symmetry; apply andb_true_intro; split; [apply Z.leb_le | apply Z.ltb_lt]; lia).
    injection H as <-. exists hi, lo.
    split; [exact Hstep |]. split; [exact Hstep0 |]. f_equal. lia.
  - exfalso. bind_inv H. apply vget_Done in Hstep.
    rewrite size_t_small in Hstep by lia. lia.
Qed.

(** The fixer keeps the size and every byte up to sixteen past the index
    it starts from. *)
Lemma Fix_Zip_Offset_frame (vec : list Z) (I : Z) (vec' : list Z) (calls : list (Z * Z)) :
  vsize vec < 2 ^ 63 -> 0 <= I ->
  Fix_Zip_Offset vec I = Done (vec', calls) ->
  vsize vec' = vsize vec /\
  forall j : nat, (j < Z.to_nat (I + 16))%nat -> vec' !! j = vec !! j.
Proof.
  intros Hsz HI H. unfold Fix_Zip_Offset in H.
  bind_inv H. destruct a as [[vec1 lay] calls1]. cbn beta iota in H.
  bind_inv H. rename a into vec2. injection H as <- <-.
  apply Fix_Zip_Entries_Done in Hstep; [| exact Hsz].
  destruct Hstep as (vec0 & Hloc & Hloop & Hend & ->).
  pose proof (Locate_Central_Dir_Done _ _ _ Hsz Hloc) as (hi & lo & Hs & He & _).
  pose proof (search_Done _ _ _ _ Hs) as (Hs0 & Hs1 & _).
  pose proof (search_Done _ _ _ _ He) as (He0 & He1 & _).
  set (START := START_CENTRAL_DIR_INDEX lay) in *.
  set (END := END_CENTRAL_DIR_INDEX lay) in *.
  pose proof (size_t_range (START - 1)) as Hc.
  pose proof (Fix_Records_loop_frame _ _ _ _ _ _ _ Hsz (proj1 Hc) Hloop)
    as (Hsz0 & Hframe0 & new & _ & Hlen & _).
  assert (Hframe0' : forall j : nat, (j < Z.to_nat (I + 16))%nat -> vec0 !! j = vec !! j).
  { intros j Hj.
    destruct (Z.to_nat (zip_records lay)) as [| n] eqn:Hn.
    - injection Hloop as <- _. reflexivity.
    - apply Fix_Records_loop_step in Hloop; [| exact Hsz].
      destruct Hloop as (o' & f & _ & Hf & _ & _).
      apply search_Done in Hf. destruct Hf as (Hf0 & Hf1 & _).
      assert (1 <= START) by (destruct (Z.eq_dec START 0) as [E | E];
        [rewrite E in Hf0; change (size_t (0 - 1)) with (2 ^ 64 - 1) in Hf0; lia | lia]).
      rewrite size_t_small in Hframe0 by lia.
      apply Hframe0. lia. }
  assert (Hb1 : END + 16 + vsize (le_bytes 4 START) <= vsize vec0)
    by (change (vsize (le_bytes 4 START)) with 4; lia).
  assert (Hsz1 : vsize (overwrite vec0 (END + 16) (le_bytes 4 START)) = vsize vec)
    by (rewrite vsize_overwrite; lia).
  apply Fix_Zip_Comment_Done in Hstep0; [| lia | lia].
  destruct Hstep0 as (hi' & lo' & Hhi & Hlo & ->).
  apply vget_Done in Hhi. destruct Hhi as [Hhi _].
  split.
  - rewrite vsize_overwrite; [exact Hsz1 | lia |].
    change (vsize (le_bytes 2 _)) with 2. lia.
  - intros j Hj.
    rewrite overwrite_lookup_out;
      [| lia | change (vsize (le_bytes 2 _)) with 2; lia | lia].
    rewrite overwrite_lookup_out; [| lia | exact Hb1 | lia].
    apply Hframe0'. exact Hj.
Qed.

Lemma occurs_head (vec : list Z) (p a : Z) (sig : list Z) :
  occurs vec p (a :: sig) -> vec !! Z.to_nat p = Some a.
Proof.
  intros [Hp Ht]. simpl length in Ht.
  destruct (drop (Z.to_nat p) vec) as [| b l] eqn:Hd; [discriminate |].
  simpl in Ht. injection Ht as -> _.
  rewrite <- (Nat.add_0_r (Z.to_nat p)), <- lookup_drop, Hd. reflexivity.
Qed.

Lemma le_bytes_4_top (v : Z) :
  0 <= v < 0x50000000 -> forall b, le_bytes 4 v !! 3%nat = Some b -> b < 0x50.
Proof.
  intros Hv b Hb. unfold le_bytes in Hb. simpl in Hb. injection Hb as <-.
  rewrite byte_of_shift by lia. change (2 ^ (8 * Z.of_nat 3)) with 16777216.
  assert (v / 16777216 < 80) by (apply Z.div_lt_upper_bound; lia).
  assert (0 <= v / 16777216) by (apply Z.div_pos; lia).
  rewrite Z.mod_small by lia. lia.
Qed.

(** Every field the loop rewrites ends 45 bytes past a central
    directory signature of the buffer, as long as no offset can reach
    the value of that signature's first byte. *)
Lemma Fix_Records_loop_fields (n : nat) : forall (vec : list Z) (o c : Z)
    (calls : list (Z * Z)) (vec' : list Z) (calls' : list (Z * Z)),
  vsize vec < 0x50000000 -> 0 <= c ->
  Fix_Records_loop n vec o c calls = Done (vec', calls') ->
  exists new,
    calls' = calls ++ new /\
    Forall (fun call => c <= fst call - 45 /\
                        occurs vec (fst call - 45) START_CENTRAL_DIR_SIG) new.
Proof.
  induction n as [| n IH]; intros vec o c calls vec' calls' Hsz Hc H.
  - injection H as <- <-. exists []. rewrite app_nil_r. split; [reflexivity | constructor].
  - apply Fix_Records_loop_step in H; [| lia].
    destruct H as (o' & f & Ho & Hf & Hfr & H).
    pose proof (search_Done _ _ _ _ Hf) as (Hf0 & Hf1 & Hocc & _).
    pose proof (search_Done _ _ _ _ Ho) as (Ho0 & Ho1 & _).
    assert (Hb : f + 42 + vsize (le_bytes 4 o') <= vsize vec)
      by (change (vsize (le_bytes 4 o')) with 4; lia).
    assert (Hs1 : vsize (overwrite vec (f + 42) (le_bytes 4 o')) = vsize vec)
      by (apply vsize_overwrite; lia).
    apply IH in H; [| rewrite Hs1; exact Hsz | lia].
    destruct H as (new & Hcalls & Hall).
    exists ((f + 45, o') :: new). split; [rewrite Hcalls, <- app_assoc; reflexivity |].
    assert (Ho'' : 0 <= o' < 0x50000000).
    { pose proof (Fix_Records_loop_frame 0 vec o c calls vec calls ltac:(lia) Hc eq_refl).
      lia. }
    assert (Ho' : 0 <= o') by lia.
    constructor.
    + simpl. replace (f + 45 - 45) with f by lia. split; [lia | apply Hocc; lia].
    + eapply Forall_impl; [exact Hall |]. intros [ci v]. simpl. intros [Hci Hoc].
      split; [lia |].
      destruct (Z.eq_dec (ci - 45) (f + 45)) as [E | E].
      * exfalso. rewrite E in Hoc. apply occurs_head in Hoc.
        replace (Z.to_nat (f + 45)) with (Z.to_nat (f + 42) + 3)%nat in Hoc by lia.
        rewrite overwrite_lookup_in in Hoc; [| lia | exact Hb | simpl; lia].
        apply le_bytes_4_top in Hoc; [vm_compute in Hoc; discriminate Hoc | exact Ho''].
      * apply (occurs_agree _ vec) in Hoc; [exact Hoc |].
        intros j Hj. symmetry. apply overwrite_lookup_out; [lia | exact Hb |].
        change (length (le_bytes 4 o')) with 4%nat. lia.
Qed.

(** Outside the rewritten fields the loop changes nothing. *)
Lemma Fix_Records_loop_outside (n : nat) : forall (vec : list Z) (o c : Z)
    (calls : list (Z * Z)) (vec' : list Z) (calls' : list (Z * Z)),
  vsize vec < 2 ^ 63 -> 0 <= c ->
  Fix_Records_loop n vec o c calls = Done (vec', calls') ->
  exists new,
    calls' = calls ++ new /\
    forall j : Z,
      Forall (fun call => j < fst call - 3 \/ fst call < j) new ->
      vec' !! Z.to_nat j = vec !! Z.to_nat j.
Proof.
  induction n as [| n IH]; intros vec o c calls vec' calls' Hsz Hc H.
  - injection H as <- <-. exists []. rewrite app_nil_r. split; reflexivity.
  - apply Fix_Records_loop_step in H; [| exact Hsz].
    destruct H as (o' & f & Ho & Hf & Hfr & H).
    pose proof (search_Done _ _ _ _ Hf) as (Hf0 & Hf1 & _).
    assert (Hb : f + 42 + vsize (le_bytes 4 o') <= vsize vec)
      by (change (vsize (le_bytes 4 o')) with 4; lia).
    assert (Hs1 : vsize (overwrite vec (f + 42) (le_bytes 4 o')) = vsize vec)
      by (apply vsize_overwrite; lia).
    apply IH in H; [| rewrite Hs1; exact Hsz | lia].
    destruct H as (new & Hcalls & Hout).
    exists ((f + 45, o') :: new). split; [rewrite Hcalls, <- app_assoc; reflexivity |].
    intros j Hj. inversion Hj as [| ? ? Hj1 Hj2]; subst. simpl in Hj1.
    rewrite Hout by exact Hj2.
    destruct (Z.lt_ge_cases j 0) as [Hneg | Hpos].
    + replace (Z.to_nat j) with O by lia.
      apply overwrite_lookup_out; [lia | exact Hb | lia].
    + apply overwrite_lookup_out; [lia | exact Hb |].
      change (length (le_bytes 4 o')) with 4%nat. lia.
Qed.

Lemma read_le_pair (vec : list Z) (i lo hi : Z) :
  vget vec i = Done lo -> vget vec (i + 1) = Done hi ->
  read_le vec i 2 = Done (Z.lor (Z.shiftl hi 8) lo).
Proof.
  intros H0 H1. unfold read_le.
  assert (Hr : vrange vec i (i + 2) = Done [lo; hi]).
  { apply vrange_cons; [exact H0 |]. apply vrange_cons; [exact H1 |].
    replace (i + 1 + 1) with (i + 2) by lia.
    apply vrange_nil. apply vget_Done in H1. lia. }
  rewrite Hr. simpl. rewrite Z.lor_0_r. f_equal. apply Z.lor_comm.
Qed.

Lemma read_le_overwrite_2 (vec : list Z) (i v : Z) :
  0 <= i -> i + 2 <= vsize vec ->
  read_le (overwrite vec i (le_bytes 2 v)) i 2 = Done (v mod 2 ^ 16).
Proof.
  intros H0 H1. unfold read_le.
  change (i + 2) with (i + vsize (le_bytes 2 v)).
  rewrite vrange_overwrite by (change (vsize (le_bytes 2 v)) with 2; lia).
  cbn [mbind outcome_bind]. f_equal. apply read_le_2.
Qed.

Lemma read_le_overwrite_4 (vec : list Z) (i v : Z) :
  0 <= i -> i + 4 <= vsize vec ->
  read_le (overwrite vec i (le_bytes 4 v)) i 4 = Done (v mod 2 ^ 32).
Proof.
  intros H0 H1. unfold read_le.
  change (i + 4) with (i + vsize (le_bytes 4 v)).
  rewrite vrange_overwrite by (change (vsize (le_bytes 4 v)) with 4; lia).
  cbn [mbind outcome_bind]. f_equal. apply read_le_4.
Qed.

Lemma vget_lookup (vec : list Z) (i : Z) :
  0 <= i -> vget vec i = match vec !! Z.to_nat i with Some b => Done b | None => Undefined end.
Proof.
  intros Hi. unfold vget.
  destruct (vec !! Z.to_nat i) as [b |] eqn:Hl.
  - apply lookup_lt_Some in Hl.
    replace ((0 <=? i) && (i <? vsize vec)) with true; [reflexivity |].
    symmetry. apply andb_true_intro. unfold vsize.
    split; [apply Z.leb_le | apply Z.ltb_lt]; lia.
  - destruct ((0 <=? i) && (i <? vsize vec)); reflexivity.
Qed.


(** ** The stages of a build *)

Lemma Open_Files_Done (pdv : PDV_STRUCT) (env : Environment) (pdv' : PDV_STRUCT)
    (image_ifs zip_ifs : list Z) :
  Open_Files pdv env = Done (pdv', image_ifs, zip_ifs) ->
  image_file env = Some image_ifs /\ zip_file env = Some zip_ifs /\
  file_size_check (vsize image_ifs) (vsize zip_ifs) = true /\
  big_endian pdv' = big_endian pdv.
Proof.
  unfold Open_Files. intros H.
  destruct (image_file env) as [img |]; [| discriminate H].
  destruct (zip_file env) as [zip |]; [| discriminate H].
  destruct (file_size_check (vsize img) (vsize zip)) eqn:Hc; [| discriminate H].
  cbn [negb] in H. injection H as <- <- <-. auto.
Qed.

Lemma file_size_check_bounds (image_size zip_size : Z) :
  0 <= image_size < 2 ^ 63 -> 0 <= zip_size < 2 ^ 63 ->
  file_size_check image_size zip_size = true ->
  68 < image_size /\ 40 < zip_size /\ image_size + zip_size <= MAX_FILE_SIZE.
Proof.
  intros Hi Hz. unfold file_size_check, MIN_IMAGE_SIZE, MIN_ZIP_SIZE.
  rewrite size_t_small by lia.
  rewrite !andb_true_iff, Z.geb_le, !Z.gtb_lt. tauto.
Qed.

Lemma IHDR_bad_char_loop_Done (fuel : nat) : forall (vec : list Z) (i : Z),
  IHDR_bad_char_loop fuel vec i = Done tt ->
  forall j, i < j <= 32 -> exists b, vget vec j = Done b /\ is_bad_char b = false.
Proof.
  induction fuel as [| fuel IH]; intros vec i H j Hj; [discriminate H |].
  cbn [IHDR_bad_char_loop] in H.
  destruct (i =? 32) eqn:Hi; [apply Z.eqb_eq in Hi; lia |].
  cbn [negb] in H. bind_inv H. rename a into b.
  destruct (is_bad_char b) eqn:Hb; [discriminate H |].
  destruct (Z.eq_dec j (i + 1)) as [-> | Hne].
  - exists b. auto.
  - apply (IH vec (i + 1) H). lia.
Qed.

Lemma Check_Image_File_Done (pdv : PDV_STRUCT) (img : list Z) (pdv' : PDV_STRUCT) :
  Check_Image_File pdv img = Done pdv' ->
  Image_Vec pdv' = img /\ image_size pdv' = vsize img /\
  big_endian pdv' = big_endian pdv /\
  (forall j, 19 <= j <= 32 -> exists b, vget img j = Done b /\ is_bad_char b = false) /\
  Check_Image_Dims img = Done tt.
Proof.
  unfold Check_Image_File. intros H.
  bind_inv H. bind_inv H.
  destruct (negb (bool_decide (a = PNG_TOP_SIG)) || negb (bool_decide (a0 = PNG_END_SIG)));
    [discriminate H |].
  bind_inv H. destruct a1. bind_inv H. destruct a1.
  injection H as <-. simpl.
  repeat split; try reflexivity; [| exact Hstep2].
  intros j Hj. apply (IHDR_bad_char_loop_Done _ _ _ Hstep1). lia.
Qed.

(** The pruned image begins with the first 33 bytes of the input and
    ends with its last 12 bytes. *)
Lemma Erase_IDAT_loop_grows (fuel : nat) : forall (vec : list Z) (isz : Z)
    (Temp idat_result : list Z) (idat_index : Z),
  Erase_IDAT_loop fuel vec isz Temp idat_index = Done idat_result ->
  exists more, idat_result = Temp ++ more /\ vsize more <= Z.of_nat fuel * vsize vec.
Proof.
  induction fuel as [| fuel IH]; intros vec isz Temp r idx H.
  - cbn [Erase_IDAT_loop] in H.
    destruct (negb (isz =? size_t (idx + 4))); [discriminate H |].
    injection H as <-. exists []. rewrite app_nil_r. split; [reflexivity |].
    unfold vsize. simpl. lia.
  - cbn [Erase_IDAT_loop] in H.
    destruct (negb (isz =? size_t (idx + 4))).
    + bind_inv H. bind_inv H. rename a0 into chunk. bind_inv H.
      apply IH in H. destruct H as (more & -> & Hm).
      exists (chunk ++ more). rewrite app_assoc. split; [reflexivity |].
      apply vrange_Done in Hstep0. destruct Hstep0 as (Hr0 & Hr1 & Hc).
      assert (vsize chunk <= vsize vec).
      { rewrite Hc. unfold vsize. rewrite length_take, length_drop. lia. }
      rewrite vsize_app. lia.
    + injection H as <-. exists []. rewrite app_nil_r. split; [reflexivity |].
      unfold vsize. simpl. lia.
Qed.

Lemma Erase_Image_Chunks_Done (pdv pdv' : PDV_STRUCT) :
  Erase_Image_Chunks pdv = Done pdv' ->
  let img := Image_Vec pdv in
  33 <= vsize img /\
  (exists mid,
     Image_Vec pdv' = take 33 img ++ mid ++ drop (Z.to_nat (vsize img - 12)) img /\
     vsize mid <= (1 + vsize img) * vsize img) /\
  image_size pdv' = vsize (Image_Vec pdv') /\
  big_endian pdv' = big_endian pdv.
Proof.
  unfold Erase_Image_Chunks. intros H. cbn zeta.
  set (img := Image_Vec pdv) in *.
  bind_as H Temp0 HT0. bind_as H found Hfound. bind_as H len Hlen.
  bind_as H crc Hcrc. bind_as H calc Hcalc.
  destruct (negb (crc =? calc)); [discriminate H |].
  bind_as H color Hcolor. bind_as H Temp1 HT1.
  bind_as H Temp2 HT2. bind_as H tail Htail.
  injection H as <-. simpl.
  apply vrange_Done in HT0. destruct HT0 as (_ & H33 & HT0).
  change (Z.to_nat (33 - 0)) with 33%nat in HT0. rewrite drop_0 in HT0.
  apply vrange_Done in Htail. destruct Htail as (Ht0 & _ & Htail).
  replace (Z.to_nat (vsize img - (vsize img - 12))) with 12%nat in Htail by lia.
  assert (Htail' : tail = drop (Z.to_nat (vsize img - 12)) img).
  { rewrite Htail. apply take_ge. rewrite length_drop. unfold vsize. lia. }
  split; [exact H33 |]. split; [| split; reflexivity].
  apply Erase_IDAT_loop_grows in HT2. destruct HT2 as (more & -> & Hmore).
  assert (Hplte : exists p, Temp1 = Temp0 ++ p /\ vsize p <= vsize img).
  { destruct (color =? 3).
    - bind_as HT1 fp Hfp.
      destruct (size_t (found - 4) >? size_t (fp - 4)); [| discriminate HT1].
      bind_as HT1 csz Hcsz. bind_as HT1 chunk Hchunk.
      injection HT1 as <-. exists chunk. split; [reflexivity |].
      apply vrange_Done in Hchunk. destruct Hchunk as (Hr0 & Hr1 & Hc).
      rewrite Hc. unfold vsize. rewrite length_take, length_drop. lia.
    - injection HT1 as <-. exists []. rewrite app_nil_r. split; [reflexivity |].
      unfold vsize. simpl. lia. }
  destruct Hplte as (p & -> & Hp).
  exists (p ++ more). rewrite HT0, Htail', <- !app_assoc.
  split; [reflexivity |]. rewrite vsize_app.
  clearbody img. unfold vsize in *. nia.
Qed.

Lemma Check_Zip_File_eq (pdv : PDV_STRUCT) (zip : list Z) :
  big_endian pdv = true -> vsize zip < 2 ^ 63 ->
  Check_Zip_File pdv zip =
  (GET_ZIP_SIG ← vrange (framed_zip zip) 8 (8 + vsize ZIP_SIG);
   INZIP_NAME_LENGTH ← vget (framed_zip zip) 34;
   if negb (bool_decide (GET_ZIP_SIG = ZIP_SIG))
     || (MIN_INZIP_NAME_LENGTH >? INZIP_NAME_LENGTH)
  then Exit (if negb (bool_decide (GET_ZIP_SIG = ZIP_SIG)) then ZIP_File_Error_Not_ZIP
             else ZIP_File_Error_Name_Too_Short)
  else
    Done (mkPDV (Image_Vec pdv) (framed_zip zip) (Script_Vec pdv)
            (image_name pdv) (zip_name pdv)
            (image_size pdv) (vsize zip + 12) (script_size pdv)
            (combined_file_size pdv) (big_endian pdv))).
Proof.
  intros Hbe Hsz. unfold Check_Zip_File. rewrite Hbe.
  set (Z0 := [0x00; 0x00; 0x00; 0x00; 0x49; 0x44; 0x41; 0x54] ++ zip ++ [0x00; 0x00; 0x00; 0x00]) in *.
  assert (HZ0 : vsize Z0 = vsize zip + 12).
  { unfold Z0, vsize. rewrite !length_app. simpl length. lia. }
  pose proof (vsize_nonneg zip) as Hz0.
  rewrite HZ0. replace (vsize zip + 12 - 12) with (vsize zip) by lia.
  rewrite size_t_small by lia.
  rewrite Value_Updater_be32 by lia.
  replace (0 + 4 <=? vsize Z0) with true by (symmetry; apply Z.leb_le; lia).
  cbn [mbind outcome_bind].
  assert (Hframed : overwrite Z0 0 (be_bytes 4 (vsize zip)) = framed_zip zip) by reflexivity.
  rewrite Hframed. reflexivity.
Qed.

Lemma framed_zip_sig (zip : list Z) :
  vrange (framed_zip zip) 8 (8 + vsize ZIP_SIG) = Done ZIP_SIG -> take 4 zip = ZIP_SIG.
Proof.
  intros Hsig. apply vrange_Done in Hsig. destruct Hsig as (_ & _ & Hsig).
  destruct zip as [| a [| b [| c [| d z]]]]; try discriminate Hsig.
  injection Hsig as <- <- <- <-. reflexivity.
Qed.

Lemma Check_Zip_File_Done (pdv : PDV_STRUCT) (zip : list Z) (pdv' : PDV_STRUCT) :
  big_endian pdv = true -> vsize zip < 2 ^ 63 ->
  Check_Zip_File pdv zip = Done pdv' ->
  Zip_Vec pdv' = framed_zip zip /\ zip_size pdv' = vsize zip + 12 /\
  Image_Vec pdv' = Image_Vec pdv /\ image_size pdv' = image_size pdv /\
  big_endian pdv' = true /\
  take 4 zip = ZIP_SIG /\
  (exists len, vget (framed_zip zip) 34 = Done len /\ 4 <= len).
Proof.
  intros Hbe Hsz H. rewrite Check_Zip_File_eq in H by assumption.
  bind_as H sig Hsig. bind_as H len Hlen.
  destruct (bool_decide_reflect (sig = ZIP_SIG)) as [-> | Hne]; [| discriminate H].
  cbn [negb orb] in H.
  destruct (MIN_INZIP_NAME_LENGTH >? len) eqn:Hmin; [discriminate H |].
  injection H as <-. cbn [Zip_Vec zip_size Image_Vec image_size big_endian].
  repeat split; try reflexivity; try assumption.
  - apply framed_zip_sig. exact Hsig.
  - exists len. split; [exact Hlen |].
    unfold MIN_INZIP_NAME_LENGTH in Hmin. rewrite Z.gtb_ltb in Hmin.
    apply Z.ltb_ge in Hmin. exact Hmin.
Qed.

(** *** The script *)

Lemma Insert_loop_prefix (m : Z) (fuel : nat) : forall (Script Sequence_Vec : list Z)
    (App_Vec : list (list Z)) (limit ii ai : Z) (Script' : list Z),
  Insert_loop fuel Script Sequence_Vec App_Vec limit ii ai = Done Script' ->
  (forall k pos, ii <= k < limit -> at_index Sequence_Vec k = Done pos -> m <= pos) ->
  0 <= m <= vsize Script ->
  take (Z.to_nat m) Script' = take (Z.to_nat m) Script /\ vsize Script <= vsize Script'.
Proof.
  induction fuel as [| fuel IH]; intros Script Seq App limit ii ai Script' H Hpos Hm.
  - cbn [Insert_loop] in H. destruct (limit >? ii); [discriminate H |].
    injection H as <-. split; [reflexivity | lia].
  - cbn [Insert_loop] in H. destruct (limit >? ii) eqn:Hlim.
    + rewrite Z.gtb_ltb in Hlim. apply Z.ltb_lt in Hlim.
      bind_as H pos Hp. bind_as H app Ha. bind_as H text Ht. bind_as H Script1 Hs.
      pose proof (Hpos ii pos ltac:(lia) Hp) as Hge.
      pose proof (vinsert_size _ _ _ _ Hs) as Hsz. pose proof (vsize_nonneg text).
      apply vinsert_Done in Hs. destruct Hs as (Hr & ->).
      apply IH in H; [| intros k p Hk; apply Hpos; lia | lia].
      destruct H as (Htake & Hle). split; [| lia].
      rewrite Htake. rewrite take_app_le by (rewrite length_take; unfold vsize in *; lia).
      rewrite take_take. f_equal. lia.
    + injection H as <-. split; [reflexivity | lia].
Qed.

(** Checks an insertion position for each index of a range. *)
Ltac positions Hk Hp :=
  repeat match type of Hk with
         | ?a <= ?k < ?b =>
             first [ assert (a = b) by lia; lia
                   | destruct (Z.eq_dec k a) as [-> | ?];
                     [vm_compute in Hp; injection Hp as <-; lia
                     | assert (Hk' : a + 1 <= k < b) by lia; clear Hk;
                       rename Hk' into Hk; cbn in Hk ] ]
         end.

(** Whatever the launcher, the script keeps the first 119 bytes of the
    template and is at least as long. *)
Lemma Build_Script_shape (Zip args_linux args_windows Script : list Z) :
  Build_Script Zip args_linux args_windows = Done Script ->
  take 119 Script = take 119 Script_Template /\ 274 <= vsize Script.
Proof.
  intros H. unfold Build_Script in H.
  bind_as H len Hlen. bind_as H name Hname. bind_as H ext Hext. bind_as H app_index Happ.
  cbv zeta in H.
  assert (Hgoal : forall Seq App limit ii ai,
    Insert_loop (Z.to_nat (limit - ii)) Script_Template Seq App limit ii ai = Done Script ->
    (forall k pos, ii <= k < limit -> at_index Seq k = Done pos -> 119 <= pos) ->
    take 119 Script = take 119 Script_Template /\ 274 <= vsize Script).
  { intros Seq App limit ii ai Hl Hp.
    apply (Insert_loop_prefix 119) in Hl; [| exact Hp | vm_compute; split; discriminate].
    exact Hl. }
  destruct (app_index =? VIDEO_AUDIO).
  { apply Hgoal in H; [exact H |]. intros k pos Hk Hp. positions Hk Hp. }
  destruct ((app_index =? PDF) || (app_index =? FOLDER_INVOKE_ITEM)).
  { apply Hgoal in H; [exact H |]. intros k pos Hk Hp.
    destruct (app_index =? FOLDER_INVOKE_ITEM); positions Hk Hp. }
  destruct ((app_index =? PYTHON) || (app_index =? POWERSHELL)).
  { destruct (app_index =? POWERSHELL);
      (apply Hgoal in H; [exact H |]; intros k pos Hk Hp; positions Hk Hp). }
  destruct ((app_index =? EXECUTABLE) || (app_index =? BASH_XDG_OPEN)).
  { destruct (app_index =? EXECUTABLE); cbn in H;
      (apply Hgoal in H; [exact H |]; intros k pos Hk Hp; positions Hk Hp). }
  apply Hgoal in H; [exact H |]. intros k pos Hk Hp. positions Hk Hp.
Qed.


(** ** The iCCP chunk *)

Lemma overwrite_app_mid (a b c bs : list Z) :
  length b = length bs -> overwrite (a ++ b ++ c) (vsize a) bs = a ++ bs ++ c.
Proof.
  intros Hlen. unfold overwrite, vsize. rewrite Nat2Z.id.
  rewrite take_app_length. f_equal. f_equal.
  rewrite drop_app_ge by lia.
  replace (length a + length bs - length a)%nat with (length b) by lia.
  apply drop_app_length.
Qed.

Lemma vinsert_app (a c l : list Z) :
  vinsert (a ++ c) (vsize a) l = Done (a ++ l ++ c).
Proof.
  apply vinsert_Done. rewrite vsize_app.
  pose proof (vsize_nonneg a). pose proof (vsize_nonneg c). split; [lia |].
  unfold vsize. rewrite Nat2Z.id, take_app_length, drop_app_length. reflexivity.
Qed.

Lemma vrange_app_mid (a b c : list Z) :
  vrange (a ++ b ++ c) (vsize a) (vsize a + vsize b) = Done b.
Proof.
  apply vrange_Done. rewrite !vsize_app.
  pose proof (vsize_nonneg a). pose proof (vsize_nonneg b). pose proof (vsize_nonneg c).
  repeat split; try lia.
  unfold vsize. rewrite Nat2Z.id, drop_app_length.
  replace (Z.to_nat (Z.of_nat (length a) + Z.of_nat (length b) - Z.of_nat (length a)))
    with (length b) by lia.
  rewrite take_app_length. reflexivity.
Qed.

Lemma Crc_Done (vec : list Z) (start len c : Z) :
  Crc vec start len = Done c ->
  0 <= start < vsize vec /\ 0 <= len /\ start + len <= vsize vec /\
  c = Crc_bytes (take (Z.to_nat len) (drop (Z.to_nat start) vec)).
Proof.
  unfold Crc. intros H. bind_as H b Hb. bind_as H buf Hbuf. injection H as <-.
  apply vget_Done in Hb. apply vrange_Done in Hbuf.
  destruct Hbuf as (Hr0 & Hr1 & ->).
  replace (start + len - start) with len by lia.
  repeat split; lia.
Qed.

Lemma Crc_app_mid (a b c : list Z) :
  b <> [] -> Crc (a ++ b ++ c) (vsize a) (vsize b) = Done (Crc_bytes b).
Proof.
  intros Hb. unfold Crc.
  destruct b as [| x b]; [contradiction |].
  assert (Hg : vget (a ++ (x :: b) ++ c) (vsize a) = Done x).
  { apply vget_Done. rewrite !vsize_app. unfold vsize. simpl length.
    split; [lia |]. rewrite Nat2Z.id. rewrite lookup_app_r by lia.
    rewrite Nat.sub_diag. reflexivity. }
  rewrite Hg. cbn [mbind outcome_bind].
  rewrite vrange_app_mid. reflexivity.
Qed.

(** Ten more bytes turn a forbidden length byte into an allowed one. *)
Lemma bad_char_plus_10 (x : Z) :
  is_bad_char (x mod 256) = true -> is_bad_char ((x + 10) mod 256) = false.
Proof.
  intros H.
  rewrite <- Zplus_mod_idemp_l.
  unfold is_bad_char, BAD_CHAR in H. cbn [existsb] in H.
  rewrite !orb_true_iff, !Z.eqb_eq in H.
  destruct H as [-> | [-> | [-> | [-> | [-> | [-> | [-> | H]]]]]]];
    try reflexivity; discriminate H.
Qed.

Lemma be_bytes_2_low (v : Z) : be_bytes 2 v !! 1%nat = Some (v mod 256).
Proof. simpl. rewrite byte_of_shift by lia. rewrite Z.div_1_r. reflexivity. Qed.

(** The finished script in terms of the composed one, [S0]: its first two
    bytes, the 16-bit length, the chunk type and data (with ten dots added
    when the low length byte would be forbidden), and the CRC. *)
Lemma Finish_Script_Done (pdv : PDV_STRUCT) (S0 : list Z) (pdv' : PDV_STRUCT) :
  big_endian pdv = true ->
  12 <= vsize S0 < 2 ^ 62 ->
  vsize (Image_Vec pdv) < 2 ^ 62 -> vsize (Zip_Vec pdv) < 2 ^ 62 ->
  Finish_Script pdv S0 = Done pdv' ->
  exists pad,
    pad = (if is_bad_char ((vsize S0 - 12) mod 256) then INCREASE_LENGTH_STRING else []) /\
    Script_Vec pdv' =
      take 2 S0 ++ be_bytes 2 (vsize S0 + vsize pad - 12)
      ++ (take (Z.to_nat (vsize S0 - 8)) (drop 4 S0) ++ pad)
      ++ be_bytes 4 (Crc_bytes (take (Z.to_nat (vsize S0 - 8)) (drop 4 S0) ++ pad)) /\
    script_size pdv' = vsize S0 + vsize pad /\
    vsize S0 + vsize pad <= MAX_SCRIPT_SIZE /\
    vsize S0 + vsize pad + vsize (Image_Vec pdv) + vsize (Zip_Vec pdv) <= MAX_FILE_SIZE /\
    is_bad_char ((vsize S0 + vsize pad - 12) mod 256) = false /\
    Image_Vec pdv' = Image_Vec pdv /\ Zip_Vec pdv' = Zip_Vec pdv /\
    image_size pdv' = image_size pdv /\ zip_size pdv' = zip_size pdv /\
    big_endian pdv' = true.
Proof.
  intros Hbe Hn Himg Hzip H.
  set (n := vsize S0) in *.
  pose proof (vsize_nonneg (Image_Vec pdv)) as Hi0.
  pose proof (vsize_nonneg (Zip_Vec pdv)) as Hz0.
  (* S0 = h ++ l ++ m ++ t *)
  set (h := take 2 S0). set (l := take 2 (drop 2 S0)).
  set (m := take (Z.to_nat (n - 8)) (drop 4 S0)).
  set (t := drop (Z.to_nat (n - 4)) S0).
  assert (HS0 : S0 = h ++ l ++ m ++ t).
  { unfold h, l, m, t.
    rewrite <- (take_drop 2 S0) at 1. f_equal.
    rewrite <- (take_drop 2 (drop 2 S0)) at 1. f_equal.
    rewrite drop_drop. change (2 + 2)%nat with 4%nat.
    rewrite <- (take_drop (Z.to_nat (n - 8)) (drop 4 S0)) at 1. f_equal.
    rewrite drop_drop. f_equal. lia. }
  assert (Hh : length h = 2%nat) by (unfold h; rewrite length_take; unfold n, vsize in Hn; lia).
  assert (Hl : length l = 2%nat)
    by (unfold l; rewrite length_take, length_drop; unfold n, vsize in Hn; lia).
  assert (Hm : length m = Z.to_nat (n - 8))
    by (unfold m; rewrite length_take, length_drop; unfold n, vsize in Hn |- *; lia).
  assert (Ht : length t = 4%nat)
    by (unfold t; rewrite length_drop; unfold n, vsize in Hn |- *; lia).
  clearbody h l m t.
  unfold Finish_Script in H. rewrite Hbe in H. fold n in H.
  rewrite (size_t_small (n - 12)) in H by lia.
  rewrite Value_Updater_be16 in H by (fold n; lia).
  fold n in H.
  replace (2 + 2 <=? n) with true in H by (symmetry; apply Z.leb_le; lia).
  cbn [mbind outcome_bind] in H.
  assert (HS1 : overwrite S0 2 (be_bytes 2 (n - 12)) = h ++ be_bytes 2 (n - 12) ++ m ++ t).
  { rewrite HS0. replace 2 with (vsize h) at 1 by (unfold vsize; lia).
    apply overwrite_app_mid. rewrite Hl. reflexivity. }
  rewrite HS1 in H.
  assert (Hb3 : vget (h ++ be_bytes 2 (n - 12) ++ m ++ t) 3 = Done ((n - 12) mod 256)).
  { apply vget_Done. unfold vsize. rewrite !length_app, Hh, Hm, Ht.
    change (length (be_bytes 2 (n - 12))) with 2%nat.
    split; [lia |]. rewrite lookup_app_r by lia. rewrite Hh.
    change (Z.to_nat 3 - 2)%nat with 1%nat.
    rewrite lookup_app_l by (simpl; lia). apply be_bytes_2_low. }
  rewrite Hb3 in H. cbn [mbind outcome_bind] in H.
  assert (Hsz1 : vsize (h ++ be_bytes 2 (n - 12) ++ m ++ t) = n).
  { unfold vsize. rewrite !length_app, Hh, Hm, Ht.
    change (length (be_bytes 2 (n - 12))) with 2%nat. lia. }
  (* the two cases of the padding *)
  match type of H with (_ ≫= ?k) = _ => set (K := k) in H end.
  assert (Hfin : forall (S3 : list Z) (pad : list Z),
    S3 = h ++ be_bytes 2 (n + vsize pad - 12) ++ (m ++ pad) ++ t ->
    vsize pad <= 10 ->
    is_bad_char ((n + vsize pad - 12) mod 256) = false ->
    pad = (if is_bad_char ((n - 12) mod 256) then INCREASE_LENGTH_STRING else []) ->
    K (S3, n + vsize pad) = Done pdv' ->
    exists pad,
      pad = (if is_bad_char ((n - 12) mod 256) then INCREASE_LENGTH_STRING else []) /\
      Script_Vec pdv' =
        h ++ be_bytes 2 (n + vsize pad - 12) ++ (m ++ pad)
        ++ be_bytes 4 (Crc_bytes (m ++ pad)) /\
      script_size pdv' = n + vsize pad /\
      n + vsize pad <= MAX_SCRIPT_SIZE /\
      n + vsize pad + vsize (Image_Vec pdv) + vsize (Zip_Vec pdv) <= MAX_FILE_SIZE /\
      is_bad_char ((n + vsize pad - 12) mod 256) = false /\
      Image_Vec pdv' = Image_Vec pdv /\ Zip_Vec pdv' = Zip_Vec pdv /\
      image_size pdv' = image_size pdv /\ zip_size pdv' = zip_size pdv /\
      big_endian pdv' = true).
  { intros S3 pad HS3 Hpad Hbad Hcase Hrun. subst K. cbv beta iota in Hrun.
    pose proof (vsize_nonneg pad) as Hp0.
    assert (HszS3 : vsize S3 = n + vsize pad).
    { rewrite HS3. unfold vsize. rewrite !length_app, Hh, Hm, Ht.
      change (length (be_bytes 2 _)) with 2%nat. lia. }
    rewrite HszS3 in Hrun.
    rewrite (size_t_small (n + vsize pad + vsize (Image_Vec pdv))) in Hrun by lia.
    rewrite (size_t_small (n + vsize pad + vsize (Image_Vec pdv) + vsize (Zip_Vec pdv)))
      in Hrun by lia.
    destruct (n + vsize pad >? MAX_SCRIPT_SIZE) eqn:Hs; [discriminate Hrun |].
    destruct (n + vsize pad + vsize (Image_Vec pdv) + vsize (Zip_Vec pdv) >? MAX_FILE_SIZE)
      eqn:Hc; [discriminate Hrun |].
    cbn [orb] in Hrun.
    rewrite Z.gtb_ltb in Hs, Hc. apply Z.ltb_ge in Hs, Hc.
    rewrite (size_t_small (n + vsize pad - 8)) in Hrun by lia.
    rewrite (size_t_small (n + vsize pad - 4)) in Hrun by lia.
    assert (Hcrc : Crc S3 ICCP_CHUNK_INDEX (n + vsize pad - 8) = Done (Crc_bytes (m ++ pad))).
    { rewrite HS3.
      replace (h ++ be_bytes 2 (n + vsize pad - 12) ++ (m ++ pad) ++ t)
        with ((h ++ be_bytes 2 (n + vsize pad - 12)) ++ (m ++ pad) ++ t)
        by (rewrite <- app_assoc; reflexivity).
      replace ICCP_CHUNK_INDEX with (vsize (h ++ be_bytes 2 (n + vsize pad - 12)))
        by (unfold vsize; rewrite length_app, Hh; reflexivity).
      replace (n + vsize pad - 8) with (vsize (m ++ pad))
        by (unfold vsize; rewrite length_app, Hm; unfold vsize in Hp0; lia).
      apply Crc_app_mid.
      intros Hnil. apply (f_equal (@length Z)) in Hnil.
      rewrite length_app, Hm in Hnil. simpl in Hnil. lia. }
    rewrite Hcrc in Hrun. cbn [mbind outcome_bind] in Hrun.
    rewrite Value_Updater_be32 in Hrun by (rewrite ?HszS3; lia).
    rewrite HszS3 in Hrun.
    replace (n + vsize pad - 4 + 4 <=? n + vsize pad) with true in Hrun
      by (symmetry; apply Z.leb_le; lia).
    cbn [mbind outcome_bind] in Hrun. injection Hrun as <-.
    exists pad. cbn [Script_Vec script_size Image_Vec Zip_Vec image_size zip_size big_endian].
    repeat split; try reflexivity; try assumption.
    rewrite HS3.
    replace (h ++ be_bytes 2 (n + vsize pad - 12) ++ (m ++ pad) ++ t)
      with ((h ++ be_bytes 2 (n + vsize pad - 12) ++ (m ++ pad)) ++ t ++ [])
      by (rewrite app_nil_r, <- !app_assoc; reflexivity).
    replace (n + vsize pad - 4)
      with (vsize (h ++ be_bytes 2 (n + vsize pad - 12) ++ (m ++ pad))).
    2:{ unfold vsize. rewrite !length_app, Hh, Hm.
        change (length (be_bytes 2 _)) with 2%nat. unfold vsize in Hp0. lia. }
    rewrite overwrite_app_mid by (rewrite Ht; reflexivity).
    rewrite app_nil_r, <- !app_assoc. reflexivity. }
  clearbody K.
  destruct (is_bad_char ((n - 12) mod 256)) eqn:Hbad.
  - (* padded *)
    assert (Hins : vinsert (h ++ be_bytes 2 (n - 12) ++ m ++ t) (n - 4) INCREASE_LENGTH_STRING
                   = Done ((h ++ be_bytes 2 (n - 12) ++ m) ++ INCREASE_LENGTH_STRING ++ t)).
    { replace (h ++ be_bytes 2 (n - 12) ++ m ++ t)
        with ((h ++ be_bytes 2 (n - 12) ++ m) ++ t) by (rewrite <- !app_assoc; reflexivity).
      replace (n - 4) with (vsize (h ++ be_bytes 2 (n - 12) ++ m)).
      2:{ unfold vsize. rewrite !length_app, Hh, Hm.
          change (length (be_bytes 2 _)) with 2%nat. lia. }
      apply vinsert_app. }
    rewrite Hins in H. cbn [mbind outcome_bind] in H.
    set (S2 := (h ++ be_bytes 2 (n - 12) ++ m) ++ INCREASE_LENGTH_STRING ++ t) in *.
    assert (HszS2 : vsize S2 = n + 10).
    { unfold S2, vsize. rewrite !length_app, Hh, Hm, Ht.
      change (length (be_bytes 2 _)) with 2%nat.
      change (length INCREASE_LENGTH_STRING) with 10%nat. lia. }
    rewrite HszS2 in H.
    rewrite (size_t_small (n + 10 - 12)) in H by lia.
    rewrite Value_Updater_be16 in H by (rewrite ?HszS2; lia).
    rewrite HszS2 in H.
    replace (2 + 2 <=? n + 10) with true in H by (symmetry; apply Z.leb_le; lia).
    cbn [mbind outcome_bind] in H.
    assert (HS3 : overwrite S2 2 (be_bytes 2 (n + 10 - 12))
                  = h ++ be_bytes 2 (n + vsize INCREASE_LENGTH_STRING - 12)
                    ++ (m ++ INCREASE_LENGTH_STRING) ++ t).
    { unfold S2. rewrite <- !app_assoc.
      replace 2 with (vsize h) at 1 by (unfold vsize; lia).
      rewrite overwrite_app_mid by reflexivity. reflexivity. }
    rewrite HS3 in H.
    destruct (Hfin _ INCREASE_LENGTH_STRING eq_refl) as (pad & Hpad); auto.
    + vm_compute. discriminate.
    + change (vsize INCREASE_LENGTH_STRING) with 10.
      replace (n + 10 - 12) with (n - 12 + 10) by lia.
      apply bad_char_plus_10. exact Hbad.
    + exists pad. exact Hpad.
  - cbn [mbind outcome_bind] in H.
    destruct (Hfin _ [] eq_refl) as (pad & Hpad); auto.
    + vm_compute. discriminate.
    + change (vsize []) with 0. rewrite Z.add_0_r. exact Hbad.
    + change (vsize []) with 0. rewrite Z.add_0_r, app_nil_r. exact H.
    + exists pad. exact Hpad.
Qed.

(** *** The size of the composed script *)

Lemma Insert_loop_size_le (M : Z) (fuel : nat) : forall (Script Sequence_Vec : list Z)
    (App_Vec : list (list Z)) (limit ii ai : Z) (Script' : list Z),
  0 <= M -> Forall (fun t => vsize t <= M) App_Vec ->
  Insert_loop fuel Script Sequence_Vec App_Vec limit ii ai = Done Script' ->
  vsize Script' <= vsize Script + Z.of_nat fuel * M.
Proof.
  induction fuel as [| fuel IH]; intros Script Seq App limit ii ai Script' HM HApp H.
  - cbn [Insert_loop] in H. destruct (limit >? ii); [discriminate H |].
    injection H as <-. lia.
  - cbn [Insert_loop] in H. destruct (limit >? ii).
    + bind_as H pos Hp. bind_as H app Ha. bind_as H text Ht. bind_as H Script1 Hs.
      apply vinsert_size in Hs. apply IH in H; [| exact HM | exact HApp].
      apply at_index_Done in Ht. destruct Ht as [_ Ht].
      rewrite Forall_lookup in HApp. apply HApp in Ht. nia.
    + injection H as <-. nia.
Qed.

Lemma App_Vec_init_sizes : Forall (fun t => vsize t <= 42) App_Vec_init.
Proof. unfold App_Vec_init. repeat constructor; vm_compute; discriminate. Qed.

Lemma Build_Script_size (Zip args_linux args_windows Script : list Z) :
  Build_Script Zip args_linux args_windows = Done Script ->
  vsize Script <= 274 + 10 * (44 + vsize Zip + vsize args_linux + vsize args_windows).
Proof.
  intros H. unfold Build_Script in H.
  bind_as H len Hlen. bind_as H name Hname. bind_as H ext Hext. bind_as H app_index Happ.
  cbv zeta in H.
  set (M := 44 + vsize Zip + vsize args_linux + vsize args_windows).
  pose proof (vsize_nonneg Zip) as HZ. pose proof (vsize_nonneg args_linux) as Hl.
  pose proof (vsize_nonneg args_windows) as Hw.
  assert (HM : 0 <= M) by (unfold M; lia).
  assert (Hn : vsize name <= vsize Zip).
  { apply vrange_Done in Hname. destruct Hname as (_ & _ & ->).
    unfold vsize. rewrite length_take, length_drop. lia. }
  assert (HA0 : Forall (fun t => vsize t <= M) App_Vec_init).
  { eapply Forall_impl; [apply App_Vec_init_sizes |]. intros t Ht. cbv beta in *.
    unfold M. lia. }
  assert (HA1 : Forall (fun t => vsize t <= M) (App_Vec_init ++ [name])).
  { apply Forall_app. split; [exact HA0 |]. repeat constructor. unfold M. lia. }
  assert (HA2 : Forall (fun t => vsize t <= M)
                  (if (app_index >? 21) && (app_index <? 26)
                   then (App_Vec_init ++ [name])
                        ++ [0x20 :: args_linux; 0x20 :: args_windows]
                   else App_Vec_init ++ [name])).
  { destruct (_ && _); [| exact HA1].
    apply Forall_app. split; [exact HA1 |].
    repeat constructor; unfold M, vsize in *; simpl length; lia. }
  assert (Hgoal : forall Seq App limit ii ai,
    Forall (fun t => vsize t <= M) App -> limit - ii <= 10 ->
    Insert_loop (Z.to_nat (limit - ii)) Script_Template Seq App limit ii ai = Done Script ->
    vsize Script <= 274 + 10 * M).
  { intros Seq App limit ii ai HApp Hfuel Hl'.
    apply (Insert_loop_size_le M) in Hl'; [| exact HM | exact HApp].
    change (vsize Script_Template) with 274 in Hl'. nia. }
  destruct (app_index =? VIDEO_AUDIO).
  { apply Hgoal in H; [exact H | exact HA2 | vm_compute; discriminate]. }
  destruct ((app_index =? PDF) || (app_index =? FOLDER_INVOKE_ITEM)).
  { apply Hgoal in H; [exact H | exact HA2 | vm_compute; discriminate]. }
  destruct ((app_index =? PYTHON) || (app_index =? POWERSHELL)).
  { destruct (app_index =? POWERSHELL).
    - apply Hgoal in H; [exact H | | vm_compute; discriminate].
      apply Forall_app. split; [exact HA2 |].
      repeat constructor. unfold M, vsize in *. simpl length. lia.
    - apply Hgoal in H; [exact H | exact HA2 | vm_compute; discriminate]. }
  destruct ((app_index =? EXECUTABLE) || (app_index =? BASH_XDG_OPEN)).
  { destruct (app_index =? EXECUTABLE); cbn in H;
      (apply Hgoal in H; [exact H | exact HA2 | vm_compute; discriminate]). }
  apply Hgoal in H; [exact H | exact HA2 | vm_compute; discriminate].
Qed.


(** ** Assembly *)

(** The image is [A ++ T] with [T] its last chunk (twelve bytes).  The
    script goes in at index 33, the framed archive before [T]; then the
    fixer runs from the archive chunk's type field and the chunk's CRC is
    stored in the four bytes before [T]. *)
Lemma Combine_Vectors_Done (pdv pdv' : PDV_STRUCT) (A T : list Z) :
  Image_Vec pdv = A ++ T -> vsize T = 12 -> 33 <= vsize A ->
  image_size pdv = vsize (Image_Vec pdv) ->
  script_size pdv = vsize (Script_Vec pdv) ->
  zip_size pdv = vsize (Zip_Vec pdv) ->
  12 <= vsize (Zip_Vec pdv) ->
  vsize (Image_Vec pdv) + vsize (Script_Vec pdv) + vsize (Zip_Vec pdv) < 2 ^ 62 ->
  Combine_Vectors pdv = Done pdv' ->
  let head := take 33 A ++ Script_Vec pdv ++ drop 33 A in
  exists vec calls,
    Fix_Zip_Offset (head ++ Zip_Vec pdv ++ T) (vsize head + 4) = Done (vec, calls) /\
    vsize vec = vsize head + vsize (Zip_Vec pdv) + 12 /\
    Image_Vec pdv' =
      overwrite vec (vsize vec - 16)
        (be_bytes 4 (Crc_bytes (take (Z.to_nat (vsize (Zip_Vec pdv) - 8))
                                  (drop (Z.to_nat (vsize head + 4)) vec)))) /\
    image_size pdv' = vsize vec.
Proof.
  intros HI HT HA His Hss Hzs Hz Hsz H head.
  pose proof (vsize_nonneg (Script_Vec pdv)) as Hs0.
  assert (HszI : vsize (Image_Vec pdv) = vsize A + 12) by (rewrite HI, vsize_app; lia).
  assert (Hhead : vsize head = vsize A + vsize (Script_Vec pdv)).
  { unfold head. rewrite !vsize_app.
    rewrite <- (take_drop 33 A) at 3. rewrite vsize_app. lia. }
  unfold Combine_Vectors in H. rewrite His, Hss, Hzs in H.
  assert (H1 : vinsert (Image_Vec pdv) FIRST_IDAT_INDEX (Script_Vec pdv)
               = Done (head ++ T)).
  { apply vinsert_Done. change FIRST_IDAT_INDEX with 33. split; [lia |].
    rewrite HI. unfold head. change (Z.to_nat 33) with 33%nat.
    unfold vsize in HA.
    rewrite take_app_le by lia. rewrite drop_app_le by lia.
    rewrite <- !app_assoc. reflexivity. }
  rewrite H1 in H. cbn [mbind outcome_bind] in H.
  assert (H2 : vinsert (head ++ T) (vsize (head ++ T) - 12) (Zip_Vec pdv)
               = Done (head ++ Zip_Vec pdv ++ T)).
  { replace (vsize (head ++ T) - 12) with (vsize head) by (rewrite vsize_app; lia).
    apply vinsert_app. }
  rewrite H2 in H. cbn [mbind outcome_bind] in H.
  rewrite (size_t_small (vsize (Image_Vec pdv) + vsize (Script_Vec pdv))) in H by lia.
  rewrite (size_t_small (vsize (Image_Vec pdv) + vsize (Script_Vec pdv) - 8)) in H by lia.
  replace (vsize (Image_Vec pdv) + vsize (Script_Vec pdv) - 8) with (vsize head + 4) in H
    by (rewrite Hhead, HszI; ring).
  bind_as H r Hfix. destruct r as [vec calls]. cbn beta iota in H.
  assert (Hsz2 : vsize (head ++ Zip_Vec pdv ++ T) = vsize head + vsize (Zip_Vec pdv) + 12)
    by (rewrite !vsize_app; lia).
  assert (Hlt : vsize (head ++ Zip_Vec pdv ++ T) < 2 ^ 63) by (rewrite Hsz2; lia).
  assert (Hge : 0 <= vsize head + 4) by lia.
  pose proof (Fix_Zip_Offset_frame _ _ _ _ Hlt Hge Hfix) as [Hsz3 _].
  rewrite Hsz2 in Hsz3.
  rewrite (size_t_small (vsize (Zip_Vec pdv) - 8)) in H by lia.
  bind_as H crc Hcrc. apply Crc_Done in Hcrc. destruct Hcrc as (_ & _ & _ & ->).
  rewrite (size_t_small (vsize vec - 16)) in H by lia.
  rewrite Value_Updater_be32 in H by lia.
  replace (vsize vec - 16 + 4 <=? vsize vec) with true in H
    by (symmetry; apply Z.leb_le; lia).
  cbn [mbind outcome_bind] in H. injection H as <-.
  exists vec, calls. cbn [Image_Vec image_size]. auto.
Qed.

Lemma Write_Out_Polyglot_File_Done (pdv : PDV_STRUCT) (env : Environment) (out : list Z) :
  image_size pdv = vsize (Image_Vec pdv) ->
  Write_Out_Polyglot_File pdv env = Done (Polyglot_Written out) ->
  out = Image_Vec pdv.
Proof.
  intros Hs H. unfold Write_Out_Polyglot_File in H.
  destruct (negb (output_opens env)); [discriminate H |].
  bind_as H file Hf. injection H as <-.
  apply vrange_Done in Hf. destruct Hf as (_ & _ & ->).
  rewrite drop_0, Hs. apply take_ge. unfold vsize. lia.
Qed.

(** ** The whole program *)

Lemma main_Done (argv : list (list Z)) (env : Environment) (out : list Z) :
  main argv env = Done (Polyglot_Written out) ->
  exists a0 a1 a2,
    argv = [a0; a1; a2] /\ validate_arguments a1 a2 = None /\
    Build (mkPDV [] [] [] a1 a2 0 0 0 0 true) env = Done (Polyglot_Written out).
Proof.
  unfold main. intros H.
  destruct (_ && _); [discriminate H |].
  destruct (_ || _); [discriminate H |].
  destruct argv as [| a0 [| a1 [| a2 [| a3 argv]]]]; try discriminate H.
  destruct (validate_arguments a1 a2) eqn:Hv; [discriminate H |].
  exists a0, a1, a2. auto.
Qed.

Lemma framed_zip_size (zip : list Z) : vsize (framed_zip zip) = vsize zip + 12.
Proof.
  unfold framed_zip. rewrite !vsize_app.
  change (vsize (be_bytes 4 _)) with 4. change (vsize [73; 68; 65; 84]) with 4.
  change (vsize [0; 0; 0; 0]) with 4. lia.
Qed.

(** What a successful build computes, stage by stage: [img] and [zip] are
    the two input files, [mid] the chunks the pruner keeps between the
    IHDR chunk and the last twelve bytes, [S0] the composed script and
    [pad] the dots added to it. *)
Lemma Build_Done (pdv0 : PDV_STRUCT) (env : Environment) (out : list Z) :
  big_endian pdv0 = true -> env_fits env ->
  Build pdv0 env = Done (Polyglot_Written out) ->
  exists img zip p1 p2 p3 mid S0 pad vec calls,
    image_file env = Some img /\ zip_file env = Some zip /\
    Check_Image_File p1 img = Done p2 /\ Image_Vec p2 = img /\
    Erase_Image_Chunks p2 = Done p3 /\
    Image_Vec p3 = take 33 img ++ mid ++ drop (Z.to_nat (vsize img - 12)) img /\
    68 < vsize img /\ 40 < vsize zip /\ take 4 zip = ZIP_SIG /\
    Build_Script (framed_zip zip) (stdin_args_linux env) (stdin_args_windows env) = Done S0 /\
    pad = (if is_bad_char ((vsize S0 - 12) mod 256) then INCREASE_LENGTH_STRING else []) /\
    let body := take (Z.to_nat (vsize S0 - 8)) (drop 4 S0) ++ pad in
    let Script := take 2 S0 ++ be_bytes 2 (vsize S0 + vsize pad - 12)
                  ++ body ++ be_bytes 4 (Crc_bytes body) in
    let head := take 33 img ++ Script ++ mid in
    let T := drop (Z.to_nat (vsize img - 12)) img in
    vsize Script = vsize S0 + vsize pad /\
    vsize Script <= MAX_SCRIPT_SIZE /\
    is_bad_char ((vsize S0 + vsize pad - 12) mod 256) = false /\
    Fix_Zip_Offset (head ++ framed_zip zip ++ T) (vsize head + 4) = Done (vec, calls) /\
    vsize vec = vsize head + vsize zip + 24 /\
    vsize vec <= MAX_FILE_SIZE /\
    out = overwrite vec (vsize vec - 16)
            (be_bytes 4 (Crc_bytes (take (Z.to_nat (vsize zip + 4))
                                      (drop (Z.to_nat (vsize head + 4)) vec)))).
Proof.
  intros Hbe (Hfi & Hfz & Hfl & Hfw) H. unfold Build in H. unfold fits in *.
  bind_as H r Hopen. destruct r as [[p1 img] zip]. cbn beta iota in H.
  apply Open_Files_Done in Hopen. destruct Hopen as (Himg & Hzip & Hchk & Hbe1).
  pose proof (Hfi _ Himg) as Hi56. pose proof (Hfz _ Hzip) as Hz56.
  pose proof (vsize_nonneg img) as Hi0. pose proof (vsize_nonneg zip) as Hz0.
  apply file_size_check_bounds in Hchk; [| lia | lia].
  destruct Hchk as (Hi68 & Hz40 & Htot). unfold MAX_FILE_SIZE in Htot.
  bind_as H p2 Hcheck. bind_as H p3 Herase. bind_as H p4 Hzipf.
  unfold Complete_Extraction_Script in H.
  bind_as H p6 Hscript. bind_as Hscript S0 Hbuild. rename Hscript into Hfinish.
  bind_as H p7 Hcomb.
  pose proof (Check_Image_File_Done _ _ _ Hcheck) as (HI2 & Hs2 & Hbe2 & _ & _).
  pose proof (Erase_Image_Chunks_Done _ _ Herase) as Her. cbn zeta in Her.
  rewrite HI2 in Her. destruct Her as (_ & (mid & HI3 & Hmid) & Hs3 & Hbe3).
  assert (Hbe3' : big_endian p3 = true) by congruence.
  assert (Hz63 : vsize zip < 2 ^ 63) by lia.
  pose proof (Check_Zip_File_Done _ _ _ Hbe3' Hz63 Hzipf)
    as (HZ4 & Hzs4 & HI4 & His4 & Hbe4 & Hsig & _).
  rewrite HZ4 in Hbuild.
  pose proof (Build_Script_shape _ _ _ _ Hbuild) as [_ HS0].
  pose proof (Build_Script_size _ _ _ _ Hbuild) as HS0'.
  pose proof (vsize_nonneg mid) as Hm0.
  pose proof (vsize_nonneg (stdin_args_linux env)) as Hl0.
  pose proof (vsize_nonneg (stdin_args_windows env)) as Hw0.
  set (T := drop (Z.to_nat (vsize img - 12)) img) in *.
  assert (HT : vsize T = 12) by (unfold T, vsize; rewrite length_drop; unfold vsize in *; lia).
  assert (Ht33 : vsize (take 33 img) = 33)
    by (unfold vsize; rewrite length_take; unfold vsize in *; lia).
  assert (HszI3 : vsize (Image_Vec p3) = 45 + vsize mid)
    by (rewrite HI3, !vsize_app; lia).
  pose proof (framed_zip_size zip) as Hfzs.
  rewrite Hfzs in HS0'.
  assert (Hmid61 : vsize mid < 2 ^ 61) by nia.
  (* the script *)
  assert (Hn : 12 <= vsize S0 < 2 ^ 62) by lia.
  apply Finish_Script_Done in Hfinish; [| exact Hbe4 | exact Hn | rewrite HI4; lia
                                         | rewrite HZ4; lia].
  destruct Hfinish as (pad & Hpad & HS6 & Hss6 & Hmax & Htot6 & Hbad & HI6 & HZ6 &
                       His6 & Hzs6 & Hbe6).
  rewrite HI4, HZ4, Hfzs, HszI3 in Htot6.
  set (body := take (Z.to_nat (vsize S0 - 8)) (drop 4 S0) ++ pad) in *.
  set (Script := take 2 S0 ++ be_bytes 2 (vsize S0 + vsize pad - 12)
                 ++ body ++ be_bytes 4 (Crc_bytes body)) in *.
  assert (HszS : vsize Script = vsize S0 + vsize pad).
  { unfold Script, body. rewrite !vsize_app.
    change (vsize (be_bytes 2 _)) with 2. change (vsize (be_bytes 4 _)) with 4.
    unfold vsize. rewrite !length_take, length_drop. unfold vsize in Hn. lia. }
  (* the assembly *)
  assert (HI6' : Image_Vec p6 = (take 33 img ++ mid) ++ T)
    by (rewrite HI6, HI4, HI3, <- app_assoc; reflexivity).
  apply (Combine_Vectors_Done _ _ _ _ HI6') in Hcomb;
    [| exact HT
     | rewrite vsize_app; lia
     | rewrite His6, His4, Hs3, HI6, HI4; reflexivity
     | rewrite Hss6, HS6; fold body; fold Script; symmetry; exact HszS
     | rewrite Hzs6, Hzs4, HZ6, HZ4, Hfzs; reflexivity
     | rewrite HZ6, HZ4, Hfzs; lia
     | rewrite HI6, HI4, HszI3, HS6, HZ6, HZ4, Hfzs; fold body; fold Script;
       rewrite HszS; unfold MAX_FILE_SIZE in Htot6; lia].
  cbn zeta in Hcomb. destruct Hcomb as (vec & calls & Hfix & Hszv & HI7 & Hs7).
  rewrite HS6, HZ6, HZ4 in Hfix, Hszv, HI7. fold body in Hfix, Hszv, HI7.
  fold Script in Hfix, Hszv, HI7.
  assert (Et : take 33 (take 33 img ++ mid) = take 33 img).
  { rewrite take_app_le by (rewrite length_take; unfold vsize in *; lia).
    rewrite take_take. reflexivity. }
  assert (Ed : drop 33 (take 33 img ++ mid) = mid).
  { apply drop_app_length'. rewrite length_take. unfold vsize in *. lia. }
  rewrite Et, Ed in Hfix, Hszv, HI7. rewrite Hfzs in Hszv, HI7.
  replace (vsize zip + 12 - 8) with (vsize zip + 4) in HI7 by lia.
  rewrite !vsize_app, HszS, Ht33 in Hszv.
  pose proof (vsize_nonneg pad) as Hp0.
  apply Write_Out_Polyglot_File_Done in H; [| rewrite Hs7, HI7; symmetry;
    apply vsize_overwrite; [| change (vsize (be_bytes 4 _)) with 4]; lia].
  exists img, zip, p1, p2, p3, mid, S0, pad, vec, calls.
  cbv zeta. fold body. fold Script. fold T.
  repeat split; try assumption; try lia.
  - rewrite !vsize_app, HszS, Ht33. lia.
  - congruence.
Qed.


(** ** First occurrences *)

Lemma search_first_at (vec : list Z) (a : Z) (sig : list Z) (p : Z) :
  search vec a sig = Done p -> p < vsize vec -> first_at vec a sig p.
Proof.
  intros H Hp. apply search_Done in H. destruct H as (Ha & _ & Hocc & Hfirst).
  split; [lia |]. split; [apply Hocc; exact Hp | exact Hfirst].
Qed.

Lemma first_at_search (vec : list Z) (a : Z) (sig : list Z) (p : Z) :
  sig <> [] -> 0 <= a -> first_at vec a sig p -> search vec a sig = Done p.
Proof.
  intros Hne Ha (Hap & Hocc & Hfirst). apply search_intro; try assumption. lia.
Qed.

(** What [std::search] returns is the first occurrence, if there is one. *)
Lemma search_first_at_eq (vec : list Z) (a : Z) (sig : list Z) (p r : Z) :
  sig <> [] -> 0 <= a -> first_at vec a sig p -> search vec a sig = Done r -> r = p.
Proof.
  intros Hne Ha Hf Hs. rewrite (first_at_search _ _ _ _ Hne Ha Hf) in Hs.
  injection Hs as <-. reflexivity.
Qed.

Lemma first_at_agree (vec vec' : list Z) (a : Z) (sig : list Z) (p : Z) :
  0 <= a ->
  (forall j : nat, a <= Z.of_nat j < p + vsize sig -> vec' !! j = vec !! j) ->
  first_at vec a sig p -> first_at vec' a sig p.
Proof.
  intros Ha Hagree (Hap & Hocc & Hfirst). unfold vsize in Hagree.
  split; [exact Hap |]. split.
  - apply (occurs_agree vec vec'); [| exact Hocc].
    intros j Hj. apply Hagree. lia.
  - intros q Hq Hocc'. apply (Hfirst q Hq).
    apply (occurs_agree vec' vec); [| exact Hocc'].
    intros j Hj. symmetry. apply Hagree. lia.
Qed.

Lemma first_at_from (vec : list Z) (a a' : Z) (sig : list Z) (p : Z) :
  first_at vec a sig p -> a <= a' <= p -> first_at vec a' sig p.
Proof.
  intros (Hap & Hocc & Hfirst) Ha. split; [lia |]. split; [exact Hocc |].
  intros q Hq. apply Hfirst. lia.
Qed.

Lemma first_at_back (vec : list Z) (a0 a : Z) (sig : list Z) (p : Z) :
  first_at vec a sig p -> a0 <= a ->
  (forall q, a0 <= q < a -> ~ occurs vec q sig) ->
  first_at vec a0 sig p.
Proof.
  intros (Hap & Hocc & Hfirst) Ha Hnone. split; [lia |]. split; [exact Hocc |].
  intros q Hq. destruct (Z.lt_ge_cases q a) as [Hlt | Hge].
  - apply Hnone. lia.
  - apply Hfirst. lia.
Qed.

Lemma chain_ge (vec sig : list Z) (gap : Z) : forall (ps : list Z) (a : Z),
  0 <= gap -> chain vec sig gap a ps -> Forall (fun p => a <= p) ps.
Proof.
  induction ps as [| p ps IH]; intros a Hgap H; [constructor |].
  destruct H as [(Hap & _) Hrest]. constructor; [exact Hap |].
  eapply Forall_impl; [apply (IH _ Hgap Hrest) |]. intros q Hq. cbv beta in *. lia.
Qed.

Lemma chain_bound (vec sig : list Z) (gap : Z) : forall (ps : list Z) (a : Z),
  sig <> [] -> chain vec sig gap a ps -> Forall (fun p => p + vsize sig <= vsize vec) ps.
Proof.
  induction ps as [| p ps IH]; intros a Hne H; [constructor |].
  destruct H as [(_ & Hocc & _) Hrest]. constructor; [| apply (IH _ Hne Hrest)].
  apply occurs_lt; assumption.
Qed.

Lemma chain_occurs (vec sig : list Z) (gap : Z) : forall (ps : list Z) (a : Z),
  chain vec sig gap a ps -> Forall (fun p => occurs vec p sig) ps.
Proof.
  induction ps as [| p ps IH]; intros a H; [constructor |].
  destruct H as [(_ & Hocc & _) Hrest]. constructor; [exact Hocc | apply (IH _ Hrest)].
Qed.

(** A chain depends only on the bytes from its start to the end of its
    last signature. *)
Lemma chain_agree (vec vec' sig : list Z) (gap B : Z) : forall (ps : list Z) (a : Z),
  0 <= a -> 0 <= gap ->
  (forall j : nat, a <= Z.of_nat j < B -> vec' !! j = vec !! j) ->
  Forall (fun p => p + vsize sig <= B) ps ->
  chain vec sig gap a ps -> chain vec' sig gap a ps.
Proof.
  induction ps as [| p ps IH]; intros a Ha Hgap Hagree HB H; [exact I |].
  destruct H as [Hf Hrest]. inversion HB as [| ? ? HpB HB']; subst.
  pose proof Hf as (Hap & _).
  split.
  - apply (first_at_agree vec vec'); [exact Ha | | exact Hf].
    intros j Hj. apply Hagree. lia.
  - apply IH; [lia | exact Hgap | | exact HB' | exact Hrest].
    intros j Hj. apply Hagree. lia.
Qed.

(** ** An archive inside a buffer *)

Lemma occurs_embed (pre zip post : list Z) (p : Z) (sig : list Z) :
  0 <= p -> p + vsize sig <= vsize zip ->
  occurs (pre ++ zip ++ post) (vsize pre + p) sig <-> occurs zip p sig.
Proof.
  intros Hp Hlen. unfold occurs, vsize in *.
  rewrite drop_app_ge by lia.
  replace (Z.to_nat (Z.of_nat (length pre) + p) - length pre)%nat with (Z.to_nat p) by lia.
  rewrite drop_app_le by lia.
  rewrite take_app_le by (rewrite length_drop; lia).
  split; intros [_ H]; (split; [lia | exact H]).
Qed.

Lemma first_at_embed (pre zip post : list Z) (a : Z) (sig : list Z) (p : Z) :
  sig <> [] -> 0 <= a -> first_at zip a sig p ->
  first_at (pre ++ zip ++ post) (vsize pre + a) sig (vsize pre + p).
Proof.
  intros Hne Ha (Hap & Hocc & Hfirst).
  pose proof (occurs_lt _ _ _ Hne Hocc) as Hlt.
  split; [lia |]. split.
  - apply occurs_embed; [lia | exact Hlt | exact Hocc].
  - intros q Hq Hocc'. apply (Hfirst (q - vsize pre)); [lia |].
    replace q with (vsize pre + (q - vsize pre)) in Hocc' by lia.
    apply occurs_embed in Hocc'; [exact Hocc' | lia | lia].
Qed.

Lemma chain_embed (pre zip post sig : list Z) (gap : Z) : forall (ps : list Z) (a : Z),
  sig <> [] -> 0 <= a -> 0 <= gap -> chain zip sig gap a ps ->
  chain (pre ++ zip ++ post) sig gap (vsize pre + a) (map (Z.add (vsize pre)) ps).
Proof.
  induction ps as [| p ps IH]; intros a Hne Ha Hgap H; [exact I |].
  destruct H as [Hf Hrest]. pose proof Hf as (Hap & _). cbn [map chain]. split.
  - apply first_at_embed; assumption.
  - rewrite <- Z.add_assoc. apply IH; [exact Hne | lia | exact Hgap | exact Hrest].
Qed.

Lemma vrange_embed (pre zip post : list Z) (i j : Z) (bs : list Z) :
  vrange zip i j = Done bs ->
  vrange (pre ++ zip ++ post) (vsize pre + i) (vsize pre + j) = Done bs.
Proof.
  intros H. apply vrange_Done in H. destruct H as (Hij & Hj & ->).
  apply vrange_Done. rewrite !vsize_app.
  pose proof (vsize_nonneg pre). pose proof (vsize_nonneg post).
  split; [lia |]. split; [lia |]. unfold vsize in *.
  replace (Z.to_nat (Z.of_nat (length pre) + j - (Z.of_nat (length pre) + i)))
    with (Z.to_nat (j - i)) by lia.
  rewrite drop_app_ge by lia.
  replace (Z.to_nat (Z.of_nat (length pre) + i) - length pre)%nat with (Z.to_nat i) by lia.
  rewrite drop_app_le by lia.
  rewrite take_app_le by (rewrite length_drop; lia). reflexivity.
Qed.

Lemma read_le_embed (pre zip post : list Z) (i n v : Z) :
  read_le zip i n = Done v -> read_le (pre ++ zip ++ post) (vsize pre + i) n = Done v.
Proof.
  unfold read_le. intros H. bind_as H bs Hbs.
  rewrite <- Z.add_assoc. rewrite (vrange_embed _ _ _ _ _ _ Hbs). exact H.
Qed.

Lemma vrange_agree (vec vec' : list Z) (i j : Z) (bs : list Z) :
  vsize vec' = vsize vec ->
  (forall k : nat, i <= Z.of_nat k < j -> vec' !! k = vec !! k) ->
  vrange vec i j = Done bs -> vrange vec' i j = Done bs.
Proof.
  intros Hsz Hagree H. apply vrange_Done in H. destruct H as (Hij & Hj & ->).
  apply vrange_Done. split; [lia |]. split; [lia |].
  symmetry. apply take_drop_agree. intros k Hk. apply Hagree. lia.
Qed.

Lemma read_le_agree (vec vec' : list Z) (i n v : Z) :
  vsize vec' = vsize vec ->
  (forall k : nat, i <= Z.of_nat k < i + n -> vec' !! k = vec !! k) ->
  read_le vec i n = Done v -> read_le vec' i n = Done v.
Proof.
  unfold read_le. intros Hsz Hagree H. bind_as H bs Hbs.
  rewrite (vrange_agree _ _ _ _ _ Hsz Hagree Hbs). exact H.
Qed.


(** ** The fixer on a canonical archive *)

Lemma ZIP_SIG_ne : ZIP_SIG <> [].
Proof. discriminate. Qed.

Lemma START_CENTRAL_DIR_SIG_ne : START_CENTRAL_DIR_SIG <> [].
Proof. discriminate. Qed.

Lemma END_CENTRAL_DIR_SIG_ne : END_CENTRAL_DIR_SIG <> [].
Proof. discriminate. Qed.

(** The last byte of a stored offset is no 'P' while offsets stay below
    0x50000000. *)
Lemma no_signature_at_field_end (vec : list Z) (f o : Z) :
  0 <= f -> f + 46 <= vsize vec -> 0 <= o < 0x50000000 ->
  ~ occurs (overwrite vec (f + 42) (le_bytes 4 o)) (f + 45) START_CENTRAL_DIR_SIG.
Proof.
  intros Hf Hsz Ho Hocc. apply occurs_head in Hocc.
  replace (Z.to_nat (f + 45)) with (Z.to_nat (f + 42) + 3)%nat in Hocc by lia.
  rewrite overwrite_lookup_in in Hocc;
    [| lia | change (vsize (le_bytes 4 o)) with 4; lia | simpl; lia].
  apply le_bytes_4_top in Hocc; [vm_compute in Hocc; discriminate Hocc | exact Ho].
Qed.

(** With the local signatures [Ls] next in line from [o + 1], all below
    [B], and the central signatures [Cs] next in line from [c], the loop
    pairs them off: it stores the [k]-th local position in the field of
    the [k]-th central entry and touches nothing else. *)
Lemma Fix_Records_loop_canonical (B : Z) : forall (Ls Cs : list Z) (vec : list Z) (o c : Z)
    (calls : list (Z * Z)) (vec' : list Z) (calls' : list (Z * Z)),
  vsize vec < 0x50000000 -> 0 <= o -> 0 <= c -> B <= c + 42 ->
  length Ls = length Cs ->
  chain vec ZIP_SIG 1 (o + 1) Ls ->
  Forall (fun l => l + 4 <= B) Ls ->
  chain vec START_CENTRAL_DIR_SIG 46 c Cs ->
  Fix_Records_loop (length Ls) vec o c calls = Done (vec', calls') ->
  vsize vec' = vsize vec /\
  (forall (k : nat) l ck, Ls !! k = Some l -> Cs !! k = Some ck ->
     read_le vec' (ck + 42) 4 = Done l) /\
  Forall (fun ck => occurs vec' ck START_CENTRAL_DIR_SIG /\ ck + 46 <= vsize vec) Cs /\
  (forall j : nat,
     Forall (fun ck => Z.of_nat j < ck + 42 \/ ck + 46 <= Z.of_nat j) Cs ->
     vec' !! j = vec !! j).
Proof.
  induction Ls as [| l Ls IH]; intros Cs vec o c calls vec' calls'
    Hsz Ho Hc HB Hlen HLs HLB HCs H.
  - destruct Cs; [| discriminate Hlen]. injection H as <- <-.
    split; [reflexivity |]. split; [intros k ? ? Hk; discriminate Hk |].
    split; [constructor | reflexivity].
  - destruct Cs as [| c0 Cs]; [discriminate Hlen |].
    cbn [length] in H. apply Fix_Records_loop_step in H; [| lia].
    destruct H as (o' & f & Hso & Hsf & Hfr & H).
    destruct HLs as [Hl HLs]. destruct HCs as [Hc0 HCs].
    inversion HLB as [| ? ? HlB HLB']; subst.
    assert (Ho1 : 0 <= o + 1) by lia.
    apply (search_first_at_eq _ _ _ _ _ ZIP_SIG_ne Ho1 Hl) in Hso. subst o'.
    apply (search_first_at_eq _ _ _ _ _ START_CENTRAL_DIR_SIG_ne Hc Hc0) in Hsf. subst f.
    pose proof Hl as (Hol & Hoccl & _). pose proof Hc0 as (Hcc0 & Hoccc & _).
    pose proof (occurs_lt _ _ _ ZIP_SIG_ne Hoccl) as Hlsz.
    change (vsize ZIP_SIG) with 4 in Hlsz.
    set (vec1 := overwrite vec (c0 + 42) (le_bytes 4 l)) in *.
    assert (Hb : c0 + 42 + vsize (le_bytes 4 l) <= vsize vec)
      by (change (vsize (le_bytes 4 l)) with 4; lia).
    assert (Hs1 : vsize vec1 = vsize vec) by (apply vsize_overwrite; lia).
    assert (Hlow : forall j : nat, Z.of_nat j < c0 + 42 -> vec1 !! j = vec !! j).
    { intros j Hj. apply overwrite_lookup_out; [lia | exact Hb | lia]. }
    assert (Hhigh : forall j : nat, c0 + 46 <= Z.of_nat j -> vec1 !! j = vec !! j).
    { intros j Hj. apply overwrite_lookup_out; [lia | exact Hb |].
      change (length (le_bytes 4 l)) with 4%nat. lia. }
    assert (Hgap : 0 <= 46) by lia.
    pose proof (chain_ge _ _ _ _ _ Hgap HCs) as Hge.
    pose proof (chain_bound _ _ _ _ _ START_CENTRAL_DIR_SIG_ne HCs) as Hbd.
    change (vsize START_CENTRAL_DIR_SIG) with 4 in Hbd.
    apply (IH Cs) in H;
      [| lia | lia | lia | lia | simpl in Hlen; lia | | exact HLB' |].
    + destruct H as (Hsz' & Hread & Hocc & Hframe).
      assert (Hfar : Forall (fun ck => c0 + 46 <= ck) Cs) by exact Hge.
      split; [lia |]. split; [| split].
      * intros k l' ck Hk1 Hk2. destruct k as [| k].
        -- injection Hk1 as <-. injection Hk2 as <-.
           apply (read_le_agree vec1); [exact Hsz' | |].
           ++ intros j Hj. apply Hframe.
              eapply Forall_impl; [exact Hfar |]. intros ck Hck. cbv beta in *. lia.
           ++ unfold vec1. rewrite read_le_overwrite_4 by lia.
              f_equal. apply Z.mod_small. lia.
        -- apply (Hread k); assumption.
      * constructor.
        -- split; [| lia]. apply (occurs_agree vec); [| exact Hoccc].
           intros j Hj. change (length START_CENTRAL_DIR_SIG) with 4%nat in Hj.
           rewrite Hframe; [apply Hlow; lia |].
           eapply Forall_impl; [exact Hfar |]. intros ck Hck. cbv beta in *. lia.
        -- eapply Forall_impl; [exact Hocc |]. intros ck [H1 H2]. split; [exact H1 | lia].
      * intros j Hj. inversion Hj as [| ? ? Hj0 Hj']; subst.
        rewrite Hframe by exact Hj'.
        destruct Hj0 as [Hj0 | Hj0]; [apply Hlow | apply Hhigh]; exact Hj0.
    + (* the local signatures are below every field *)
      apply (chain_agree vec vec1 _ _ B); [lia | lia | | | exact HLs].
      * intros j Hj. apply Hlow. lia.
      * eapply Forall_impl; [exact HLB' |]. intros l' Hl'. cbv beta in *.
        change (vsize ZIP_SIG) with 4. lia.
    + (* the next central signature, looked for from the end of the field *)
      destruct Cs as [| c1 Cs]; [exact I |].
      destruct HCs as [Hc1 HCs].
      inversion Hbd as [| ? ? Hc1b Hbd']; subst.
      split.
      * apply (first_at_back _ _ (c0 + 46)); [| lia |].
        -- apply (first_at_agree vec); [lia | | exact Hc1].
           intros j Hj. apply Hhigh. lia.
        -- intros q Hq. replace q with (c0 + 45) by lia.
           apply no_signature_at_field_end; lia.
      * pose proof Hc1 as (Hc1a & _).
        apply (chain_agree vec vec1 _ _ (vsize vec)); [lia | lia | | | exact HCs].
        -- intros j Hj. apply Hhigh. lia.
        -- eapply Forall_impl; [exact Hbd' |]. intros ck Hck. cbv beta in *.
           change (vsize START_CENTRAL_DIR_SIG) with 4. lia.
Qed.

(** The whole fixer, on a buffer in which the signatures stand at the
    positions [Ls], [C0], [Cs] and [E]. *)
Lemma Fix_Zip_Offset_canonical (vec : list Z) (I : Z) (Ls Cs : list Z) (C0 E : Z)
    (vec' : list Z) (calls : list (Z * Z)) :
  vsize vec < 0x50000000 -> 0 <= I -> I < C0 ->
  chain vec ZIP_SIG 1 (I + 1) Ls ->
  Forall (fun l => l + 4 <= C0) Ls ->
  first_at vec I START_CENTRAL_DIR_SIG C0 ->
  chain vec START_CENTRAL_DIR_SIG 46 C0 Cs ->
  first_at vec C0 END_CENTRAL_DIR_SIG E ->
  Forall (fun c => c + 46 <= E) Cs ->
  E + 22 <= vsize vec ->
  read_le vec (E + 10) 2 = Done (Z.of_nat (length Cs)) ->
  length Ls = length Cs ->
  Fix_Zip_Offset vec I = Done (vec', calls) ->
  vsize vec' = vsize vec /\
  (forall (k : nat) l ck, Ls !! k = Some l -> Cs !! k = Some ck ->
     occurs vec' ck START_CENTRAL_DIR_SIG /\ read_le vec' (ck + 42) 4 = Done l) /\
  occurs vec' E END_CENTRAL_DIR_SIG /\
  read_le vec' (E + 16) 4 = Done C0 /\
  (forall j : nat, Z.of_nat j < C0 + 4 \/ E + 22 <= Z.of_nat j -> vec' !! j = vec !! j).
Proof.
  intros Hsz HI HIC HLs HLB HC0 HCs HE HCE HEsz Hcount Hlen H.
  assert (Hsz63 : vsize vec < 2 ^ 63) by lia.
  unfold Fix_Zip_Offset in H.
  bind_as H r Hent. destruct r as [[vec1 lay] calls1]. cbn beta iota in H.
  bind_as H vec2 Hcom. injection H as <- <-.
  apply Fix_Zip_Entries_Done in Hent; [| exact Hsz63].
  destruct Hent as (vec0 & Hloc & Hloop & Hend & ->).
  pose proof (Locate_Central_Dir_Done _ _ _ Hsz63 Hloc)
    as (hi & lo & Hs & He & Hhi & Hlo & Hn).
  apply (search_first_at_eq _ _ _ _ _ START_CENTRAL_DIR_SIG_ne HI HC0) in Hs.
  rewrite Hs in *. clear Hs.
  assert (HC00 : 0 <= C0) by lia.
  apply (search_first_at_eq _ _ _ _ _ END_CENTRAL_DIR_SIG_ne HC00 HE) in He.
  rewrite He in *. clear He.
  assert (Hn' : zip_records lay = Z.of_nat (length Cs)).
  { assert (Hr : read_le vec (E + 10) 2 = Done (Z.lor (Z.shiftl hi 8) lo)).
    { apply read_le_pair; [exact Hlo |].
      replace (E + 10 + 1) with (E + 11) by lia. exact Hhi. }
    rewrite Hcount in Hr. injection Hr as Hr. lia. }
  rewrite Hn', Nat2Z.id, <- Hlen in Hloop.
  pose proof HC0 as (_ & HoccC0 & _).
  pose proof (occurs_lt _ _ _ START_CENTRAL_DIR_SIG_ne HoccC0) as HC0sz.
  change (vsize START_CENTRAL_DIR_SIG) with 4 in HC0sz.
  rewrite (size_t_small (C0 - 1)) in Hloop by lia.
  pose proof HE as (HCE0 & HoccE & _).
  assert (Hgap : 0 <= 46) by lia.
  pose proof (chain_ge _ _ _ _ _ Hgap HCs) as Hge.
  apply (Fix_Records_loop_canonical C0 Ls Cs) in Hloop;
    [| exact Hsz | exact HI | lia | lia | exact Hlen | exact HLs | exact HLB |].
  2:{ destruct Cs as [| c0 Cs']; [constructor |]. destruct HCs as [Hc0 HCs']. split; [| exact HCs'].
      apply (first_at_back _ _ C0); [exact Hc0 | lia |].
      intros q Hq. destruct HC0 as (_ & _ & Hnone). apply Hnone. lia. }
  destruct Hloop as (Hsz0 & Hread & Hocc & Hframe).
  set (vec1 := overwrite vec0 (E + 16) (le_bytes 4 C0)) in *.
  assert (Hb1 : E + 16 + vsize (le_bytes 4 C0) <= vsize vec0)
    by (change (vsize (le_bytes 4 C0)) with 4; lia).
  assert (Hsz1 : vsize vec1 = vsize vec) by (unfold vec1; rewrite vsize_overwrite; lia).
  apply Fix_Zip_Comment_Done in Hcom; [| lia | lia].
  destruct Hcom as (hi' & lo' & _ & _ & ->).
  set (cl := 16 + Z.lor (Z.shiftl hi' 8) lo') in *.
  assert (Hb2 : E + 20 + vsize (le_bytes 2 cl) <= vsize vec1)
    by (change (vsize (le_bytes 2 cl)) with 2; lia).
  assert (Hsz2 : vsize (overwrite vec1 (E + 20) (le_bytes 2 cl)) = vsize vec)
    by (rewrite vsize_overwrite; lia).
  (* what the two last writes leave alone *)
  assert (Hlast : forall j : nat, Z.of_nat j < E + 16 \/ E + 22 <= Z.of_nat j ->
            overwrite vec1 (E + 20) (le_bytes 2 cl) !! j = vec0 !! j).
  { intros j Hj.
    rewrite overwrite_lookup_out;
      [| lia | exact Hb2 | change (length (le_bytes 2 cl)) with 2%nat; lia].
    apply overwrite_lookup_out;
      [lia | exact Hb1 | change (length (le_bytes 4 C0)) with 4%nat; lia]. }
  split; [exact Hsz2 |]. split; [| split; [| split]].
  - intros k l ck Hk1 Hk2.
    pose proof (Forall_lookup_1 _ _ _ _ HCE Hk2) as HckE. cbv beta in HckE.
    pose proof (Forall_lookup_1 _ _ _ _ Hocc Hk2) as [Hock _].
    split.
    + apply (occurs_agree vec0); [| exact Hock].
      intros j Hj. change (length START_CENTRAL_DIR_SIG) with 4%nat in Hj.
      apply Hlast. lia.
    + apply (read_le_agree vec0); [lia | | apply (Hread k); assumption].
      intros j Hj. apply Hlast. lia.
  - apply (occurs_agree vec); [| exact HoccE].
    intros j Hj. change (length END_CENTRAL_DIR_SIG) with 4%nat in Hj.
    rewrite Hlast by lia. apply Hframe.
    eapply Forall_impl; [exact HCE |]. intros ck Hck. cbv beta in *. lia.
  - apply (read_le_agree vec1); [lia | |].
    + intros j Hj. apply overwrite_lookup_out; [lia | exact Hb2 | lia].
    + unfold vec1. rewrite read_le_overwrite_4 by lia.
      f_equal. apply Z.mod_small. lia.
  - intros j Hj. rewrite Hlast by lia. apply Hframe.
    apply Forall_forall. intros ck Hin.
    rewrite Forall_forall in Hge, HCE.
    pose proof (Hge _ Hin). pose proof (HCE _ Hin). cbv beta in *. lia.
Qed.

Lemma lookup_map {A B : Type} (f : A -> B) (l : list A) (k : nat) :
  map f l !! k = option_map f (l !! k).
Proof.
  revert k. induction l as [| a l IH]; intros [| k]; simpl; try reflexivity. apply IH.
Qed.

(** No signature begins in the chunk type that precedes the archive. *)
Lemma no_signature_in_type (head len rest sig : list Z) (q : Z) :
  vsize len = 4 ->
  vsize head + 4 <= q < vsize head + 8 ->
  ~ occurs (head ++ len ++ [0x49; 0x44; 0x41; 0x54] ++ rest) q (0x50 :: sig).
Proof.
  intros Hlen Hq Hocc. apply occurs_head in Hocc. unfold vsize in *.
  rewrite lookup_app_r in Hocc by lia. rewrite lookup_app_r in Hocc by lia.
  assert (Hk : (Z.to_nat q - length head - length len < 4)%nat) by lia.
  destruct (Z.to_nat q - length head - length len)%nat as [| [| [| [| k]]]];
    try discriminate Hocc. lia.
Qed.

(** The fixer on the buffer of a build whose archive is canonical:
    [head] is all that precedes the archive chunk, [T] the last chunk. *)
Lemma Fix_Zip_Offset_framed (head zip T : list Z) (lay : Archive_Layout)
    (vec' : list Z) (calls : list (Z * Z)) :
  canonical zip lay ->
  vsize (head ++ framed_zip zip ++ T) < 0x50000000 ->
  Fix_Zip_Offset (head ++ framed_zip zip ++ T) (vsize head + 4) = Done (vec', calls) ->
  let base := vsize head + 8 in
  vsize vec' = vsize (head ++ framed_zip zip ++ T) /\
  chain vec' ZIP_SIG 1 base (map (Z.add base) (locals lay)) /\
  first_at vec' base START_CENTRAL_DIR_SIG (base + cd_start lay) /\
  (forall (k : nat) l c, locals lay !! k = Some l -> centrals lay !! k = Some c ->
     occurs vec' (base + c) START_CENTRAL_DIR_SIG /\
     read_le vec' (base + c + 42) 4 = Done (base + l)) /\
  occurs vec' (base + eocd lay) END_CENTRAL_DIR_SIG /\
  read_le vec' (base + eocd lay + 16) 4 = Done (base + cd_start lay) /\
  (forall j : nat, base + eocd lay + 22 <= Z.of_nat j ->
     vec' !! j = (head ++ framed_zip zip ++ T) !! j).
Proof.
  intros (HL & HC0 & HC & HLB & HE & HCE & HEsz & Hcount & Hlen) Hsz H base.
  pose proof (vsize_nonneg head) as Hh0.
  set (pre := head ++ be_bytes 4 (vsize zip) ++ [0x49; 0x44; 0x41; 0x54]).
  set (post := [0; 0; 0; 0] ++ T).
  assert (Hvec : head ++ framed_zip zip ++ T = pre ++ zip ++ post).
  { unfold pre, post, framed_zip. rewrite <- !app_assoc. reflexivity. }
  assert (Hpre : vsize pre = base).
  { unfold pre, base. rewrite !vsize_app. change (vsize (be_bytes 4 _)) with 4.
    change (vsize [73; 68; 65; 84]) with 4. lia. }
  assert (Htype : forall q sig, vsize head + 4 <= q < base ->
            ~ occurs (pre ++ zip ++ post) q (0x50 :: sig)).
  { intros q sig Hq. unfold pre. rewrite <- !app_assoc.
    apply no_signature_in_type; [reflexivity | exact Hq]. }
  rewrite Hvec in *. clearbody pre post.
  pose proof HC0 as (Hcd0 & _). pose proof HE as (Hcde & _).
  assert (Hgap1 : 0 <= 1) by lia. assert (Hgap46 : 0 <= 46) by lia.
  assert (H00 : 0 <= 0) by lia.
  pose proof (chain_embed pre zip post _ _ _ _ ZIP_SIG_ne H00 Hgap1 HL) as HL'.
  pose proof (first_at_embed pre zip post _ _ _ START_CENTRAL_DIR_SIG_ne H00 HC0) as HC0'.
  pose proof (chain_embed pre zip post _ _ _ _ START_CENTRAL_DIR_SIG_ne Hcd0 Hgap46 HC)
    as HC'.
  pose proof (first_at_embed pre zip post _ _ _ END_CENTRAL_DIR_SIG_ne Hcd0 HE) as HE'.
  apply (read_le_embed pre zip post) in Hcount.
  rewrite Hpre, ?Z.add_0_r in *.
  assert (HLB' : Forall (fun l => l + 4 <= base + cd_start lay)
                   (map (Z.add base) (locals lay))).
  { apply Forall_map. eapply Forall_impl; [exact HLB |]. intros l Hl. cbv beta in *. lia. }
  assert (Hbase : vsize (pre ++ zip ++ post) = base + vsize zip + vsize post)
    by (rewrite !vsize_app; lia).
  pose proof (vsize_nonneg post) as Hp0.
  apply (Fix_Zip_Offset_canonical _ _ (map (Z.add base) (locals lay))
           (map (Z.add base) (centrals lay)) (base + cd_start lay) (base + eocd lay)) in H;
    [| exact Hsz | lia | unfold base; lia | | exact HLB' | | exact HC' | exact HE'
     | | lia | | rewrite !length_map; exact Hlen].
  - destruct H as (Hsz' & Hent & HoccE & HreadE & Hframe).
    split; [exact Hsz' |]. split; [| split; [| split; [| split; [| split]]]].
    + apply (chain_agree (pre ++ zip ++ post) _ _ _ (base + cd_start lay));
        [lia | lia | | | exact HL'].
      * intros j Hj. apply Hframe. lia.
      * eapply Forall_impl; [exact HLB' |]. intros l Hl. cbv beta in *.
        change (vsize ZIP_SIG) with 4. lia.
    + apply (first_at_agree (pre ++ zip ++ post)); [lia | | exact HC0'].
      intros j Hj. change (vsize START_CENTRAL_DIR_SIG) with 4 in Hj. apply Hframe. lia.
    + intros k l c Hk1 Hk2.
      replace (base + c + 42) with (base + c + 42) by lia.
      apply (Hent k); rewrite lookup_map; [rewrite Hk1 | rewrite Hk2]; reflexivity.
    + exact HoccE.
    + exact HreadE.
    + intros j Hj. apply Hframe. lia.
  - (* the local signatures, looked for from the chunk type on *)
    replace (vsize head + 4 + 1) with (base - 3) by (unfold base; lia).
    destruct (locals lay) as [| l0 Ls]; [constructor |].
    destruct HL' as [Hl0 HLs]. split; [| exact HLs].
    apply (first_at_back _ _ base); [exact Hl0 | lia |].
    intros q Hq. apply Htype. unfold base in *. lia.
  - apply (first_at_back _ _ base); [exact HC0' | unfold base; lia |].
    intros q Hq. apply Htype. exact Hq.
  - apply Forall_map. eapply Forall_impl; [exact HCE |]. intros c Hc. cbv beta in *. lia.
  - rewrite length_map. rewrite <- Hcount. f_equal. lia.
Qed.


(** ** The CRC *)

(** The table of the source is the table of the PNG specification. *)
Lemma Crc_Table_steps (i : Z) :
  0 <= i < 256 -> nth (Z.to_nat i) Crc_Table 0 = crc_bit_steps 8 i.
Proof.
  intros Hi.
  assert (Hall : forallb (fun n => nth n Crc_Table 0 =? crc_bit_steps 8 (Z.of_nat n))
                   (seq 0 256) = true) by (vm_compute; reflexivity).
  rewrite forallb_forall in Hall.
  specialize (Hall (Z.to_nat i)). rewrite Z2Nat.id in Hall by lia.
  apply Z.eqb_eq. apply Hall. apply in_seq. lia.
Qed.

Lemma Crc_Table_range (i : Z) :
  0 <= i < 256 -> 0 <= nth (Z.to_nat i) Crc_Table 0 < 2 ^ 32.
Proof.
  intros Hi.
  assert (Hall : forallb (fun n => (0 <=? nth n Crc_Table 0)
                                   && (nth n Crc_Table 0 <? 2 ^ 32))
                   (seq 0 256) = true) by (vm_compute; reflexivity).
  rewrite forallb_forall in Hall.
  specialize (Hall (Z.to_nat i)).
  rewrite andb_true_iff, Z.leb_le, Z.ltb_lt in Hall. apply Hall. apply in_seq. lia.
Qed.

Lemma Crc_Update_png (buf : list Z) : forall c : Z, Crc_Update c buf = png_crc_update c buf.
Proof.
  induction buf as [| b buf IH]; intros c; [reflexivity |].
  cbn [Crc_Update png_crc_update]. rewrite IH. f_equal. f_equal.
  apply Crc_Table_steps. rewrite land_255. apply byte_range.
Qed.

Lemma Crc_bytes_png_crc (buf : list Z) : Crc_bytes buf = png_crc buf.
Proof. unfold Crc_bytes, png_crc. rewrite Crc_Update_png. reflexivity. Qed.

Lemma lxor_range (a b n : Z) :
  0 < n -> 0 <= a < 2 ^ n -> 0 <= b < 2 ^ n -> 0 <= Z.lxor a b < 2 ^ n.
Proof.
  intros Hn Ha Hb.
  assert (H0 : 0 <= Z.lxor a b) by (apply Z.lxor_nonneg; lia).
  split; [exact H0 |].
  destruct (Z.eq_dec (Z.lxor a b) 0) as [-> | Hne]; [lia |].
  apply Z.log2_lt_pow2; [lia |].
  pose proof (Z.log2_lxor a b ltac:(lia) ltac:(lia)) as Hl.
  assert (Z.log2 a < n).
  { destruct (Z.eq_dec a 0) as [-> | ?]; [simpl; lia | apply Z.log2_lt_pow2; lia]. }
  assert (Z.log2 b < n).
  { destruct (Z.eq_dec b 0) as [-> | ?]; [simpl; lia | apply Z.log2_lt_pow2; lia]. }
  lia.
Qed.

Lemma Crc_Update_range (buf : list Z) : forall c : Z,
  0 <= c < 2 ^ 32 -> 0 <= Crc_Update c buf < 2 ^ 32.
Proof.
  induction buf as [| b buf IH]; intros c Hc; [exact Hc |].
  cbn [Crc_Update]. apply IH. apply lxor_range; [lia | |].
  - apply Crc_Table_range. rewrite land_255. apply byte_range.
  - rewrite Z.shiftr_div_pow2 by lia. split; [apply Z.div_pos; lia |].
    apply Z.div_lt_upper_bound; lia.
Qed.

Lemma Crc_bytes_range (buf : list Z) : 0 <= Crc_bytes buf < 2 ^ 32.
Proof.
  unfold Crc_bytes. apply lxor_range; [lia | | lia].
  apply Crc_Update_range. lia.
Qed.

Lemma png_crc_range (buf : list Z) : 0 <= png_crc buf < 2 ^ 32.
Proof. rewrite <- Crc_bytes_png_crc. apply Crc_bytes_range. Qed.

(** ** Four bytes, most significant first *)

Lemma read_be_bytes_be_bytes_4 (v : Z) : read_be_bytes (be_bytes 4 v) 0 = v mod 2 ^ 32.
Proof. exact (read_be_4 v). Qed.

Lemma get_u32_be_bytes (pre rest : list Z) (v : Z) :
  vsize (pre ++ be_bytes 4 v ++ rest) < 2 ^ 63 ->
  get_u32 (pre ++ be_bytes 4 v ++ rest) (vsize pre) = Done (v mod 2 ^ 32).
Proof.
  intros Hsz. pose proof (vsize_nonneg pre) as Hp. pose proof (vsize_nonneg rest) as Hr.
  rewrite !vsize_app in Hsz. change (vsize (be_bytes 4 v)) with 4 in Hsz.
  assert (Hget : forall k : nat, (k < 4)%nat ->
            vget (pre ++ be_bytes 4 v ++ rest) (vsize pre + Z.of_nat k)
            = match be_bytes 4 v !! k with Some b => Done b | None => Undefined end).
  { intros k Hk. rewrite vget_lookup by lia.
    replace (Z.to_nat (vsize pre + Z.of_nat k)) with (length pre + k)%nat
      by (unfold vsize; lia).
    rewrite lookup_app_r by lia.
    replace (length pre + k - length pre)%nat with k by lia.
    rewrite lookup_app_l by (simpl; lia). reflexivity. }
  unfold get_u32.
  rewrite !size_t_small by lia.
  pose proof (Hget 0%nat ltac:(lia)) as H0. rewrite Z.add_0_r in H0.
  pose proof (Hget 1%nat ltac:(lia)) as H1.
  pose proof (Hget 2%nat ltac:(lia)) as H2.
  pose proof (Hget 3%nat ltac:(lia)) as H3.
  change (Z.of_nat 1) with 1 in H1. change (Z.of_nat 2) with 2 in H2.
  change (Z.of_nat 3) with 3 in H3.
  rewrite H0, H1, H2, H3. cbn [be_bytes lookup list_lookup mbind outcome_bind].
  f_equal. rewrite <- read_be_bytes_be_bytes_4. cbn [be_bytes read_be_bytes].
  rewrite Z.shiftl_0_l, Z.lor_0_l.
  rewrite !Z.shiftl_lor, !Z.shiftl_shiftl by lia. reflexivity.
Qed.


(** ** Chunks in a buffer *)

Lemma encode_chunk_size (ty d : list Z) :
  vsize (encode_chunk ty d) = vsize ty + vsize d + 8.
Proof.
  unfold encode_chunk. rewrite !vsize_app.
  change (vsize (be_bytes 4 _)) with 4. lia.
Qed.

Section Chunk_At.

(** The chunk of type [ty] and data [d] stands after [pre]. *)
Variables pre rest ty d : list Z.

Hypothesis Hsz : vsize (pre ++ encode_chunk ty d ++ rest) < 2 ^ 63.
Hypothesis Hty : vsize ty = 4.
Hypothesis Hd : vsize d < 2 ^ 32.

Lemma chunk_length : get_u32 (pre ++ encode_chunk ty d ++ rest) (vsize pre) = Done (vsize d).
Proof.
  unfold encode_chunk in *. rewrite <- !app_assoc in *.
  rewrite get_u32_be_bytes by exact Hsz.
  f_equal. apply Z.mod_small. pose proof (vsize_nonneg d). lia.
Qed.

Lemma chunk_range :
  vrange (pre ++ encode_chunk ty d ++ rest) (vsize pre) (vsize pre + vsize d + 12) = Done (encode_chunk ty d).
Proof.
  replace (vsize pre + vsize d + 12)
    with (vsize pre + vsize (encode_chunk ty d)) by (rewrite encode_chunk_size; lia).
  apply vrange_app_mid.
Qed.

Lemma chunk_crc_stored :
  get_u32 (pre ++ encode_chunk ty d ++ rest) (vsize pre + vsize d + 8) = Done (png_crc (ty ++ d)).
Proof.
  unfold encode_chunk in *.
  replace (pre ++ (be_bytes 4 (vsize d) ++ ty ++ d ++ be_bytes 4 (png_crc (ty ++ d)))
           ++ rest)
    with ((pre ++ be_bytes 4 (vsize d) ++ ty ++ d)
          ++ be_bytes 4 (png_crc (ty ++ d)) ++ rest) in *
    by (rewrite <- !app_assoc; reflexivity).
  replace (vsize pre + vsize d + 8) with (vsize (pre ++ be_bytes 4 (vsize d) ++ ty ++ d))
    by (rewrite !vsize_app; change (vsize (be_bytes 4 _)) with 4; lia).
  rewrite get_u32_be_bytes by exact Hsz.
  f_equal. apply Z.mod_small. apply png_crc_range.
Qed.

Lemma chunk_crc_calc :
  Crc (pre ++ encode_chunk ty d ++ rest) (vsize pre + 4) (vsize d + 4) = Done (png_crc (ty ++ d)).
Proof.
  unfold encode_chunk.
  replace (pre ++ (be_bytes 4 (vsize d) ++ ty ++ d ++ be_bytes 4 (png_crc (ty ++ d)))
           ++ rest)
    with ((pre ++ be_bytes 4 (vsize d)) ++ (ty ++ d)
          ++ be_bytes 4 (png_crc (ty ++ d)) ++ rest)
    by (rewrite <- !app_assoc; reflexivity).
  replace (vsize pre + 4) with (vsize (pre ++ be_bytes 4 (vsize d)))
    by (rewrite vsize_app; reflexivity).
  replace (vsize d + 4) with (vsize (ty ++ d)) by (rewrite vsize_app; lia).
  rewrite Crc_app_mid.
  - rewrite Crc_bytes_png_crc. reflexivity.
  - intros Hnil. apply (f_equal vsize) in Hnil. rewrite vsize_app in Hnil.
    pose proof (vsize_nonneg d). change (vsize []) with 0 in Hnil. lia.
Qed.

Lemma chunk_type_occurs : occurs (pre ++ encode_chunk ty d ++ rest) (vsize pre + 4) ty.
Proof.
  pose proof (vsize_nonneg pre) as Hp.
  split; [lia |]. unfold encode_chunk.
  replace (pre ++ (be_bytes 4 (vsize d) ++ ty ++ d ++ be_bytes 4 (png_crc (ty ++ d)))
           ++ rest)
    with ((pre ++ be_bytes 4 (vsize d)) ++ ty
          ++ (d ++ be_bytes 4 (png_crc (ty ++ d)) ++ rest))
    by (rewrite <- !app_assoc; reflexivity).
  replace (Z.to_nat (vsize pre + 4)) with (length (pre ++ be_bytes 4 (vsize d)))
    by (rewrite length_app; unfold vsize; simpl; lia).
  rewrite drop_app_length. apply take_app_length.
Qed.

End Chunk_At.

(** The palette length is read from three bytes. *)
Lemma get_u24_be_bytes (pre rest : list Z) (v : Z) :
  vsize (pre ++ be_bytes 4 v ++ rest) < 2 ^ 63 -> 0 <= v < 2 ^ 24 ->
  get_u24 (pre ++ be_bytes 4 v ++ rest) (vsize pre) = Done v.
Proof.
  intros Hsz Hv.
  pose proof (get_u32_be_bytes pre rest v Hsz) as H32.
  unfold get_u32 in H32. unfold get_u24.
  bind_as H32 b0 Hb0. bind_as H32 b1 Hb1. bind_as H32 b2 Hb2. bind_as H32 b3 Hb3.
  rewrite Hb1, Hb2, Hb3. cbn [mbind outcome_bind].
  injection H32 as H32. f_equal.
  assert (Hb0' : b0 = 0).
  { apply vget_Done in Hb0. destruct Hb0 as [_ Hb0].
    replace (Z.to_nat (vsize pre)) with (length pre + 0)%nat in Hb0 by (unfold vsize; lia).
    rewrite lookup_app_r in Hb0 by lia.
    replace (length pre + 0 - length pre)%nat with O in Hb0 by lia.
    cbn in Hb0. injection Hb0 as <-.
    rewrite byte_of_shift by lia. change (2 ^ 24) with 16777216.
    rewrite Z.div_small by lia. reflexivity. }
  subst b0. rewrite Z.shiftl_0_l, Z.lor_0_l in H32.
  rewrite H32. apply Z.mod_small. lia.
Qed.

(** ** All the occurrences of a signature *)

Lemma occurs_cons (x : Z) (vec : list Z) (q : Z) (sig : list Z) :
  0 <= q -> occurs (x :: vec) (q + 1) sig <-> occurs vec q sig.
Proof.
  intros Hq. unfold occurs.
  replace (Z.to_nat (q + 1)) with (S (Z.to_nat q)) by lia. cbn [drop].
  split; intros [_ H]; (split; [lia | exact H]).
Qed.

Lemma occurs_nil (q : Z) (sig : list Z) : sig <> [] -> ~ occurs [] q sig.
Proof.
  intros Hne [_ H]. rewrite drop_nil, take_nil in H. congruence.
Qed.

Lemma occurrences_from_spec (sig : list Z) : forall (vec : list Z) (i q : Z),
  sig <> [] ->
  In q (occurrences_from i vec sig) <-> i <= q /\ occurs vec (q - i) sig.
Proof.
  intros vec. induction vec as [| x vec IH]; intros i q Hne.
  - simpl. split; [contradiction | intros [_ H]; exact (occurs_nil _ _ Hne H)].
  - cbn [occurrences_from].
    assert (Htail : In q (occurrences_from (i + 1) vec sig) <->
                    i < q /\ occurs (x :: vec) (q - i) sig).
    { rewrite IH by exact Hne. split.
      - intros [Hq Hocc]. split; [lia |].
        replace (q - i) with (q - (i + 1) + 1) by lia.
        apply (proj2 (occurs_cons x vec (q - (i + 1)) sig ltac:(lia))). exact Hocc.
      - intros [Hq Hocc]. split; [lia |].
        replace (q - i) with (q - (i + 1) + 1) in Hocc by lia.
        apply (proj1 (occurs_cons x vec (q - (i + 1)) sig ltac:(lia))). exact Hocc. }
    assert (Hhead : starts_with sig (x :: vec) = true <-> occurs (x :: vec) (i - i) sig).
    { rewrite starts_with_take, Z.sub_diag. unfold occurs. cbn [Z.to_nat drop].
      split; [intros H; split; [lia | exact H] | intros [_ H]; exact H]. }
    destruct (starts_with sig (x :: vec)) eqn:Hs.
    + cbn [In]. rewrite Htail. split.
      * intros [<- | [Hq Hocc]]; [split; [lia | apply Hhead; reflexivity] |].
        split; [lia | exact Hocc].
      * intros [Hq Hocc]. destruct (Z.eq_dec i q) as [-> | Hneq]; [left; reflexivity |].
        right. split; [lia | exact Hocc].
    + rewrite Htail. split.
      * intros [Hq Hocc]. split; [lia | exact Hocc].
      * intros [Hq Hocc]. split; [| exact Hocc].
        destruct (Z.eq_dec i q) as [-> | Hneq]; [| lia].
        apply Hhead in Hocc. discriminate Hocc.
Qed.

Lemma occurs_occurrences (vec sig : list Z) (q : Z) :
  sig <> [] -> occurs vec q sig -> In q (occurrences vec sig).
Proof.
  intros Hne Hocc. apply occurrences_from_spec; [exact Hne |].
  pose proof Hocc as [Hq _]. rewrite Z.sub_0_r. split; [exact Hq | exact Hocc].
Qed.

Lemma head_occurrences_from (sig : list Z) : forall (vec : list Z) (i p : Z),
  sig <> [] -> head (occurrences_from i vec sig) = Some p ->
  i <= p /\ occurs vec (p - i) sig /\ forall q, i <= q < p -> ~ occurs vec (q - i) sig.
Proof.
  intros vec. induction vec as [| x vec IH]; intros i p Hne H; [discriminate H |].
  cbn [occurrences_from] in H.
  destruct (starts_with sig (x :: vec)) eqn:Hs.
  - injection H as <-. split; [lia |]. split; [| intros q Hq; lia].
    rewrite Z.sub_diag. split; [lia |]. apply starts_with_take. exact Hs.
  - apply IH in H; [| exact Hne]. destruct H as (Hip & Hocc & Hfirst).
    split; [lia |]. split.
    + replace (p - i) with (p - (i + 1) + 1) by lia.
      apply (proj2 (occurs_cons x vec (p - (i + 1)) sig ltac:(lia))). exact Hocc.
    + intros q Hq Hoq. destruct (Z.eq_dec q i) as [-> | Hneq].
      * rewrite Z.sub_diag in Hoq. destruct Hoq as [_ Hoq]. cbn [Z.to_nat drop] in Hoq.
        apply (proj2 (starts_with_take sig (x :: vec))) in Hoq.
        rewrite Hs in Hoq. discriminate Hoq.
      * apply (Hfirst q); [lia |].
        replace (q - i) with (q - (i + 1) + 1) in Hoq by lia.
        apply (proj1 (occurs_cons x vec (q - (i + 1)) sig ltac:(lia))). exact Hoq.
Qed.

Lemma head_occurrences (vec sig : list Z) (p : Z) :
  sig <> [] -> head (occurrences vec sig) = Some p -> first_at vec 0 sig p.
Proof.
  intros Hne H. apply head_occurrences_from in H; [| exact Hne].
  destruct H as (Hp & Hocc & Hfirst). rewrite Z.sub_0_r in Hocc.
  split; [exact Hp |]. split; [exact Hocc |].
  intros q Hq Hoq. apply (Hfirst q Hq). rewrite Z.sub_0_r. exact Hoq.
Qed.


(** ** The pruner on a file it reads as intended *)

Lemma IDAT_SIG_ne : IDAT_SIG <> [].
Proof. discriminate. Qed.

Lemma PLTE_SIG_ne : PLTE_SIG <> [].
Proof. discriminate. Qed.

Lemma encode_chunks_app (a b : list chunk) :
  encode_chunks (a ++ b) = encode_chunks a ++ encode_chunks b.
Proof. apply flat_map_app. Qed.

Lemma encode_chunks_cons (c : chunk) (cs : list chunk) :
  encode_chunks (c :: cs) = encode_chunk (fst c) (snd c) ++ encode_chunks cs.
Proof. reflexivity. Qed.

Lemma idat_positions_ge (q : Z) : forall (ds : list (list Z)) (a : Z),
  In q (idat_positions a ds) -> a + 4 <= q.
Proof.
  induction ds as [| d ds IH]; intros a H; [contradiction |].
  destruct H as [<- | H]; [lia |]. apply IH in H. pose proof (vsize_nonneg d). lia.
Qed.

Lemma idat_stream_size (ds : list (list Z)) :
  12 * Z.of_nat (length ds) <= vsize (encode_chunks (map (fun d => (IDAT_SIG, d)) ds)).
Proof.
  induction ds as [| d ds IH]; [unfold vsize; simpl; lia |].
  cbn [map length]. rewrite encode_chunks_cons, vsize_app, encode_chunk_size.
  cbn [fst snd]. change (vsize IDAT_SIG) with 4. pose proof (vsize_nonneg d). lia.
Qed.

Lemma idat_stream_head (d0 : list Z) (ds : list (list Z)) :
  vsize d0 + 12 <= vsize (encode_chunks (map (fun d => (IDAT_SIG, d)) (d0 :: ds))).
Proof.
  cbn [map]. rewrite encode_chunks_cons, vsize_app, encode_chunk_size. cbn [fst snd].
  change (vsize IDAT_SIG) with 4.
  pose proof (vsize_nonneg (encode_chunks (map (fun d => (IDAT_SIG, d)) ds))). lia.
Qed.

(** One round of the loop, at a chunk. *)
Lemma Erase_IDAT_loop_step (fuel : nat) (img pre rest d0 Temp : list Z) :
  img = pre ++ encode_chunk IDAT_SIG d0 ++ rest ->
  vsize img < 2 ^ 63 -> vsize d0 < 2 ^ 32 ->
  Erase_IDAT_loop (S fuel) img (vsize img) Temp (vsize pre)
  = (found ← search img (vsize pre + 6) IDAT_SIG;
     Erase_IDAT_loop fuel img (vsize img) (Temp ++ encode_chunk IDAT_SIG d0)
       (size_t (found - 4))).
Proof.
  intros Himg Hsz Hd0.
  pose proof (vsize_nonneg pre) as Hp0. pose proof (vsize_nonneg d0) as Hd00.
  pose proof (vsize_nonneg rest) as Hr0.
  assert (HN : vsize pre + vsize d0 + 12 <= vsize img).
  { rewrite Himg, !vsize_app, encode_chunk_size. change (vsize IDAT_SIG) with 4. lia. }
  cbn [Erase_IDAT_loop].
  rewrite (size_t_small (vsize pre + 4)) by lia.
  replace (vsize img =? vsize pre + 4) with false by (symmetry; apply Z.eqb_neq; lia).
  cbn [negb].
  assert (Hlen : get_u32 img (vsize pre) = Done (vsize d0)).
  { rewrite Himg. apply chunk_length; [rewrite <- Himg; exact Hsz | exact Hd0]. }
  rewrite Hlen. cbn [mbind outcome_bind].
  rewrite (size_t_small (vsize d0 + 12)) by lia.
  rewrite Z.add_assoc.
  assert (Hrange : vrange img (vsize pre) (vsize pre + vsize d0 + 12)
                   = Done (encode_chunk IDAT_SIG d0)).
  { rewrite Himg. apply chunk_range. reflexivity. }
  rewrite Hrange. reflexivity.
Qed.

(** The loop copies the IDAT chunks that begin at its index, as long as
    the string "IDAT" stands further on at their type fields only. *)
Lemma Erase_IDAT_loop_stream : forall (ds : list (list Z)) (d0 : list Z) (fuel : nat)
    (img pre post Temp : list Z),
  img = pre ++ encode_chunks (map (fun d => (IDAT_SIG, d)) (d0 :: ds)) ++ post ->
  vsize img < 2 ^ 63 -> (length ds < fuel)%nat ->
  Forall (fun d => vsize d < 2 ^ 32) (d0 :: ds) ->
  (forall q, vsize pre + 6 <= q -> occurs img q IDAT_SIG ->
             In q (idat_positions (vsize pre + vsize d0 + 12) ds)) ->
  Erase_IDAT_loop fuel img (vsize img) Temp (vsize pre)
  = Done (Temp ++ encode_chunks (map (fun d => (IDAT_SIG, d)) (d0 :: ds))).
Proof.
  induction ds as [| d1 ds IH]; intros d0 fuel img pre post Temp Himg Hsz Hfuel Hds Hocc;
    (destruct fuel as [| fuel]; [simpl in Hfuel; lia |]);
    pose proof (proj1 (Forall_cons _ _ _) Hds) as [Hd0 Hds'];
    cbn [map] in Himg; rewrite encode_chunks_cons in Himg; cbn [fst snd] in Himg;
    rewrite <- app_assoc in Himg;
    pose proof (vsize_nonneg pre) as Hp0; pose proof (vsize_nonneg d0) as Hd00;
    rewrite (Erase_IDAT_loop_step _ _ _ _ _ _ Himg Hsz Hd0).
  - (* the last chunk *)
    assert (HN : vsize pre + vsize d0 + 12 <= vsize img).
    { rewrite Himg, !vsize_app, encode_chunk_size. change (vsize IDAT_SIG) with 4.
      pose proof (vsize_nonneg post).
      change (vsize (encode_chunks [])) with 0. lia. }
    rewrite (search_none img (vsize pre + 6) IDAT_SIG);
      [| lia | intros q Hq Hoq; exact (Hocc q Hq Hoq)].
    cbn [mbind outcome_bind].
    assert (Hend : forall f T, Erase_IDAT_loop f img (vsize img) T (size_t (vsize img - 4))
                               = Done T).
    { intros f T. rewrite (size_t_small (vsize img - 4)) by lia.
      destruct f; cbn [Erase_IDAT_loop];
        rewrite (size_t_small (vsize img - 4 + 4)) by lia;
        replace (vsize img - 4 + 4) with (vsize img) by lia;
        rewrite Z.eqb_refl; reflexivity. }
    rewrite Hend. cbn [map]. rewrite encode_chunks_cons. cbn [fst snd encode_chunks flat_map].
    rewrite app_nil_r. reflexivity.
  - (* a chunk follows *)
    set (E0 := encode_chunk IDAT_SIG d0) in *.
    assert (HE0 : vsize (pre ++ E0) = vsize pre + vsize d0 + 12).
    { rewrite vsize_app. unfold E0. rewrite encode_chunk_size.
      change (vsize IDAT_SIG) with 4. lia. }
    assert (Himg' : img = (pre ++ E0)
                          ++ encode_chunks (map (fun d => (IDAT_SIG, d)) (d1 :: ds)) ++ post)
      by (rewrite Himg, <- app_assoc; reflexivity).
    assert (HN : vsize pre + vsize d0 + 12 + 12 <= vsize img).
    { rewrite Himg'. rewrite vsize_app, HE0, vsize_app.
      pose proof (idat_stream_size (d1 :: ds)) as Hst. cbn [length] in Hst.
      pose proof (vsize_nonneg post). lia. }
    assert (Hnext : first_at img (vsize pre + 6) IDAT_SIG (vsize pre + vsize d0 + 12 + 4)).
    { split; [lia |]. split.
      - assert (Hform : img = (pre ++ E0) ++ encode_chunk IDAT_SIG d1
                              ++ (encode_chunks (map (fun d => (IDAT_SIG, d)) ds) ++ post)).
        { rewrite Himg'. cbn [map]. rewrite encode_chunks_cons. cbn [fst snd].
          rewrite <- (app_assoc (encode_chunk IDAT_SIG d1)). reflexivity. }
        rewrite <- HE0. rewrite Hform. apply chunk_type_occurs.
      - intros q Hq Hoq. apply Hocc in Hoq; [| lia].
        apply idat_positions_ge in Hoq. lia. }
    assert (Hfrom : 0 <= vsize pre + 6) by lia.
    rewrite (first_at_search _ _ _ _ IDAT_SIG_ne Hfrom Hnext).
    cbn [mbind outcome_bind].
    replace (vsize pre + vsize d0 + 12 + 4 - 4) with (vsize (pre ++ E0)) by lia.
    rewrite (size_t_small (vsize (pre ++ E0))) by lia.
    rewrite (IH d1 fuel img (pre ++ E0) post (Temp ++ E0) Himg' Hsz);
      [| simpl in Hfuel; lia | exact Hds' |].
    + rewrite <- app_assoc. f_equal.
    + intros q Hq Hoq. rewrite HE0 in Hq.
      apply Hocc in Hoq; [| lia]. cbn [idat_positions] in Hoq.
      destruct Hoq as [Heq | Hin]; [lia |]. rewrite HE0. exact Hin.
Qed.

Lemma encode_chunks_one (ty d : list Z) : encode_chunks [(ty, d)] = encode_chunk ty d.
Proof. unfold encode_chunks. cbn [flat_map fst snd]. apply app_nil_r. Qed.

Lemma encode_png_split (p : Png) :
  encode_png p =
  (PNG_SIGNATURE ++ encode_chunk IHDR_SIG (ihdr p)) ++ encode_chunks (before_plte p)
  ++ encode_chunks (plte_chunks p) ++ encode_chunks (after_plte p)
  ++ encode_chunks (idat_chunks p) ++ encode_chunks (after_idat p) ++ IEND_chunk.
Proof.
  unfold encode_png, png_chunks. rewrite !encode_chunks_app, !encode_chunks_one.
  rewrite <- !app_assoc. reflexivity.
Qed.

Lemma plte_start_eq (p : Png) :
  plte_start p = vsize ((PNG_SIGNATURE ++ encode_chunk IHDR_SIG (ihdr p))
                        ++ encode_chunks (before_plte p)).
Proof.
  unfold plte_start. rewrite !encode_chunks_app, encode_chunks_one, !vsize_app.
  change (vsize PNG_SIGNATURE) with 8. lia.
Qed.

Lemma idat_start_eq (p : Png) :
  idat_start p = vsize ((PNG_SIGNATURE ++ encode_chunk IHDR_SIG (ihdr p))
                        ++ encode_chunks (before_plte p) ++ encode_chunks (plte_chunks p)
                        ++ encode_chunks (after_plte p)).
Proof.
  unfold idat_start. rewrite !encode_chunks_app, encode_chunks_one, !vsize_app.
  change (vsize PNG_SIGNATURE) with 8. lia.
Qed.

Lemma pruned_split (p : Png) :
  PNG_SIGNATURE ++ encode_chunks (pruned_chunks p) =
  (PNG_SIGNATURE ++ encode_chunk IHDR_SIG (ihdr p)) ++ encode_chunks (kept_plte p)
  ++ encode_chunks (idat_chunks p) ++ IEND_chunk.
Proof.
  unfold pruned_chunks. rewrite !encode_chunks_app, !encode_chunks_one.
  rewrite <- !app_assoc. reflexivity.
Qed.

(** The colour type is the tenth byte of the IHDR data. *)
Lemma header_color (p : Png) (rest : list Z) :
  vsize (ihdr p) = 13 ->
  vget ((PNG_SIGNATURE ++ encode_chunk IHDR_SIG (ihdr p)) ++ rest) 25
  = Done (color_type p).
Proof.
  intros H13. apply vget_Done.
  pose proof (vsize_nonneg rest) as Hr. split.
  - rewrite !vsize_app, encode_chunk_size, H13. change (vsize PNG_SIGNATURE) with 8.
    change (vsize IHDR_SIG) with 4. lia.
  - unfold color_type, encode_chunk, vsize in *.
    destruct (ihdr p) as [| b0 [| b1 [| b2 [| b3 [| b4 [| b5 [| b6 [| b7 [| b8 [| b9
      [| b10 [| b11 [| b12 [| b13 l]]]]]]]]]]]]]]; simpl in H13; try lia.
    reflexivity.
Qed.

Lemma header_size (p : Png) :
  vsize (ihdr p) = 13 -> vsize (PNG_SIGNATURE ++ encode_chunk IHDR_SIG (ihdr p)) = 33.
Proof.
  intros H13. rewrite vsize_app, encode_chunk_size, H13. reflexivity.
Qed.

(** On such a file the pruner returns, with the signature and the chunks
    IHDR, PLTE for colour type 3, the IDAT chunks, and IEND. *)
Lemma Erase_Image_Chunks_ready (p : Png) (pdv : PDV_STRUCT) :
  pruner_ready p ->
  Image_Vec pdv = encode_png p -> image_size pdv = vsize (encode_png p) ->
  exists pdv',
    Erase_Image_Chunks pdv = Done pdv' /\
    Image_Vec pdv' = PNG_SIGNATURE ++ encode_chunks (pruned_chunks p).
Proof.
  intros (H13 & Hne & Hds & Hfits & Hocc & Hplte) HI His.
  unfold fits in Hfits.
  rewrite pruned_split.
  pose proof (encode_png_split p) as Himg.
  pose proof (idat_start_eq p) as Ha0. pose proof (plte_start_eq p) as Hpl0.
  pose proof (header_size p H13) as H33.
  pose proof (header_color p) as Hcolor.
  set (img := encode_png p) in *.
  set (Hd := PNG_SIGNATURE ++ encode_chunk IHDR_SIG (ihdr p)) in *.
  set (B := encode_chunks (before_plte p)) in *.
  set (PL := encode_chunks (plte_chunks p)) in *.
  set (AP := encode_chunks (after_plte p)) in *.
  set (Y := encode_chunks (after_idat p)) in *.
  unfold idat_chunks in *.
  destruct (idats p) as [| d0 ds] eqn:Hidats; [contradiction |].
  set (ST := encode_chunks (map (fun d => (IDAT_SIG, d)) (d0 :: ds))) in *.
  pose proof (proj1 (Forall_cons _ _ _) Hds) as [Hd0 _].
  pose proof (vsize_nonneg B) as HB0. pose proof (vsize_nonneg PL) as HPL0.
  pose proof (vsize_nonneg AP) as HAP0. pose proof (vsize_nonneg Y) as HY0.
  pose proof (vsize_nonneg d0) as Hd00.
  pose proof (idat_stream_size (d0 :: ds)) as HST. fold ST in HST. cbn [length] in HST.
  assert (HN : vsize img = 33 + vsize B + vsize PL + vsize AP + vsize ST + vsize Y + 12).
  { rewrite Himg, !vsize_app, H33. change (vsize IEND_chunk) with 12. lia. }
  assert (Ha0' : idat_start p = 33 + vsize B + vsize PL + vsize AP)
    by (rewrite Ha0, !vsize_app, H33; lia).
  assert (Hpl0' : plte_start p = 33 + vsize B) by (rewrite Hpl0, vsize_app, H33; lia).
  (* the first IDAT chunk *)
  assert (Hfirst : img = (Hd ++ B ++ PL ++ AP) ++ encode_chunk IDAT_SIG d0
                         ++ (encode_chunks (map (fun d => (IDAT_SIG, d)) ds) ++ Y
                             ++ IEND_chunk)).
  { rewrite Himg. unfold ST. cbn [map]. rewrite encode_chunks_cons. cbn [fst snd].
    rewrite <- !app_assoc. reflexivity. }
  assert (Hall : forall q, occurs img q IDAT_SIG ->
                           In q (idat_positions (idat_start p) (d0 :: ds))).
  { intros q Hq. rewrite <- Hocc. apply occurs_occurrences; [exact IDAT_SIG_ne | exact Hq]. }
  assert (Hsearch : search img 0 IDAT_SIG = Done (idat_start p + 4)).
  { apply first_at_search; [exact IDAT_SIG_ne | lia |].
    split; [lia |]. split.
    - rewrite Ha0, Hfirst. apply chunk_type_occurs.
    - intros q Hq Hoq. apply Hall in Hoq. apply idat_positions_ge in Hoq. lia. }
  unfold Erase_Image_Chunks. rewrite HI, His. fold img.
  assert (Htemp : vrange img 0 33 = Done Hd).
  { apply vrange_Done. split; [lia |]. split; [lia |].
    rewrite drop_0, Himg. change (Z.to_nat (33 - 0)) with 33%nat.
    symmetry. apply take_app_length'. unfold vsize in H33. lia. }
  rewrite Htemp. cbn [mbind outcome_bind].
  rewrite Hsearch. cbn [mbind outcome_bind].
  replace (idat_start p + 4 - 4) with (idat_start p) by lia.
  rewrite (size_t_small (idat_start p)) by lia.
  assert (Hlen : get_u32 img (idat_start p) = Done (vsize d0)).
  { rewrite Ha0, Hfirst. apply chunk_length; [rewrite <- Hfirst; lia | exact Hd0]. }
  rewrite Hlen. cbn [mbind outcome_bind].
  assert (Hchunk : idat_start p + vsize d0 + 12 <= vsize img).
  { pose proof (idat_stream_head d0 ds) as Hhd. fold ST in Hhd. lia. }
  rewrite (size_t_small (idat_start p + vsize d0)) by lia.
  rewrite (size_t_small (idat_start p + vsize d0 + 8)) by lia.
  assert (Hcrc : get_u32 img (idat_start p + vsize d0 + 8) = Done (png_crc (IDAT_SIG ++ d0))).
  { rewrite Ha0, Hfirst. apply chunk_crc_stored; [rewrite <- Hfirst; lia | reflexivity]. }
  rewrite Hcrc. cbn [mbind outcome_bind].
  rewrite (size_t_small (idat_start p + 4)) by lia.
  rewrite (size_t_small (vsize d0 + 4)) by lia.
  assert (Hcalc : Crc img (idat_start p + 4) (vsize d0 + 4) = Done (png_crc (IDAT_SIG ++ d0))).
  { rewrite Ha0, Hfirst. apply chunk_crc_calc. reflexivity. }
  rewrite Hcalc. cbn [mbind outcome_bind].
  rewrite Z.eqb_refl. cbn [negb].
  (* the colour type and the palette *)
  assert (Hcol : vget Hd 25 = Done (color_type p)).
  { specialize (Hcolor [] H13). rewrite app_nil_r in Hcolor. exact Hcolor. }
  rewrite Hcol. cbn [mbind outcome_bind].
  assert (Hkept :
    (if color_type p =? 3
     then found_plte ← search img 0 PLTE_SIG;
          if idat_start p >? size_t (found_plte - 4)
          then CHUNK_SIZE ← get_u24 img (size_t (found_plte - 4));
               chunk ← vrange img (size_t (found_plte - 4))
                         (size_t (found_plte - 4) + size_t (CHUNK_SIZE + 12));
               Done (Hd ++ chunk)
          else Exit Image_File_Error_PLTE_Not_Found
     else Done Hd) = Done (Hd ++ encode_chunks (kept_plte p))).
  { unfold kept_plte. destruct (color_type p =? 3) eqn:Hc3.
    - apply Z.eqb_eq in Hc3. destruct (Hplte Hc3) as (pd & Hpd & Hpd24 & Hhead).
      unfold PL, plte_chunks in *. rewrite Hpd in *. rewrite encode_chunks_one in *.
      pose proof (vsize_nonneg pd) as Hpd0.
      rewrite encode_chunk_size in HN, Ha0'. change (vsize PLTE_SIG) with 4 in HN, Ha0'.
      apply head_occurrences in Hhead; [| exact PLTE_SIG_ne].
      assert (H00 : 0 <= 0) by lia.
      rewrite (first_at_search _ _ _ _ PLTE_SIG_ne H00 Hhead).
      cbn [mbind outcome_bind].
      replace (plte_start p + 4 - 4) with (plte_start p) by lia.
      rewrite (size_t_small (plte_start p)) by lia.
      replace (idat_start p >? plte_start p) with true
        by (symmetry; rewrite Z.gtb_ltb; apply Z.ltb_lt; lia).
      assert (Hform : img = (Hd ++ B) ++ encode_chunk PLTE_SIG pd
                            ++ (AP ++ ST ++ Y ++ IEND_chunk)).
      { rewrite Himg, <- !app_assoc. reflexivity. }
      assert (H24 : get_u24 img (plte_start p) = Done (vsize pd)).
      { assert (Hform24 : img = (Hd ++ B) ++ be_bytes 4 (vsize pd)
                                ++ ((PLTE_SIG ++ pd ++ be_bytes 4 (png_crc (PLTE_SIG ++ pd)))
                                    ++ AP ++ ST ++ Y ++ IEND_chunk)).
        { rewrite Hform. unfold encode_chunk. rewrite <- !app_assoc. reflexivity. }
        rewrite Hpl0, Hform24.
        apply get_u24_be_bytes; [rewrite <- Hform24; lia | lia]. }
      rewrite H24. cbn [mbind outcome_bind].
      rewrite (size_t_small (vsize pd + 12)) by lia.
      rewrite Z.add_assoc.
      assert (Hrange : vrange img (plte_start p) (plte_start p + vsize pd + 12)
                       = Done (encode_chunk PLTE_SIG pd)).
      { rewrite Hpl0, Hform. apply chunk_range. reflexivity. }
      rewrite Hrange. reflexivity.
    - cbn [encode_chunks flat_map]. rewrite app_nil_r. reflexivity. }
  rewrite Hkept. cbn [mbind outcome_bind].
  (* the IDAT chunks *)
  assert (Hloop : Erase_IDAT_loop (length img) img (vsize img)
                    (Hd ++ encode_chunks (kept_plte p)) (idat_start p)
                  = Done ((Hd ++ encode_chunks (kept_plte p)) ++ ST)).
  { rewrite Ha0. apply (Erase_IDAT_loop_stream ds d0 _ img _ (Y ++ IEND_chunk)).
    - rewrite Himg. fold ST. rewrite <- !app_assoc. reflexivity.
    - lia.
    - unfold vsize in HN, HST. lia.
    - exact Hds.
    - intros q Hq Hoq. rewrite <- Ha0 in *. apply Hall in Hoq.
      cbn [idat_positions] in Hoq. destruct Hoq as [Heq | Hin]; [lia | exact Hin]. }
  rewrite Hloop. cbn [mbind outcome_bind].
  assert (Htail : vrange img (vsize img - 12) (vsize img) = Done IEND_chunk).
  { apply vrange_Done. split; [lia |]. split; [lia |].
    replace (Z.to_nat (vsize img - (vsize img - 12))) with 12%nat by lia.
    assert (Hform : img = (Hd ++ B ++ PL ++ AP ++ ST ++ Y) ++ IEND_chunk)
      by (rewrite Himg, <- !app_assoc; reflexivity).
    assert (HX : vsize img = vsize (Hd ++ B ++ PL ++ AP ++ ST ++ Y) + 12)
      by (rewrite Hform at 1; rewrite vsize_app; reflexivity).
    rewrite HX. rewrite Hform.
    rewrite drop_app_length'; [reflexivity |]. unfold vsize. lia. }
  rewrite Htail. cbn [mbind outcome_bind].
  eexists. split; [reflexivity |]. cbn [Image_Vec].
  rewrite <- !app_assoc. reflexivity.
Qed.


(** ** Decoding what was encoded *)

Lemma decode_chunks_cons (fuel : nat) (ty d rest : list Z) :
  vsize ty = 4 -> vsize d < 2 ^ 32 ->
  decode_chunks (S fuel) (encode_chunk ty d ++ rest)
  = option_map (cons (ty, d)) (decode_chunks fuel rest).
Proof.
  intros Hty Hd. pose proof (vsize_nonneg d) as Hd0. pose proof (vsize_nonneg rest) as Hr0.
  set (crc := be_bytes 4 (png_crc (ty ++ d))).
  assert (Hbs : encode_chunk ty d ++ rest
                = be_bytes 4 (vsize d) ++ ty ++ d ++ crc ++ rest)
    by (unfold encode_chunk; rewrite <- !app_assoc; reflexivity).
  rewrite Hbs. set (bs := be_bytes 4 (vsize d) ++ ty ++ d ++ crc ++ rest).
  assert (Hlen : read_be_bytes (take 4 bs) 0 = vsize d).
  { unfold bs. change 4%nat with (length (be_bytes 4 (vsize d))) at 1.
    rewrite take_app_length. rewrite read_be_bytes_be_bytes_4. apply Z.mod_small. lia. }
  assert (Hty' : take 4 (drop 4 bs) = ty).
  { unfold bs. change 4%nat with (length (be_bytes 4 (vsize d))) at 2.
    rewrite drop_app_length. apply take_app_length'. unfold vsize in Hty. lia. }
  assert (Hdata : take (Z.to_nat (vsize d)) (drop 8 bs) = d).
  { unfold bs. rewrite app_assoc.
    rewrite drop_app_length' by (rewrite length_app; simpl; unfold vsize in Hty; lia).
    apply take_app_length'. unfold vsize. lia. }
  assert (Hcrc : take 4 (drop (8 + Z.to_nat (vsize d)) bs) = crc).
  { unfold bs. rewrite !app_assoc. rewrite <- (app_assoc _ crc).
    rewrite drop_app_length'
      by (rewrite !length_app; simpl; unfold vsize in *; lia).
    apply take_app_length'. reflexivity. }
  assert (Hrest : drop (12 + Z.to_nat (vsize d)) bs = rest).
  { unfold bs. rewrite !app_assoc.
    apply drop_app_length'. rewrite !length_app. simpl. unfold vsize in *. lia. }
  assert (Hsz : vsize bs = 12 + vsize d + vsize rest).
  { unfold bs. rewrite !vsize_app. change (vsize (be_bytes 4 _)) with 4.
    change (vsize crc) with 4. lia. }
  assert (Hne : bs <> []).
  { intros E. rewrite E in Hsz. change (vsize []) with 0 in Hsz. lia. }
  clearbody bs. cbn [decode_chunks].
  destruct bs as [| x bs']; [contradiction |].
  rewrite Hlen, Hty', Hdata, Hcrc, Hrest, Hsz.
  replace (12 + vsize d <=? 12 + vsize d + vsize rest) with true
    by (symmetry; apply Z.leb_le; lia).
  rewrite bool_decide_eq_true_2 by reflexivity. reflexivity.
Qed.

Lemma decode_encode_chunks (cs : list chunk) : forall fuel : nat,
  Forall chunk_ok cs -> (length cs < fuel)%nat ->
  decode_chunks fuel (encode_chunks cs) = Some cs.
Proof.
  induction cs as [| [ty d] cs IH]; intros fuel Hok Hfuel.
  - destruct fuel; [lia | reflexivity].
  - destruct fuel as [| fuel]; [lia |].
    pose proof (proj1 (Forall_cons _ _ _) Hok) as [[Hty Hd] Hok'].
    rewrite encode_chunks_cons. cbn [fst snd] in *.
    rewrite decode_chunks_cons by assumption.
    rewrite IH; [reflexivity | exact Hok' | simpl in Hfuel; lia].
Qed.

Lemma encode_chunks_length (cs : list chunk) :
  (length cs <= length (encode_chunks cs))%nat.
Proof.
  induction cs as [| [ty d] cs IH]; [simpl; lia |].
  rewrite encode_chunks_cons, length_app. unfold encode_chunk. cbn [fst snd length].
  rewrite !length_app. simpl. lia.
Qed.

Lemma decode_png_encode (cs : list chunk) :
  Forall chunk_ok cs -> decode_png (PNG_SIGNATURE ++ encode_chunks cs) = Some cs.
Proof.
  intros Hok. unfold decode_png.
  change (take 8 (PNG_SIGNATURE ++ encode_chunks cs)) with PNG_SIGNATURE.
  rewrite bool_decide_eq_true_2 by reflexivity.
  change (drop 8 (PNG_SIGNATURE ++ encode_chunks cs)) with (encode_chunks cs).
  apply decode_encode_chunks; [exact Hok |].
  pose proof (encode_chunks_length cs). rewrite length_app. simpl. lia.
Qed.

(** ** The chunks of the output *)

Lemma be_bytes_4_small (v : Z) :
  0 <= v < 2 ^ 16 -> be_bytes 4 v = [0; 0] ++ be_bytes 2 v.
Proof.
  intros Hv. cbn [be_bytes app]. f_equal; [| f_equal].
  - rewrite byte_of_shift by lia. change (2 ^ (8 * Z.of_nat 3)) with 16777216.
    rewrite Z.div_small by lia. reflexivity.
  - rewrite byte_of_shift by lia. change (2 ^ (8 * Z.of_nat 2)) with 65536.
    rewrite Z.div_small by lia. reflexivity.
Qed.

(** The finished script is an iCCP chunk. *)
Lemma script_is_chunk (S0 pad : list Z) :
  take 119 S0 = take 119 Script_Template -> 274 <= vsize S0 ->
  vsize S0 + vsize pad <= MAX_SCRIPT_SIZE ->
  let body := take (Z.to_nat (vsize S0 - 8)) (drop 4 S0) ++ pad in
  take 2 S0 ++ be_bytes 2 (vsize S0 + vsize pad - 12) ++ body
  ++ be_bytes 4 (Crc_bytes body)
  = encode_chunk ICCP_SIG (drop 4 body) /\
  vsize (drop 4 body) = vsize S0 + vsize pad - 12.
Proof.
  intros Htake Hsz Hmax body. unfold MAX_SCRIPT_SIZE in Hmax.
  pose proof (vsize_nonneg pad) as Hp0.
  assert (H2 : take 2 S0 = [0; 0]).
  { replace (take 2 S0) with (take 2 (take 119 S0)) by (rewrite take_take; reflexivity).
    rewrite Htake. reflexivity. }
  assert (H4 : take 4 (drop 4 S0) = ICCP_SIG).
  { replace (take 4 (drop 4 S0)) with (take 4 (drop 4 (take 119 S0))).
    - rewrite Htake. reflexivity.
    - rewrite skipn_firstn_comm. rewrite take_take. reflexivity. }
  assert (Hlenb : length (take (Z.to_nat (vsize S0 - 8)) (drop 4 S0))
                  = Z.to_nat (vsize S0 - 8)).
  { rewrite length_take, length_drop. unfold vsize in *. lia. }
  assert (Hb4 : take 4 body = ICCP_SIG).
  { unfold body. rewrite take_app_le by lia. rewrite take_take.
    replace (4 `min` Z.to_nat (vsize S0 - 8))%nat with 4%nat by lia. exact H4. }
  assert (Hbody : body = ICCP_SIG ++ drop 4 body).
  { rewrite <- Hb4. symmetry. apply take_drop. }
  assert (Hd : vsize (drop 4 body) = vsize S0 + vsize pad - 12).
  { unfold vsize. rewrite length_drop. unfold body. rewrite length_app, Hlenb.
    unfold vsize in *. lia. }
  split; [| exact Hd].
  unfold encode_chunk. rewrite Hd, <- Crc_bytes_png_crc.
  set (data := drop 4 body) in *. clearbody data. clearbody body. subst body.
  rewrite (be_bytes_4_small (vsize S0 + vsize pad - 12)) by lia. rewrite H2.
  rewrite <- !app_assoc. reflexivity.
Qed.

(** A buffer that differs from [a ++ m ++ b] in the middle part only. *)
Lemma middle_replaced (a m b vec : list Z) :
  length vec = length (a ++ m ++ b) ->
  (forall j : nat, (j < length a)%nat -> vec !! j = (a ++ m ++ b) !! j) ->
  (forall j : nat, (length a + length m <= j)%nat -> vec !! j = (a ++ m ++ b) !! j) ->
  vec = a ++ take (length m) (drop (length a) vec) ++ b.
Proof.
  intros Hlen Hlow Hhigh. rewrite !length_app in Hlen.
  apply list_eq. intros j.
  destruct (decide (j < length a)%nat) as [Ha | Ha].
  - rewrite Hlow by exact Ha. rewrite !lookup_app_l by exact Ha. reflexivity.
  - rewrite (lookup_app_r a) by lia.
    destruct (decide (j - length a < length m)%nat) as [Hm | Hm].
    + rewrite lookup_app_l by (rewrite length_take, length_drop; lia).
      rewrite lookup_take_lt by exact Hm. rewrite lookup_drop. f_equal. lia.
    + rewrite Hhigh by lia. rewrite (lookup_app_r a) by lia.
      rewrite lookup_app_r by lia.
      rewrite lookup_app_r by (rewrite length_take, length_drop; lia).
      rewrite length_take, length_drop. f_equal. lia.
Qed.

Lemma polyglot_split (p : Png) (script zip : list Z) :
  PNG_SIGNATURE ++ encode_chunks (polyglot_chunks p script zip) =
  ((PNG_SIGNATURE ++ encode_chunk IHDR_SIG (ihdr p)) ++ encode_chunk ICCP_SIG script
   ++ encode_chunks (kept_plte p) ++ encode_chunks (idat_chunks p))
  ++ encode_chunk IDAT_SIG zip ++ IEND_chunk.
Proof.
  unfold polyglot_chunks. rewrite !encode_chunks_app.
  rewrite !encode_chunks_cons. cbn [fst snd].
  change (encode_chunks []) with (@nil Z).
  rewrite ?app_nil_r, <- !app_assoc. reflexivity.
Qed.

(** The output of a build on a file the pruner reads as intended and a
    canonical archive: the signature and the chunks IHDR, iCCP, PLTE for
    colour type 3, the IDAT chunks of the image, the IDAT chunk of the
    archive, IEND. *)
Lemma build_polyglot_chunks (argv : list (list Z)) (env : Environment)
    (out : list Z) (p : Png) (zip : list Z) (lay : Archive_Layout) :
  env_fits env ->
  image_file env = Some (encode_png p) -> zip_file env = Some zip ->
  pruner_ready p -> canonical zip lay ->
  main argv env = Done (Polyglot_Written out) ->
  exists script zip',
    vsize script <= 738 /\ vsize zip' = vsize zip /\ vsize zip <= MAX_FILE_SIZE /\
    out = PNG_SIGNATURE ++ encode_chunks (polyglot_chunks p script zip').
Proof.
  intros Hfits Himg Hzip Hready Hcan Hmain.
  apply main_Done in Hmain. destruct Hmain as (a0 & a1 & a2 & _ & _ & Hbuild).
  apply Build_Done in Hbuild; [| reflexivity | exact Hfits].
  destruct Hbuild as (img & zip0 & p1 & p2 & p3 & mid & S0 & pad & vec & calls &
    Himg' & Hzip' & Hcheck & HI2 & Herase & HI3 & Hi68 & _ & _ & HS0 & _ & Hrest).
  rewrite Himg in Himg'. injection Himg' as <-.
  rewrite Hzip in Hzip'. injection Hzip' as <-.
  cbv zeta in Hrest.
  destruct Hrest as (HszS & HmaxS & _ & Hfix & Hszv & Hmax & ->).
  (* the pruned image *)
  apply Check_Image_File_Done in Hcheck. destruct Hcheck as (_ & Hs2 & _).
  destruct (Erase_Image_Chunks_ready p p2 Hready HI2 Hs2) as (p3' & Herase' & HI3').
  rewrite Herase in Herase'. injection Herase' as <-.
  rewrite pruned_split in HI3'.
  pose proof Hready as (H13 & _).
  pose proof (header_size p H13) as H33.
  pose proof (encode_png_split p) as Hform.
  set (Hd := PNG_SIGNATURE ++ encode_chunk IHDR_SIG (ihdr p)) in *.
  set (K := encode_chunks (kept_plte p)) in *.
  set (ST := encode_chunks (idat_chunks p)) in *.
  assert (Ht33 : take 33 (encode_png p) = Hd).
  { rewrite Hform. apply take_app_length'. unfold vsize in H33. lia. }
  assert (HT : drop (Z.to_nat (vsize (encode_png p) - 12)) (encode_png p) = IEND_chunk).
  { rewrite Hform. rewrite !app_assoc.
    apply drop_app_length'. rewrite vsize_app. change (vsize IEND_chunk) with 12.
    unfold vsize. lia. }
  rewrite Ht33, HT in *.
  assert (Hmid : mid = K ++ ST).
  { rewrite HI3 in HI3'. apply app_inv_head in HI3'.
    rewrite (app_assoc K) in HI3'. apply app_inv_tail in HI3'. exact HI3'. }
  subst mid.
  (* the script *)
  apply Build_Script_shape in HS0. destruct HS0 as [Htake H274].
  rewrite HszS in HmaxS.
  pose proof (script_is_chunk S0 pad Htake H274 HmaxS) as Hscript. cbv zeta in Hscript.
  set (body := take (Z.to_nat (vsize S0 - 8)) (drop 4 S0) ++ pad) in *.
  destruct Hscript as [Hscript Hdata]. rewrite Hscript in *.
  set (script := drop 4 body) in *. clearbody script. clear Hscript. clearbody body.
  (* the archive chunk *)
  set (head := Hd ++ encode_chunk ICCP_SIG script ++ K ++ ST) in *.
  pose proof (vsize_nonneg head) as Hh0. pose proof (vsize_nonneg zip) as Hz0.
  assert (Hin : vsize (head ++ framed_zip zip ++ IEND_chunk) = vsize vec).
  { rewrite !vsize_app, framed_zip_size. change (vsize IEND_chunk) with 12. lia. }
  assert (Hlt : vsize (head ++ framed_zip zip ++ IEND_chunk) < 0x50000000)
    by (unfold MAX_FILE_SIZE in Hmax; lia).
  assert (Hlt63 : vsize (head ++ framed_zip zip ++ IEND_chunk) < 2 ^ 63) by lia.
  assert (Hge : 0 <= vsize head + 4) by lia.
  pose proof (Fix_Zip_Offset_frame _ _ _ _ Hlt63 Hge Hfix) as [_ Hlow].
  pose proof (Fix_Zip_Offset_framed _ _ _ lay _ _ Hcan Hlt Hfix) as Hfr.
  cbv zeta in Hfr. destruct Hfr as (_ & _ & _ & _ & _ & _ & Hhigh).
  pose proof Hcan as (_ & _ & _ & _ & _ & _ & HEsz & _).
  set (a := head ++ be_bytes 4 (vsize zip) ++ IDAT_SIG).
  set (b := [0; 0; 0; 0] ++ IEND_chunk).
  assert (Hvec0 : head ++ framed_zip zip ++ IEND_chunk = a ++ zip ++ b).
  { unfold a, b, framed_zip. rewrite <- !app_assoc. reflexivity. }
  assert (Ha : vsize a = vsize head + 8).
  { unfold a. rewrite !vsize_app. change (vsize (be_bytes 4 _)) with 4.
    change (vsize IDAT_SIG) with 4. lia. }
  rewrite Hvec0 in *.
  assert (Hvec : vec = a ++ take (length zip) (drop (length a) vec) ++ b).
  { apply middle_replaced.
    - unfold vsize in Hin. lia.
    - intros j Hj. apply Hlow. unfold vsize in *. lia.
    - intros j Hj. apply Hhigh. unfold vsize in *. lia. }
  set (zip' := take (length zip) (drop (length a) vec)) in *.
  assert (Hzip'sz : vsize zip' = vsize zip).
  { rewrite Hvec in Hin. rewrite !vsize_app in Hin. lia. }
  exists script, zip'.
  split; [unfold MAX_SCRIPT_SIZE in HmaxS; lia |]. split; [exact Hzip'sz |].
  split; [lia |].
  rewrite polyglot_split. fold Hd K ST head.
  clearbody zip'. rewrite Hvec.
  (* the CRC of the archive chunk *)
  assert (Hcrc : take (Z.to_nat (vsize zip + 4))
                   (drop (Z.to_nat (vsize head + 4)) (a ++ zip' ++ b))
                 = IDAT_SIG ++ zip').
  { unfold a. rewrite <- !app_assoc.
    rewrite (app_assoc head).
    rewrite drop_app_length'
      by (rewrite length_app; unfold vsize; simpl; lia).
    rewrite (app_assoc IDAT_SIG).
    apply take_app_length'. rewrite length_app. unfold vsize in *. simpl. lia. }
  rewrite Hcrc.
  replace (vsize (a ++ zip' ++ b) - 16) with (vsize (a ++ zip'))
    by (rewrite !vsize_app; unfold b; rewrite vsize_app;
        change (vsize [0; 0; 0; 0]) with 4; change (vsize IEND_chunk) with 12; lia).
  unfold b. rewrite (app_assoc a zip').
  rewrite overwrite_app_mid by reflexivity.
  unfold a, encode_chunk. rewrite Hzip'sz, Crc_bytes_png_crc.
  rewrite <- !app_assoc. reflexivity.
Qed.


(** * The properties of the specification *)

(** ** The byte-field writer (C7) *)

Lemma be_bytes_2_field (v k : Z) :
  0 <= k < 2 -> vget (be_bytes 2 v) k = Done (field_byte v 16 k).
Proof. intros Hk. assert (k = 0 \/ k = 1) as [-> | ->] by lia; reflexivity. Qed.

Lemma be_bytes_4_field (v k : Z) :
  0 <= k < 4 -> vget (be_bytes 4 v) k = Done (field_byte v 32 k).
Proof.
  intros Hk. assert (k = 0 \/ k = 1 \/ k = 2 \/ k = 3) as [-> | [-> | [-> | ->]]] by lia;
    reflexivity.
Qed.

Lemma le_bytes_2_field (v k : Z) :
  0 <= k < 2 -> vget (le_bytes 2 v) (1 - k) = Done (field_byte v 16 k).
Proof. intros Hk. assert (k = 0 \/ k = 1) as [-> | ->] by lia; reflexivity. Qed.

Lemma le_bytes_4_field (v k : Z) :
  0 <= k < 4 -> vget (le_bytes 4 v) (3 - k) = Done (field_byte v 32 k).
Proof.
  intros Hk. assert (k = 0 \/ k = 1 \/ k = 2 \/ k = 3) as [-> | [-> | [-> | ->]]] by lia;
    reflexivity.
Qed.

(** C7.  For every buffer [vec], index [i], value [v] and width [w] of 16
    or 32 bits whose field lies inside the buffer: in big-endian mode
    [Value_Updater] stores the [w]-bit value at [i, i+1, ..., i+w/8-1], in
    little-endian mode at [i, i-1, ..., i-w/8+1], most significant byte
    first in both; no other byte changes; and reading the field back in
    the same byte order gives [v mod 2^w]. *)
Theorem Value_Updater_field (vec : list Z) (i v w : Z) (big : bool) :
  w = 16 \/ w = 32 ->
  0 <= i < 2 ^ 64 -> vsize vec < 2 ^ 64 ->
  (if big then i + w / 8 <= vsize vec else w / 8 - 1 <= i < vsize vec) ->
  exists vec',
    Value_Updater vec i v w big = Done vec' /\
    vsize vec' = vsize vec /\
    (forall k, 0 <= k < w / 8 ->
       vget vec' (if big then i + k else i - k) = Done (field_byte v w k)) /\
    (forall j, (if big then j < i \/ i + w / 8 <= j else j <= i - w / 8 \/ i < j) ->
       vget vec' j = vget vec j) /\
    (if big then read_be vec' i (w / 8) else read_le vec' (i - w / 8 + 1) (w / 8))
    = Done (v mod 2 ^ w).
Proof.
  intros Hw Hi Hsz Hin.
  destruct Hw as [-> | ->]; destruct big.
  - change (16 / 8) with 2 in *. change 16 with (8 * Z.of_nat 2) at 1.
    rewrite Value_Updater_be by (lia || discriminate).
    replace (i + Z.of_nat 2 <=? vsize vec) with true by (symmetry; apply Z.leb_le; lia).
    eexists. split; [reflexivity |].
    assert (Hb : i + vsize (be_bytes 2 v) <= vsize vec) by (change (vsize (be_bytes 2 v)) with 2; lia).
    split; [apply vsize_overwrite; lia |]. split; [| split].
    + intros k Hk. apply vget_overwrite_in; [lia | exact Hb | apply be_bytes_2_field; exact Hk].
    + intros j Hj. apply vget_overwrite_out; [lia | exact Hb |].
      change (vsize (be_bytes 2 v)) with 2. exact Hj.
    + unfold read_be. change (i + 2) with (i + vsize (be_bytes 2 v)).
      rewrite vrange_overwrite by (lia || exact Hb).
      simpl. f_equal. apply read_be_2.
  - change (16 / 8) with 2 in *. change 16 with (8 * Z.of_nat 2) at 1.
    rewrite Value_Updater_le by (lia || discriminate).
    replace ((Z.of_nat 2 - 1 <=? i) && (i <? vsize vec)) with true
      by (symmetry; apply andb_true_intro; split; [apply Z.leb_le | apply Z.ltb_lt]; lia).
    change (i - Z.of_nat 2 + 1) with (i - 2 + 1).
    eexists. split; [reflexivity |].
    assert (Hb : i - 2 + 1 + vsize (le_bytes 2 v) <= vsize vec)
      by (change (vsize (le_bytes 2 v)) with 2; lia).
    split; [apply vsize_overwrite; lia |]. split; [| split].
    + intros k Hk. replace (i - k) with (i - 2 + 1 + (1 - k)) by lia.
      apply vget_overwrite_in; [lia | exact Hb | apply le_bytes_2_field; exact Hk].
    + intros j Hj. apply vget_overwrite_out; [lia | exact Hb |].
      change (vsize (le_bytes 2 v)) with 2. lia.
    + unfold read_le. change (i - 2 + 1 + 2) with (i - 2 + 1 + vsize (le_bytes 2 v)).
      rewrite vrange_overwrite by (lia || exact Hb).
      simpl. f_equal. apply read_le_2.
  - change (32 / 8) with 4 in *. change 32 with (8 * Z.of_nat 4) at 1.
    rewrite Value_Updater_be by (lia || discriminate).
    replace (i + Z.of_nat 4 <=? vsize vec) with true by (symmetry; apply Z.leb_le; lia).
    eexists. split; [reflexivity |].
    assert (Hb : i + vsize (be_bytes 4 v) <= vsize vec) by (change (vsize (be_bytes 4 v)) with 4; lia).
    split; [apply vsize_overwrite; lia |]. split; [| split].
    + intros k Hk. apply vget_overwrite_in; [lia | exact Hb | apply be_bytes_4_field; exact Hk].
    + intros j Hj. apply vget_overwrite_out; [lia | exact Hb |].
      change (vsize (be_bytes 4 v)) with 4. exact Hj.
    + unfold read_be. change (i + 4) with (i + vsize (be_bytes 4 v)).
      rewrite vrange_overwrite by (lia || exact Hb).
      simpl. f_equal. apply read_be_4.
  - change (32 / 8) with 4 in *. change 32 with (8 * Z.of_nat 4) at 1.
    rewrite Value_Updater_le by (lia || discriminate).
    replace ((Z.of_nat 4 - 1 <=? i) && (i <? vsize vec)) with true
      by (symmetry; apply andb_true_intro; split; [apply Z.leb_le | apply Z.ltb_lt]; lia).
    change (i - Z.of_nat 4 + 1) with (i - 4 + 1).
    eexists. split; [reflexivity |].
    assert (Hb : i - 4 + 1 + vsize (le_bytes 4 v) <= vsize vec)
      by (change (vsize (le_bytes 4 v)) with 4; lia).
    split; [apply vsize_overwrite; lia |]. split; [| split].
    + intros k Hk. replace (i - k) with (i - 4 + 1 + (3 - k)) by lia.
      apply vget_overwrite_in; [lia | exact Hb | apply le_bytes_4_field; exact Hk].
    + intros j Hj. apply vget_overwrite_out; [lia | exact Hb |].
      change (vsize (le_bytes 4 v)) with 4. lia.
    + unfold read_le. change (i - 4 + 1 + 4) with (i - 4 + 1 + vsize (le_bytes 4 v)).
      rewrite vrange_overwrite by (lia || exact Hb).
      simpl. f_equal. apply read_le_4.
Qed.

(** A little-endian write of [0x11223344] ending at index 4 of a buffer
    of six bytes. *)
Lemma Value_Updater_field_witness :
  exists vec',
    Value_Updater [9; 9; 9; 9; 9; 9] 4 0x11223344 32 false = Done vec' /\
    vsize vec' = vsize [9; 9; 9; 9; 9; 9] /\
    (forall k, 0 <= k < 32 / 8 -> vget vec' (4 - k) = Done (field_byte 0x11223344 32 k)) /\
    (forall j, j <= 4 - 32 / 8 \/ 4 < j -> vget vec' j = vget [9; 9; 9; 9; 9; 9] j) /\
    read_le vec' (4 - 32 / 8 + 1) (32 / 8) = Done (0x11223344 mod 2 ^ 32).
Proof.
  apply (Value_Updater_field [9; 9; 9; 9; 9; 9] 4 0x11223344 32 false).
  - right. reflexivity.
  - lia.
  - vm_compute. reflexivity.
  - vm_compute. split; [discriminate | reflexivity].
Defined.


(** ** The dimension window of truecolor images (C8) *)

Lemma read_be_pair (vec : list Z) (i b0 b1 : Z) :
  vget vec i = Done b0 -> vget vec (i + 1) = Done b1 ->
  read_be vec i 2 = Done (Z.lor (Z.shiftl b0 8) b1).
Proof.
  intros H0 H1. unfold read_be.
  assert (Hr : vrange vec i (i + 2) = Done [b0; b1]).
  { apply vrange_cons; [exact H0 |]. apply vrange_cons; [exact H1 |].
    replace (i + 1 + 1) with (i + 2) by lia.
    apply vrange_nil. apply vget_Done in H1. lia. }
  rewrite Hr. reflexivity.
Qed.

(** C8.  For a PNG header whose colour type is 2, or 6 which is treated
    as 2, the dimension check passes exactly when the 16-bit big-endian
    width (bytes 18-19) and height (bytes 22-23) both lie in [68, 899], and
    fails with the dimension diagnostic otherwise: 899 x 899 is accepted,
    900 x 900 is rejected. *)
Theorem Check_Image_Dims_truecolor (vec : list Z) (color : Z) :
  26 <= vsize vec ->
  vget vec 25 = Done color -> color = 2 \/ color = 6 ->
  exists W H,
    read_be vec 18 2 = Done W /\ read_be vec 22 2 = Done H /\
    (Check_Image_Dims vec = Done tt <-> (68 <= W <= 899 /\ 68 <= H <= 899)) /\
    (~ (68 <= W <= 899 /\ 68 <= H <= 899) ->
       Check_Image_Dims vec = Exit Image_File_Error_Dimensions) /\
    (W = 899 -> H = 899 -> Check_Image_Dims vec = Done tt) /\
    (W = 900 -> H = 900 -> Check_Image_Dims vec = Exit Image_File_Error_Dimensions).
Proof.
  intros Hsz Hc Hcolor.
  destruct (vget_in_range vec 18) as (b18 & H18 & _); [lia |].
  destruct (vget_in_range vec 19) as (b19 & H19 & _); [lia |].
  destruct (vget_in_range vec 22) as (b22 & H22 & _); [lia |].
  destruct (vget_in_range vec 23) as (b23 & H23 & _); [lia |].
  exists (Z.lor (Z.shiftl b18 8) b19), (Z.lor (Z.shiftl b22 8) b23).
  split; [apply read_be_pair; assumption |].
  split; [apply read_be_pair; assumption |].
  set (W := Z.lor (Z.shiftl b18 8) b19). set (H := Z.lor (Z.shiftl b22 8) b23).
  assert (Hcheck : Check_Image_Dims vec =
            if (W <=? 899) && (H <=? 899) && (68 <=? W) && (68 <=? H)
            then Done tt else Exit Image_File_Error_Dimensions).
  { unfold Check_Image_Dims. rewrite H18, H19, H22, H23, Hc.
    cbn [mbind outcome_bind]. fold W H.
    unfold MAX_TRUECOLOR_DIMS, MIN_DIMS, PNG_TRUECOLOR, PNG_INDEXED_COLOR.
    rewrite !Z.geb_leb.
    assert (Hct : (if color =? 6 then 2 else color) = 2)
      by (destruct Hcolor as [-> | ->]; reflexivity).
    rewrite Hct. cbn [Z.eqb Pos.eqb negb orb andb].
    destruct ((W <=? 899) && (H <=? 899) && (68 <=? W) && (68 <=? H)); reflexivity. }
  rewrite Hcheck.
  destruct (Z.leb_spec W 899); destruct (Z.leb_spec H 899);
    destruct (Z.leb_spec 68 W); destruct (Z.leb_spec 68 H); cbn [andb];
    repeat split; intros; try lia; try discriminate; try reflexivity.
Qed.

(** The first 26 bytes of a truecolor PNG of 899 x 899 pixels. *)
Lemma Check_Image_Dims_truecolor_witness :
  exists W H,
    read_be [0x89; 0x50; 0x4E; 0x47; 0x0D; 0x0A; 0x1A; 0x0A; 0; 0; 0; 13;
             0x49; 0x48; 0x44; 0x52; 0; 0; 3; 131; 0; 0; 3; 131; 8; 2] 18 2 = Done W /\
    read_be [0x89; 0x50; 0x4E; 0x47; 0x0D; 0x0A; 0x1A; 0x0A; 0; 0; 0; 13;
             0x49; 0x48; 0x44; 0x52; 0; 0; 3; 131; 0; 0; 3; 131; 8; 2] 22 2 = Done H /\
    (Check_Image_Dims
       [0x89; 0x50; 0x4E; 0x47; 0x0D; 0x0A; 0x1A; 0x0A; 0; 0; 0; 13;
        0x49; 0x48; 0x44; 0x52; 0; 0; 3; 131; 0; 0; 3; 131; 8; 2] = Done tt <->
     (68 <= W <= 899 /\ 68 <= H <= 899)) /\
    (~ (68 <= W <= 899 /\ 68 <= H <= 899) ->
     Check_Image_Dims
       [0x89; 0x50; 0x4E; 0x47; 0x0D; 0x0A; 0x1A; 0x0A; 0; 0; 0; 13;
        0x49; 0x48; 0x44; 0x52; 0; 0; 3; 131; 0; 0; 3; 131; 8; 2]
     = Exit Image_File_Error_Dimensions) /\
    (W = 899 -> H = 899 ->
     Check_Image_Dims
       [0x89; 0x50; 0x4E; 0x47; 0x0D; 0x0A; 0x1A; 0x0A; 0; 0; 0; 13;
        0x49; 0x48; 0x44; 0x52; 0; 0; 3; 131; 0; 0; 3; 131; 8; 2] = Done tt) /\
    (W = 900 -> H = 900 ->
     Check_Image_Dims
       [0x89; 0x50; 0x4E; 0x47; 0x0D; 0x0A; 0x1A; 0x0A; 0; 0; 0; 13;
        0x49; 0x48; 0x44; 0x52; 0; 0; 3; 131; 0; 0; 3; 131; 8; 2]
     = Exit Image_File_Error_Dimensions).
Proof.
  apply (Check_Image_Dims_truecolor _ 2).
  - vm_compute. discriminate.
  - reflexivity.
  - left. reflexivity.
Defined.


(** ** The initial size check (C4) *)

(** The check as the source computes it: both lower bounds are strict. *)
Lemma file_size_check_true (image_size zip_size : Z) :
  0 <= image_size -> 0 <= zip_size -> image_size + zip_size < 2 ^ 64 ->
  file_size_check image_size zip_size = true <->
  68 < image_size /\ 40 < zip_size /\ image_size + zip_size <= 209715200.
Proof.
  intros Hi Hz Hsum. unfold file_size_check, MIN_IMAGE_SIZE, MIN_ZIP_SIZE, MAX_FILE_SIZE.
  rewrite size_t_small by lia.
  rewrite !andb_true_iff, Z.geb_le, !Z.gtb_lt. tauto.
Qed.

(** C4, at the boundary.  An image of exactly 68 bytes does not pass the
    initial size check, and neither does an archive of exactly 40 bytes;
    the message chosen is the one for an oversized pair, because the
    message selection compares with [<] where the check compares with
    [>]. *)
Theorem Open_Files_rejects_minimum_sizes :
  file_size_check 68 40 = false /\
  file_size_check 68 41 = false /\
  file_size_check 69 40 = false /\
  file_size_check 69 41 = true /\
  Open_Files pdv_init (mkEnv (Some (replicate 68 0)) (Some (replicate 40 0)) [] [] true)
  = Exit File_Size_Error_Combined_Exceeds_Limit.
Proof. repeat split; vm_compute; reflexivity. Qed.


(** ** Argument validation (C9) *)

(** *** The matcher decides the language of the expression *)

Lemma nullable_matches (r : regex) : nullable r = true <-> matches r [].
Proof.
  induction r as [| p | r1 IH1 r2 IH2 | r1 IH1 r2 IH2 | r IH |]; simpl.
  - split; [intros _; constructor | reflexivity].
  - split; [discriminate | intros H; inversion H].
  - rewrite andb_true_iff, IH1, IH2. split.
    + intros [H1 H2]. change (@nil Z) with (@nil Z ++ []). constructor; assumption.
    + intros H. inversion H as [| | ? ? s1 s2 H1 H2 | | | |]; subst.
      match goal with Heq : _ ++ _ = [] |- _ =>
        apply app_eq_nil in Heq; destruct Heq as [-> ->] end.
      auto.
  - rewrite orb_true_iff, IH1, IH2. split.
    + intros [H | H]; [apply matches_Alt_l | apply matches_Alt_r]; assumption.
    + intros H. inversion H; subst; auto.
  - split; [intros _; constructor | reflexivity].
  - split; [discriminate | intros H; inversion H].
Qed.

Lemma matches_Star_cons (r : regex) (c : Z) (s : list Z) :
  matches (Star r) (c :: s) ->
  exists s1 s2, s = s1 ++ s2 /\ matches r (c :: s1) /\ matches (Star r) s2.
Proof.
  intros H. remember (Star r) as r' eqn:Hr. remember (c :: s) as t eqn:Ht.
  revert s Ht.
  induction H as [| | | | | | r0 s1 s2 H1 _ H2 IH2]; intros t Ht; try discriminate.
  injection Hr as ->.
  destruct s1 as [| c1 s1].
  - simpl in Ht. apply IH2; [reflexivity | exact Ht].
  - simpl in Ht. injection Ht as -> <-.
    exists s1, s2. auto.
Qed.

Lemma deriv_matches (r : regex) : forall (c : Z) (s : list Z),
  matches (deriv c r) s <-> matches r (c :: s).
Proof.
  induction r as [| p | r1 IH1 r2 IH2 | r1 IH1 r2 IH2 | r IH |]; intros c s; simpl.
  - split; intros H; inversion H.
  - destruct (p c) eqn:Hp; split; intros H; inversion H; subst.
    + constructor. exact Hp.
    + constructor.
    + congruence.
  - assert (Hcat : matches (Cat (deriv c r1) r2) s ->  matches (Cat r1 r2) (c :: s)).
    { intros H. inversion H as [| | ? ? s1 s2 H1 H2 | | | |]; subst.
      apply IH1 in H1. change (c :: s1 ++ s2) with ((c :: s1) ++ s2).
      constructor; assumption. }
    assert (Hinv : matches (Cat r1 r2) (c :: s) ->
              matches (Cat (deriv c r1) r2) s \/ (matches r1 [] /\ matches r2 (c :: s))).
    { intros H. inversion H as [| | ? ? s1 s2 H1 H2 | | | |]; subst.
      match goal with Heq : _ ++ _ = _ :: _ |- _ => rename Heq into Heq' end.
      destruct s1 as [| c1 s1].
      - simpl in Heq'. subst s2. right. auto.
      - simpl in Heq'. injection Heq' as -> <-. left.
        constructor; [apply IH1; exact H1 | exact H2]. }
    destruct (nullable r1) eqn:Hn.
    + split.
      * intros H. inversion H; subst; [auto |].
        change (c :: s) with ([] ++ c :: s). constructor.
        -- apply nullable_matches. exact Hn.
        -- apply IH2. assumption.
      * intros H. apply Hinv in H. destruct H as [H | [_ H]].
        -- apply matches_Alt_l. exact H.
        -- apply matches_Alt_r. apply IH2. exact H.
    + split; [exact Hcat |].
      intros H. apply Hinv in H. destruct H as [H | [H _]]; [exact H |].
      apply nullable_matches in H. congruence.
  - split.
    + intros H. inversion H; subst.
      * apply matches_Alt_l. apply IH1. assumption.
      * apply matches_Alt_r. apply IH2. assumption.
    + intros H. inversion H; subst.
      * apply matches_Alt_l. apply IH1. assumption.
      * apply matches_Alt_r. apply IH2. assumption.
  - split.
    + intros H. inversion H as [| | ? ? s1 s2 H1 H2 | | | |]; subst.
      apply IH in H1. change (c :: s1 ++ s2) with ((c :: s1) ++ s2).
      constructor; assumption.
    + intros H. apply matches_Star_cons in H. destruct H as (s1 & s2 & -> & H1 & H2).
      constructor; [apply IH; exact H1 | exact H2].
  - split; intros H; inversion H.
Qed.

Lemma regex_match_matches (s : list Z) : forall r : regex,
  regex_match s r = true <-> matches r s.
Proof.
  induction s as [| c s IH]; intros r; simpl.
  - apply nullable_matches.
  - rewrite IH. apply deriv_matches.
Qed.

(** *** The language of [REG_EXP] *)

Lemma matches_Star_Class (p : Z -> bool) (s : list Z) :
  matches (Star (Class p)) s <-> Forall (fun c => p c = true) s.
Proof.
  split.
  - intros H. remember (Star (Class p)) as r eqn:Hr.
    induction H as [| | | | | | r0 s1 s2 H1 _ H2 IH2]; try discriminate.
    + constructor.
    + injection Hr as ->. apply Forall_app. split; [| apply IH2; reflexivity].
      inversion H1; subst. constructor; [assumption | constructor].
  - induction 1 as [| c s Hc _ IH]; [constructor |].
    change (c :: s) with ([c] ++ s). constructor; [constructor; exact Hc | exact IH].
Qed.

Lemma matches_Plus_Class (p : Z -> bool) (s : list Z) :
  matches (Plus (Class p)) s <-> s <> [] /\ Forall (fun c => p c = true) s.
Proof.
  unfold Plus. split.
  - intros H. inversion H as [| | ? ? s1 s2 H1 H2 | | | |]; subst.
    inversion H1; subst. apply matches_Star_Class in H2.
    split; [discriminate | constructor; assumption].
  - intros [Hne Hall]. destruct s as [| c s]; [contradiction |].
    inversion Hall; subst.
    change (c :: s) with ([c] ++ s).
    constructor; [constructor; assumption | apply matches_Star_Class; assumption].
Qed.

Lemma dot_is_path_char (c : Z) : dot_char c = true -> path_char c = true.
Proof.
  unfold dot_char, path_char. intros ->.
  rewrite !orb_true_r. reflexivity.
Qed.

Lemma alnum_is_path_char (c : Z) : alnum_char c = true -> path_char c = true.
Proof.
  unfold alnum_char, path_char.
  destruct (in_range 97 122 c), (in_range 65 90 c), (in_range 48 57 c);
    cbn [orb]; intros H; rewrite ?orb_true_r; try reflexivity; discriminate.
Qed.

Lemma matches_REG_EXP (s : list Z) :
  matches REG_EXP s <-> s <> [] /\ Forall (fun c => path_char c = true) s.
Proof.
  split.
  - intros H. unfold REG_EXP, Opt in H.
    inversion H as [| | ? ? s1 s23 H1 H23 | | | |]; subst. clear H.
    inversion H23 as [| | ? ? s2 s3 H2 H3 | | | |]; subst. clear H23.
    apply matches_Plus_Class in H2. destruct H2 as [Hne2 Hall2].
    assert (Hall1 : Forall (fun c => path_char c = true) s1).
    { inversion H1 as [| | | ? ? ? Hl | ? ? ? Hr | |]; subst.
      - inversion Hl as [| | ? ? t1 t2 Ht1 Ht2 | | | |]; subst.
        inversion Ht1; subst. apply matches_Plus_Class in Ht2.
        constructor; [apply dot_is_path_char; assumption | apply Ht2].
      - inversion Hr. constructor. }
    assert (Hall3 : Forall (fun c => path_char c = true) s3).
    { inversion H3 as [| | | ? ? ? Hl | ? ? ? Hr | |]; subst.
      - inversion Hl as [| | ? ? t1 t2 Ht1 Ht2 | | | |]; subst.
        inversion Ht1; subst. apply matches_Plus_Class in Ht2.
        constructor; [apply dot_is_path_char; assumption |].
        eapply Forall_impl; [apply Ht2 | apply alnum_is_path_char].
      - inversion Hr. constructor. }
    split.
    + destruct s1; [destruct s2; [contradiction | discriminate] | discriminate].
    + rewrite !Forall_app. auto.
  - intros [Hne Hall]. unfold REG_EXP, Opt.
    change s with ([] ++ s). constructor; [apply matches_Alt_r; constructor |].
    rewrite <- (app_nil_r s). constructor; [| apply matches_Alt_r; constructor].
    apply matches_Plus_Class. auto.
Qed.

Lemma regex_match_REG_EXP (s : list Z) :
  regex_match s REG_EXP = true <-> s <> [] /\ Forall (fun c => path_char c = true) s.
Proof. rewrite regex_match_matches. apply matches_REG_EXP. Qed.

(** *** The extension test *)

Lemma get_ext_suffix (name ext : list Z) :
  length ext = 3%nat -> get_ext name = ext <-> ext `suffix_of` name.
Proof.
  intros Hlen. unfold get_ext, vsize.
  destruct (Z.of_nat (length name) >? 2) eqn:Hgt.
  - apply Z.gtb_lt in Hgt. split.
    + intros <-. exists (take (Z.to_nat (Z.of_nat (length name) - 3)) name).
      symmetry. apply take_drop.
    + intros [k ->]. rewrite length_app, Hlen.
      replace (Z.to_nat (Z.of_nat (length k + 3) - 3)) with (length k) by lia.
      apply drop_app_length.
  - rewrite Z.gtb_ltb in Hgt. apply Z.ltb_ge in Hgt. split.
    + intros <-. lia.
    + intros [k ->]. rewrite length_app, Hlen in Hgt. lia.
Qed.

(** C9, as the code has it.  With three arguments the program goes on to
    [Build] (which opens the files) exactly when the last three
    characters of the image path are [png], those of the archive path are
    [zip], and both paths consist of allowed characters; an image path
    whose last three characters are not [png] ends the run with the
    extension diagnostic, whatever the files are. *)
Theorem validate_arguments_spec (image_name zip_name : list Z) :
  (validate_arguments image_name zip_name = None <->
     str "png" `suffix_of` image_name /\ str "zip" `suffix_of` zip_name /\
     Forall (fun c => path_char c = true) image_name /\
     Forall (fun c => path_char c = true) zip_name) /\
  (~ str "png" `suffix_of` image_name ->
     validate_arguments image_name zip_name = Some File_Type_Error_Invalid_Extension /\
     forall prog env,
       main [prog; image_name; zip_name] env = Exit File_Type_Error_Invalid_Extension) /\
  (forall prog env,
     main [prog; image_name; zip_name] env =
     match validate_arguments image_name zip_name with
     | Some d => Exit d
     | None => Build (mkPDV [] [] [] image_name zip_name 0 0 0 0 true) env
     end).
Proof.
  assert (Hmain : forall prog env,
     main [prog; image_name; zip_name] env =
     match validate_arguments image_name zip_name with
     | Some d => Exit d
     | None => Build (mkPDV [] [] [] image_name zip_name 0 0 0 0 true) env
     end) by reflexivity.
  pose proof (get_ext_suffix image_name (str "png") eq_refl) as Hpng.
  pose proof (get_ext_suffix zip_name (str "zip") eq_refl) as Hzip.
  pose proof (regex_match_REG_EXP image_name) as Hri.
  pose proof (regex_match_REG_EXP zip_name) as Hrz.
  split; [| split; [| exact Hmain]].
  - unfold validate_arguments.
    destruct (bool_decide_reflect (get_ext image_name = str "png")) as [He1 | He1];
      destruct (bool_decide_reflect (get_ext zip_name = str "zip")) as [He2 | He2];
      cbn [negb orb]; try (split; [discriminate | intros (? & ? & _); tauto]).
    destruct (regex_match image_name REG_EXP) eqn:Hm1;
      destruct (regex_match zip_name REG_EXP) eqn:Hm2; cbn [negb orb].
    + split; [intros _ | reflexivity].
      repeat split; [tauto | tauto | apply Hri; reflexivity | apply Hrz; reflexivity].
    + split; [discriminate |]. intros (Ha & Hb & Hc & Hd).
      assert (false = true) by (apply Hrz; split; [| exact Hd];
        destruct Hb as [k ->]; destruct k; discriminate). discriminate.
    + split; [discriminate |]. intros (Ha & Hb & Hc & Hd).
      assert (false = true) by (apply Hri; split; [| exact Hc];
        destruct Ha as [k ->]; destruct k; discriminate). discriminate.
    + split; [discriminate |]. intros (Ha & Hb & Hc & Hd).
      assert (false = true) by (apply Hri; split; [| exact Hc];
        destruct Ha as [k ->]; destruct k; discriminate). discriminate.
  - intros Hno.
    assert (Hv : validate_arguments image_name zip_name
                 = Some File_Type_Error_Invalid_Extension).
    { unfold validate_arguments.
      rewrite (bool_decide_eq_false_2 (get_ext image_name = str "png")) by tauto.
      reflexivity. }
    split; [exact Hv |]. intros prog env. rewrite Hmain, Hv. reflexivity.
Qed.

(** [cover.png] and [data.zip] pass. *)
Lemma validate_arguments_spec_witness :
  validate_arguments (str "cover.png") (str "data.zip") = None.
Proof.
  apply (proj1 (validate_arguments_spec (str "cover.png") (str "data.zip"))).
  split; [exists (str "cover."); reflexivity |].
  split; [exists (str "data."); reflexivity |].
  split; repeat constructor.
Defined.

(** The specification asks for the suffix [.png]; the path [xpng]
    has no such suffix, yet it passes validation and the run fails only
    when the image file cannot be opened. *)
Lemma validate_arguments_dot_counterexample :
  ~ str ".png" `suffix_of` str "xpng" /\
  validate_arguments (str "xpng") (str "a.zip") = None /\
  main [str "pdvzip"; str "xpng"; str "a.zip"] (mkEnv None None [] [] true)
  = Exit Read_File_Error_Image.
Proof.
  split; [| split; reflexivity].
  intros [k Hk]. destruct k as [| c k]; [discriminate |].
  apply (f_equal (@length Z)) in Hk. rewrite length_app in Hk. simpl in Hk. lia.
Qed.


(** ** The launcher for unmatched extensions (C3) *)

(** The whole script for a name with a dot after its first character
    whose last three characters are none of the twenty keys.  The loop
    over [App_Vec] ends with [app_index = 26], which is
    [FOLDER_INVOKE_ITEM]: the [switch] takes the folder case, and its
    [default] case is never reached. *)
Lemma Build_Script_unmatched (Zip name args_linux args_windows : list Z) (p : nat) :
  vget Zip 34 = Done (vsize name) ->
  vrange Zip 38 (38 + vsize name) = Done name ->
  3 <= vsize name ->
  (0 < p)%nat -> name !! p = Some 0x2E ->
  last_three name ∉ extension_keys_20 ->
  Build_Script Zip args_linux args_windows =
  Done (take 119 Script_Template ++ str "xdg-open " ++ [0x22] ++ name
        ++ take 119 (drop 120 Script_Template)
        ++ str "powershell;Invoke-Item " ++ [0x20; 0x22] ++ name
        ++ drop 241 Script_Template).
Proof.
  intros Hlen Hname H3 Hp Hdot Hnot.
  unfold Build_Script.
  unfold FIRST_ZIP_NAME_REC_LENGTH_INDEX, FIRST_ZIP_NAME_REC_INDEX.
  rewrite Hlen. cbn [mbind outcome_bind]. rewrite Hname. cbn [mbind outcome_bind].
  replace (vsize name <? 3) with false by (symmetry; apply Z.ltb_ge; lia).
  cbn [mbind outcome_bind].
  replace (drop (Z.to_nat (vsize name - 3)) name) with (last_three name)
    by (unfold last_three, vsize; f_equal; lia).
  rewrite (Select_Launcher_unmatched Zip name (vsize name) p)
    by (unfold vsize in *; lia || assumption).
  cbn [mbind outcome_bind].
  cbn [Z.gtb Z.ltb Z.compare Pos.compare Pos.compare_cont andb].
  cbn [Z.eqb Pos.eqb orb VIDEO_AUDIO FOLDER_INVOKE_ITEM BASH_XDG_OPEN PDF START_B].
  change (Z.to_nat (14 - 10)) with 4%nat.
  erewrite Insert_loop_step;
    [| lia | reflexivity | reflexivity | reflexivity
     | apply (vinsert_prefix Script_Template [] 241); vm_compute; split; discriminate ].
  do 3 (erewrite Insert_loop_step;
    [| lia | reflexivity | reflexivity | reflexivity
     | apply vinsert_prefix; vm_compute; split; discriminate ]).
  reflexivity.
Qed.

(** C3, as far as the code follows its design.  For a first entry whose
    name has a dot after position 0 and whose last three characters are
    none of the 19 extension keys and not [.sh], the POSIX segment of the
    script is [xdg-open "<name>";exit;]: the bytes up to the Windows
    launcher are the template with [xdg-open ] and the name inserted. *)
Theorem Build_Script_default_posix (Zip name args_linux args_windows : list Z) (p : nat) :
  vget Zip 34 = Done (vsize name) ->
  vrange Zip 38 (38 + vsize name) = Done name ->
  3 <= vsize name ->
  (0 < p)%nat -> name !! p = Some 0x2E ->
  last_three name ∉ extension_keys_19 -> last_three name <> str ".sh" ->
  exists windows_part,
    Build_Script Zip args_linux args_windows =
    Done (take 119 Script_Template ++ str "xdg-open " ++ [0x22] ++ name
          ++ take 119 (drop 120 Script_Template) ++ windows_part).
Proof.
  intros Hlen Hname H3 Hp Hdot Hnot Hsh.
  eexists. apply (Build_Script_unmatched Zip name args_linux args_windows p); try assumption.
  intros Hin. unfold extension_keys_20 in Hin.
  change (take 20 App_Vec_init) with (extension_keys_19 ++ [str ".sh"]) in Hin.
  apply elem_of_app in Hin. destruct Hin as [Hin | Hin]; [exact (Hnot Hin) |].
  apply list_elem_of_singleton in Hin. exact (Hsh Hin).
Qed.

(** The archive holds [a.txt]. *)
Lemma Build_Script_default_posix_witness :
  exists windows_part,
    Build_Script (framed_zip (zip_single (str "a.txt") (str "data"))) [] [] =
    Done (take 119 Script_Template ++ str "xdg-open " ++ [0x22] ++ str "a.txt"
          ++ take 119 (drop 120 Script_Template) ++ windows_part).
Proof.
  apply (Build_Script_default_posix _ (str "a.txt") [] [] 1%nat).
  - reflexivity.
  - reflexivity.
  - vm_compute. discriminate.
  - lia.
  - reflexivity.
  - intros H. apply list_elem_of_In in H. vm_compute in H.
    repeat (destruct H as [H | H]; [discriminate H |]). exact H.
  - discriminate.
Defined.

(** The property as the specification states it covers [a.sh]: a dot
    after position 0, last three characters [.sh], which is none of the
    19 keys, no trailing slash.  Its script runs the file itself
    ([chmod +x a.sh;./"a.sh"]) and contains [xdg-open] nowhere. *)
Lemma Build_Script_sh_counterexample :
  (str "a.sh" !! 1%nat = Some 0x2E) /\
  (last_three (str "a.sh") ∉ extension_keys_19) /\
  last (str "a.sh") <> Some 0x2F /\
  exists script,
    Build_Script (framed_zip (zip_single (str "a.sh") (str "data"))) [] [] = Done script /\
    search script 0 (str "xdg-open") = Done (vsize script) /\
    take 21 (drop 119 script) = str "chmod +x a.sh;./" ++ [0x22] ++ str "a.sh".
Proof.
  split; [reflexivity |]. split; [| split; [discriminate |]].
  - intros H. apply list_elem_of_In in H. vm_compute in H.
    repeat (destruct H as [H | H]; [discriminate H |]). exact H.
  - eexists. split; [vm_compute; reflexivity |]. split; vm_compute; reflexivity.
Qed.

(** What the Windows segment holds for an unmatched extension: the
    folder command, not [start /b]. *)
Lemma Build_Script_unmatched_windows_example :
  exists script,
    Build_Script (framed_zip (zip_single (str "a.txt") (str "data"))) [] [] = Done script /\
    take 31 (drop 253 script)
    = str "powershell;Invoke-Item  " ++ [0x22] ++ str "a.txt" ++ [0x22] /\
    search script 0 (str "start /b") = Done (vsize script).
Proof. eexists. split; [vm_compute; reflexivity |]. split; vm_compute; reflexivity. Qed.


(** ** The entry count of the offset fixer (C6) *)

(** C6, with the offsets the code uses.  The fixer reads the entry count
    as the 16-bit little-endian value of the bytes 10 and 11 past the
    first byte of the end-of-central-directory signature, and its loop
    then makes exactly that many writes, each to a field that ends 45
    bytes past a central directory signature, each field at least 45
    bytes after the one before. *)
Theorem Fix_Zip_Offset_record_count (vec : list Z) (I : Z) (vec' : list Z)
    (calls : list (Z * Z)) :
  vsize vec < 0x50000000 -> 0 <= I ->
  Fix_Zip_Offset vec I = Done (vec', calls) ->
  exists START END n,
    search vec I START_CENTRAL_DIR_SIG = Done START /\
    search vec START END_CENTRAL_DIR_SIG = Done END /\
    read_le vec (END + 10) 2 = Done n /\
    length calls = Z.to_nat n /\
    Forall (fun call => occurs vec (fst call - 45) START_CENTRAL_DIR_SIG /\
                        fst call < vsize vec) calls /\
    (forall (k : nat) c1 v1 c2 v2,
       calls !! k = Some (c1, v1) -> calls !! S k = Some (c2, v2) -> c1 + 45 <= c2).
Proof.
  intros Hsz HI H. assert (Hsz' : vsize vec < 2 ^ 63) by lia.
  unfold Fix_Zip_Offset in H.
  bind_inv H. destruct a as [[vec1 lay] calls1]. cbn beta iota in H.
  bind_inv H. injection H as _ <-.
  apply Fix_Zip_Entries_Done in Hstep; [| exact Hsz'].
  destruct Hstep as (vec0 & Hloc & Hloop & _ & _).
  pose proof (Locate_Central_Dir_Done _ _ _ Hsz' Hloc)
    as (hi & lo & Hs & He & Hhi & Hlo & Hn).
  exists (START_CENTRAL_DIR_INDEX lay), (END_CENTRAL_DIR_INDEX lay), (zip_records lay).
  split; [exact Hs |]. split; [exact He |].
  split.
  { rewrite Hn. apply read_le_pair; [exact Hlo |].
    replace (END_CENTRAL_DIR_INDEX lay + 10 + 1) with (END_CENTRAL_DIR_INDEX lay + 11) by lia.
    exact Hhi. }
  pose proof (size_t_range (START_CENTRAL_DIR_INDEX lay - 1)) as Hc.
  pose proof (Fix_Records_loop_frame _ _ _ _ _ _ _ Hsz' (proj1 Hc) Hloop)
    as (_ & _ & new & Hnew & Hlen & Hall & Hinc).
  pose proof (Fix_Records_loop_fields _ _ _ _ _ _ _ Hsz (proj1 Hc) Hloop)
    as (new' & Hnew' & Hsig).
  simpl in Hnew, Hnew'. subst new new'.
  split; [exact Hlen |]. split; [| exact Hinc].
  apply Forall_forall. intros call Hin.
  rewrite Forall_forall in Hall, Hsig.
  split; [apply (Hsig call Hin) | apply (Hall call Hin)].
Qed.

(** An archive of one member, framed as in the combined buffer. *)
Lemma Fix_Zip_Offset_record_count_witness :
  exists START END n,
    search (str "IDAT" ++ zip_single (str "a.txt") (str "data") ++ replicate 16 0) 0
      START_CENTRAL_DIR_SIG = Done START /\
    search (str "IDAT" ++ zip_single (str "a.txt") (str "data") ++ replicate 16 0) START
      END_CENTRAL_DIR_SIG = Done END /\
    read_le (str "IDAT" ++ zip_single (str "a.txt") (str "data") ++ replicate 16 0)
      (END + 10) 2 = Done n /\
    length [(88, 4)] = Z.to_nat n /\
    Forall (fun call =>
              occurs (str "IDAT" ++ zip_single (str "a.txt") (str "data") ++ replicate 16 0)
                (fst call - 45) START_CENTRAL_DIR_SIG /\
              fst call < vsize (str "IDAT" ++ zip_single (str "a.txt") (str "data")
                                ++ replicate 16 0)) [(88, 4)] /\
    (forall (k : nat) c1 v1 c2 v2,
       [(88, 4)] !! k = Some (c1, v1) -> [(88, 4)] !! S k = Some (c2, v2) -> c1 + 45 <= c2).
Proof.
  eapply (Fix_Zip_Offset_record_count _ 0).
  - vm_compute. reflexivity.
  - lia.
  - vm_compute. reflexivity.
Defined.

(** The specification puts the count at offsets 11 and 12.  In this
    archive of one member the bytes at offsets 10 and 11 hold 1, the fixer
    rewrites one field, and the bytes at offsets 11 and 12 hold 13056. *)
Lemma Fix_Zip_Offset_count_offset_counterexample :
  exists vec' calls END,
    Fix_Zip_Offset (str "IDAT" ++ zip_single (str "a.txt") (str "data") ++ replicate 16 0) 0
    = Done (vec', calls) /\
    search (str "IDAT" ++ zip_single (str "a.txt") (str "data") ++ replicate 16 0) 0
      END_CENTRAL_DIR_SIG = Done END /\
    length calls = 1%nat /\
    read_le (str "IDAT" ++ zip_single (str "a.txt") (str "data") ++ replicate 16 0)
      (END + 10) 2 = Done 1 /\
    read_le (str "IDAT" ++ zip_single (str "a.txt") (str "data") ++ replicate 16 0)
      (END + 11) 2 = Done 13056.
Proof. do 3 eexists. repeat split; vm_compute; reflexivity. Qed.


(** ** The archive comment length (C10) *)

(** C10.  The last step of the fixer reads the 16-bit little-endian
    comment length [old] at offsets 20 and 21 of the end record and stores
    [(old + 16) mod 2^16] there, changing nothing else; from 65520 on the
    stored value is [old - 65520], smaller than before.  [old] is the
    value of the input archive whenever no rewritten entry field covers
    the two bytes. *)
Theorem Fix_Zip_Offset_comment_length (vec : list Z) (I : Z) (vec' : list Z)
    (calls : list (Z * Z)) :
  vsize vec < 2 ^ 63 -> 0 <= I ->
  Fix_Zip_Offset vec I = Done (vec', calls) ->
  exists vec1 lay old,
    Fix_Zip_Entries vec I = Done (vec1, lay, calls) /\
    read_le vec1 (END_CENTRAL_DIR_INDEX lay + 20) 2 = Done old /\
    read_le vec' (END_CENTRAL_DIR_INDEX lay + 20) 2 = Done ((old + 16) mod 2 ^ 16) /\
    (forall j : nat,
       (j < Z.to_nat (END_CENTRAL_DIR_INDEX lay + 20)
        \/ Z.to_nat (END_CENTRAL_DIR_INDEX lay + 22) <= j)%nat -> vec' !! j = vec1 !! j) /\
    (65520 <= old < 65536 -> (old + 16) mod 2 ^ 16 = old - 65520) /\
    (Forall (fun call => fst call < END_CENTRAL_DIR_INDEX lay + 20
                         \/ END_CENTRAL_DIR_INDEX lay + 25 <= fst call) calls ->
     read_le vec (END_CENTRAL_DIR_INDEX lay + 20) 2 = Done old).
Proof.
  intros Hsz HI H. unfold Fix_Zip_Offset in H.
  bind_inv H. destruct a as [[vec1 lay] calls1]. cbn beta iota in H.
  bind_inv H. rename a into vec2. injection H as <- <-.
  exists vec1, lay.
  pose proof Hstep as Hentries.
  apply Fix_Zip_Entries_Done in Hstep; [| exact Hsz].
  destruct Hstep as (vec0 & Hloc & Hloop & Hend & Hvec1).
  pose proof (Locate_Central_Dir_Done _ _ _ Hsz Hloc) as (hi & lo & Hs & He & _).
  pose proof (search_Done _ _ _ _ Hs) as (Hs0 & Hs1 & _).
  pose proof (search_Done _ _ _ _ He) as (He0 & He1 & _).
  set (START := START_CENTRAL_DIR_INDEX lay) in *.
  set (END := END_CENTRAL_DIR_INDEX lay) in *.
  pose proof (size_t_range (START - 1)) as Hc.
  pose proof (Fix_Records_loop_frame _ _ _ _ _ _ _ Hsz (proj1 Hc) Hloop) as (Hsz0 & _).
  assert (Hb1 : END + 16 + vsize (le_bytes 4 START) <= vsize vec0)
    by (change (vsize (le_bytes 4 START)) with 4; lia).
  assert (Hsz1 : vsize vec1 = vsize vec) by (rewrite Hvec1, vsize_overwrite; lia).
  apply Fix_Zip_Comment_Done in Hstep0; [| lia | lia].
  destruct Hstep0 as (hi' & lo' & Hhi & Hlo & Hvec2).
  pose proof (proj1 (vget_Done _ _ _) Hhi) as [Hhir Hhil].
  pose proof (proj1 (vget_Done _ _ _) Hlo) as [Hlor Hlol].
  set (old := Z.lor (Z.shiftl hi' 8) lo') in *.
  exists old.
  split; [exact Hentries |].
  split.
  { apply read_le_pair; [exact Hlo |].
    replace (END + 20 + 1) with (END + 21) by lia. exact Hhi. }
  split.
  { rewrite Hvec2. replace (old + 16) with (16 + old) by lia.
    apply read_le_overwrite_2; lia. }
  split.
  { intros j Hj. rewrite Hvec2.
    apply overwrite_lookup_out; [lia | change (vsize (le_bytes 2 _)) with 2; lia |].
    change (length (le_bytes 2 (16 + old))) with 2%nat. lia. }
  split.
  { intros Hold. change (2 ^ 16) with 65536.
    symmetry. apply Z.mod_unique_pos with (q := 1); lia. }
  intros Hcalls.
  pose proof (Fix_Records_loop_outside _ _ _ _ _ _ _ Hsz (proj1 Hc) Hloop)
    as (new & Hnew & Hout).
  simpl in Hnew. subst new.
  assert (Hsame : forall j, END + 20 <= j <= END + 21 -> vec !! Z.to_nat j = vec1 !! Z.to_nat j).
  { intros j Hj. rewrite Hvec1.
    rewrite overwrite_lookup_out;
      [| lia | exact Hb1 | change (length (le_bytes 4 START)) with 4%nat; lia].
    symmetry. apply Hout.
    eapply Forall_impl; [exact Hcalls |]. intros [c v]. simpl. lia. }
  apply read_le_pair.
  - rewrite vget_lookup by lia. rewrite Hsame by lia. rewrite Hlol. reflexivity.
  - rewrite vget_lookup by lia. rewrite Hsame by lia.
    replace (END + 20 + 1) with (END + 21) by lia. rewrite Hhil. reflexivity.
Qed.

(** An archive of one member, framed as in the combined buffer. *)
Lemma Fix_Zip_Offset_comment_length_witness :
  exists vec1 lay old,
    Fix_Zip_Entries
      (str "IDAT" ++ zip_single (str "a.txt") (str "data") ++ replicate 16 0) 0
    = Done (vec1, lay, [(88, 4)]) /\
    read_le vec1 (END_CENTRAL_DIR_INDEX lay + 20) 2 = Done old /\
    read_le
      (overwrite
         (overwrite
            (overwrite
               (str "IDAT" ++ zip_single (str "a.txt") (str "data") ++ replicate 16 0)
               85 (le_bytes 4 4)) 110 (le_bytes 4 43))
         114 (le_bytes 2 16))
      (END_CENTRAL_DIR_INDEX lay + 20) 2 = Done ((old + 16) mod 2 ^ 16) /\
    (forall j : nat,
       (j < Z.to_nat (END_CENTRAL_DIR_INDEX lay + 20)
        \/ Z.to_nat (END_CENTRAL_DIR_INDEX lay + 22) <= j)%nat ->
       overwrite
         (overwrite
            (overwrite
               (str "IDAT" ++ zip_single (str "a.txt") (str "data") ++ replicate 16 0)
               85 (le_bytes 4 4)) 110 (le_bytes 4 43))
         114 (le_bytes 2 16) !! j = vec1 !! j) /\
    (65520 <= old < 65536 -> (old + 16) mod 2 ^ 16 = old - 65520) /\
    (Forall (fun call => fst call < END_CENTRAL_DIR_INDEX lay + 20
                         \/ END_CENTRAL_DIR_INDEX lay + 25 <= fst call) [(88, 4)] ->
     read_le
       (str "IDAT" ++ zip_single (str "a.txt") (str "data") ++ replicate 16 0)
       (END_CENTRAL_DIR_INDEX lay + 20) 2 = Done old).
Proof.
  apply (Fix_Zip_Offset_comment_length _ 0).
  - vm_compute. reflexivity.
  - lia.
  - vm_compute. reflexivity.
Defined.

(** An end record that announces a comment of 65530 bytes: the stored
    length becomes 10.  (The comment itself is not read by the fixer and
    is left out here.) *)
Lemma Fix_Zip_Offset_comment_wraps_example :
  exists vec' calls,
    Fix_Zip_Offset
      (str "IDAT" ++ zip_local (str "a.txt") (str "data")
       ++ zip_central (str "a.txt") 4 0 ++ zip_end_record 1 51 39 65530
       ++ replicate 16 0) 0 = Done (vec', calls) /\
    read_le vec' 114 2 = Done 10.
Proof. do 2 eexists. split; vm_compute; reflexivity. Qed.


(** ** Forbidden bytes in the output (C5) *)

Lemma sample_env_fits : env_fits sample_env.
Proof.
  unfold env_fits, fits, sample_env; cbn [image_file zip_file stdin_args_linux stdin_args_windows].
  repeat split; try (intros x [= <-]); vm_compute; reflexivity.
Qed.

Lemma pdf_env_fits : env_fits pdf_env.
Proof.
  unfold env_fits, fits, pdf_env; cbn [image_file zip_file stdin_args_linux stdin_args_windows].
  repeat split; try (intros x [= <-]); vm_compute; reflexivity.
Qed.

(** Arithmetic on sizes, with the local definitions forgotten. *)
Ltac size_lia :=
  repeat match goal with x := _ |- _ => clearbody x end;
  unfold vsize in *; lia.

(** The part of a list given by its first [k] positions. *)
Lemma take_lookup_eq (k : nat) (a b : list Z) :
  (k <= length a)%nat -> (k <= length b)%nat ->
  (forall j : nat, (j < k)%nat -> a !! j = b !! j) -> take k a = take k b.
Proof.
  intros Ha Hb H. apply list_eq. intros j.
  rewrite !lookup_take.
  destruct (decide (j < k)%nat) as [Hj | Hj]; [apply H; exact Hj | reflexivity].
Qed.

(** C5.  For every successful build (on inputs that fit in memory):

    - the bytes of the output at indices 19 to 32 are those of the input
      image, and none of them is in the set [BAD_CHAR];

    - the iCCP chunk of the output, from index 33 on, is the script that
      [Build_Script] composed for the archive as [Finish_Script] leaves it:
      the length written into bytes 2 and 3, ten dots inserted before the
      last four bytes exactly when the low byte of the length of the
      composed script is in the set, and the CRC in the last four bytes;
      the byte at index 36, the last byte of the length field, is the low
      byte of the length written last, and it is outside the set;

    - [Finish_Script] does so with every script it accepts: it pads with
      the ten dots exactly when the low byte first written is in the set,
      and byte 3 of the script it leaves is the low byte of the length of
      the padded script and is outside the set;

    - whenever the low byte of a script length is in the set, the low
      byte of the length of the script ten bytes longer is not. *)
Theorem build_forbidden_byte_freedom (argv : list (list Z)) (env : Environment)
    (out : list Z) :
  env_fits env ->
  main argv env = Done (Polyglot_Written out) ->
  (exists img,
     image_file env = Some img /\
     forall j : nat, (19 <= j <= 32)%nat ->
       exists b, out !! j = Some b /\ img !! j = Some b /\ is_bad_char b = false) /\
  (exists zip S0,
     zip_file env = Some zip /\
     Build_Script (framed_zip zip) (stdin_args_linux env) (stdin_args_windows env)
     = Done S0 /\
     let pad := if is_bad_char ((vsize S0 - 12) mod 256)
                then INCREASE_LENGTH_STRING else [] in
     let n := vsize S0 + vsize pad - 12 in
     let data := take (Z.to_nat (vsize S0 - 8)) (drop 4 S0) ++ pad in
     take (Z.to_nat (n + 12)) (drop 33 out)
     = take 2 S0 ++ be_bytes 2 n ++ data ++ be_bytes 4 (Crc_bytes data) /\
     out !! 36%nat = Some (n mod 256) /\
     is_bad_char (n mod 256) = false) /\
  (forall (pdv pdv' : PDV_STRUCT) (Sc : list Z),
     big_endian pdv = true -> 12 <= vsize Sc < 2 ^ 62 ->
     vsize (Image_Vec pdv) < 2 ^ 62 -> vsize (Zip_Vec pdv) < 2 ^ 62 ->
     Finish_Script pdv Sc = Done pdv' ->
     let pad := if is_bad_char ((vsize Sc - 12) mod 256)
                then INCREASE_LENGTH_STRING else [] in
     let n := vsize Sc + vsize pad - 12 in
     let data := take (Z.to_nat (vsize Sc - 8)) (drop 4 Sc) ++ pad in
     Script_Vec pdv' = take 2 Sc ++ be_bytes 2 n ++ data ++ be_bytes 4 (Crc_bytes data) /\
     script_size pdv' = vsize Sc + vsize pad /\
     Script_Vec pdv' !! 3%nat = Some (n mod 256) /\
     is_bad_char (n mod 256) = false) /\
  (forall script_size : Z,
     is_bad_char ((script_size - 12) mod 256) = true ->
     is_bad_char ((script_size + 10 - 12) mod 256) = false).
Proof.
  intros Hfits Hmain.
  assert (Hbyte3 : forall (Sc : list Z) (n : Z) (rest : list Z),
            12 <= vsize Sc ->
            (take 2 Sc ++ be_bytes 2 n ++ rest) !! 3%nat = Some (n mod 256)).
  { intros Sc n rest HS.
    assert (Ht2 : length (take 2 Sc) = 2%nat)
      by (rewrite length_take; unfold vsize in HS; lia).
    rewrite lookup_app_r by lia. rewrite Ht2. change (3 - 2)%nat with 1%nat.
    rewrite lookup_app_l by (simpl; lia). apply be_bytes_2_low. }
  split; [| split; [| split]].
  - (* the header bytes *)
    apply main_Done in Hmain. destruct Hmain as (a0 & a1 & a2 & _ & _ & Hbuild).
    apply Build_Done in Hbuild; [| reflexivity | exact Hfits].
    destruct Hbuild as (img & zip & p1 & p2 & p3 & mid & S0 & pad & vec & calls &
      Himg & _ & Hcheck & _ & _ & _ & Hi68 & Hz40 & _ & HS0 & _ & Hrest).
    cbv zeta in Hrest.
    set (body := take (Z.to_nat (vsize S0 - 8)) (drop 4 S0) ++ pad) in *.
    set (Script := take 2 S0 ++ be_bytes 2 (vsize S0 + vsize pad - 12)
                   ++ body ++ be_bytes 4 (Crc_bytes body)) in *.
    set (head := take 33 img ++ Script ++ mid) in *.
    destruct Hrest as (HszS & _ & Hbad & Hfix & Hszv & Hmax & ->).
    apply Check_Image_File_Done in Hcheck. destruct Hcheck as (_ & _ & _ & Hihdr & _).
    pose proof (vsize_nonneg head) as Hh0. pose proof (vsize_nonneg pad) as Hp0.
    pose proof (vsize_nonneg mid) as Hm0. pose proof (vsize_nonneg Script) as Hs0.
    assert (Ht33 : length (take 33 img) = 33%nat)
      by (rewrite length_take; unfold vsize in *; lia).
    assert (Hhead : vsize head = 33 + vsize Script + vsize mid)
      by (unfold head, vsize; rewrite !length_app, Ht33; lia).
    set (T := drop (Z.to_nat (vsize img - 12)) img) in *.
    assert (HT : vsize T = 12) by (unfold T, vsize; rewrite length_drop; unfold vsize in *; lia).
    assert (Hin : vsize (head ++ framed_zip zip ++ T) = vsize vec)
      by (rewrite !vsize_app, framed_zip_size; lia).
    assert (Hlt : vsize (head ++ framed_zip zip ++ T) < 2 ^ 63)
      by (unfold MAX_FILE_SIZE in Hmax; lia).
    assert (Hge : 0 <= vsize head + 4) by lia.
    pose proof (Fix_Zip_Offset_frame _ _ _ _ Hlt Hge Hfix) as [_ Hframe].
    exists img. split; [exact Himg |].
    intros j Hj.
    rewrite overwrite_lookup_out;
      [| lia | change (vsize (be_bytes 4 _)) with 4; lia | lia].
    rewrite Hframe by lia.
    rewrite lookup_app_l by (unfold vsize in *; lia).
    unfold head. rewrite lookup_app_l by lia. rewrite lookup_take.
    destruct (Hihdr (Z.of_nat j)) as (b & Hb & Hnb); [lia |].
    apply vget_Done in Hb. destruct Hb as [_ Hb]. rewrite Nat2Z.id in Hb.
    exists b. rewrite decide_True by lia. auto.
  - (* the script chunk *)
    apply main_Done in Hmain. destruct Hmain as (a0 & a1 & a2 & _ & _ & Hbuild).
    apply Build_Done in Hbuild; [| reflexivity | exact Hfits].
    destruct Hbuild as (img & zip & p1 & p2 & p3 & mid & S0 & pad & vec & calls &
      _ & Hzip & _ & _ & _ & _ & Hi68 & Hz40 & _ & HS0 & Hpad & Hrest).
    cbv zeta in Hrest.
    exists zip, S0. split; [exact Hzip |]. split; [exact HS0 |]. cbv zeta.
    rewrite <- Hpad.
    set (body := take (Z.to_nat (vsize S0 - 8)) (drop 4 S0) ++ pad) in *.
    set (Script := take 2 S0 ++ be_bytes 2 (vsize S0 + vsize pad - 12)
                   ++ body ++ be_bytes 4 (Crc_bytes body)) in *.
    set (head := take 33 img ++ Script ++ mid) in *.
    destruct Hrest as (HszS & _ & Hbad & Hfix & Hszv & Hmax & ->).
    apply Build_Script_shape in HS0. destruct HS0 as [_ HS0].
    pose proof (vsize_nonneg head) as Hh0. pose proof (vsize_nonneg pad) as Hp0.
    pose proof (vsize_nonneg mid) as Hm0.
    assert (Ht33 : length (take 33 img) = 33%nat)
      by (rewrite length_take; unfold vsize in *; lia).
    assert (Hhead : vsize head = 33 + vsize Script + vsize mid)
      by (unfold head, vsize; rewrite !length_app, Ht33; lia).
    set (T := drop (Z.to_nat (vsize img - 12)) img) in *.
    assert (HT : vsize T = 12) by (unfold T, vsize; rewrite length_drop; unfold vsize in *; lia).
    assert (Hin : vsize (head ++ framed_zip zip ++ T) = vsize vec)
      by (rewrite !vsize_app, framed_zip_size; lia).
    assert (Hlt : vsize (head ++ framed_zip zip ++ T) < 2 ^ 63)
      by (unfold MAX_FILE_SIZE in Hmax; lia).
    assert (Hge : 0 <= vsize head + 4) by lia.
    pose proof (Fix_Zip_Offset_frame _ _ _ _ Hlt Hge Hfix) as [_ Hframe].
    set (crc := be_bytes 4 (Crc_bytes (take (Z.to_nat (vsize zip + 4))
                                         (drop (Z.to_nat (vsize head + 4)) vec)))).
    assert (Hlow : forall j : nat, (j < 33 + length Script)%nat ->
              overwrite vec (vsize vec - 16) crc !! j = (take 33 img ++ Script) !! j).
    { intros j Hj.
      rewrite overwrite_lookup_out;
        [| lia | change (vsize crc) with 4; lia | unfold vsize in *; lia].
      rewrite Hframe by (unfold vsize in *; lia).
      rewrite lookup_app_l by (unfold vsize in *; lia).
      unfold head. rewrite app_assoc.
      apply lookup_app_l. rewrite length_app, Ht33. lia. }
    assert (Hchunk : take (length Script) (drop 33 (overwrite vec (vsize vec - 16) crc))
                     = Script).
    { rewrite take_drop_commute.
      rewrite (take_lookup_eq (33 + length Script) _ (take 33 img ++ Script)).
      - rewrite take_ge by (rewrite length_app, Ht33; lia).
        rewrite <- Ht33 at 1. apply drop_app_length.
      - rewrite overwrite_length; [size_lia | lia |].
        change (vsize crc) with 4. lia.
      - rewrite length_app, Ht33. lia.
      - exact Hlow. }
    split; [| split; [| exact Hbad]].
    + replace (Z.to_nat (vsize S0 + vsize pad - 12 + 12)) with (length Script)
        by (unfold vsize in HszS |- *; lia).
      exact Hchunk.
    + rewrite Hlow by (unfold vsize in HszS, HS0; lia).
      rewrite lookup_app_r by lia. rewrite Ht33. change (36 - 33)%nat with 3%nat.
      unfold Script. apply Hbyte3. lia.
  - (* Finish_Script on every script *)
    intros pdv pdv' Sc Hbe HS Hi Hz Hfin. cbv zeta.
    apply Finish_Script_Done in Hfin; [| exact Hbe | exact HS | exact Hi | exact Hz].
    destruct Hfin as (pad & -> & HSv & Hss & _ & _ & Hbad & _).
    split; [exact HSv |]. split; [exact Hss |]. split; [| exact Hbad].
    rewrite HSv. apply Hbyte3. lia.
  - intros n Hn. replace (n + 10 - 12) with (n - 12 + 10) by lia.
    apply bad_char_plus_10. exact Hn.
Qed.

(** The archive holds [a.pdf]: the composed script has 302 bytes, the low
    byte of 290 is 0x22, the script is padded to 312 bytes, and byte 36
    of the output is 0x2C, the low byte of 300. *)
Lemma build_forbidden_byte_freedom_witness :
  exists out,
    env_fits pdf_env /\
    main sample_argv pdf_env = Done (Polyglot_Written out) /\
    Build_Script (framed_zip pdf_zip) [] [] = Done pdf_script /\
    vsize pdf_script = 302 /\
    is_bad_char ((vsize pdf_script - 12) mod 256) = true /\
    out !! 36%nat = Some 0x2C /\
    take 10 (drop 331 out) = INCREASE_LENGTH_STRING /\
    (exists img,
       image_file pdf_env = Some img /\
       forall j : nat, (19 <= j <= 32)%nat ->
         exists b, out !! j = Some b /\ img !! j = Some b /\ is_bad_char b = false) /\
    (exists zip S0,
       zip_file pdf_env = Some zip /\
       Build_Script (framed_zip zip) (stdin_args_linux pdf_env) (stdin_args_windows pdf_env)
       = Done S0 /\
       let pad := if is_bad_char ((vsize S0 - 12) mod 256)
                  then INCREASE_LENGTH_STRING else [] in
       let n := vsize S0 + vsize pad - 12 in
       let data := take (Z.to_nat (vsize S0 - 8)) (drop 4 S0) ++ pad in
       take (Z.to_nat (n + 12)) (drop 33 out)
       = take 2 S0 ++ be_bytes 2 n ++ data ++ be_bytes 4 (Crc_bytes data) /\
       out !! 36%nat = Some (n mod 256) /\
       is_bad_char (n mod 256) = false) /\
    (exists pdv',
       Finish_Script pdv_init pdf_script = Done pdv' /\
       script_size pdv' = 312 /\
       Script_Vec pdv' !! 3%nat = Some 0x2C /\
       take 10 (drop 298 (Script_Vec pdv')) = INCREASE_LENGTH_STRING).
Proof.
  eexists. split; [exact pdf_env_fits |].
  split; [vm_compute; reflexivity |].
  split; [vm_compute; reflexivity |].
  split; [vm_compute; reflexivity |].
  split; [vm_compute; reflexivity |].
  split; [vm_compute; reflexivity |].
  split; [vm_compute; reflexivity |].
  pose proof (build_forbidden_byte_freedom sample_argv pdf_env _ pdf_env_fits
                ltac:(vm_compute; reflexivity)) as (H1 & H2 & H3 & _).
  split; [exact H1 |]. split; [exact H2 |].
  assert (Hfin : exists pdv', Finish_Script pdv_init pdf_script = Done pdv')
    by (eexists; vm_compute; reflexivity).
  destruct Hfin as [pdv' Hfin].
  assert (Hsz : 12 <= vsize pdf_script < 2 ^ 62)
    by (vm_compute; split; [discriminate | reflexivity]).
  assert (Hi : vsize (Image_Vec pdv_init) < 2 ^ 62) by (vm_compute; reflexivity).
  assert (Hz : vsize (Zip_Vec pdv_init) < 2 ^ 62) by (vm_compute; reflexivity).
  pose proof (H3 pdv_init pdv' pdf_script eq_refl Hsz Hi Hz Hfin) as H3'.
  cbv zeta in H3'. destruct H3' as (HSv & Hss & Hb3 & _).
  exists pdv'. split; [exact Hfin |].
  split; [rewrite Hss; vm_compute; reflexivity |].
  split; [rewrite Hb3; vm_compute; reflexivity |].
  rewrite HSv. vm_compute. reflexivity.
Defined.


(** ** Offsets of the embedded archive (C2) *)

Lemma sample_zip_canonical : canonical sample_zip sample_layout.
Proof.
  unfold canonical, sample_layout; cbn [locals centrals cd_start eocd chain length].
  repeat split;
    try (apply search_first_at; vm_compute; reflexivity);
    try (repeat constructor; vm_compute; discriminate);
    try (vm_compute; (reflexivity || discriminate)).
Qed.

(** C2, for archives whose signatures stand where the fixer looks for
    them.  In the output of a successful build the archive begins at some
    index [base]; the local signatures are found one after the other from
    there, the field of the [k]-th central entry holds the index of the
    [k]-th of them, and the end record holds the index of the first
    central directory signature. *)
Theorem build_offset_consistency (argv : list (list Z)) (env : Environment)
    (out zip : list Z) (lay : Archive_Layout) :
  env_fits env -> zip_file env = Some zip -> canonical zip lay ->
  main argv env = Done (Polyglot_Written out) ->
  exists base,
    vsize out = base + vsize zip + 16 /\
    chain out ZIP_SIG 1 base (map (Z.add base) (locals lay)) /\
    first_at out base START_CENTRAL_DIR_SIG (base + cd_start lay) /\
    (forall (k : nat) l c, locals lay !! k = Some l -> centrals lay !! k = Some c ->
       occurs out (base + c) START_CENTRAL_DIR_SIG /\
       read_le out (base + c + 42) 4 = Done (base + l)) /\
    occurs out (base + eocd lay) END_CENTRAL_DIR_SIG /\
    read_le out (base + eocd lay + 16) 4 = Done (base + cd_start lay).
Proof.
  intros Hfits Hzip Hcan Hmain.
  apply main_Done in Hmain. destruct Hmain as (a0 & a1 & a2 & _ & _ & Hbuild).
  apply Build_Done in Hbuild; [| reflexivity | exact Hfits].
  destruct Hbuild as (img & zip' & p1 & p2 & p3 & mid & S0 & pad & vec & calls &
    _ & Hzip' & _ & _ & _ & _ & Hi68 & _ & _ & _ & _ & Hrest).
  rewrite Hzip in Hzip'. injection Hzip' as <-.
  cbv zeta in Hrest.
  set (body := take (Z.to_nat (vsize S0 - 8)) (drop 4 S0) ++ pad) in *.
  set (Script := take 2 S0 ++ be_bytes 2 (vsize S0 + vsize pad - 12)
                 ++ body ++ be_bytes 4 (Crc_bytes body)) in *.
  set (head := take 33 img ++ Script ++ mid) in *.
  set (T := drop (Z.to_nat (vsize img - 12)) img) in *.
  destruct Hrest as (_ & _ & _ & Hfix & Hszv & Hmax & ->).
  assert (HT : vsize T = 12) by (unfold T, vsize; rewrite length_drop; unfold vsize in *; lia).
  assert (Hin : vsize (head ++ framed_zip zip ++ T) = vsize vec)
    by (rewrite !vsize_app, framed_zip_size; lia).
  assert (Hlt : vsize (head ++ framed_zip zip ++ T) < 0x50000000)
    by (unfold MAX_FILE_SIZE in Hmax; lia).
  pose proof Hcan as (_ & _ & _ & _ & _ & _ & HEsz & _).
  apply (Fix_Zip_Offset_framed _ _ _ lay) in Hfix; [| exact Hcan | exact Hlt].
  cbv zeta in Hfix.
  set (base := vsize head + 8) in *.
  destruct Hfix as (_ & HL & HC0 & Hent & HoccE & HreadE & _).
  pose proof (vsize_nonneg head) as Hh0. pose proof (vsize_nonneg zip) as Hz0.
  pose proof HC0 as (Hcd0 & HoccC0 & _).
  pose proof (occurs_lt _ _ _ END_CENTRAL_DIR_SIG_ne HoccE) as HEv.
  set (crc := be_bytes 4 _).
  assert (Hb : vsize vec - 16 + vsize crc <= vsize vec)
    by (change (vsize crc) with 4; lia).
  assert (Hout : forall j : nat, Z.of_nat j < vsize vec - 16 ->
            overwrite vec (vsize vec - 16) crc !! j = vec !! j).
  { intros j Hj. apply overwrite_lookup_out; [lia | exact Hb | lia]. }
  assert (Hsz' : vsize (overwrite vec (vsize vec - 16) crc) = vsize vec)
    by (apply vsize_overwrite; [lia | exact Hb]).
  assert (HE16 : base + eocd lay + 22 <= vsize vec - 16) by (unfold base; lia).
  exists base. split; [rewrite Hsz'; unfold base; lia |].
  split; [| split; [| split; [| split]]].
  - pose proof Hcan as (_ & _ & _ & HLB & _).
    apply (chain_agree vec _ _ _ (base + cd_start lay)); [unfold base; lia | lia | | | exact HL].
    + intros j Hj. apply Hout. destruct Hcan as (_ & _ & _ & _ & (? & _) & _). lia.
    + apply Forall_map. eapply Forall_impl; [exact HLB |]. intros l Hl. cbv beta in *.
      change (vsize ZIP_SIG) with 4. lia.
  - apply (first_at_agree vec); [unfold base; lia | | exact HC0].
    intros j Hj. change (vsize START_CENTRAL_DIR_SIG) with 4 in Hj. apply Hout.
    destruct Hcan as (_ & _ & _ & _ & (? & _) & _). lia.
  - intros k l c Hk1 Hk2. destruct (Hent k l c Hk1 Hk2) as [Hoc Hrd].
    pose proof Hcan as (_ & _ & _ & _ & _ & HCE & _).
    pose proof (Forall_lookup_1 _ _ _ _ HCE Hk2) as HcE. cbv beta in HcE.
    split.
    + apply (occurs_agree vec); [| exact Hoc].
      intros j Hj. change (length START_CENTRAL_DIR_SIG) with 4%nat in Hj.
      apply Hout. lia.
    + apply (read_le_agree vec); [exact Hsz' | | exact Hrd].
      intros j Hj. apply Hout. lia.
  - apply (occurs_agree vec); [| exact HoccE].
    intros j Hj. change (length END_CENTRAL_DIR_SIG) with 4%nat in Hj.
    apply Hout. lia.
  - apply (read_le_agree vec); [exact Hsz' | | exact HreadE].
    intros j Hj. apply Hout. lia.
Qed.

Lemma build_offset_consistency_witness :
  exists out base,
    env_fits sample_env /\ zip_file sample_env = Some sample_zip /\
    canonical sample_zip sample_layout /\
    main sample_argv sample_env = Done (Polyglot_Written out) /\
    vsize out = base + vsize sample_zip + 16 /\
    (forall (k : nat) l c,
       locals sample_layout !! k = Some l -> centrals sample_layout !! k = Some c ->
       occurs out (base + c) START_CENTRAL_DIR_SIG /\
       read_le out (base + c + 42) 4 = Done (base + l)) /\
    read_le out (base + eocd sample_layout + 16) 4 = Done (base + cd_start sample_layout).
Proof.
  assert (Hfits : env_fits sample_env).
  { unfold env_fits, fits, sample_env;
      cbn [image_file zip_file stdin_args_linux stdin_args_windows].
    repeat split; try (intros x [= <-]); vm_compute; reflexivity. }
  destruct (build_offset_consistency sample_argv sample_env _ sample_zip sample_layout
              Hfits eq_refl sample_zip_canonical ltac:(vm_compute; reflexivity))
    as (base & H1 & _ & _ & H4 & _ & H6).
  eexists. exists base.
  split; [exact Hfits |]. split; [reflexivity |]. split; [exact sample_zip_canonical |].
  split; [vm_compute; reflexivity |]. split; [exact H1 |]. split; [exact H4 | exact H6].
Defined.

(** An archive that stores another archive is a valid archive, and the
    build succeeds on it; but the fixer finds the central directory and
    the end record of the inner archive and rewrites those.  In the output
    the archive stands at index 402; its own central entry, at 550, is the
    one of the input, its field still 0, and its end record, at 602, still
    holds 148, although the local header is at 402 and the first central
    directory signature at 477. *)
Lemma build_offset_nested_counterexample :
  exists out,
    main sample_argv nested_env = Done (Polyglot_Written out) /\
    take 52 (drop 550 out) = zip_central (str "in.zip") (vsize sample_zip) 0 /\
    read_le out (550 + 42) 4 = Done 0 /\
    first_at out 0 ZIP_SIG 402 /\
    occurs out 602 END_CENTRAL_DIR_SIG /\
    read_le out (602 + 16) 4 = Done 148 /\
    first_at out 402 START_CENTRAL_DIR_SIG 477.
Proof.
  eexists. split; [vm_compute; reflexivity |].
  split; [vm_compute; reflexivity |]. split; [vm_compute; reflexivity |].
  split; [apply search_first_at; vm_compute; reflexivity |].
  split; [split; vm_compute; [discriminate | reflexivity] |].
  split; [vm_compute; reflexivity |].
  apply search_first_at; vm_compute; reflexivity.
Qed.


(** ** The chunks of the pruned image and of the output (C1) *)

Lemma idat_chunks_ok (p : Png) :
  Forall (fun d => vsize d < 2 ^ 32) (idats p) -> Forall chunk_ok (idat_chunks p).
Proof.
  intros H. unfold idat_chunks. apply Forall_map.
  eapply Forall_impl; [exact H |]. intros d Hd. split; [reflexivity | exact Hd].
Qed.

Lemma kept_plte_ok (p : Png) : pruner_ready p -> Forall chunk_ok (kept_plte p).
Proof.
  intros (_ & _ & _ & _ & _ & Hplte). unfold kept_plte.
  destruct (color_type p =? 3) eqn:Hc; [| constructor].
  apply Z.eqb_eq in Hc. destruct (Hplte Hc) as (d & Hd & Hd24 & _).
  unfold plte_chunks. rewrite Hd. repeat constructor. cbn [snd]. lia.
Qed.

Lemma pruned_chunks_ok (p : Png) : pruner_ready p -> Forall chunk_ok (pruned_chunks p).
Proof.
  intros Hready. pose proof Hready as (H13 & _ & Hds & _).
  unfold pruned_chunks. repeat (apply Forall_app; split).
  - repeat constructor. cbn [snd]. lia.
  - apply kept_plte_ok. exact Hready.
  - apply idat_chunks_ok. exact Hds.
  - repeat constructor.
Qed.

Lemma polyglot_chunks_ok (p : Png) (script zip : list Z) :
  pruner_ready p -> vsize script <= 738 -> vsize zip <= MAX_FILE_SIZE ->
  Forall chunk_ok (polyglot_chunks p script zip).
Proof.
  intros Hready Hs Hz. pose proof Hready as (H13 & _ & Hds & _).
  unfold MAX_FILE_SIZE in Hz.
  unfold polyglot_chunks. repeat (apply Forall_app; split).
  - repeat constructor; cbn [snd]; lia.
  - apply kept_plte_ok. exact Hready.
  - apply idat_chunks_ok. exact Hds.
  - repeat constructor. cbn [snd]. lia.
Qed.

Lemma sample_png_ready : pruner_ready sample_png_parts.
Proof.
  unfold pruner_ready.
  split; [reflexivity |]. split; [discriminate |].
  split; [repeat constructor |]. split; [vm_compute; reflexivity |].
  split; [vm_compute; reflexivity |].
  intros H. vm_compute in H. discriminate H.
Qed.

(** C1, for files in which the strings "IDAT" and "PLTE" stand where the
    pruner looks for them, and archives whose signatures stand where the
    fixer looks for them.  On such a file, once accepted, the pruner
    returns the signature followed by the chunks IHDR, PLTE when the
    colour type is 3, the IDAT chunks, and IEND, and nothing else.  The
    output of a successful build on such a file and such an archive
    decodes, every CRC checked, as IHDR, iCCP, PLTE when the colour type
    is 3, the IDAT chunks of the image, one IDAT chunk as long as the
    archive, and IEND. *)
Theorem png_chunk_canonicality (p : Png) :
  pruner_ready p ->
  (forall pdv0 pdv1 : PDV_STRUCT,
     Check_Image_File pdv0 (encode_png p) = Done pdv1 ->
     exists pdv',
       Erase_Image_Chunks pdv1 = Done pdv' /\
       Image_Vec pdv' = PNG_SIGNATURE ++ encode_chunks (pruned_chunks p) /\
       decode_png (Image_Vec pdv') = Some (pruned_chunks p)) /\
  (forall (argv : list (list Z)) (env : Environment) (out zip : list Z)
          (lay : Archive_Layout),
     env_fits env ->
     image_file env = Some (encode_png p) -> zip_file env = Some zip ->
     canonical zip lay ->
     main argv env = Done (Polyglot_Written out) ->
     exists script zip',
       vsize zip' = vsize zip /\
       out = PNG_SIGNATURE ++ encode_chunks (polyglot_chunks p script zip') /\
       decode_png out = Some (polyglot_chunks p script zip')).
Proof.
  intros Hready. split.
  - intros pdv0 pdv1 Hcheck.
    apply Check_Image_File_Done in Hcheck. destruct Hcheck as (HI & Hs & _).
    destruct (Erase_Image_Chunks_ready p pdv1 Hready HI Hs) as (pdv' & Herase & HI').
    exists pdv'. split; [exact Herase |]. split; [exact HI' |].
    rewrite HI'. apply decode_png_encode. apply pruned_chunks_ok. exact Hready.
  - intros argv env out zip lay Hfits Himg Hzip Hcan Hmain.
    destruct (build_polyglot_chunks argv env out p zip lay Hfits Himg Hzip Hready Hcan Hmain)
      as (script & zip' & Hs & Hz & Hzmax & ->).
    exists script, zip'. split; [exact Hz |]. split; [reflexivity |].
    apply decode_png_encode. apply polyglot_chunks_ok; [exact Hready | exact Hs | lia].
Qed.

Lemma png_chunk_canonicality_witness :
  pruner_ready sample_png_parts /\
  exists out script zip',
    main sample_argv sample_env = Done (Polyglot_Written out) /\
    vsize zip' = vsize sample_zip /\
    decode_png out = Some (polyglot_chunks sample_png_parts script zip').
Proof.
  split; [exact sample_png_ready |].
  destruct (png_chunk_canonicality sample_png_parts sample_png_ready) as [_ Hbuild].
  assert (Hfits : env_fits sample_env).
  { unfold env_fits, fits, sample_env;
      cbn [image_file zip_file stdin_args_linux stdin_args_windows].
    repeat split; try (intros x [= <-]); vm_compute; reflexivity. }
  assert (Hcan : canonical sample_zip sample_layout).
  { unfold canonical, sample_layout; cbn [locals centrals cd_start eocd chain length].
    repeat split;
      try (apply search_first_at; vm_compute; reflexivity);
      try (repeat constructor; vm_compute; discriminate);
      try (vm_compute; (reflexivity || discriminate)). }
  destruct (Hbuild sample_argv sample_env _ sample_zip sample_layout Hfits
              ltac:(vm_compute; reflexivity) eq_refl Hcan ltac:(vm_compute; reflexivity))
    as (script & zip' & Hz & _ & Hdec).
  eexists. exists script, zip'.
  split; [vm_compute; reflexivity |]. split; [exact Hz | exact Hdec].
Defined.

(** A file whose one IDAT chunk holds the string "IDAT" in its data
    decodes as IHDR, IDAT, IEND, and is accepted.  The pruner takes the
    string for the type field of a second IDAT chunk and copies the
    thirteen bytes around it as well: what it returns does not decode,
    nor does the output of the build. *)
Lemma pruner_idat_in_data_counterexample :
  decode_png (encode_png idat_in_data_parts) = Some (png_chunks idat_in_data_parts) /\
  (exists pdv1 pdv',
     Check_Image_File (mkPDV [] [] [] [] [] 0 0 0 0 true) (encode_png idat_in_data_parts)
     = Done pdv1 /\
     Erase_Image_Chunks pdv1 = Done pdv' /\
     Image_Vec pdv' <> PNG_SIGNATURE ++ encode_chunks (pruned_chunks idat_in_data_parts) /\
     decode_png (Image_Vec pdv') = None) /\
  (exists out,
     main sample_argv idat_in_data_env = Done (Polyglot_Written out) /\
     decode_png out = None).
Proof.
  split; [vm_compute; reflexivity |]. split.
  - do 2 eexists. split; [vm_compute; reflexivity |]. split; [vm_compute; reflexivity |].
    split; [vm_compute; discriminate | vm_compute; reflexivity].
  - eexists. split; [vm_compute; reflexivity |]. vm_compute. reflexivity.
Qed.


(** * Further properties of the code *)

(** ** Crc and Crc_Update *)

(** X1.  For a length below 2^31, the lengths the source loop can
    count (its counter is an [int] compared with the [size_t] length, and
    the program passes no length above 209715204), [Crc] returns a value
    exactly when the range it is given lies inside the buffer and starts
    at one of its bytes; the value is then the CRC of the PNG
    specification over these bytes, and it fits in 32 bits although the
    source computes it in a [size_t]. *)
Theorem Crc_png_crc (vec : list Z) (start len c : Z) :
  len < 2 ^ 31 ->
  (Crc vec start len = Done c <->
   (0 <= start < vsize vec /\ 0 <= len /\ start + len <= vsize vec /\
    c = png_crc (take (Z.to_nat len) (drop (Z.to_nat start) vec)) /\
    0 <= c < 2 ^ 32)).
Proof.
  intros _. split.
  - intros H. apply Crc_Done in H. destruct H as (Hs & Hl & Hr & ->).
    repeat split; try lia.
    + apply Crc_bytes_png_crc.
    + apply Crc_bytes_range.
    + apply Crc_bytes_range.
  - intros (Hs & Hl & Hr & -> & _). unfold Crc.
    destruct (vget_in_range vec start Hs) as (b & Hb & _).
    rewrite Hb. cbn [mbind outcome_bind].
    unfold vrange.
    replace ((0 <=? start) && (start <=? start + len) && (start + len <=? vsize vec))
      with true by (symmetry; rewrite !andb_true_iff, !Z.leb_le; lia).
    cbn [mbind outcome_bind].
    replace (start + len - start) with len by lia.
    rewrite Crc_bytes_png_crc. reflexivity.
Qed.

(** The CRC of the last chunk of every PNG file, computed in place. *)
Lemma Crc_png_crc_witness :
  4 < 2 ^ 31 /\
  Crc [0; 0; 0; 0; 73; 69; 78; 68; 0xAE; 0x42; 0x60; 0x82] 4 4 = Done 0xAE426082 /\
  forall c, Crc [0; 0; 0; 0; 73; 69; 78; 68] 4 5 <> Done c.
Proof.
  split; [lia |]. split.
  - apply (Crc_png_crc [0; 0; 0; 0; 73; 69; 78; 68; 0xAE; 0x42; 0x60; 0x82] 4 4 0xAE426082);
      [lia |].
    split; [vm_compute; split; [discriminate | reflexivity] |].
    split; [lia |]. split; [vm_compute; discriminate |].
    split; [vm_compute; reflexivity |].
    vm_compute; split; [discriminate | reflexivity].
  - intros c H.
    apply (Crc_png_crc [0; 0; 0; 0; 73; 69; 78; 68] 4 5 c) in H; [| lia].
    destruct H as (_ & _ & H & _). vm_compute in H. apply H. reflexivity.
Defined.

(** X2.  The running CRC composes: updating over [a ++ b] is updating
    over [a] and then over [b], so the CRC of a buffer can be continued
    from the register left by a prefix. *)
Theorem Crc_Update_app (a b : list Z) (c : Z) :
  Crc_Update c (a ++ b) = Crc_Update (Crc_Update c a) b /\
  Crc_bytes (a ++ b) = Z.lxor (Crc_Update (Z.lxor (Crc_bytes a) 0xffffffff) b) 0xffffffff.
Proof.
  assert (Happ : forall (x y : list Z) (r : Z),
             Crc_Update r (x ++ y) = Crc_Update (Crc_Update r x) y).
  { induction x as [| e x IH]; intros y r; [reflexivity |].
    cbn [app Crc_Update]. apply IH. }
  split; [apply Happ |].
  unfold Crc_bytes. rewrite Happ. do 2 f_equal.
  rewrite Z.lxor_assoc, Z.lxor_nilpotent, Z.lxor_0_r. reflexivity.
Qed.

(** ** Value_Updater *)

Lemma Value_Updater_loop_bad_width (fuel : nat) : forall (vec : list Z) (i v bits : Z)
    (big : bool),
  bits < 0 \/ bits mod 8 <> 0 ->
  Value_Updater_loop fuel vec i v bits big = Undefined.
Proof.
  induction fuel as [| fuel IH]; intros vec i v bits big Hb.
  - cbn [Value_Updater_loop].
    destruct (bits =? 0) eqn:H0; [| reflexivity].
    apply Z.eqb_eq in H0. subst bits. destruct Hb as [Hb | Hb]; [lia |].
    exfalso. apply Hb. reflexivity.
  - cbn [Value_Updater_loop].
    destruct (bits =? 0) eqn:H0.
    { apply Z.eqb_eq in H0. subst bits. destruct Hb as [Hb | Hb]; [lia |].
      exfalso. apply Hb. reflexivity. }
    cbn zeta. destruct (bits - 8 <? 0) eqn:H8; [reflexivity |].
    apply Z.ltb_ge in H8.
    destruct (vset vec i (Z.land (Z.shiftr v (bits - 8)) 255)) as [vec' | d |] eqn:Hset;
      cbn [mbind outcome_bind]; [| | reflexivity].
    + apply IH. right. destruct Hb as [Hb | Hb]; [lia |].
      replace (bits - 8) with (bits + (-1) * 8) by lia.
      rewrite Z.mod_add by lia. exact Hb.
    + unfold vset in Hset. destruct ((0 <=? i) && (i <? vsize vec)); discriminate Hset.
Qed.

(** X3.  [Value_Updater] for every width up to the 64 bits of the value.
    Width 0 leaves the buffer as it is.  A width of [n] whole bytes stores
    the low [n] bytes of the value, most significant byte first at
    increasing indices from [i] in big-endian mode, and at decreasing
    indices from [i] in little-endian mode (so the field is
    [i - n + 1 .. i], least significant byte first); a field that does not
    lie inside the buffer is an access outside it.  A negative width or one
    that is no multiple of eight ends in a negative shift count. *)
Theorem Value_Updater_every_width (vec : list Z) (i v bits : Z) (big : bool) :
  0 <= i < 2 ^ 64 -> vsize vec < 2 ^ 64 -> 0 <= v < 2 ^ 64 -> bits <= 64 ->
  Value_Updater vec i v bits big =
  if bits =? 0 then Done vec
  else if (bits <? 0) || negb (bits mod 8 =? 0) then Undefined
  else
    let n := Z.to_nat (bits / 8) in
    if big then
      if i + Z.of_nat n <=? vsize vec
      then Done (overwrite vec i (be_bytes n v)) else Undefined
    else
      if (Z.of_nat n - 1 <=? i) && (i <? vsize vec)
      then Done (overwrite vec (i - Z.of_nat n + 1) (le_bytes n v)) else Undefined.
Proof.
  intros Hi Hsz _ _.
  destruct (bits =? 0) eqn:H0.
  { apply Z.eqb_eq in H0. subst bits. reflexivity. }
  apply Z.eqb_neq in H0.
  destruct ((bits <? 0) || negb (bits mod 8 =? 0)) eqn:Hbad.
  { unfold Value_Updater. apply Value_Updater_loop_bad_width.
    apply orb_true_iff in Hbad. destruct Hbad as [Hb | Hb].
    - left. apply Z.ltb_lt in Hb. exact Hb.
    - right. apply negb_true_iff, Z.eqb_neq in Hb. exact Hb. }
  apply orb_false_iff in Hbad. destruct Hbad as (Hneg & Hmod).
  apply Z.ltb_ge in Hneg. apply negb_false_iff, Z.eqb_eq in Hmod.
  cbn zeta.
  assert (Hbits : bits = 8 * Z.of_nat (Z.to_nat (bits / 8))).
  { rewrite Z2Nat.id by (apply Z.div_pos; lia).
    pose proof (Z.div_mod bits 8 ltac:(lia)) as Hdm. lia. }
  assert (Hn : Z.to_nat (bits / 8) <> O).
  { intros Hz. rewrite Hz in Hbits. simpl in Hbits. lia. }
  set (n := Z.to_nat (bits / 8)) in *. clearbody n.
  rewrite Hbits at 1.
  destruct big.
  - apply Value_Updater_be; assumption.
  - apply Value_Updater_le; assumption.
Qed.

(** A three-byte little-endian write that ends at index 3, and one that
    would start below index 0. *)
Lemma Value_Updater_every_width_witness :
  Value_Updater [9; 9; 9; 9; 9] 3 0x112233 24 false = Done [9; 0x33; 0x22; 0x11; 9] /\
  Value_Updater [9; 9; 9; 9; 9] 1 0x112233 24 false = Undefined.
Proof.
  split.
  - rewrite (Value_Updater_every_width [9; 9; 9; 9; 9] 3 0x112233 24 false).
    + reflexivity.
    + lia.
    + vm_compute. reflexivity.
    + lia.
    + lia.
  - rewrite (Value_Updater_every_width [9; 9; 9; 9; 9] 1 0x112233 24 false).
    + reflexivity.
    + lia.
    + vm_compute. reflexivity.
    + lia.
    + lia.
Defined.

(** ** Open_Files *)

(** X4.  What [Open_Files] answers, by cases.  A missing image is
    reported first, then a missing archive.  An image below 68 bytes and
    then an archive below 40 bytes get their own diagnostics; an image of
    exactly 68 bytes, an archive of exactly 40 bytes and a combined size
    above 209715200 bytes all get the combined-size diagnostic.  Otherwise
    the call succeeds, records the two sizes and their sum, hands on the
    two streams and leaves the vectors untouched. *)
Theorem Open_Files_outcome (pdv : PDV_STRUCT) (env : Environment) :
  (forall img, image_file env = Some img -> vsize img < 2 ^ 63) ->
  (forall zip, zip_file env = Some zip -> vsize zip < 2 ^ 63) ->
  Open_Files pdv env =
  match image_file env, zip_file env with
  | None, _ => Exit Read_File_Error_Image
  | Some _, None => Exit Read_File_Error_Zip
  | Some img, Some zip =>
      if vsize img <? 68 then Exit File_Size_Error_Image_Too_Small
      else if vsize zip <? 40 then Exit File_Size_Error_Zip_Too_Small
      else if (vsize img =? 68) || (vsize zip =? 40)
              || (209715200 <? vsize img + vsize zip)
      then Exit File_Size_Error_Combined_Exceeds_Limit
      else Done (mkPDV (Image_Vec pdv) (Zip_Vec pdv) (Script_Vec pdv)
                   (image_name pdv) (zip_name pdv)
                   (vsize img) (vsize zip) (script_size pdv)
                   (vsize img + vsize zip) (big_endian pdv),
                 img, zip)
  end.
Proof.
  intros Himg Hzip. unfold Open_Files.
  destruct (image_file env) as [img |]; [| reflexivity].
  destruct (zip_file env) as [zip |]; [| reflexivity].
  specialize (Himg img eq_refl). specialize (Hzip zip eq_refl).
  pose proof (vsize_nonneg img) as Hi0. pose proof (vsize_nonneg zip) as Hz0.
  unfold file_size_check, file_size_diagnostic, MIN_IMAGE_SIZE, MIN_ZIP_SIZE, MAX_FILE_SIZE.
  rewrite size_t_small by lia.
  rewrite !Z.gtb_ltb, Z.geb_leb.
  destruct (Z.ltb_spec (vsize img) 68) as [Hi | Hi].
  { replace (68 <? vsize img) with false by (symmetry; apply Z.ltb_ge; lia).
    reflexivity. }
  destruct (Z.ltb_spec (vsize zip) 40) as [Hz | Hz].
  { replace (40 <? vsize zip) with false by (symmetry; apply Z.ltb_ge; lia).
    rewrite andb_false_r. cbn [andb negb].
    replace (vsize img <? 68) with false by (symmetry; apply Z.ltb_ge; lia).
    reflexivity. }
  replace (vsize img <? 68) with false by (symmetry; apply Z.ltb_ge; lia).
  replace (vsize zip <? 40) with false by (symmetry; apply Z.ltb_ge; lia).
  destruct (Z.eqb_spec (vsize img) 68) as [Hi' | Hi'].
  { rewrite Hi'. reflexivity. }
  replace (68 <? vsize img) with true by (symmetry; apply Z.ltb_lt; lia).
  destruct (Z.eqb_spec (vsize zip) 40) as [Hz' | Hz'].
  { rewrite Hz'. reflexivity. }
  replace (40 <? vsize zip) with true by (symmetry; apply Z.ltb_lt; lia).
  cbn [andb orb].
  destruct (Z.ltb_spec 209715200 (vsize img + vsize zip)) as [Hs | Hs].
  - replace (vsize img + vsize zip <=? 209715200) with false
      by (symmetry; apply Z.leb_gt; lia).
    reflexivity.
  - replace (vsize img + vsize zip <=? 209715200) with true
      by (symmetry; apply Z.leb_le; lia).
    reflexivity.
Qed.

(** An image of exactly 68 bytes with an archive of 41 bytes. *)
Lemma Open_Files_outcome_witness :
  Open_Files pdv_init (mkEnv (Some (replicate 68 0)) (Some (replicate 41 0)) [] [] true)
  = Exit File_Size_Error_Combined_Exceeds_Limit.
Proof.
  rewrite (Open_Files_outcome pdv_init
             (mkEnv (Some (replicate 68 0)) (Some (replicate 41 0)) [] [] true)).
  - reflexivity.
  - intros img H. injection H as <-. vm_compute. reflexivity.
  - intros zip H. injection H as <-. vm_compute. reflexivity.
Defined.

(** ** Check_Image_File *)

(** The colour-type and dimension check by cases on the colour byte and
    the two 16-bit values it reads. *)
Lemma Check_Image_Dims_cases (vec : list Z) (b18 b19 b22 b23 color : Z) :
  vget vec 18 = Done b18 -> vget vec 19 = Done b19 ->
  vget vec 22 = Done b22 -> vget vec 23 = Done b23 -> vget vec 25 = Done color ->
  Check_Image_Dims vec =
  let W := Z.lor (Z.shiftl b18 8) b19 in
  let H := Z.lor (Z.shiftl b22 8) b23 in
  if (color =? 2) || (color =? 6) then
    if (W <=? 899) && (H <=? 899) && (68 <=? W) && (68 <=? H)
    then Done tt else Exit Image_File_Error_Dimensions
  else if color =? 3 then
    if (W <=? 4096) && (H <=? 4096) && (68 <=? W) && (68 <=? H)
    then Done tt else Exit Image_File_Error_Dimensions
  else Exit Image_File_Error_Color_Type.
Proof.
  intros H18 H19 H22 H23 Hc. unfold Check_Image_Dims.
  rewrite H18, H19, H22, H23, Hc. cbn [mbind outcome_bind]. cbn zeta.
  set (W := Z.lor (Z.shiftl b18 8) b19). set (H := Z.lor (Z.shiftl b22 8) b23).
  unfold MAX_TRUECOLOR_DIMS, MAX_INDEXED_COLOR_DIMS, MIN_DIMS, PNG_TRUECOLOR,
    PNG_INDEXED_COLOR.
  rewrite !Z.geb_leb.
  destruct (Z.eqb_spec color 6) as [-> | H6].
  { cbn [Z.eqb Pos.eqb negb orb andb].
    destruct ((W <=? 899) && (H <=? 899) && (68 <=? W) && (68 <=? H)); reflexivity. }
  rewrite orb_false_r.
  destruct (Z.eqb_spec color 2) as [-> | H2].
  { cbn [Z.eqb Pos.eqb negb orb andb].
    destruct ((W <=? 899) && (H <=? 899) && (68 <=? W) && (68 <=? H)); reflexivity. }
  destruct (Z.eqb_spec color 3) as [-> | H3].
  { cbn [Z.eqb Pos.eqb negb orb andb].
    destruct ((W <=? 4096) && (H <=? 4096) && (68 <=? W) && (68 <=? H)); reflexivity. }
  reflexivity.
Qed.

(** X5.  The dimension check for the colour types other than truecolor.
    For an indexed-colour header (colour type 3) it passes exactly when the
    16-bit width (bytes 18-19) and height (bytes 22-23) both lie in
    [68, 4096], and gives the dimension diagnostic otherwise.  Every colour
    type other than 2, 3 and 6 (greyscale 0 and 4 among them) gives the
    colour-type diagnostic whatever the dimensions are. *)
Theorem Check_Image_Dims_indexed (vec : list Z) (color : Z) :
  26 <= vsize vec ->
  vget vec 25 = Done color -> color <> 2 -> color <> 6 ->
  exists W H,
    read_be vec 18 2 = Done W /\ read_be vec 22 2 = Done H /\
    Check_Image_Dims vec =
    (if color =? 3 then
       if decide (68 <= W <= 4096 /\ 68 <= H <= 4096)
       then Done tt else Exit Image_File_Error_Dimensions
     else Exit Image_File_Error_Color_Type).
Proof.
  intros Hsz Hc Hn2 Hn6.
  destruct (vget_in_range vec 18) as (b18 & H18 & _); [lia |].
  destruct (vget_in_range vec 19) as (b19 & H19 & _); [lia |].
  destruct (vget_in_range vec 22) as (b22 & H22 & _); [lia |].
  destruct (vget_in_range vec 23) as (b23 & H23 & _); [lia |].
  exists (Z.lor (Z.shiftl b18 8) b19), (Z.lor (Z.shiftl b22 8) b23).
  split; [apply read_be_pair; assumption |].
  split; [apply read_be_pair; assumption |].
  rewrite (Check_Image_Dims_cases vec b18 b19 b22 b23 color) by assumption.
  cbn zeta.
  set (W := Z.lor (Z.shiftl b18 8) b19). set (H := Z.lor (Z.shiftl b22 8) b23).
  replace (color =? 2) with false by (symmetry; apply Z.eqb_neq; exact Hn2).
  replace (color =? 6) with false by (symmetry; apply Z.eqb_neq; exact Hn6).
  cbn [orb]. destruct (color =? 3); [| reflexivity].
  destruct (decide (68 <= W <= 4096 /\ 68 <= H <= 4096)) as [Hw | Hw].
  - replace ((W <=? 4096) && (H <=? 4096) && (68 <=? W) && (68 <=? H)) with true
      by (symmetry; rewrite !andb_true_iff, !Z.leb_le; lia).
    reflexivity.
  - replace ((W <=? 4096) && (H <=? 4096) && (68 <=? W) && (68 <=? H)) with false;
      [reflexivity |].
    symmetry. apply not_true_is_false. rewrite !andb_true_iff, !Z.leb_le. lia.
Qed.

(** The first 26 bytes of an indexed-colour PNG of 4096 x 4097 pixels. *)
Lemma Check_Image_Dims_indexed_witness :
  exists W H,
    read_be [0x89; 0x50; 0x4E; 0x47; 0x0D; 0x0A; 0x1A; 0x0A; 0; 0; 0; 13;
             0x49; 0x48; 0x44; 0x52; 0; 0; 16; 0; 0; 0; 16; 1; 8; 3] 18 2 = Done W /\
    read_be [0x89; 0x50; 0x4E; 0x47; 0x0D; 0x0A; 0x1A; 0x0A; 0; 0; 0; 13;
             0x49; 0x48; 0x44; 0x52; 0; 0; 16; 0; 0; 0; 16; 1; 8; 3] 22 2 = Done H /\
    Check_Image_Dims
      [0x89; 0x50; 0x4E; 0x47; 0x0D; 0x0A; 0x1A; 0x0A; 0; 0; 0; 13;
       0x49; 0x48; 0x44; 0x52; 0; 0; 16; 0; 0; 0; 16; 1; 8; 3] =
    (if 3 =? 3 then
       if decide (68 <= W <= 4096 /\ 68 <= H <= 4096)
       then Done tt else Exit Image_File_Error_Dimensions
     else Exit Image_File_Error_Color_Type).
Proof.
  apply (Check_Image_Dims_indexed
           [0x89; 0x50; 0x4E; 0x47; 0x0D; 0x0A; 0x1A; 0x0A; 0; 0; 0; 13;
            0x49; 0x48; 0x44; 0x52; 0; 0; 16; 0; 0; 0; 16; 1; 8; 3] 3).
  - vm_compute. discriminate.
  - reflexivity.
  - lia.
  - lia.
Defined.

(** Four bytes read most significant first, reduced to their low 16 bits. *)
Lemma read_be_bytes_4_low (b0 b1 b2 b3 : Z) :
  0 <= b0 < 256 -> 0 <= b1 < 256 -> 0 <= b2 < 256 -> 0 <= b3 < 256 ->
  read_be_bytes [b0; b1; b2; b3] 0 mod 65536 = Z.lor (Z.shiftl b2 8) b3.
Proof.
  intros H0 H1 H2 H3. cbn [read_be_bytes].
  rewrite !lor_shiftl_small by lia.
  change (2 ^ 8) with 256.
  replace (((0 * 256 + b0) * 256 + b1) * 256 + b2) with (b2 + (b0 * 256 + b1) * 256) by lia.
  replace ((b2 + (b0 * 256 + b1) * 256) * 256 + b3)
    with (b2 * 256 + b3 + (b0 * 256 + b1) * 65536) by lia.
  rewrite Z.mod_add by lia. apply Z.mod_small. lia.
Qed.

(** X6.  The check reads only the two low bytes of the 32-bit width and
    height fields of the IHDR chunk: an image is accepted exactly when its
    colour type is 2 or 6 and width and height, taken modulo 65536, lie in
    [68, 899], or its colour type is 3 and they lie in [68, 4096].  An
    image 65636 pixels wide is therefore measured as 100 pixels wide. *)
Theorem Check_Image_Dims_low_16_bits (vec : list Z) (W32 H32 color : Z) :
  (forall j b, 16 <= j < 24 -> vget vec j = Done b -> 0 <= b < 256) ->
  read_be vec 16 4 = Done W32 -> read_be vec 20 4 = Done H32 ->
  vget vec 25 = Done color ->
  (Check_Image_Dims vec = Done tt <->
   ((color = 2 \/ color = 6) /\
    68 <= W32 mod 65536 <= 899 /\ 68 <= H32 mod 65536 <= 899) \/
   (color = 3 /\
    68 <= W32 mod 65536 <= 4096 /\ 68 <= H32 mod 65536 <= 4096)).
Proof.
  intros Hbyte HW HH Hc.
  assert (Hsz : 26 <= vsize vec) by (apply vget_Done in Hc; lia).
  assert (Hget : forall j, 16 <= j < 24 ->
            exists b, vget vec j = Done b /\ 0 <= b < 256).
  { intros j Hj. destruct (vget_in_range vec j) as (b & Hb & _); [lia |].
    exists b. split; [exact Hb |]. apply (Hbyte j b Hj Hb). }
  destruct (Hget 16 ltac:(lia)) as (b16 & H16 & R16).
  destruct (Hget 17 ltac:(lia)) as (b17 & H17 & R17).
  destruct (Hget 18 ltac:(lia)) as (b18 & H18 & R18).
  destruct (Hget 19 ltac:(lia)) as (b19 & H19 & R19).
  destruct (Hget 20 ltac:(lia)) as (b20 & H20 & R20).
  destruct (Hget 21 ltac:(lia)) as (b21 & H21 & R21).
  destruct (Hget 22 ltac:(lia)) as (b22 & H22 & R22).
  destruct (Hget 23 ltac:(lia)) as (b23 & H23 & R23).
  assert (HW' : vrange vec 16 (16 + 4) = Done [b16; b17; b18; b19]).
  { apply vrange_cons; [exact H16 |]. apply vrange_cons; [exact H17 |].
    apply vrange_cons; [exact H18 |]. apply vrange_cons; [exact H19 |].
    apply vrange_nil. lia. }
  assert (HH' : vrange vec 20 (20 + 4) = Done [b20; b21; b22; b23]).
  { apply vrange_cons; [exact H20 |]. apply vrange_cons; [exact H21 |].
    apply vrange_cons; [exact H22 |]. apply vrange_cons; [exact H23 |].
    apply vrange_nil. lia. }
  unfold read_be in HW, HH. rewrite HW' in HW. rewrite HH' in HH.
  cbn [mbind outcome_bind] in HW, HH.
  injection HW as <-. injection HH as <-.
  pose proof (read_be_bytes_4_low b16 b17 b18 b19 R16 R17 R18 R19) as EW.
  pose proof (read_be_bytes_4_low b20 b21 b22 b23 R20 R21 R22 R23) as EH.
  cbn [read_be_bytes] in EW, EH. rewrite EW, EH. clear EW EH.
  rewrite (Check_Image_Dims_cases vec b18 b19 b22 b23 color) by assumption.
  cbn zeta.
  set (W := Z.lor (Z.shiftl b18 8) b19). set (H := Z.lor (Z.shiftl b22 8) b23).
  clearbody W H.
  destruct (Z.eqb_spec color 2) as [E2 | E2]; destruct (Z.eqb_spec color 6) as [E6 | E6];
    destruct (Z.eqb_spec color 3) as [E3 | E3]; cbn [orb]; try lia;
    destruct (Z.leb_spec W 899); destruct (Z.leb_spec H 899);
    destruct (Z.leb_spec W 4096); destruct (Z.leb_spec H 4096);
    destruct (Z.leb_spec 68 W); destruct (Z.leb_spec 68 H); cbn [andb];
    split; intros Hx; try discriminate Hx; try reflexivity; try lia.
Qed.

(** A truecolor header whose width field holds 65636 and whose height
    field holds 100. *)
Lemma Check_Image_Dims_low_16_bits_witness :
  Check_Image_Dims
    [0x89; 0x50; 0x4E; 0x47; 0x0D; 0x0A; 0x1A; 0x0A; 0; 0; 0; 13;
     0x49; 0x48; 0x44; 0x52; 0; 1; 0; 100; 0; 0; 0; 100; 8; 2] = Done tt <->
  ((2 = 2 \/ 2 = 6) /\ 68 <= 65636 mod 65536 <= 899 /\ 68 <= 100 mod 65536 <= 899) \/
  (2 = 3 /\ 68 <= 65636 mod 65536 <= 4096 /\ 68 <= 100 mod 65536 <= 4096).
Proof.
  apply (Check_Image_Dims_low_16_bits
           [0x89; 0x50; 0x4E; 0x47; 0x0D; 0x0A; 0x1A; 0x0A; 0; 0; 0; 13;
            0x49; 0x48; 0x44; 0x52; 0; 1; 0; 100; 0; 0; 0; 100; 8; 2] 65636 100 2).
  - intros j b Hj Hb. apply vget_Done in Hb. destruct Hb as (_ & Hb).
    assert (Hcases : j = 16 \/ j = 17 \/ j = 18 \/ j = 19 \/ j = 20 \/ j = 21
                     \/ j = 22 \/ j = 23) by lia.
    destruct Hcases as [-> | [-> | [-> | [-> | [-> | [-> | [-> | ->]]]]]]];
      vm_compute in Hb; injection Hb as <-; lia.
  - reflexivity.
  - reflexivity.
  - reflexivity.
Defined.

(** The loop over the IHDR bytes tests the bytes at [i + 1 .. 32]. *)
Lemma IHDR_bad_char_loop_eq (fuel : nat) : forall (vec : list Z) (i : Z),
  18 <= i <= 32 -> 33 <= vsize vec -> (Z.to_nat (32 - i) < fuel)%nat ->
  IHDR_bad_char_loop fuel vec i =
  if existsb is_bad_char (take (Z.to_nat (32 - i)) (drop (Z.to_nat (i + 1)) vec))
  then Exit Image_File_Error_IHDR_Bad_Char else Done tt.
Proof.
  induction fuel as [| fuel IH]; intros vec i Hi Hsz Hfuel; [lia |].
  cbn [IHDR_bad_char_loop].
  destruct (Z.eqb_spec i 32) as [-> | Hne].
  { cbn [negb]. reflexivity. }
  cbn [negb].
  destruct (vget_in_range vec (i + 1)) as (b & Hb & Hl); [lia |].
  rewrite Hb. cbn [mbind outcome_bind].
  replace (Z.to_nat (32 - i)) with (S (Z.to_nat (32 - (i + 1)))) by lia.
  rewrite (drop_S _ _ _ Hl). cbn [take existsb].
  destruct (is_bad_char b); [reflexivity |]. cbn [orb].
  rewrite IH by lia.
  replace (S (Z.to_nat (i + 1))) with (Z.to_nat (i + 1 + 1)) by lia. reflexivity.
Qed.

(** X7.  [Check_Image_File] on a file of at least 33 bytes, by cases and
    in the order of its tests: the file must begin with 89 50 4E 47 and end
    with the eight bytes 49 45 4E 44 AE 42 60 82, else it is not a PNG;
    none of the fourteen bytes at indices 19 to 32 may be one of the seven
    script-breaking characters; then the colour type and the dimensions
    are checked.  An accepted image is stored unchanged, with its size. *)
Theorem Check_Image_File_outcome (pdv : PDV_STRUCT) (img : list Z) :
  33 <= vsize img ->
  Check_Image_File pdv img =
  if negb (bool_decide (take 4 img = PNG_TOP_SIG))
     || negb (bool_decide (drop (Z.to_nat (vsize img - 8)) img = PNG_END_SIG))
  then Exit Image_File_Error_Not_PNG
  else if existsb is_bad_char (take 14 (drop 19 img))
  then Exit Image_File_Error_IHDR_Bad_Char
  else
    _ ← Check_Image_Dims img;
    Done (mkPDV img (Zip_Vec pdv) (Script_Vec pdv) (image_name pdv) (zip_name pdv)
            (vsize img) (zip_size pdv) (script_size pdv)
            (combined_file_size pdv) (big_endian pdv)).
Proof.
  intros Hsz. unfold Check_Image_File.
  assert (Htop : vrange img 0 (vsize PNG_TOP_SIG) = Done (take 4 img)).
  { apply vrange_Done. change (vsize PNG_TOP_SIG) with 4.
    repeat split; try lia. }
  assert (Hend : vrange img (vsize img - vsize PNG_END_SIG) (vsize img)
                 = Done (drop (Z.to_nat (vsize img - 8)) img)).
  { apply vrange_Done. change (vsize PNG_END_SIG) with 8.
    repeat split; try lia.
    symmetry. apply take_ge. rewrite length_drop. unfold vsize in *. lia. }
  rewrite Htop, Hend. cbn [mbind outcome_bind].
  destruct (negb (bool_decide (take 4 img = PNG_TOP_SIG))
            || negb (bool_decide (drop (Z.to_nat (vsize img - 8)) img = PNG_END_SIG)));
    [reflexivity |].
  rewrite IHDR_bad_char_loop_eq by (simpl; lia).
  change (Z.to_nat (32 - 18)) with 14%nat. change (Z.to_nat (18 + 1)) with 19%nat.
  destruct (existsb is_bad_char (take 14 (drop 19 img))); reflexivity.
Qed.

(** The image of the sample run is accepted; a file of 33 zero bytes is
    not a PNG. *)
Lemma Check_Image_File_outcome_witness :
  Check_Image_File pdv_init sample_png
  = Done (mkPDV sample_png [] [] [] [] (vsize sample_png) 0 0 0 true) /\
  Check_Image_File pdv_init (replicate 33 0) = Exit Image_File_Error_Not_PNG.
Proof.
  split.
  - rewrite (Check_Image_File_outcome pdv_init sample_png).
    + vm_compute. reflexivity.
    + vm_compute. discriminate.
  - rewrite (Check_Image_File_outcome pdv_init (replicate 33 0)).
    + reflexivity.
    + vm_compute. discriminate.
Defined.

(** ** Check_Zip_File *)

(** X8.  [Check_Zip_File] on an archive of at least 27 bytes: it is
    rejected as no ZIP archive unless it begins with 50 4B 03 04, and
    then as having too short a first name when byte 26, the low byte of
    the name length of its first local header, is below 4 (so a name of
    256 to 259 bytes is rejected as too short).  An accepted archive is
    framed as an IDAT chunk: its length in four big-endian bytes, "IDAT",
    the archive, and four zero bytes where the CRC will go. *)
Theorem Check_Zip_File_outcome (pdv : PDV_STRUCT) (zip : list Z) (b26 : Z) :
  big_endian pdv = true -> vsize zip < 2 ^ 63 -> vget zip 26 = Done b26 ->
  Check_Zip_File pdv zip =
  if negb (bool_decide (take 4 zip = ZIP_SIG)) then Exit ZIP_File_Error_Not_ZIP
  else if b26 <? 4 then Exit ZIP_File_Error_Name_Too_Short
  else
    Done (mkPDV (Image_Vec pdv)
            (be_bytes 4 (vsize zip) ++ IDAT_SIG ++ zip ++ [0; 0; 0; 0])
            (Script_Vec pdv) (image_name pdv) (zip_name pdv)
            (image_size pdv) (vsize zip + 12) (script_size pdv)
            (combined_file_size pdv) true).
Proof.
  intros Hbe Hsz H26. rewrite Check_Zip_File_eq by assumption.
  apply vget_Done in H26. destruct H26 as (Hr & Hl).
  assert (Hsig : vrange (framed_zip zip) 8 (8 + vsize ZIP_SIG) = Done (take 4 zip)).
  { apply vrange_Done. change (vsize ZIP_SIG) with 4.
    unfold framed_zip. rewrite !vsize_app.
    change (vsize (be_bytes 4 (vsize zip))) with 4.
    change (vsize [73; 68; 65; 84]) with 4.
    change (vsize [0; 0; 0; 0]) with 4.
    repeat split; try lia.
    change (Z.to_nat (8 + 4 - 8)) with 4%nat.
    change (be_bytes 4 (vsize zip) ++ [73; 68; 65; 84] ++ zip ++ [0; 0; 0; 0])
      with ((be_bytes 4 (vsize zip) ++ [73; 68; 65; 84]) ++ zip ++ [0; 0; 0; 0]).
    rewrite drop_app_length' by reflexivity.
    rewrite take_app_le by (unfold vsize in Hr; lia). reflexivity. }
  assert (H34 : vget (framed_zip zip) 34 = Done b26).
  { apply vget_Done. unfold framed_zip. rewrite !vsize_app.
    change (vsize (be_bytes 4 (vsize zip))) with 4.
    change (vsize [73; 68; 65; 84]) with 4.
    change (vsize [0; 0; 0; 0]) with 4.
    split; [lia |].
    change (be_bytes 4 (vsize zip) ++ [73; 68; 65; 84] ++ zip ++ [0; 0; 0; 0])
      with ((be_bytes 4 (vsize zip) ++ [73; 68; 65; 84]) ++ zip ++ [0; 0; 0; 0]).
    rewrite lookup_app_r by (simpl; lia).
    rewrite lookup_app_l by (unfold vsize in Hr; simpl; lia).
    rewrite <- Hl. f_equal. }
  rewrite Hsig, H34. cbn [mbind outcome_bind].
  unfold MIN_INZIP_NAME_LENGTH. rewrite Z.gtb_ltb.
  destruct (negb (bool_decide (take 4 zip = ZIP_SIG))); [reflexivity |].
  cbn [orb]. destruct (b26 <? 4); [reflexivity |].
  rewrite Hbe. reflexivity.
Qed.

(** An archive of one member whose name has 256 characters. *)
Lemma Check_Zip_File_outcome_witness :
  Check_Zip_File pdv_init (zip_single (replicate 256 0x61) (str "data"))
  = Exit ZIP_File_Error_Name_Too_Short.
Proof.
  rewrite (Check_Zip_File_outcome pdv_init
             (zip_single (replicate 256 0x61) (str "data")) 0).
  - reflexivity.
  - reflexivity.
  - vm_compute. reflexivity.
  - vm_compute. reflexivity.
Defined.


(** ** Complete_Extraction_Script: the launcher of each file type *)

Lemma has_extension_dot (name : list Z) :
  has_extension name = true -> exists p : nat, (0 < p)%nat /\ name !! p = Some 0x2E.
Proof.
  unfold has_extension. intros H.
  apply existsb_exists in H. destruct H as (x & Hin & Hx).
  apply Z.eqb_eq in Hx. subst x.
  apply list_elem_of_In, list_elem_of_lookup in Hin. destruct Hin as (k & Hk).
  rewrite lookup_drop in Hk. exists (1 + k)%nat. split; [lia | exact Hk].
Qed.

Lemma find_last_of_from_absent (s : list Z) : forall (c i last : Z),
  existsb (Z.eqb c) s = false -> find_last_of_from s c i last = last.
Proof.
  induction s as [| b s IH]; intros c i last H; [reflexivity |].
  cbn [existsb] in H. apply orb_false_iff in H. destruct H as (Hb & Hs).
  cbn [find_last_of_from]. rewrite Z.eqb_sym, Hb. apply IH. exact Hs.
Qed.

(** A name with no dot after its first character has no extension, as
    [Complete_Extraction_Script] tests it. *)
Lemma find_last_of_no_dot (name : list Z) :
  has_extension name = false -> vsize name < 2 ^ 63 ->
  (find_last_of name 0x2E =? 0) || (find_last_of name 0x2E >? vsize name) = true.
Proof.
  unfold has_extension, find_last_of. intros H Hsz.
  destruct name as [| b rest].
  - cbn [find_last_of_from]. unfold npos. reflexivity.
  - cbn [drop] in H. cbn [find_last_of_from].
    rewrite find_last_of_from_absent by exact H.
    destruct (b =? 46); [reflexivity |].
    apply orb_true_iff. right. rewrite Z.gtb_ltb. apply Z.ltb_lt. unfold npos. lia.
Qed.

(** The loop over [App_Vec] always ends. *)
Lemma Match_Ext_loop_total (App_Vec : list (list Z)) (ext : list Z) :
  (26 <= length App_Vec)%nat ->
  forall (n : nat), (n <= 26)%nat ->
  exists a, Match_Ext_loop n App_Vec ext (26 - Z.of_nat n) = Done a.
Proof.
  intros Hlen. induction n as [| n IH]; intros Hn.
  - exists 26. reflexivity.
  - cbn [Match_Ext_loop].
    replace (26 - Z.of_nat (S n) =? 26) with false by (symmetry; apply Z.eqb_neq; lia).
    cbn [negb].
    destruct (lookup_lt_is_Some_2 App_Vec (Z.to_nat (26 - Z.of_nat (S n)))) as [s Hs]; [lia |].
    assert (Hat : at_index App_Vec (26 - Z.of_nat (S n)) = Done s)
      by (apply at_index_Done; split; [lia | exact Hs]).
    rewrite Hat. cbn [mbind outcome_bind].
    destruct (bool_decide (s = ext)); [eexists; reflexivity |].
    replace (26 - Z.of_nat (S n) + 1) with (26 - Z.of_nat n) by lia.
    apply IH. lia.
Qed.

(** The launcher of a name without extension: a folder when the name
    ends in '/', a program otherwise, whatever its last three characters
    are. *)
Lemma Select_Launcher_no_extension (Zip name ext : list Z) (len c : Z) :
  has_extension name = false -> vsize name < 2 ^ 63 ->
  vget Zip (38 + len - 1) = Done c ->
  Select_Launcher Zip (App_Vec_init ++ [name]) name ext len
  = Done (if c =? 0x2F then FOLDER_INVOKE_ITEM else EXECUTABLE).
Proof.
  intros Hext Hsz Hc. unfold Select_Launcher.
  destruct (Match_Ext_loop_total (App_Vec_init ++ [name]) ext
              ltac:(rewrite length_app; simpl; lia) 26%nat ltac:(lia)) as (a & Ha).
  change (26 - Z.of_nat 26) with 0 in Ha. rewrite Ha. cbn [mbind outcome_bind].
  rewrite (find_last_of_no_dot name Hext Hsz).
  unfold FIRST_ZIP_NAME_REC_INDEX. rewrite Hc. reflexivity.
Qed.

(** The launcher of a name whose extension is the key at index [i]. *)
Lemma Select_Launcher_key (Zip name ext : list Z) (len : Z) (i : nat) :
  has_extension name = true -> (i < 20)%nat -> App_Vec_init !! i = Some ext ->
  Select_Launcher Zip (App_Vec_init ++ [name]) name ext len
  = Done (if Z.of_nat i <=? 14 then 20 else Z.of_nat i + 6).
Proof.
  intros Hext Hi Hkey. unfold Select_Launcher.
  destruct (has_extension_dot name Hext) as (p & Hp & Hdot).
  rewrite (find_last_of_dot name p Hp Hdot).
  assert (Hm : Match_Ext_loop 26 (App_Vec_init ++ [name]) ext 0
               = Done (if Z.of_nat i <=? 14 then 20 else Z.of_nat i + 6)).
  { do 20 (destruct i as [| i];
           [injection Hkey as <-; vm_compute; reflexivity |]).
    lia. }
  rewrite Hm. reflexivity.
Qed.

(** The first steps of [Build_Script], for an archive whose first name
    is [name]. *)
Ltac script_start Hlen Hname :=
  unfold Build_Script;
  unfold FIRST_ZIP_NAME_REC_LENGTH_INDEX, FIRST_ZIP_NAME_REC_INDEX;
  rewrite Hlen; cbn [mbind outcome_bind]; rewrite Hname; cbn [mbind outcome_bind];
  match goal with
  | |- context [vsize ?n <? 3] =>
      replace (vsize n <? 3) with false by (symmetry; apply Z.ltb_ge; lia);
      cbn [mbind outcome_bind];
      replace (drop (Z.to_nat (vsize n - 3)) n) with (last_three n)
        by (unfold last_three, vsize; f_equal; lia)
  end.

(** One round of the insertion loop. *)
Ltac script_insert :=
  erewrite Insert_loop_step;
    [| lia | reflexivity | reflexivity | reflexivity
     | first [ apply vinsert_prefix | apply (vinsert_prefix Script_Template []) ];
       vm_compute; split; discriminate ].

(** The loop has run out; both sides are the same bytes. *)
Ltac script_done :=
  unfold compose_script, quoted; rewrite <- !app_assoc; reflexivity.

Lemma lookup_key (keys : list (list Z)) (n : nat) (ext : list Z) :
  ext ∈ take n keys -> exists i : nat, (i < n)%nat /\ keys !! i = Some ext.
Proof.
  intros Hin. apply list_elem_of_lookup in Hin. destruct Hin as (i & Hi).
  apply lookup_take_Some in Hi. destruct Hi as (Hi & Hlt). exists i. auto.
Qed.

(** X9.  A first entry whose name has a dot after its first character
    and ends in one of the fifteen audio and video keys ([aac] to [ogg])
    is played with vlc on POSIX systems and opened with [start /b] on
    Windows; the typed arguments are not used.  The composed script is the
    template with
    [vlc --play-and-exit --no-video-title-show "<name>" &> /dev/null] and
    [start /b "" "<name>"] filled in. *)
Theorem Build_Script_video_audio (Zip name args_linux args_windows : list Z) :
  vget Zip 34 = Done (vsize name) ->
  vrange Zip 38 (38 + vsize name) = Done name ->
  3 <= vsize name ->
  has_extension name = true -> last_three name ∈ take 15 App_Vec_init ->
  Build_Script Zip args_linux args_windows =
  Done (compose_script
          (str "vlc --play-and-exit --no-video-title-show " ++ quoted name
           ++ str " &> /dev/null")
          (str "start /b " ++ quoted [] ++ str " " ++ quoted name)
          []).
Proof.
  intros Hlen Hname H3 Hext Hkey.
  destruct (lookup_key _ _ _ Hkey) as (i & Hi & Hlook).
  script_start Hlen Hname.
  rewrite (Select_Launcher_key Zip name (last_three name) (vsize name) i Hext
             ltac:(lia) Hlook).
  replace (Z.of_nat i <=? 14) with true by (symmetry; apply Z.leb_le; lia).
  cbn [mbind outcome_bind].
  cbn [Z.gtb Z.ltb Z.compare Pos.compare Pos.compare_cont andb].
  cbn [Z.eqb Pos.eqb orb VIDEO_AUDIO].
  change (Z.to_nat (5 - 0)) with 5%nat.
  do 5 script_insert.
  script_done.
Qed.

(** The archive holds [a.mp3]. *)
Lemma Build_Script_video_audio_witness :
  Build_Script (framed_zip (zip_single (str "a.mp3") (str "data"))) (str "-x") (str "-y") =
  Done (compose_script
          (str "vlc --play-and-exit --no-video-title-show " ++ quoted (str "a.mp3")
           ++ str " &> /dev/null")
          (str "start /b " ++ quoted [] ++ str " " ++ quoted (str "a.mp3"))
          []).
Proof.
  apply (Build_Script_video_audio _ (str "a.mp3") (str "-x") (str "-y")).
  - reflexivity.
  - reflexivity.
  - vm_compute. discriminate.
  - reflexivity.
  - apply list_elem_of_In. vm_compute. right. left. reflexivity.
Defined.

(** The switch of [Build_Script] for a launcher given by its number. *)
Ltac script_switch :=
  cbn [mbind outcome_bind];
  cbn [Z.gtb Z.ltb Z.compare Pos.compare Pos.compare_cont andb];
  cbn [Z.eqb Pos.eqb orb VIDEO_AUDIO PDF PYTHON POWERSHELL EXECUTABLE BASH_XDG_OPEN
       FOLDER_INVOKE_ITEM START_B WIN_POWERSHELL PREPEND_FIRST_ZIP_NAME_REC].

(** X10.  A first entry whose name has a dot after its first character
    and ends in [pdf] is opened with evince on POSIX systems and with
    [start /b] on Windows: the script is the template with
    [evince "<name>"] and [start /b "" "<name>"] filled in. *)
Theorem Build_Script_pdf (Zip name args_linux args_windows : list Z) :
  vget Zip 34 = Done (vsize name) ->
  vrange Zip 38 (38 + vsize name) = Done name ->
  3 <= vsize name ->
  has_extension name = true -> last_three name = str "pdf" ->
  Build_Script Zip args_linux args_windows =
  Done (compose_script
          (str "evince " ++ quoted name)
          (str "start /b " ++ quoted [] ++ str " " ++ quoted name)
          []).
Proof.
  intros Hlen Hname H3 Hext Hkey.
  script_start Hlen Hname.
  rewrite (Select_Launcher_key Zip name (last_three name) (vsize name) 15 Hext
             ltac:(lia) ltac:(rewrite Hkey; reflexivity)).
  change (if Z.of_nat 15 <=? 14 then 20 else Z.of_nat 15 + 6) with 21.
  script_switch.
  change (Z.to_nat (14 - 10)) with 4%nat.
  do 4 script_insert.
  script_done.
Qed.

(** The archive holds [a.pdf]. *)
Lemma Build_Script_pdf_witness :
  Build_Script (framed_zip (zip_single (str "a.pdf") (str "data"))) (str "-x") (str "-y") =
  Done (compose_script
          (str "evince " ++ quoted (str "a.pdf"))
          (str "start /b " ++ quoted [] ++ str " " ++ quoted (str "a.pdf"))
          []).
Proof.
  apply (Build_Script_pdf _ (str "a.pdf") (str "-x") (str "-y")).
  - reflexivity.
  - reflexivity.
  - vm_compute. discriminate.
  - reflexivity.
  - reflexivity.
Defined.

(** X11.  A first entry whose name has a dot after its first character
    and ends in [.py] is run with python3 on both systems, followed by the
    arguments typed for each system; the Windows segment pauses before it
    exits.  The script is the template with [python3 "<name>" <args>],
    [python3  "<name>" <args>] and [pause&] filled in. *)
Theorem Build_Script_python (Zip name args_linux args_windows : list Z) :
  vget Zip 34 = Done (vsize name) ->
  vrange Zip 38 (38 + vsize name) = Done name ->
  3 <= vsize name ->
  has_extension name = true -> last_three name = str ".py" ->
  Build_Script Zip args_linux args_windows =
  Done (compose_script
          (str "python3 " ++ quoted name ++ str " " ++ args_linux)
          (str "python3 " ++ str " " ++ quoted name ++ str " " ++ args_windows)
          (str "pause&")).
Proof.
  intros Hlen Hname H3 Hext Hkey.
  script_start Hlen Hname.
  rewrite (Select_Launcher_key Zip name (last_three name) (vsize name) 16 Hext
             ltac:(lia) ltac:(rewrite Hkey; reflexivity)).
  change (if Z.of_nat 16 <=? 14 then 20 else Z.of_nat 16 + 6) with 22.
  script_switch.
  change (Z.to_nat (25 - 18)) with 7%nat.
  do 7 script_insert.
  script_done.
Qed.

(** The archive holds [a.py]; the arguments typed are [-x] and [-y]. *)
Lemma Build_Script_python_witness :
  Build_Script (framed_zip (zip_single (str "a.py") (str "data"))) (str "-x") (str "-y") =
  Done (compose_script
          (str "python3 " ++ quoted (str "a.py") ++ str " " ++ str "-x")
          (str "python3 " ++ str " " ++ quoted (str "a.py") ++ str " " ++ str "-y")
          (str "pause&")).
Proof.
  apply (Build_Script_python _ (str "a.py") (str "-x") (str "-y")).
  - reflexivity.
  - reflexivity.
  - vm_compute. discriminate.
  - reflexivity.
  - reflexivity.
Defined.

(** X12.  A first entry whose name has a dot after its first character
    and ends in [ps1] is run with pwsh on POSIX systems and with
    powershell on Windows, where the name is given as [.\<name>]; the typed
    arguments follow, and the Windows segment pauses before it exits. *)
Theorem Build_Script_powershell (Zip name args_linux args_windows : list Z) :
  vget Zip 34 = Done (vsize name) ->
  vrange Zip 38 (38 + vsize name) = Done name ->
  3 <= vsize name ->
  has_extension name = true -> last_three name = str "ps1" ->
  Build_Script Zip args_linux args_windows =
  Done (compose_script
          (str "pwsh " ++ quoted name ++ str " " ++ args_linux)
          (str "powershell" ++ str " " ++ quoted ([0x2E; 0x5C] ++ name)
           ++ str " " ++ args_windows)
          (str "pause&")).
Proof.
  intros Hlen Hname H3 Hext Hkey.
  script_start Hlen Hname.
  rewrite (Select_Launcher_key Zip name (last_three name) (vsize name) 17 Hext
             ltac:(lia) ltac:(rewrite Hkey; reflexivity)).
  change (if Z.of_nat 17 <=? 14 then 20 else Z.of_nat 17 + 6) with 23.
  script_switch.
  change (Z.to_nat (25 - 18)) with 7%nat.
  do 7 script_insert.
  script_done.
Qed.

(** The archive holds [a.ps1]; the arguments typed are [-x] and [-y]. *)
Lemma Build_Script_powershell_witness :
  Build_Script (framed_zip (zip_single (str "a.ps1") (str "data"))) (str "-x") (str "-y") =
  Done (compose_script
          (str "pwsh " ++ quoted (str "a.ps1") ++ str " " ++ str "-x")
          (str "powershell" ++ str " " ++ quoted ([0x2E; 0x5C] ++ str "a.ps1")
           ++ str " " ++ str "-y")
          (str "pause&")).
Proof.
  apply (Build_Script_powershell _ (str "a.ps1") (str "-x") (str "-y")).
  - reflexivity.
  - reflexivity.
  - vm_compute. discriminate.
  - reflexivity.
  - reflexivity.
Defined.

(** The byte the source tests for '/' is the last character of the name. *)
Lemma name_last_byte (Zip name : list Z) (c : Z) :
  vrange Zip 38 (38 + vsize name) = Done name -> last name = Some c ->
  vget Zip (38 + vsize name - 1) = Done c.
Proof.
  intros Hname Hlast. apply vrange_Done in Hname. destruct Hname as (_ & Hsz & Heq).
  rewrite last_lookup in Hlast.
  assert (Hlen : (0 < length name)%nat).
  { destruct name; [discriminate Hlast | simpl; lia]. }
  unfold vsize in *.
  remember (length name) as n eqn:Hn.
  rewrite Heq in Hlast.
  rewrite lookup_take_lt in Hlast by lia. rewrite lookup_drop in Hlast.
  apply vget_Done. split; [unfold vsize; lia |].
  rewrite <- Hlast. f_equal. lia.
Qed.

(** X13.  A first entry that is a program is made executable and run
    from the current directory on POSIX systems and started with
    [start /b] on Windows, with the typed arguments, and the Windows
    segment pauses before it exits.  The source takes for a program a
    name that has a dot after its first character and ends in [exe], and
    also every name with no dot after its first character that does not
    end in '/': a hidden file such as [.mp3] or a name such as [xmp3] is
    run, not played. *)
Theorem Build_Script_executable (Zip name args_linux args_windows : list Z) :
  vget Zip 34 = Done (vsize name) ->
  vrange Zip 38 (38 + vsize name) = Done name ->
  3 <= vsize name < 2 ^ 63 ->
  (has_extension name = true /\ last_three name = str "exe") \/
  (has_extension name = false /\ last name <> Some 0x2F) ->
  Build_Script Zip args_linux args_windows =
  Done (compose_script
          (str "chmod +x " ++ name ++ str ";" ++ str "./" ++ quoted name
           ++ str " " ++ args_linux)
          (str "start /b " ++ quoted [] ++ str " " ++ quoted name
           ++ str " " ++ args_windows)
          (str "pause&")).
Proof.
  intros Hlen Hname H3 Hcase.
  script_start Hlen Hname.
  assert (Hsel : Select_Launcher Zip (App_Vec_init ++ [name]) name (last_three name)
                   (vsize name) = Done 24).
  { destruct Hcase as [(Hext & Hkey) | (Hext & Hlast)].
    - rewrite (Select_Launcher_key Zip name (last_three name) (vsize name) 18 Hext
                 ltac:(lia) ltac:(rewrite Hkey; reflexivity)).
      reflexivity.
    - destruct (last name) as [c |] eqn:Hl.
      + rewrite (Select_Launcher_no_extension Zip name (last_three name) (vsize name) c
                   Hext ltac:(lia) (name_last_byte Zip name c Hname Hl)).
        destruct (Z.eqb_spec c 47) as [-> | Hne]; [contradiction | reflexivity].
      + destruct name; [simpl in H3; unfold vsize in H3; simpl in H3; lia |].
        apply last_None in Hl. discriminate Hl. }
  rewrite Hsel.
  script_switch.
  change (Z.to_nat (42 - 32)) with 10%nat.
  do 10 script_insert.
  script_done.
Qed.

(** The archive holds the hidden file [.mp3]; the arguments typed are [-x] and [-y]. *)
Lemma Build_Script_executable_witness :
  Build_Script (framed_zip (zip_single (str ".mp3") (str "data"))) (str "-x") (str "-y") =
  Done (compose_script
          (str "chmod +x " ++ str ".mp3" ++ str ";" ++ str "./" ++ quoted (str ".mp3")
           ++ str " " ++ str "-x")
          (str "start /b " ++ quoted [] ++ str " " ++ quoted (str ".mp3")
           ++ str " " ++ str "-y")
          (str "pause&")).
Proof.
  apply (Build_Script_executable _ (str ".mp3") (str "-x") (str "-y")).
  - reflexivity.
  - reflexivity.
  - vm_compute. split; [discriminate | reflexivity].
  - right. split; [reflexivity | discriminate].
Defined.

(** X14.  A first entry whose name has a dot after its first character
    and ends in [.sh] is made executable and run from the current
    directory on POSIX systems, and started with [start /b] on Windows,
    with the typed arguments; the Windows segment does not pause. *)
Theorem Build_Script_shell (Zip name args_linux args_windows : list Z) :
  vget Zip 34 = Done (vsize name) ->
  vrange Zip 38 (38 + vsize name) = Done name ->
  3 <= vsize name ->
  has_extension name = true -> last_three name = str ".sh" ->
  Build_Script Zip args_linux args_windows =
  Done (compose_script
          (str "chmod +x " ++ name ++ str ";" ++ str "./" ++ quoted name
           ++ str " " ++ args_linux)
          (str "start /b " ++ quoted [] ++ str " " ++ quoted name
           ++ str " " ++ args_windows)
          []).
Proof.
  intros Hlen Hname H3 Hext Hkey.
  script_start Hlen Hname.
  rewrite (Select_Launcher_key Zip name (last_three name) (vsize name) 19 Hext
             ltac:(lia) ltac:(rewrite Hkey; reflexivity)).
  change (if Z.of_nat 19 <=? 14 then 20 else Z.of_nat 19 + 6) with 25.
  script_switch.
  change (Z.to_nat (43 - 1 - 33)) with 9%nat.
  do 9 script_insert.
  script_done.
Qed.

(** The archive holds [a.sh]; the arguments typed are [-x] and [-y]. *)
Lemma Build_Script_shell_witness :
  Build_Script (framed_zip (zip_single (str "a.sh") (str "data"))) (str "-x") (str "-y") =
  Done (compose_script
          (str "chmod +x " ++ str "a.sh" ++ str ";" ++ str "./" ++ quoted (str "a.sh")
           ++ str " " ++ str "-x")
          (str "start /b " ++ quoted [] ++ str " " ++ quoted (str "a.sh")
           ++ str " " ++ str "-y")
          []).
Proof.
  apply (Build_Script_shell _ (str "a.sh") (str "-x") (str "-y")).
  - reflexivity.
  - reflexivity.
  - vm_compute. discriminate.
  - reflexivity.
  - reflexivity.
Defined.

(** X15.  A first entry whose name has no dot after its first character
    and ends in '/' is a folder: it is opened with xdg-open on POSIX
    systems and with [powershell;Invoke-Item] on Windows, and the typed
    arguments are not used. *)
Theorem Build_Script_folder (Zip name args_linux args_windows : list Z) :
  vget Zip 34 = Done (vsize name) ->
  vrange Zip 38 (38 + vsize name) = Done name ->
  3 <= vsize name < 2 ^ 63 ->
  has_extension name = false -> last name = Some 0x2F ->
  Build_Script Zip args_linux args_windows =
  Done (compose_script
          (str "xdg-open " ++ quoted name)
          (str "powershell;Invoke-Item " ++ str " " ++ quoted name)
          []).
Proof.
  intros Hlen Hname H3 Hext Hlast.
  script_start Hlen Hname.
  rewrite (Select_Launcher_no_extension Zip name (last_three name) (vsize name) 0x2F
             Hext ltac:(lia) (name_last_byte Zip name 0x2F Hname Hlast)).
  change (if 47 =? 47 then FOLDER_INVOKE_ITEM else EXECUTABLE) with 26.
  script_switch.
  change (Z.to_nat (14 - 10)) with 4%nat.
  do 4 script_insert.
  script_done.
Qed.

(** The first entry of the archive is the folder [dir/]. *)
Lemma Build_Script_folder_witness :
  Build_Script (framed_zip (zip_single (str "dir/") (str "data"))) (str "-x") (str "-y") =
  Done (compose_script
          (str "xdg-open " ++ quoted (str "dir/"))
          (str "powershell;Invoke-Item " ++ str " " ++ quoted (str "dir/"))
          []).
Proof.
  apply (Build_Script_folder _ (str "dir/") (str "-x") (str "-y")).
  - reflexivity.
  - reflexivity.
  - vm_compute. split; [discriminate | reflexivity].
  - reflexivity.
  - reflexivity.
Defined.


(** ** Erase_Image_Chunks: the exits of the pruner *)

(** The pruner up to its test of the first IDAT chunk, for an image in
    which the first "IDAT" is the type field of a chunk with data [d] and
    stored CRC [c]. *)
Lemma first_IDAT_reads (img pre d rest : list Z) (c : Z) :
  img = pre ++ be_bytes 4 (vsize d) ++ IDAT_SIG ++ d ++ be_bytes 4 c ++ rest ->
  vsize img < 2 ^ 63 -> vsize d < 2 ^ 32 -> 0 <= c < 2 ^ 32 ->
  (forall q, 0 <= q < vsize pre + 4 -> ~ occurs img q IDAT_SIG) ->
  search img 0 IDAT_SIG = Done (vsize pre + 4) /\
  get_u32 img (vsize pre) = Done (vsize d) /\
  get_u32 img (vsize pre + vsize d + 8) = Done c /\
  Crc img (vsize pre + 4) (vsize d + 4) = Done (png_crc (IDAT_SIG ++ d)).
Proof.
  intros Himg Hsz Hd Hc Hfirst.
  pose proof (vsize_nonneg pre) as Hp0. pose proof (vsize_nonneg d) as Hd0.
  split; [| split; [| split]].
  - apply search_intro; [discriminate | lia | | intros q Hq; apply Hfirst; lia].
    split; [lia |]. rewrite Himg.
    replace (pre ++ be_bytes 4 (vsize d) ++ IDAT_SIG ++ d ++ be_bytes 4 c ++ rest)
      with ((pre ++ be_bytes 4 (vsize d)) ++ IDAT_SIG ++ (d ++ be_bytes 4 c ++ rest))
      by (rewrite <- !app_assoc; reflexivity).
    rewrite drop_app_length' by (rewrite length_app; unfold vsize; simpl; lia).
    apply take_app_length.
  - rewrite Himg in *. rewrite get_u32_be_bytes by exact Hsz.
    f_equal. apply Z.mod_small. lia.
  - rewrite Himg in *.
    replace (pre ++ be_bytes 4 (vsize d) ++ IDAT_SIG ++ d ++ be_bytes 4 c ++ rest)
      with ((pre ++ be_bytes 4 (vsize d) ++ IDAT_SIG ++ d) ++ be_bytes 4 c ++ rest) in *
      by (rewrite <- !app_assoc; reflexivity).
    replace (vsize pre + vsize d + 8)
      with (vsize (pre ++ be_bytes 4 (vsize d) ++ IDAT_SIG ++ d))
      by (rewrite !vsize_app; change (vsize (be_bytes 4 _)) with 4;
          change (vsize IDAT_SIG) with 4; lia).
    rewrite get_u32_be_bytes by exact Hsz.
    f_equal. apply Z.mod_small. lia.
  - rewrite Himg.
    replace (pre ++ be_bytes 4 (vsize d) ++ IDAT_SIG ++ d ++ be_bytes 4 c ++ rest)
      with ((pre ++ be_bytes 4 (vsize d)) ++ (IDAT_SIG ++ d) ++ be_bytes 4 c ++ rest)
      by (rewrite <- !app_assoc; reflexivity).
    replace (vsize pre + 4) with (vsize (pre ++ be_bytes 4 (vsize d)))
      by (rewrite vsize_app; reflexivity).
    replace (vsize d + 4) with (vsize (IDAT_SIG ++ d))
      by (rewrite vsize_app; change (vsize IDAT_SIG) with 4; lia).
    rewrite Crc_app_mid by discriminate.
    rewrite Crc_bytes_png_crc. reflexivity.
Qed.

(** X16.  An image whose first "IDAT" is the type field of a chunk that
    lies within the file and whose stored CRC is not the CRC of its type
    and data is refused with the first-IDAT diagnostic, before anything is
    copied. *)
Theorem Erase_Image_Chunks_first_IDAT_crc (pdv : PDV_STRUCT) (pre d rest : list Z) (c : Z) :
  Image_Vec pdv = pre ++ be_bytes 4 (vsize d) ++ IDAT_SIG ++ d ++ be_bytes 4 c ++ rest ->
  33 <= vsize pre -> vsize (Image_Vec pdv) < 2 ^ 63 ->
  vsize d < 2 ^ 32 -> 0 <= c < 2 ^ 32 ->
  (forall q, 0 <= q < vsize pre + 4 -> ~ occurs (Image_Vec pdv) q IDAT_SIG) ->
  c <> png_crc (IDAT_SIG ++ d) ->
  Erase_Image_Chunks pdv = Exit Image_File_Error_First_IDAT_CRC.
Proof.
  intros Himg Hpre Hsz Hd Hc Hfirst Hne.
  destruct (first_IDAT_reads _ pre d rest c Himg Hsz Hd Hc Hfirst)
    as (Hsearch & Hlen & Hstored & Hcalc).
  pose proof (vsize_nonneg pre) as Hp0. pose proof (vsize_nonneg d) as Hd0.
  assert (Hn : vsize pre + vsize d + 12 <= vsize (Image_Vec pdv)).
  { rewrite Himg, !vsize_app. change (vsize (be_bytes 4 _)) with 4.
    change (vsize IDAT_SIG) with 4. pose proof (vsize_nonneg rest). lia. }
  unfold Erase_Image_Chunks. cbv zeta.
  replace (vrange (Image_Vec pdv) 0 33) with (Done (take 33 (Image_Vec pdv)))
    by (symmetry; apply vrange_Done; repeat split; lia).
  cbn [mbind outcome_bind]. rewrite Hsearch. cbn [mbind outcome_bind].
  replace (size_t (vsize pre + 4 - 4)) with (vsize pre) by (rewrite size_t_small; lia).
  rewrite Hlen. cbn [mbind outcome_bind].
  replace (size_t (size_t (vsize pre + vsize d) + 8)) with (vsize pre + vsize d + 8)
    by (rewrite !size_t_small; rewrite ?size_t_small; lia).
  rewrite Hstored. cbn [mbind outcome_bind].
  replace (size_t (vsize pre + 4)) with (vsize pre + 4) by (rewrite size_t_small; lia).
  replace (size_t (vsize d + 4)) with (vsize d + 4) by (rewrite size_t_small; lia).
  rewrite Hcalc. cbn [mbind outcome_bind].
  replace (c =? png_crc (IDAT_SIG ++ d)) with false by (symmetry; apply Z.eqb_neq; exact Hne).
  reflexivity.
Qed.

Lemma Erase_Image_Chunks_first_IDAT_crc_witness :
  Erase_Image_Chunks (pruner_state bad_crc_png) = Exit Image_File_Error_First_IDAT_CRC.
Proof.
  apply (Erase_Image_Chunks_first_IDAT_crc (pruner_state bad_crc_png)
           (PNG_SIGNATURE ++ IHDR_chunk 100 100 2) (str "abc") IEND_chunk 0).
  - reflexivity.
  - vm_compute. discriminate.
  - vm_compute. reflexivity.
  - vm_compute. reflexivity.
  - lia.
  - intros q Hq Hocc. apply occurs_occurrences in Hocc; [| discriminate].
    vm_compute in Hocc. destruct Hocc as [<- | []].
    destruct Hq as [_ Hq]. vm_compute in Hq. discriminate Hq.
  - vm_compute. discriminate.
Defined.

(** X17.  An indexed-colour image (byte 25 is 3) whose first IDAT chunk
    is sound and in which no "PLTE" stands before the type field of that
    chunk is refused with the missing-palette diagnostic: a palette that
    comes after the first IDAT chunk does not count. *)
Theorem Erase_Image_Chunks_PLTE_not_found (pdv : PDV_STRUCT) (pre d rest : list Z) :
  Image_Vec pdv = pre ++ encode_chunk IDAT_SIG d ++ rest ->
  33 <= vsize pre -> vsize (Image_Vec pdv) < 2 ^ 63 -> vsize d < 2 ^ 32 ->
  vget (Image_Vec pdv) 25 = Done 3 ->
  (forall q, 0 <= q < vsize pre + 4 -> ~ occurs (Image_Vec pdv) q IDAT_SIG) ->
  (forall q, 0 <= q < vsize pre + 4 -> ~ occurs (Image_Vec pdv) q PLTE_SIG) ->
  Erase_Image_Chunks pdv = Exit Image_File_Error_PLTE_Not_Found.
Proof.
  intros Himg Hpre Hsz Hd Hcolor Hfirst Hplte.
  pose proof (png_crc_range (IDAT_SIG ++ d)) as Hc.
  assert (Himg' : Image_Vec pdv = pre ++ be_bytes 4 (vsize d) ++ IDAT_SIG ++ d
                                  ++ be_bytes 4 (png_crc (IDAT_SIG ++ d)) ++ rest).
  { rewrite Himg. unfold encode_chunk. rewrite <- !app_assoc. reflexivity. }
  destruct (first_IDAT_reads _ pre d rest (png_crc (IDAT_SIG ++ d)) Himg' Hsz Hd Hc Hfirst)
    as (Hsearch & Hlen & Hstored & Hcalc).
  pose proof (vsize_nonneg pre) as Hp0. pose proof (vsize_nonneg d) as Hd0.
  assert (Hn : vsize pre + vsize d + 12 <= vsize (Image_Vec pdv)).
  { rewrite Himg, !vsize_app, encode_chunk_size. change (vsize IDAT_SIG) with 4.
    pose proof (vsize_nonneg rest). lia. }
  destruct (search_in_range (Image_Vec pdv) 0 PLTE_SIG ltac:(lia)) as (r & Hr).
  assert (Hrge : vsize pre + 4 <= r <= vsize (Image_Vec pdv)).
  { pose proof (search_Done _ _ _ _ Hr) as (H0 & Hle & Hocc & _).
    split; [| exact Hle].
    destruct (Z.lt_ge_cases r (vsize pre + 4)) as [Hlt | Hge]; [| exact Hge].
    exfalso. apply (Hplte r ltac:(lia)). apply Hocc. lia. }
  unfold Erase_Image_Chunks. cbv zeta.
  replace (vrange (Image_Vec pdv) 0 33) with (Done (take 33 (Image_Vec pdv)))
    by (symmetry; apply vrange_Done; repeat split; lia).
  cbn [mbind outcome_bind]. rewrite Hsearch. cbn [mbind outcome_bind].
  replace (size_t (vsize pre + 4 - 4)) with (vsize pre) by (rewrite size_t_small; lia).
  rewrite Hlen. cbn [mbind outcome_bind].
  replace (size_t (size_t (vsize pre + vsize d) + 8)) with (vsize pre + vsize d + 8)
    by (rewrite !size_t_small; rewrite ?size_t_small; lia).
  rewrite Hstored. cbn [mbind outcome_bind].
  replace (size_t (vsize pre + 4)) with (vsize pre + 4) by (rewrite size_t_small; lia).
  replace (size_t (vsize d + 4)) with (vsize d + 4) by (rewrite size_t_small; lia).
  rewrite Hcalc. cbn [mbind outcome_bind].
  rewrite Z.eqb_refl. cbn [negb].
  assert (H25 : vget (take 33 (Image_Vec pdv)) 25 = Done 3).
  { apply vget_Done in Hcolor. destruct Hcolor as (_ & Hl).
    apply vget_Done. split.
    - unfold vsize in *. rewrite length_take. lia.
    - rewrite lookup_take_lt by (simpl; lia). exact Hl. }
  rewrite H25. cbn [mbind outcome_bind].
  change (3 =? 3) with true. cbv iota.
  rewrite Hr. cbn [mbind outcome_bind].
  replace (vsize pre >? size_t (r - 4)) with false
    by (symmetry; rewrite Z.gtb_ltb; apply Z.ltb_ge; rewrite size_t_small; lia).
  reflexivity.
Qed.

Lemma Erase_Image_Chunks_PLTE_not_found_witness :
  Erase_Image_Chunks (pruner_state no_plte_png) = Exit Image_File_Error_PLTE_Not_Found.
Proof.
  apply (Erase_Image_Chunks_PLTE_not_found (pruner_state no_plte_png)
           (PNG_SIGNATURE ++ IHDR_chunk 100 100 3) (str "abc") IEND_chunk).
  - reflexivity.
  - vm_compute. discriminate.
  - vm_compute. reflexivity.
  - vm_compute. reflexivity.
  - vm_compute. reflexivity.
  - intros q Hq Hocc. apply occurs_occurrences in Hocc; [| discriminate].
    vm_compute in Hocc. destruct Hocc as [<- | []].
    destruct Hq as [_ Hq]. vm_compute in Hq. discriminate Hq.
  - intros q Hq Hocc. apply occurs_occurrences in Hocc; [| discriminate].
    vm_compute in Hocc. destruct Hocc.
Defined.

Lemma lor_range (a b n : Z) :
  0 < n -> 0 <= a < 2 ^ n -> 0 <= b < 2 ^ n -> 0 <= Z.lor a b < 2 ^ n.
Proof.
  intros Hn Ha Hb.
  assert (H0 : 0 <= Z.lor a b) by (apply Z.lor_nonneg; lia).
  split; [exact H0 |].
  destruct (Z.eq_dec (Z.lor a b) 0) as [-> | Hne]; [lia |].
  apply Z.log2_lt_pow2; [lia |].
  rewrite Z.log2_lor by lia.
  assert (Z.log2 a < n).
  { destruct (Z.eq_dec a 0) as [-> | ?]; [simpl; lia | apply Z.log2_lt_pow2; lia]. }
  assert (Z.log2 b < n).
  { destruct (Z.eq_dec b 0) as [-> | ?]; [simpl; lia | apply Z.log2_lt_pow2; lia]. }
  lia.
Qed.

(** Four bytes read as a length give a value below 2^32. *)
Lemma get_u32_range (vec : list Z) (i v : Z) :
  Forall (fun b => 0 <= b < 256) vec -> get_u32 vec i = Done v -> 0 <= v < 2 ^ 32.
Proof.
  intros Hbytes H. unfold get_u32 in H.
  bind_as H b0 H0. bind_as H b1 H1. bind_as H b2 H2. bind_as H b3 H3.
  injection H as <-.
  assert (Hb : forall j b, vget vec j = Done b -> 0 <= b < 256).
  { intros j b Hj. apply vget_Done in Hj. destruct Hj as (_ & Hl).
    rewrite Forall_lookup in Hbytes. exact (Hbytes _ _ Hl). }
  apply Hb in H0, H1, H2, H3.
  assert (R0 : 0 <= Z.shiftl b0 24 < 2 ^ 32) by (rewrite Z.shiftl_mul_pow2 by lia; lia).
  assert (R1 : 0 <= Z.shiftl b1 16 < 2 ^ 32) by (rewrite Z.shiftl_mul_pow2 by lia; lia).
  assert (R2 : 0 <= Z.shiftl b2 8 < 2 ^ 32) by (rewrite Z.shiftl_mul_pow2 by lia; lia).
  apply lor_range; [lia | | lia].
  apply lor_range; [lia | | exact R2].
  apply lor_range; [lia | exact R0 | exact R1].
Qed.

Lemma get_u32_outside (vec : list Z) (i : Z) :
  vsize vec <= i -> get_u32 vec i = Undefined.
Proof.
  intros Hi. unfold get_u32, vget.
  replace (i <? vsize vec) with false by (symmetry; apply Z.ltb_ge; lia).
  rewrite andb_false_r. reflexivity.
Qed.

(** X18.  On a file of bytes in which "IDAT" stands nowhere, the pruner
    takes the last four bytes of the file for a chunk length and then
    reads the CRC of that chunk from beyond the end of the buffer: an
    image without IDAT chunk is not refused with a diagnostic. *)
Theorem Erase_Image_Chunks_no_IDAT (pdv : PDV_STRUCT) :
  Forall (fun b => 0 <= b < 256) (Image_Vec pdv) ->
  33 <= vsize (Image_Vec pdv) < 2 ^ 62 ->
  (forall q, ~ occurs (Image_Vec pdv) q IDAT_SIG) ->
  Erase_Image_Chunks pdv = Undefined.
Proof.
  intros Hbytes Hsz Hnone.
  unfold Erase_Image_Chunks. cbv zeta.
  set (img := Image_Vec pdv) in *.
  replace (vrange img 0 33) with (Done (take 33 img))
    by (symmetry; apply vrange_Done; repeat split; lia).
  cbn [mbind outcome_bind].
  rewrite (search_none img 0 IDAT_SIG) by (lia || (intros q _; apply Hnone)).
  cbn [mbind outcome_bind].
  replace (size_t (vsize img - 4)) with (vsize img - 4) by (rewrite size_t_small; lia).
  destruct (get_u32 img (vsize img - 4)) as [len | dg |] eqn:Hlen;
    cbn [mbind outcome_bind]; [| | reflexivity].
  - pose proof (get_u32_range img _ len Hbytes Hlen) as Hl.
    rewrite get_u32_outside; [reflexivity |].
    rewrite !size_t_small; rewrite ?size_t_small; lia.
  - unfold get_u32 in Hlen.
    repeat match type of Hlen with
           | context [vget ?v ?i] =>
               let b := fresh "b" in
               destruct (vget v i) as [b | ? |] eqn:?; cbn [mbind outcome_bind] in Hlen;
               try discriminate Hlen
           end;
    match goal with
    | H : vget _ _ = Exit _ |- _ =>
        unfold vget in H;
        repeat match type of H with
               | context [if ?c then _ else _] => destruct c
               | context [match ?c with _ => _ end] => destruct c
               end; discriminate H
    end.
Qed.

Lemma Erase_Image_Chunks_no_IDAT_witness :
  Erase_Image_Chunks (pruner_state no_idat_png) = Undefined.
Proof.
  apply (Erase_Image_Chunks_no_IDAT (pruner_state no_idat_png)).
  - apply Forall_forall. intros b Hb. apply list_elem_of_In in Hb.
    vm_compute in Hb.
    repeat (destruct Hb as [<- | Hb]; [lia |]). destruct Hb.
  - vm_compute. split; [discriminate | reflexivity].
  - intros q Hocc. apply occurs_occurrences in Hocc; [| discriminate].
    vm_compute in Hocc. destruct Hocc.
Defined.

(** X19.  What every successful run of the pruner on a file of bytes
    guarantees, whatever the file holds: "IDAT" stands in the file, and the
    four bytes after the first chunk found in this way are the PNG CRC of
    its type and data, as the length field before the "IDAT" gives them;
    the new image begins with the first 33 bytes of the old one (signature
    and IHDR chunk) and ends with its last 12 bytes (the IEND chunk);
    [image_size] is the size of the new image; the archive, the script and
    the names are left as they were. *)
Theorem Erase_Image_Chunks_success (pdv pdv' : PDV_STRUCT) :
  Forall (fun b => 0 <= b < 256) (Image_Vec pdv) ->
  vsize (Image_Vec pdv) < 2 ^ 62 ->
  Erase_Image_Chunks pdv = Done pdv' ->
  let img := Image_Vec pdv in
  (exists p len,
     first_at img 0 IDAT_SIG p /\ 4 <= p /\
     get_u32 img (p - 4) = Done len /\
     get_u32 img (p + len + 4)
     = Done (png_crc (take (Z.to_nat (len + 4)) (drop (Z.to_nat p) img)))) /\
  (exists mid,
     Image_Vec pdv' = take 33 img ++ mid ++ drop (Z.to_nat (vsize img - 12)) img) /\
  image_size pdv' = vsize (Image_Vec pdv') /\
  Zip_Vec pdv' = Zip_Vec pdv /\ Script_Vec pdv' = Script_Vec pdv /\
  image_name pdv' = image_name pdv /\ zip_name pdv' = zip_name pdv /\
  zip_size pdv' = zip_size pdv /\ script_size pdv' = script_size pdv.
Proof.
  intros Hbytes Hsz H. cbv zeta.
  pose proof (Erase_Image_Chunks_Done pdv pdv' H) as Hshape. cbv zeta in Hshape.
  destruct Hshape as (H33 & (mid & Hmid & _) & Hsize & _).
  split; [| split; [exists mid; exact Hmid | split; [exact Hsize |]]].
  - unfold Erase_Image_Chunks in H. cbv zeta in H.
    set (img := Image_Vec pdv) in *.
    bind_as H Temp0 HT0. bind_as H found Hfound. bind_as H len Hlen.
    bind_as H crc Hcrc. bind_as H calc Hcalc.
    destruct (Z.eqb_spec crc calc) as [-> | Hne]; [| discriminate H].
    clear H.
    pose proof (search_Done _ _ _ _ Hfound) as (Hf0 & Hfn & _ & _).
    assert (Hidx : 4 <= found).
    { destruct (Z.lt_ge_cases found 4) as [Hlt | Hge]; [| exact Hge].
      exfalso. unfold get_u32 in Hlen. bind_as Hlen b0 Hb0.
      apply vget_Done in Hb0. destruct Hb0 as (Hr & _).
      unfold size_t in Hr.
      replace (found - 4) with (2 ^ 64 + (found - 4) + (-1) * 2 ^ 64) in Hr by lia.
      rewrite Z.mod_add in Hr by lia. rewrite Z.mod_small in Hr by lia. lia. }
    rewrite (size_t_small (found - 4)) in * by lia.
    pose proof (get_u32_range img _ len Hbytes Hlen) as Hl.
    rewrite (size_t_small (found - 4 + len)) in * by lia.
    rewrite (size_t_small (found - 4 + len + 8)) in * by lia.
    rewrite (size_t_small (found - 4 + 4)) in * by lia.
    rewrite (size_t_small (len + 4)) in * by lia.
    assert (Hlt : found < vsize img).
    { unfold get_u32 in Hcrc. bind_as Hcrc b0 Hb0.
      apply vget_Done in Hb0. lia. }
    exists found, len. split; [apply search_first_at; assumption |].
    split; [exact Hidx |]. split; [exact Hlen |].
    apply Crc_Done in Hcalc. destruct Hcalc as (_ & _ & _ & Hcalc).
    replace (found + len + 4) with (found - 4 + len + 8) by lia.
    rewrite Hcrc. f_equal. rewrite Hcalc, Crc_bytes_png_crc.
    replace (found - 4 + 4) with found by lia. reflexivity.
  - unfold Erase_Image_Chunks in H. cbv zeta in H.
    bind_as H Temp0 HT0. bind_as H found Hfound. bind_as H len Hlen.
    bind_as H crc Hcrc. bind_as H calc Hcalc.
    destruct (negb (crc =? calc)); [discriminate H |].
    bind_as H color Hcolor. bind_as H Temp1 HT1.
    bind_as H Temp2 HT2. bind_as H tail Htail.
    injection H as <-. simpl. repeat split; reflexivity.
Qed.

Lemma Erase_Image_Chunks_success_witness :
  let img := Image_Vec (pruner_state sample_png) in
  exists pdv',
    Erase_Image_Chunks (pruner_state sample_png) = Done pdv' /\
    (exists p len,
       first_at img 0 IDAT_SIG p /\ 4 <= p /\
       get_u32 img (p - 4) = Done len /\
       get_u32 img (p + len + 4)
       = Done (png_crc (take (Z.to_nat (len + 4)) (drop (Z.to_nat p) img)))) /\
    (exists mid,
       Image_Vec pdv' = take 33 img ++ mid ++ drop (Z.to_nat (vsize img - 12)) img) /\
    image_size pdv' = vsize (Image_Vec pdv') /\
    Zip_Vec pdv' = Zip_Vec (pruner_state sample_png) /\
    Script_Vec pdv' = Script_Vec (pruner_state sample_png) /\
    image_name pdv' = image_name (pruner_state sample_png) /\
    zip_name pdv' = zip_name (pruner_state sample_png) /\
    zip_size pdv' = zip_size (pruner_state sample_png) /\
    script_size pdv' = script_size (pruner_state sample_png).
Proof.
  cbv zeta. eexists. split; [vm_compute; reflexivity |].
  apply (Erase_Image_Chunks_success (pruner_state sample_png)).
  - apply Forall_forall. intros b Hb. apply list_elem_of_In in Hb.
    vm_compute in Hb.
    repeat (destruct Hb as [<- | Hb]; [lia |]). destruct Hb.
  - vm_compute. reflexivity.
  - vm_compute. reflexivity.
Defined.


(** ** The whole build *)

(** The image the pruner returns depends on the bytes and the recorded
    size of the image only, not on the rest of the state. *)
Lemma Erase_Image_Chunks_of_image (p q p' : PDV_STRUCT) :
  Image_Vec q = Image_Vec p -> image_size q = image_size p ->
  Erase_Image_Chunks p = Done p' ->
  exists q', Erase_Image_Chunks q = Done q' /\ Image_Vec q' = Image_Vec p'.
Proof.
  unfold Erase_Image_Chunks. intros HI Hs H. cbn zeta in *. rewrite HI, Hs.
  bind_as H Temp0 HT0. rewrite HT0. cbn [mbind outcome_bind].
  bind_as H found Hfound. rewrite Hfound. cbn [mbind outcome_bind].
  bind_as H len Hlen. rewrite Hlen. cbn [mbind outcome_bind].
  bind_as H crc Hcrc. rewrite Hcrc. cbn [mbind outcome_bind].
  bind_as H calc Hcalc. rewrite Hcalc. cbn [mbind outcome_bind].
  destruct (negb (crc =? calc)); [discriminate H |].
  bind_as H color Hcolor. rewrite Hcolor. cbn [mbind outcome_bind].
  bind_as H Temp1 HT1. rewrite HT1. cbn [mbind outcome_bind].
  bind_as H Temp2 HT2. rewrite HT2. cbn [mbind outcome_bind].
  bind_as H tail Htail. rewrite Htail. cbn [mbind outcome_bind].
  injection H as <-. eexists. split; reflexivity.
Qed.

(** X20.  The layout of every file the program writes, whatever the
    image and the archive hold: the first 33 bytes of the image (PNG
    signature and IHDR chunk); an iCCP chunk with a correct CRC whose data
    begins with the profile name and the first commands of the template
    and is at most 738 bytes long; the bytes [mid]; an IDAT chunk with a
    correct CRC whose data has the length of the archive and begins with
    the first twelve bytes of the archive, unchanged; and twelve more
    bytes.  The file is at most 209715200 bytes long.  The bytes [mid] are
    what [Erase_Image_Chunks] returns for the image between its first 33
    and its last 12 bytes; for an image that is the encoding of chunks the
    pruner reads as intended, they are the encoding of the PLTE chunk,
    when the colour type is 3, followed by the IDAT chunks of the image. *)
Theorem build_output_layout (argv : list (list Z)) (env : Environment) (out : list Z) :
  env_fits env ->
  main argv env = Done (Polyglot_Written out) ->
  exists img zip script mid zip' tail,
    image_file env = Some img /\ zip_file env = Some zip /\
    out = take 33 img ++ encode_chunk ICCP_SIG script ++ mid
          ++ encode_chunk IDAT_SIG zip' ++ tail /\
    vsize script <= 738 /\ take 111 script = drop 8 script_head /\
    vsize zip' = vsize zip /\ take 12 zip' = take 12 zip /\
    vsize tail = 12 /\
    vsize out <= MAX_FILE_SIZE /\
    (exists pruned,
       Erase_Image_Chunks (pruner_state img) = Done pruned /\
       Image_Vec pruned = take 33 img ++ mid ++ drop (Z.to_nat (vsize img - 12)) img) /\
    (forall p : Png,
       img = encode_png p -> pruner_ready p ->
       mid = encode_chunks (kept_plte p ++ idat_chunks p)).
Proof.
  intros Hfits Hmain.
  apply main_Done in Hmain. destruct Hmain as (a0 & a1 & a2 & _ & _ & Hbuild).
  apply Build_Done in Hbuild; [| reflexivity | exact Hfits].
  destruct Hbuild as (img & zip & p1 & p2 & p3 & mid & S0 & pad & vec & calls &
    Himg & Hzip & Hcheck & HI2 & Herase & HI3 & Hi68 & Hz40 & _ & HS0 & _ & Hrest).
  cbv zeta in Hrest.
  destruct Hrest as (HszS & HmaxS & _ & Hfix & Hszv & Hmax & Hout).
  apply Check_Image_File_Done in Hcheck. destruct Hcheck as (_ & Hs2 & _).
  (* the pruner, run on the image alone *)
  assert (Hpruned : exists pruned,
             Erase_Image_Chunks (pruner_state img) = Done pruned /\
             Image_Vec pruned = take 33 img ++ mid ++ drop (Z.to_nat (vsize img - 12)) img).
  { destruct (Erase_Image_Chunks_of_image p2 (pruner_state img) p3) as (q & Hq & HIq).
    - symmetry. exact HI2.
    - symmetry. exact Hs2.
    - exact Herase.
    - exists q. split; [exact Hq |]. rewrite HIq. exact HI3. }
  (* an image the pruner reads as intended *)
  assert (Hready : forall p : Png,
             img = encode_png p -> pruner_ready p ->
             mid = encode_chunks (kept_plte p ++ idat_chunks p)).
  { intros p Hp Hr.
    assert (HI2' : Image_Vec p2 = encode_png p) by (rewrite HI2; exact Hp).
    assert (Hs2' : image_size p2 = vsize (encode_png p)) by (rewrite Hs2, Hp; reflexivity).
    destruct (Erase_Image_Chunks_ready p p2 Hr HI2' Hs2') as (p3' & Herase' & HI3').
    rewrite Herase in Herase'. injection Herase' as <-.
    rewrite pruned_split in HI3'.
    pose proof Hr as (H13 & _).
    pose proof (header_size p H13) as H33.
    pose proof (encode_png_split p) as Hform.
    assert (Ht33 : take 33 (encode_png p)
                   = PNG_SIGNATURE ++ encode_chunk IHDR_SIG (ihdr p)).
    { rewrite Hform. apply take_app_length'. unfold vsize in H33. lia. }
    assert (HT : drop (Z.to_nat (vsize (encode_png p) - 12)) (encode_png p) = IEND_chunk).
    { rewrite Hform. rewrite !app_assoc.
      apply drop_app_length'. rewrite vsize_app. change (vsize IEND_chunk) with 12.
      unfold vsize. lia. }
    rewrite Hp, Ht33, HT in HI3. rewrite HI3 in HI3'. apply app_inv_head in HI3'.
    rewrite (app_assoc (encode_chunks (kept_plte p))) in HI3'.
    apply app_inv_tail in HI3'. rewrite encode_chunks_app. exact HI3'. }
  clear HI2 Herase HI3 Hs2.
  apply Build_Script_shape in HS0. destruct HS0 as [Htake HS0].
  assert (HmaxS' : vsize S0 + vsize pad <= MAX_SCRIPT_SIZE) by lia.
  destruct (script_is_chunk S0 pad Htake HS0 HmaxS') as (Hchunk & Hdata).
  cbv zeta in Hchunk, Hdata.
  set (body := take (Z.to_nat (vsize S0 - 8)) (drop 4 S0) ++ pad) in *.
  rewrite Hchunk in *.
  set (Script := encode_chunk ICCP_SIG (drop 4 body)) in *.
  set (head := take 33 img ++ Script ++ mid) in *.
  set (T := drop (Z.to_nat (vsize img - 12)) img) in *.
  pose proof (vsize_nonneg head) as Hh0. pose proof (vsize_nonneg pad) as Hp0.
  pose proof (vsize_nonneg mid) as Hm0.
  assert (HT : vsize T = 12) by (unfold T, vsize; rewrite length_drop; unfold vsize in *; lia).
  assert (Hin : vsize (head ++ framed_zip zip ++ T) = vsize vec)
    by (rewrite !vsize_app, framed_zip_size; lia).
  assert (Hlt : vsize (head ++ framed_zip zip ++ T) < 2 ^ 63)
    by (unfold MAX_FILE_SIZE in Hmax; lia).
  assert (Hge : 0 <= vsize head + 4) by lia.
  pose proof (Fix_Zip_Offset_frame _ _ _ _ Hlt Hge Hfix) as [_ Hframe].
  set (K := Z.to_nat (vsize head + 20)).
  (* the buffer after the fixer, in five parts *)
  assert (Hpre : take K vec = head ++ be_bytes 4 (vsize zip) ++ IDAT_SIG ++ take 12 zip).
  { transitivity (take K (head ++ framed_zip zip ++ T)).
    - apply take_lookup_eq.
      + subst K. size_lia.
      + subst K. size_lia.
      + intros j Hj. apply Hframe. subst K. size_lia.
    - unfold K. replace (Z.to_nat (vsize head + 20)) with (length head + 20)%nat
        by (unfold vsize; lia).
      rewrite take_app_add'; [| reflexivity]. f_equal.
      unfold framed_zip.
      change (be_bytes 4 (vsize zip) ++ [73; 68; 65; 84] ++ zip ++ [0; 0; 0; 0])
        with ((be_bytes 4 (vsize zip) ++ IDAT_SIG) ++ zip ++ [0; 0; 0; 0]).
      rewrite <- app_assoc.
      change 20%nat with (length (be_bytes 4 (vsize zip) ++ IDAT_SIG) + 12)%nat.
      rewrite take_app_add'; [| reflexivity].
      rewrite <- !app_assoc. do 2 f_equal.
      rewrite take_app_le by size_lia. reflexivity. }
  set (R := drop K vec).
  set (R1 := take (Z.to_nat (vsize zip - 12)) R).
  set (C := take 4 (drop (Z.to_nat (vsize zip - 12)) R)).
  set (tail := drop (Z.to_nat (vsize zip - 8)) R).
  assert (HR : vsize R = vsize zip + 4).
  { unfold R, vsize at 1. rewrite length_drop. subst K. size_lia. }
  assert (HR1 : vsize R1 = vsize zip - 12).
  { unfold R1, vsize at 1. rewrite length_take. size_lia. }
  assert (HC : length C = 4%nat).
  { unfold C. rewrite length_take, length_drop. size_lia. }
  assert (Htail : vsize tail = 12).
  { unfold tail, vsize at 1. rewrite length_drop. size_lia. }
  assert (HRs : R = R1 ++ C ++ tail).
  { unfold R1, C, tail.
    rewrite <- (take_drop (Z.to_nat (vsize zip - 12)) R) at 1. f_equal.
    rewrite <- (take_drop 4 (drop (Z.to_nat (vsize zip - 12)) R)) at 1. f_equal.
    rewrite drop_drop. f_equal. lia. }
  set (zip' := take 12 zip ++ R1).
  assert (Hvec : vec = (head ++ be_bytes 4 (vsize zip)) ++ (IDAT_SIG ++ zip') ++ C ++ tail).
  { rewrite <- (take_drop K vec). fold R. rewrite Hpre, HRs. unfold zip'.
    rewrite <- !app_assoc. reflexivity. }
  assert (Hz' : vsize zip' = vsize zip).
  { unfold zip'. rewrite vsize_app, HR1. unfold vsize at 1. rewrite length_take. size_lia. }
  clearbody R1 C tail. clear HRs HR R Hpre.
  assert (Hcrc : take (Z.to_nat (vsize zip + 4)) (drop (Z.to_nat (vsize head + 4)) vec)
                 = IDAT_SIG ++ zip').
  { rewrite Hvec.
    rewrite drop_app_length' by (rewrite length_app; unfold vsize; simpl; lia).
    apply take_app_length'. rewrite length_app. change (length IDAT_SIG) with 4%nat.
    size_lia. }
  assert (Hout' : out = (head ++ be_bytes 4 (vsize zip) ++ IDAT_SIG ++ zip')
                        ++ be_bytes 4 (png_crc (IDAT_SIG ++ zip')) ++ tail).
  { rewrite Hout, Hcrc, Crc_bytes_png_crc.
    replace (vsize vec - 16) with (vsize (head ++ be_bytes 4 (vsize zip) ++ IDAT_SIG ++ zip')).
    2:{ rewrite !vsize_app. change (vsize (be_bytes 4 _)) with 4.
        change (vsize IDAT_SIG) with 4. lia. }
    rewrite Hvec at 1.
    replace ((head ++ be_bytes 4 (vsize zip)) ++ (IDAT_SIG ++ zip') ++ C ++ tail)
      with ((head ++ be_bytes 4 (vsize zip) ++ IDAT_SIG ++ zip') ++ C ++ tail)
      by (rewrite <- !app_assoc; reflexivity).
    apply overwrite_app_mid. rewrite HC. reflexivity. }
  exists img, zip, (drop 4 body), mid, zip', tail.
  split; [exact Himg |]. split; [exact Hzip |].
  split; [| split; [| split; [| split; [| split; [| split; [| split; [| split]]]]]]].
  - rewrite Hout'. unfold head, encode_chunk at 2. rewrite Hz'.
    rewrite <- !app_assoc. reflexivity.
  - unfold MAX_SCRIPT_SIZE in HmaxS'. lia.
  - unfold script_head. rewrite <- Htake.
    apply list_eq. intros j. rewrite !lookup_take, !lookup_drop, lookup_take.
    destruct (decide (j < 111)%nat) as [Hj | Hj].
    + rewrite decide_True by lia.
      unfold body. rewrite lookup_app_l by (rewrite length_take, length_drop;
                                            unfold vsize in *; lia).
      rewrite lookup_take_lt by (unfold vsize in *; lia).
      rewrite lookup_drop. reflexivity.
    + destruct (decide (8 + j < 119)%nat); [lia | reflexivity].
  - exact Hz'.
  - unfold zip'. rewrite take_app_le by (rewrite length_take; size_lia).
    rewrite take_take. reflexivity.
  - exact Htail.
  - rewrite Hout. rewrite vsize_overwrite; [lia | lia |].
    change (vsize (be_bytes 4 _)) with 4. lia.
  - exact Hpruned.
  - exact Hready.
Qed.

Lemma build_output_layout_witness :
  exists out script zip' tail,
    env_fits sample_env /\
    main sample_argv sample_env = Done (Polyglot_Written out) /\
    sample_png = encode_png sample_png_parts /\ pruner_ready sample_png_parts /\
    out = take 33 sample_png ++ encode_chunk ICCP_SIG script
          ++ encode_chunks (kept_plte sample_png_parts ++ idat_chunks sample_png_parts)
          ++ encode_chunk IDAT_SIG zip' ++ tail /\
    vsize script <= 738 /\ take 111 script = drop 8 script_head /\
    vsize zip' = vsize sample_zip /\ take 12 zip' = take 12 sample_zip /\
    vsize tail = 12 /\
    vsize out <= MAX_FILE_SIZE /\
    exists pruned,
      Erase_Image_Chunks (pruner_state sample_png) = Done pruned /\
      Image_Vec pruned
      = take 33 sample_png
        ++ encode_chunks (kept_plte sample_png_parts ++ idat_chunks sample_png_parts)
        ++ drop (Z.to_nat (vsize sample_png - 12)) sample_png.
Proof.
  eexists.
  destruct (build_output_layout sample_argv sample_env _ sample_env_fits
              ltac:(vm_compute; reflexivity))
    as (img & zip & script & mid & zip' & tail & Himg & Hzip & Hout & Hs & Hh & Hz
        & Hz12 & Ht & Hmax & Hpruned & Hready).
  injection Himg as <-. injection Hzip as <-.
  assert (Hparts : sample_png = encode_png sample_png_parts) by reflexivity.
  rewrite (Hready sample_png_parts Hparts sample_png_ready) in Hout, Hpruned.
  exists script, zip', tail.
  split; [exact sample_env_fits |].
  split; [vm_compute; reflexivity |].
  split; [exact Hparts |]. split; [exact sample_png_ready |].
  split; [exact Hout |].
  repeat (split; [assumption |]). exact Hpruned.
Defined.

Lemma Check_Image_File_signature (pdv : PDV_STRUCT) (img : list Z) (pdv' : PDV_STRUCT) :
  Check_Image_File pdv img = Done pdv' ->
  take 4 img = PNG_TOP_SIG /\ drop (Z.to_nat (vsize img - 8)) img = PNG_END_SIG.
Proof.
  unfold Check_Image_File. intros H.
  bind_as H top Htop. bind_as H bot Hend.
  destruct (bool_decide_reflect (top = PNG_TOP_SIG)) as [-> | Hne]; [| discriminate H].
  destruct (bool_decide_reflect (bot = PNG_END_SIG)) as [-> | Hne]; [| discriminate H].
  apply vrange_Done in Htop. destruct Htop as (_ & _ & Htop).
  apply vrange_Done in Hend. destruct Hend as (Hr & _ & Hend).
  change (vsize PNG_TOP_SIG) with 4 in Htop. change (vsize PNG_END_SIG) with 8 in *.
  split.
  - rewrite Htop. reflexivity.
  - rewrite Hend. symmetry. apply take_ge. rewrite length_drop. unfold vsize in *. lia.
Qed.

Lemma Build_output_opens (pdv : PDV_STRUCT) (env : Environment) (r : Run) :
  Build pdv env = Done r -> output_opens env = true.
Proof.
  unfold Build. intros H.
  bind_inv H. destruct a as [[p1 img] zip]. cbn beta iota in H.
  do 5 bind_inv H.
  unfold Write_Out_Polyglot_File in H.
  destruct (output_opens env); [reflexivity | discriminate H].
Qed.

(** X21.  What the program never does: it writes a file only when it
    was given exactly two arguments that pass validation, both files could
    be opened, the image has more than 68 bytes and the archive more than
    40, together not more than 209715200, the image begins with 89 50 4E 47
    and ends with the eight bytes 49 45 4E 44 AE 42 60 82, its bytes 19 to
    32 hold none of the seven script-breaking characters, its colour type
    and dimensions pass the check, the archive begins with 50 4B 03 04 and
    byte 26 of the archive is at least 4, and the output file could be
    opened. *)
Theorem main_writes_only_checked_input (argv : list (list Z)) (env : Environment)
    (out : list Z) :
  env_fits env ->
  main argv env = Done (Polyglot_Written out) ->
  exists prog png_name archive_name img zip,
    argv = [prog; png_name; archive_name] /\
    validate_arguments png_name archive_name = None /\
    image_file env = Some img /\ zip_file env = Some zip /\
    68 < vsize img /\ 40 < vsize zip /\ vsize img + vsize zip <= MAX_FILE_SIZE /\
    take 4 img = PNG_TOP_SIG /\ drop (Z.to_nat (vsize img - 8)) img = PNG_END_SIG /\
    (forall j : nat, (19 <= j <= 32)%nat ->
       exists b, img !! j = Some b /\ is_bad_char b = false) /\
    Check_Image_Dims img = Done tt /\
    take 4 zip = ZIP_SIG /\
    (exists b, zip !! 26%nat = Some b /\ 4 <= b) /\
    output_opens env = true.
Proof.
  intros Hfits Hmain.
  apply main_Done in Hmain. destruct Hmain as (a0 & a1 & a2 & Hargv & Hval & Hbuild).
  pose proof (Build_output_opens _ _ _ Hbuild) as Hopens.
  exists a0, a1, a2.
  destruct Hfits as (Hfi & Hfz & _ & _). unfold fits in *.
  unfold Build in Hbuild.
  bind_as Hbuild r Hopen. destruct r as [[p1 img] zip]. cbn beta iota in Hbuild.
  apply Open_Files_Done in Hopen. destruct Hopen as (Himg & Hzip & Hchk & Hbe1).
  pose proof (Hfi _ Himg) as Hi56. pose proof (Hfz _ Hzip) as Hz56.
  pose proof (vsize_nonneg img) as Hi0. pose proof (vsize_nonneg zip) as Hz0.
  apply file_size_check_bounds in Hchk; [| lia | lia].
  destruct Hchk as (Hi68 & Hz40 & Htot).
  bind_as Hbuild p2 Hcheck. bind_as Hbuild p3 Herase. bind_as Hbuild p4 Hzipf.
  clear Hbuild.
  pose proof (Check_Image_File_signature _ _ _ Hcheck) as (Htop & Hend).
  pose proof (Check_Image_File_Done _ _ _ Hcheck) as (_ & _ & Hbe2 & Hbad & Hdims).
  pose proof (Erase_Image_Chunks_Done _ _ Herase) as Her. cbn zeta in Her.
  destruct Her as (_ & _ & _ & Hbe3).
  assert (Hbe3' : big_endian p3 = true).
  { rewrite Hbe3, Hbe2, Hbe1. reflexivity. }
  assert (Hz63 : vsize zip < 2 ^ 63) by lia.
  pose proof (Check_Zip_File_Done _ _ _ Hbe3' Hz63 Hzipf)
    as (_ & _ & _ & _ & _ & Hsig & (len & Hlen & Hlen4)).
  exists img, zip.
  repeat (split; [assumption |]).
  split; [| split; [exact Hdims | split; [exact Hsig | split; [| exact Hopens]]]].
  - intros j Hj. destruct (Hbad (Z.of_nat j) ltac:(lia)) as (b & Hb & Hnb).
    apply vget_Done in Hb. destruct Hb as (_ & Hb). rewrite Nat2Z.id in Hb.
    exists b. auto.
  - exists len. split; [| exact Hlen4].
    apply vget_Done in Hlen. destruct Hlen as (_ & Hl).
    unfold framed_zip in Hl.
    change (be_bytes 4 (vsize zip) ++ [73; 68; 65; 84] ++ zip ++ [0; 0; 0; 0])
      with ((be_bytes 4 (vsize zip) ++ [73; 68; 65; 84]) ++ zip ++ [0; 0; 0; 0]) in Hl.
    rewrite lookup_app_r in Hl by (simpl; lia).
    rewrite lookup_app_l in Hl by (unfold vsize in *; simpl; lia).
    exact Hl.
Qed.

Lemma main_writes_only_checked_input_witness :
  exists out prog png_name archive_name img zip,
    env_fits sample_env /\
    main sample_argv sample_env = Done (Polyglot_Written out) /\
    sample_argv = [prog; png_name; archive_name] /\
    validate_arguments png_name archive_name = None /\
    image_file sample_env = Some img /\ zip_file sample_env = Some zip /\
    68 < vsize img /\ 40 < vsize zip /\ vsize img + vsize zip <= MAX_FILE_SIZE /\
    take 4 img = PNG_TOP_SIG /\ drop (Z.to_nat (vsize img - 8)) img = PNG_END_SIG /\
    (forall j : nat, (19 <= j <= 32)%nat ->
       exists b, img !! j = Some b /\ is_bad_char b = false) /\
    Check_Image_Dims img = Done tt /\
    take 4 zip = ZIP_SIG /\
    (exists b, zip !! 26%nat = Some b /\ 4 <= b) /\
    output_opens sample_env = true.
Proof.
  eexists.
  destruct (main_writes_only_checked_input sample_argv sample_env _ sample_env_fits
              ltac:(vm_compute; reflexivity))
    as (prog & png_name & archive_name & img & zip & H).
  exists prog, png_name, archive_name, img, zip.
  split; [exact sample_env_fits |].
  split; [vm_compute; reflexivity |].
  exact H.
Defined.


(** ** Fix_Zip_Offset: archives without a central directory *)

(** The fixer prints no diagnostic: none of its steps exits. *)
Lemma bind_no_exit {A B : Type} (m : outcome A) (k : A -> outcome B) :
  (forall d, m <> Exit d) -> (forall a d, k a <> Exit d) ->
  forall d, (m ≫= k) <> Exit d.
Proof.
  intros Hm Hk d. destruct m as [a | d' |]; cbn [mbind outcome_bind].
  - apply Hk.
  - exfalso. exact (Hm d' eq_refl).
  - discriminate.
Qed.

Lemma vget_no_exit (vec : list Z) (i : Z) (d : Diagnostic) : vget vec i <> Exit d.
Proof.
  unfold vget. destruct ((0 <=? i) && (i <? vsize vec)); [| discriminate].
  destruct (vec !! Z.to_nat i); discriminate.
Qed.

Lemma search_no_exit (vec : list Z) (from : Z) (sig : list Z) (d : Diagnostic) :
  search vec from sig <> Exit d.
Proof. unfold search. destruct ((0 <=? from) && (from <=? vsize vec)); discriminate. Qed.

Lemma Value_Updater_no_exit (vec : list Z) (i v bits : Z) (big : bool) (d : Diagnostic) :
  Value_Updater vec i v bits big <> Exit d.
Proof.
  unfold Value_Updater. generalize (Z.to_nat bits) as fuel. intros fuel.
  revert vec i bits d. induction fuel as [| fuel IH]; intros vec i bits d.
  - cbn [Value_Updater_loop]. destruct (bits =? 0); discriminate.
  - cbn [Value_Updater_loop]. destruct (bits =? 0); [discriminate |].
    cbn zeta. destruct (bits - 8 <? 0); [discriminate |].
    apply bind_no_exit.
    + intros d'. unfold vset. destruct ((0 <=? i) && (i <? vsize vec)); discriminate.
    + intros vec' d'. apply IH.
Qed.

Lemma Fix_Records_loop_no_exit (n : nat) : forall (vec : list Z) (o c : Z)
    (calls : list (Z * Z)) (d : Diagnostic),
  Fix_Records_loop n vec o c calls <> Exit d.
Proof.
  induction n as [| n IH]; intros vec o c calls d; [discriminate |].
  cbn [Fix_Records_loop].
  apply bind_no_exit; [intros d'; apply search_no_exit |]. intros o' d1.
  apply bind_no_exit; [intros d'; apply search_no_exit |]. intros f d2.
  cbn zeta.
  apply bind_no_exit; [intros d'; apply Value_Updater_no_exit |]. intros vec' d3.
  apply IH.
Qed.

Lemma Fix_Zip_Offset_no_exit (vec : list Z) (I : Z) (d : Diagnostic) :
  Fix_Zip_Offset vec I <> Exit d.
Proof.
  unfold Fix_Zip_Offset.
  apply bind_no_exit.
  - unfold Fix_Zip_Entries. apply bind_no_exit.
    + unfold Locate_Central_Dir.
      apply bind_no_exit; [intros d'; apply search_no_exit |]. intros s d1.
      apply bind_no_exit; [intros d'; apply search_no_exit |]. intros e d2.
      cbn zeta.
      apply bind_no_exit; [intros d'; apply vget_no_exit |]. intros hi d3.
      apply bind_no_exit; [intros d'; apply vget_no_exit |]. intros lo d4.
      discriminate.
    + intros lay d1. cbn zeta.
      apply bind_no_exit; [intros d'; apply Fix_Records_loop_no_exit |].
      intros [vec0 calls] d2.
      apply bind_no_exit; [intros d'; apply Value_Updater_no_exit |]. intros vec1 d3.
      discriminate.
  - intros [[vec1 lay] calls] d1.
    apply bind_no_exit.
    + intros d'. unfold Fix_Zip_Comment. cbn zeta.
      apply bind_no_exit; [intros d''; apply vget_no_exit |]. intros hi d3.
      apply bind_no_exit; [intros d''; apply vget_no_exit |]. intros lo d4.
      apply Value_Updater_no_exit.
    + intros vec2 d2. discriminate.
Qed.

(** What a run of the fixer that returns has found. *)
Lemma Fix_Zip_Offset_found (vec : list Z) (I : Z) (vec' : list Z) (calls : list (Z * Z)) :
  vsize vec < 2 ^ 63 -> 0 <= I ->
  Fix_Zip_Offset vec I = Done (vec', calls) ->
  exists START END,
    first_at vec I START_CENTRAL_DIR_SIG START /\
    first_at vec START END_CENTRAL_DIR_SIG END /\
    END + 22 <= vsize vec /\
    vsize vec' = vsize vec /\
    read_le vec' (END + 16) 4 = Done (START mod 2 ^ 32).
Proof.
  intros Hsz HI H.
  pose proof (Fix_Zip_Offset_frame _ _ _ _ Hsz HI H) as (Hsize & _).
  unfold Fix_Zip_Offset in H.
  bind_inv H. destruct a as [[vec1 lay] calls1]. cbn beta iota in H.
  bind_inv H. rename a into vec2. injection H as <- <-.
  rename Hstep into Hent. rename Hstep0 into Hcom.
  apply Fix_Zip_Entries_Done in Hent; [| exact Hsz].
  destruct Hent as (vec0 & Hloc & Hloop & Hend & ->).
  pose proof (Locate_Central_Dir_Done _ _ _ Hsz Hloc) as (hi & lo & Hs & He & Hhi & _).
  set (START := START_CENTRAL_DIR_INDEX lay) in *.
  set (END := END_CENTRAL_DIR_INDEX lay) in *.
  pose proof (search_Done _ _ _ _ Hs) as (Hs0 & Hs1 & _).
  pose proof (search_Done _ _ _ _ He) as (He0 & He1 & _).
  assert (Hsz0 : vsize vec0 = vsize vec).
  { destruct (Z.lt_ge_cases START 1) as [Hlt | Hge].
    - assert (HS0 : START = 0) by lia.
      destruct (Z.to_nat (zip_records lay)) as [| n] eqn:Hn.
      + injection Hloop as <- _. reflexivity.
      + apply Fix_Records_loop_step in Hloop; [| exact Hsz].
        destruct Hloop as (o' & f & _ & Hf & Hf45 & _).
        apply search_Done in Hf. destruct Hf as (Hf & _).
        rewrite HS0 in Hf. unfold size_t in Hf.
        change ((0 - 1) mod 2 ^ 64) with (2 ^ 64 - 1) in Hf. lia.
    - rewrite size_t_small in Hloop by lia.
      apply Fix_Records_loop_frame in Hloop; [| exact Hsz | lia].
      destruct Hloop as (Hl & _). exact Hl. }
  assert (Hsz1 : vsize (overwrite vec0 (END + 16) (le_bytes 4 START)) = vsize vec).
  { rewrite vsize_overwrite; [exact Hsz0 | lia |].
    change (vsize (le_bytes 4 START)) with 4. lia. }
  apply Fix_Zip_Comment_Done in Hcom; [| rewrite Hsz1; exact Hsz | rewrite Hsz1; lia].
  destruct Hcom as (h & l & Hh & _ & ->).
  apply vget_Done in Hh. destruct Hh as (Hh & _). rewrite Hsz1 in Hh.
  exists START, END.
  split; [apply search_first_at; [exact Hs | lia] |].
  split; [apply search_first_at; [exact He | lia] |].
  split; [lia |]. split; [exact Hsize |].
  pose proof (read_le_overwrite_4 vec0 (END + 16) START ltac:(lia) ltac:(lia)) as Hrd.
  revert Hrd. apply read_le_agree.
  - rewrite vsize_overwrite; [reflexivity | lia |].
    change (vsize (le_bytes 2 _)) with 2. lia.
  - intros j Hj. apply overwrite_lookup_out; [lia | | lia].
    change (vsize (le_bytes 2 _)) with 2. lia.
Qed.

(** X22.  The fixer has no diagnostic of its own.  On a buffer in which
    no central-directory signature 50 4B 01 02 stands at or after the start
    index, or no end-of-central-directory signature 50 4B 05 06 at or after
    the first of them, or in which fewer than 22 bytes follow the start of
    that end record, it reads or writes beyond the end of the buffer: an
    archive without central directory is not refused. *)
Theorem Fix_Zip_Offset_needs_central_directory (vec : list Z) (I : Z) :
  vsize vec < 2 ^ 63 -> 0 <= I ->
  ~ (exists START END,
       first_at vec I START_CENTRAL_DIR_SIG START /\
       first_at vec START END_CENTRAL_DIR_SIG END /\
       END + 22 <= vsize vec) ->
  Fix_Zip_Offset vec I = Undefined.
Proof.
  intros Hsz HI Hnot.
  destruct (Fix_Zip_Offset vec I) as [[vec' calls] | d |] eqn:H.
  - exfalso. apply Hnot.
    destruct (Fix_Zip_Offset_found vec I vec' calls Hsz HI H)
      as (START & END & Hs & He & Hend & _).
    exists START, END. auto.
  - exfalso. exact (Fix_Zip_Offset_no_exit vec I d H).
  - reflexivity.
Qed.

(** A local file header with nothing after it. *)
Lemma Fix_Zip_Offset_needs_central_directory_witness :
  Fix_Zip_Offset (zip_local (str "a.txt") (str "data")) 0 = Undefined.
Proof.
  apply (Fix_Zip_Offset_needs_central_directory (zip_local (str "a.txt") (str "data")) 0).
  - vm_compute. reflexivity.
  - lia.
  - intros (START & END & (_ & Hocc & _) & _).
    apply occurs_occurrences in Hocc; [| discriminate].
    vm_compute in Hocc. destruct Hocc.
Defined.

(** X23.  What every run of the fixer that returns has done, whatever
    the archive holds: the buffer keeps its size; the bytes before index
    [IDAT_ZIP_INDEX + 16] are unchanged; a central-directory signature and,
    at or after it, a complete end record were found; and the four bytes at
    offset 16 of that end record hold, least significant byte first, the
    index in the buffer of the first central-directory signature at or
    after the start index. *)
Theorem Fix_Zip_Offset_postcondition (vec : list Z) (I : Z) (vec' : list Z)
    (calls : list (Z * Z)) :
  vsize vec < 2 ^ 32 -> 0 <= I ->
  Fix_Zip_Offset vec I = Done (vec', calls) ->
  vsize vec' = vsize vec /\
  (forall j : nat, (j < Z.to_nat (I + 16))%nat -> vec' !! j = vec !! j) /\
  exists START END,
    first_at vec I START_CENTRAL_DIR_SIG START /\
    first_at vec START END_CENTRAL_DIR_SIG END /\
    END + 22 <= vsize vec /\
    read_le vec' (END + 16) 4 = Done START.
Proof.
  intros Hsz HI H.
  assert (Hsz' : vsize vec < 2 ^ 63) by lia.
  pose proof (Fix_Zip_Offset_frame _ _ _ _ Hsz' HI H) as (Hsize & Hframe).
  destruct (Fix_Zip_Offset_found vec I vec' calls Hsz' HI H)
    as (START & END & Hs & He & Hend & _ & Hrd).
  split; [exact Hsize |]. split; [exact Hframe |].
  exists START, END. repeat (split; [assumption |]).
  rewrite Hrd. f_equal. apply Z.mod_small.
  destruct Hs as (Hs & Hocc & _).
  assert (Hne : START_CENTRAL_DIR_SIG <> []) by discriminate.
  pose proof (occurs_lt _ _ _ Hne Hocc) as Hlt.
  change (vsize START_CENTRAL_DIR_SIG) with 4 in Hlt. lia.
Qed.

(** The archive of the sample run, framed as [Check_Zip_File] leaves
    it, fixed from index 4. *)
Lemma Fix_Zip_Offset_postcondition_witness :
  exists vec' calls,
    Fix_Zip_Offset (framed_zip sample_zip) 4 = Done (vec', calls) /\
    vsize vec' = vsize (framed_zip sample_zip) /\
    (forall j : nat, (j < Z.to_nat (4 + 16))%nat -> vec' !! j = framed_zip sample_zip !! j) /\
    exists START END,
      first_at (framed_zip sample_zip) 4 START_CENTRAL_DIR_SIG START /\
      first_at (framed_zip sample_zip) START END_CENTRAL_DIR_SIG END /\
      END + 22 <= vsize (framed_zip sample_zip) /\
      read_le vec' (END + 16) 4 = Done START.
Proof.
  eexists. eexists. split; [vm_compute; reflexivity |].
  eapply (Fix_Zip_Offset_postcondition (framed_zip sample_zip) 4).
  - vm_compute. reflexivity.
  - lia.
  - vm_compute. reflexivity.
Defined.


(** ** Complete_Extraction_Script: the length field, the padding and the limits *)

(** X24.  What [Finish_Script] does with a composed script of [s] bytes.
    When the low byte of [s - 12], the chunk length, is one of the seven
    script-breaking characters, ten dots are inserted before the last four
    bytes.  A script then longer than 750 bytes is refused, and so is a
    script that with the image and the framed archive exceeds 209715200
    bytes.  Otherwise bytes 2 and 3 receive the chunk length, the last
    four bytes the PNG CRC of everything between the length field and
    them, and nothing else changes. *)
Theorem Finish_Script_outcome (pdv : PDV_STRUCT) (S0 : list Z) :
  big_endian pdv = true ->
  12 <= vsize S0 < 2 ^ 62 ->
  vsize (Image_Vec pdv) < 2 ^ 62 -> vsize (Zip_Vec pdv) < 2 ^ 62 ->
  let pad := if is_bad_char ((vsize S0 - 12) mod 256) then INCREASE_LENGTH_STRING else [] in
  let n := vsize S0 + vsize pad in
  let data := take (Z.to_nat (vsize S0 - 8)) (drop 4 S0) ++ pad in
  Finish_Script pdv S0 =
  if n >? 750 then Exit File_Size_Error_Script_Exceeds_Limit
  else if n + vsize (Image_Vec pdv) + vsize (Zip_Vec pdv) >? 209715200
  then Exit File_Size_Error_Total_Exceeds_Limit
  else
    Done (mkPDV (Image_Vec pdv) (Zip_Vec pdv)
            (take 2 S0 ++ be_bytes 2 (n - 12) ++ data ++ be_bytes 4 (png_crc data))
            (image_name pdv) (zip_name pdv) (image_size pdv) (zip_size pdv)
            n (n + vsize (Image_Vec pdv) + vsize (Zip_Vec pdv)) true).
Proof.
  intros Hbe Hn Himg Hzip. cbv zeta.
  set (s := vsize S0) in *.
  pose proof (vsize_nonneg (Image_Vec pdv)) as Hi0.
  pose proof (vsize_nonneg (Zip_Vec pdv)) as Hz0.
  set (h := take 2 S0). set (l := take 2 (drop 2 S0)).
  set (m := take (Z.to_nat (s - 8)) (drop 4 S0)).
  set (t := drop (Z.to_nat (s - 4)) S0).
  assert (HS0 : S0 = h ++ l ++ m ++ t).
  { unfold h, l, m, t.
    rewrite <- (take_drop 2 S0) at 1. f_equal.
    rewrite <- (take_drop 2 (drop 2 S0)) at 1. f_equal.
    rewrite drop_drop. change (2 + 2)%nat with 4%nat.
    rewrite <- (take_drop (Z.to_nat (s - 8)) (drop 4 S0)) at 1. f_equal.
    rewrite drop_drop. f_equal. lia. }
  assert (Hh : length h = 2%nat) by (unfold h; rewrite length_take; unfold s, vsize in Hn; lia).
  assert (Hl : length l = 2%nat)
    by (unfold l; rewrite length_take, length_drop; unfold s, vsize in Hn; lia).
  assert (Hm : length m = Z.to_nat (s - 8))
    by (unfold m; rewrite length_take, length_drop; unfold s, vsize in Hn |- *; lia).
  assert (Ht : length t = 4%nat)
    by (unfold t; rewrite length_drop; unfold s, vsize in Hn |- *; lia).
  clearbody h l m t.
  unfold Finish_Script. rewrite Hbe. fold s.
  rewrite (size_t_small (s - 12)) by lia.
  rewrite Value_Updater_be16 by (fold s; lia).
  fold s.
  replace (2 + 2 <=? s) with true by (symmetry; apply Z.leb_le; lia).
  cbn [mbind outcome_bind].
  assert (HS1 : overwrite S0 2 (be_bytes 2 (s - 12)) = h ++ be_bytes 2 (s - 12) ++ m ++ t).
  { rewrite HS0. replace 2 with (vsize h) at 1 by (unfold vsize; lia).
    apply overwrite_app_mid. rewrite Hl. reflexivity. }
  rewrite HS1.
  assert (Hb3 : vget (h ++ be_bytes 2 (s - 12) ++ m ++ t) 3 = Done ((s - 12) mod 256)).
  { apply vget_Done. unfold vsize. rewrite !length_app, Hh, Hm, Ht.
    change (length (be_bytes 2 (s - 12))) with 2%nat.
    split; [lia |]. rewrite lookup_app_r by lia. rewrite Hh.
    change (Z.to_nat 3 - 2)%nat with 1%nat.
    rewrite lookup_app_l by (simpl; lia). apply be_bytes_2_low. }
  rewrite Hb3. cbn [mbind outcome_bind].
  assert (Hsz1 : vsize (h ++ be_bytes 2 (s - 12) ++ m ++ t) = s).
  { unfold vsize. rewrite !length_app, Hh, Hm, Ht.
    change (length (be_bytes 2 (s - 12))) with 2%nat. lia. }
  match goal with |- (_ ≫= ?k) = _ => set (K := k) end.
  assert (Hfin : forall (S3 : list Z) (pad : list Z),
    S3 = h ++ be_bytes 2 (s + vsize pad - 12) ++ (m ++ pad) ++ t ->
    vsize pad <= 10 ->
    K (S3, s + vsize pad) =
    if s + vsize pad >? 750 then Exit File_Size_Error_Script_Exceeds_Limit
    else if s + vsize pad + vsize (Image_Vec pdv) + vsize (Zip_Vec pdv) >? 209715200
    then Exit File_Size_Error_Total_Exceeds_Limit
    else
      Done (mkPDV (Image_Vec pdv) (Zip_Vec pdv)
              (h ++ be_bytes 2 (s + vsize pad - 12) ++ (m ++ pad)
               ++ be_bytes 4 (png_crc (m ++ pad)))
              (image_name pdv) (zip_name pdv) (image_size pdv) (zip_size pdv)
              (s + vsize pad)
              (s + vsize pad + vsize (Image_Vec pdv) + vsize (Zip_Vec pdv)) true)).
  { intros S3 pad HS3 Hpad. subst K. cbv beta iota.
    pose proof (vsize_nonneg pad) as Hp0.
    assert (HszS3 : vsize S3 = s + vsize pad).
    { rewrite HS3. unfold vsize. rewrite !length_app, Hh, Hm, Ht.
      change (length (be_bytes 2 _)) with 2%nat. lia. }
    rewrite HszS3.
    rewrite (size_t_small (s + vsize pad + vsize (Image_Vec pdv))) by lia.
    rewrite (size_t_small (s + vsize pad + vsize (Image_Vec pdv) + vsize (Zip_Vec pdv)))
      by lia.
    unfold MAX_SCRIPT_SIZE, MAX_FILE_SIZE.
    destruct (s + vsize pad >? 750) eqn:Hs; [reflexivity |].
    destruct (s + vsize pad + vsize (Image_Vec pdv) + vsize (Zip_Vec pdv) >? 209715200)
      eqn:Hc; [reflexivity |].
    cbn [orb].
    rewrite Z.gtb_ltb in Hs, Hc. apply Z.ltb_ge in Hs, Hc.
    rewrite (size_t_small (s + vsize pad - 8)) by lia.
    rewrite (size_t_small (s + vsize pad - 4)) by lia.
    assert (Hcrc : Crc S3 ICCP_CHUNK_INDEX (s + vsize pad - 8) = Done (Crc_bytes (m ++ pad))).
    { rewrite HS3.
      replace (h ++ be_bytes 2 (s + vsize pad - 12) ++ (m ++ pad) ++ t)
        with ((h ++ be_bytes 2 (s + vsize pad - 12)) ++ (m ++ pad) ++ t)
        by (rewrite <- app_assoc; reflexivity).
      replace ICCP_CHUNK_INDEX with (vsize (h ++ be_bytes 2 (s + vsize pad - 12)))
        by (unfold vsize; rewrite length_app, Hh; reflexivity).
      replace (s + vsize pad - 8) with (vsize (m ++ pad))
        by (unfold vsize; rewrite length_app, Hm; unfold vsize in Hp0; lia).
      apply Crc_app_mid.
      intros Hnil. apply (f_equal (@length Z)) in Hnil.
      rewrite length_app, Hm in Hnil. simpl in Hnil. lia. }
    rewrite Hcrc. cbn [mbind outcome_bind].
    rewrite Value_Updater_be32 by (rewrite ?HszS3; lia).
    rewrite HszS3.
    replace (s + vsize pad - 4 + 4 <=? s + vsize pad) with true
      by (symmetry; apply Z.leb_le; lia).
    cbn [mbind outcome_bind]. do 2 f_equal.
    rewrite HS3, Crc_bytes_png_crc.
    replace (h ++ be_bytes 2 (s + vsize pad - 12) ++ (m ++ pad) ++ t)
      with ((h ++ be_bytes 2 (s + vsize pad - 12) ++ (m ++ pad)) ++ t ++ [])
      by (rewrite app_nil_r, <- !app_assoc; reflexivity).
    replace (s + vsize pad - 4)
      with (vsize (h ++ be_bytes 2 (s + vsize pad - 12) ++ (m ++ pad))).
    2:{ unfold vsize. rewrite !length_app, Hh, Hm.
        change (length (be_bytes 2 _)) with 2%nat. unfold vsize in Hp0. lia. }
    rewrite overwrite_app_mid by (rewrite Ht; reflexivity).
    rewrite app_nil_r, <- !app_assoc. reflexivity. }
  clearbody K.
  destruct (is_bad_char ((s - 12) mod 256)) eqn:Hbad.
  - assert (Hins : vinsert (h ++ be_bytes 2 (s - 12) ++ m ++ t) (s - 4) INCREASE_LENGTH_STRING
                   = Done ((h ++ be_bytes 2 (s - 12) ++ m) ++ INCREASE_LENGTH_STRING ++ t)).
    { replace (h ++ be_bytes 2 (s - 12) ++ m ++ t)
        with ((h ++ be_bytes 2 (s - 12) ++ m) ++ t) by (rewrite <- !app_assoc; reflexivity).
      replace (s - 4) with (vsize (h ++ be_bytes 2 (s - 12) ++ m)).
      2:{ unfold vsize. rewrite !length_app, Hh, Hm.
          change (length (be_bytes 2 _)) with 2%nat. lia. }
      apply vinsert_app. }
    rewrite Hins. cbn [mbind outcome_bind].
    set (S2 := (h ++ be_bytes 2 (s - 12) ++ m) ++ INCREASE_LENGTH_STRING ++ t) in *.
    assert (HszS2 : vsize S2 = s + 10).
    { unfold S2, vsize. rewrite !length_app, Hh, Hm, Ht.
      change (length (be_bytes 2 _)) with 2%nat.
      change (length INCREASE_LENGTH_STRING) with 10%nat. lia. }
    rewrite HszS2.
    rewrite (size_t_small (s + 10 - 12)) by lia.
    rewrite Value_Updater_be16 by (rewrite ?HszS2; lia).
    rewrite HszS2.
    replace (2 + 2 <=? s + 10) with true by (symmetry; apply Z.leb_le; lia).
    cbn [mbind outcome_bind].
    assert (HS3 : overwrite S2 2 (be_bytes 2 (s + 10 - 12))
                  = h ++ be_bytes 2 (s + vsize INCREASE_LENGTH_STRING - 12)
                    ++ (m ++ INCREASE_LENGTH_STRING) ++ t).
    { unfold S2. rewrite <- !app_assoc.
      replace 2 with (vsize h) at 1 by (unfold vsize; lia).
      rewrite overwrite_app_mid by reflexivity. reflexivity. }
    rewrite HS3.
    change (s + 10) with (s + vsize INCREASE_LENGTH_STRING).
    rewrite (Hfin _ INCREASE_LENGTH_STRING eq_refl) by (vm_compute; discriminate).
    reflexivity.
  - cbn [mbind outcome_bind].
    pose proof (Hfin (h ++ be_bytes 2 (s + vsize [] - 12) ++ (m ++ []) ++ t) [] eq_refl)
      as Hf.
    change (vsize []) with 0 in Hf. rewrite !Z.add_0_r, !app_nil_r in Hf.
    change (vsize []) with 0. rewrite !Z.add_0_r, !app_nil_r.
    apply Hf. lia.
Qed.

(** The script composed for an archive that holds [a.pdf] has 302
    bytes, and 290 has the low byte 0x22: the script is padded to 312
    bytes. *)
Lemma Finish_Script_outcome_witness :
  exists pdv',
    is_bad_char ((302 - 12) mod 256) = true /\
    vsize (compose_script (str "evince " ++ quoted (str "a.pdf"))
             (str "start /b " ++ quoted [] ++ str " " ++ quoted (str "a.pdf")) []) = 302 /\
    Finish_Script pdv_init
      (compose_script (str "evince " ++ quoted (str "a.pdf"))
         (str "start /b " ++ quoted [] ++ str " " ++ quoted (str "a.pdf")) []) = Done pdv' /\
    script_size pdv' = 312 /\
    take 10 (drop 298 (Script_Vec pdv')) = INCREASE_LENGTH_STRING.
Proof.
  eexists. split; [reflexivity |]. split; [reflexivity |].
  split.
  - rewrite (Finish_Script_outcome pdv_init
               (compose_script (str "evince " ++ quoted (str "a.pdf"))
                  (str "start /b " ++ quoted [] ++ str " " ++ quoted (str "a.pdf")) [])).
    + vm_compute. reflexivity.
    + reflexivity.
    + vm_compute. split; [discriminate | reflexivity].
    + vm_compute. reflexivity.
    + vm_compute. reflexivity.
  - split; vm_compute; reflexivity.
Defined.
